(* ===== verification/_CoqProject ===== *)
-Q . S2P
Prelude.v
Doubles.v
Rounding.v
Bytes.v
Rpc.v
RangeMap.v
Topology.v
Text.v
Transport.v
RdmaSetup.v
CacheModel.v
Snapshot.v
EndNode.v
EndMain.v
Segmentation.v
BPage.v
BPlus.v
Slots.v
Interleave.v
Locks.v
BlockLock.v
ThreadPool.v
LeafNode.v
BPlusTree.v
BPlusInsert.v
BPlusMap.v
InnerNode.v
Routing.v
InnerTree.v
InnerWalk.v
InnerUpsert.v
Relock.v
PlinIndex.v
Levels.v
SplitLevels.v
BulkLoad.v
IndexMap.v
Rebuild.v
LeafSplit.v
SplitSteps.v
SplitMap.v
EdgeServer.v
Wire.v
CloudServer.v
CloudLstm.v
Loopback.v
Workload.v
HotKeys.v
LegacyServer.v
System.v
