(* ===== verification/Prelude.v ===== *)
(** * Verification of the PLIN Cloud-Edge-Device learned index

    The program keeps a table of keys ([double]) and payloads (64 bit) on three tiers.
    A Cloud ([cloud/cloud_server.cpp]) counts a recorded workload, predicts which End
    will be busy and pushes hot keys to it; an Edge ([edge/edge_server.cpp]) keeps the
    keys of its Ends in a learned index ([core/index]) and pushes the parameters of the
    index's model to them; an End ([end/end_node.cpp]) answers lookups from its own B+
    tree, a cache of hot keys, its siblings' Edge (by a one-sided RDMA read or by a
    request) or another Edge through the Cloud.  They exchange framed messages over TCP
    or RDMA ([common]).

    ** Files, in the order they are compiled

    - Prelude: the error monad [res], the state-and-error monads, list lemmas, tactics.
      Doubles, Rounding: the floating-point formats, the order of keys and the rounding
      of one operation; [parameters.h].  Text: the numbers and lines of text files.
    - Bytes, Rpc: memory images ([Codec]) and frames ([common/proto.h], [rpc.h],
      [rpc.cpp]) over a stream socket ([StreamIO]).
    - RangeMap, Topology: [common/range_map.h] and [.cpp], the routing queries and the
      parser of [topology.yaml].
    - Transport, RdmaSetup: [common/transport.h], [.cpp], [rdma_transport.cpp]: the data
      path over the adapter ([Verbs]), and the set-up and clean-up of connections over
      a ledger of live objects.
    - CacheModel, Snapshot: [core/index/cache_model.h], [serialize.h],
      [end/parent_plin_cache.h], [common/rdma_snapshot.h]: the model an End predicts
      with, and the sorted copy of the Edge's rows it reads remotely.
    - EndNode, EndMain: [end/end_node.cpp] and [end/hot_cache.h], the lookup and its
      messages, and [main].
    - Segmentation: [core/index/piecewise_linear_model.h].
    - BPage, BPlus: [core/index/b_plus.h], pages and the tree as a heap of pages.
      BPlusTree, BPlusInsert, BPlusMap: its proof, by a ghost tree.
    - Slots, LeafNode, InnerNode, PlinIndex: [core/index/utils.h], [leaf_node.h],
      [inner_node.h], [plin_index.h], each operation run by one thread.  Routing,
      InnerTree, InnerWalk, InnerUpsert: searches, walks and insertions in a tree of inner
      nodes.  Levels, BulkLoad, IndexMap, Rebuild: the levels over the leaves, what a bulk
      load builds, the loaded index as a map, and what a rebuild keeps.  LeafSplit: the
      leaves a split builds.  Relock, SplitLevels, SplitSteps, SplitMap: the lock bits of
      a slot, the levels around a slot that a split takes the place of, the steps of a
      split, and the index as a map when leaves are split.
    - Interleave, Locks, BlockLock, ThreadPool: threads that interleave at atomic steps;
      the lock words of the index, [spinlock.h], a block with its optimistic readers,
      and [thread_pool.h].
    - EdgeServer, CloudServer: [edge/edge_server.cpp], [cloud/cloud_server.cpp] and
      [cloud_lstm_runner_stub.cpp].  Wire: an End and its Edge on one connection (not
      code: the two processes, each run on its side of the same streams).  CloudLstm: [cloud_lstm_runner.cpp] around the method
      of its module.  Loopback: [common/loopback_test.cpp].  Workload:
      [tools/workload/device_generator.cpp].
    - HotKeys, LegacyServer: [legacy/hot_key.h], [server.cpp], [client.cpp] and
      [lstm_client.cpp]: the archived single server with its log, its map of hot keys and
      the Python process that fills it, and its clients.
    - System: theorems about two processes at once.

    ** How code is translated

    A function that can fail returns [res A]: [UB], a failed [assert], an exception, an
    [exit], or [OutOfFuel].  Objects that the code shares by pointer are in maps by
    address (pages, leaves, inner nodes, transports), so aliasing is as in the code.
    Machine integers are in [Z] with their wrap-around written out ([u32], [u64]);
    [double], [float] and [long double] are executable IEEE-754 formats.  Sockets, the
    verbs library, clocks and random draws are arguments or classes with a concrete
    instance; third-party containers are classes with their documented laws.

    The interfaces: [Codec] (an encoding and its inverse), [StreamIO] (read and write),
    [Transport] (frames and remote reads, what the End and the Edge are written
    against), [Verbs] and [VerbsLaws] (the adapter), [CuckooMap] and [BtreeMap] (the
    hash map and the tree an End uses), [Arith] (the arithmetic of the segmentation),
    [OverflowTree], [OverflowTreeLaws] and [OverflowDataLaws] (what a leaf block asks of a
    B+ tree; implemented by [btree_plus]), [LockLaws] (a one-bit lock word),
    [TextOfDouble] (printing and reading a time), [TopK] (the columns a predictor picks).

    ** What is proved

    - The index: after a bulk load of increasing keys, any upserts and searches answer as
      a finite map does, for at most 2^28 keys ([max_keys]).  [plin_refines_map] asks of
      the loaded index alone that its models stay in range ([reach]) and that no leaf
      fills up ([room]).  [splits_refine_map] lets leaves fill up and be split: every state
      on the way is [calm], that is, its models are in range, no new leaf is an orphan and
      the levels have not been rebuilt.  These conditions are boolean functions of the
      state.  A leaf's slot is put into the levels, or is
      an orphan that the counters report ([upsert_node_inserts]), and a rebuild of the
      levels changes no answer ([rebuild_keeps_answers]).  A split builds leaves that answer as the
      old leaf did, linked between its neighbours, for every key that is the leaf's
      ([split_keeps_contents]).  In any index an upsert is found
      ([upsert_then_find], [leaf_upsert_find]); a new leaf holds its data
      ([new_leaf_finds]); the
      learned search of an inner node is a linear search
      ([find_leaf_node_is_linear_search]); a segmentation covers the keys in order,
      whatever the arithmetic ([make_segmentation_tiles]); the overflow tree is a finite
      map with range queries ([btree_refines_map]); packed words keep their fields.
    - Threads: mutual exclusion and availability of the locks
      ([lock_mutual_exclusion], [lock_available], [smo_writer_excludes],
      [smo_write_available]), the meaning of a block's version
      ([validated_read_is_current]), and the pool ([pool_runs_every_task]).
    - Messages: frames, parameters, snapshots and workload files are read back as they
      were written, under every schedule of short reads; readers end.
    - Connections: [connect_rdma] and [accept] leave no object behind
      ([connect_rdma_ledger], [accept_ledger]), with the exceptions they name.
    - Routing and lookup: [locate_end_correct], the four stages of an End's lookup, the
      answers of the Edge, the relay of the Cloud, and their composition:
      both processes run on one connection ([sibling_lookup_end_to_end], [handshake]), a
      request that the Cloud relays is served by the Edge of the key's range
      ([cross_request_served]); hot positions and hot updates; a round of updates goes to
      the Ends that score best ([predicted_ends_updated]); the runs
      of an End without its Edge and of the workload tool; the loopback test passes
      ([loopback_passes]).
    - The archived server: a client and a server with a loaded index run a workload
      through ([run_client_succeeds]); the log is counted as its lines say
      ([log_is_counted]) and the answer of the predictor fills the map of hot keys
      ([devices_message_heats]); the model is never retrained ([never_retrains_all]) and
      the requests of lstm_client.cpp are undefined ([lstm_request_undefined]).
    - What does not hold is stated as such: closed runs and theorems that reach
      undefined behaviour, a lost update or a torn pair
      ([descending_then_delete_undefined], [bound_upsert_is_invisible],
      [version_change_tears_a_pair], [accept_drops_request], [late_completion_is_taken]
      and others).

    ** Fuel and bounds

    Structural recursion is used where the code's loop has a bound.  A chase of pointers
    gets one unit per object of the heap, which is enough because a path visits each
    object once (the proofs of the B+ tree show it).  [poll_fuel] is the number of
    rounds a timeout allows.  A loop that waits for another process or thread gets the
    fuel its caller chooses; the theorems about it give the amount that is enough.  The
    retries of [PlinIndex] are such loops: alone, a thread needs one unit, also when its
    upsert splits a leaf ([plin_refines_map] and [splits_refine_map] hold for every
    positive fuel).

    ** Not modelled

    The inference in libtorch and the loading of its modules (the method of the Cloud's
    module is an argument; the End's runner only loads a module); the flushes (without a
    crash they do not change the state); [pmallocator.h], [fast&fair.h] and
    [legacy/lstm_server.cpp], which are commented out; the comparison harness (not
    included by the programs); the log files of a split; the stub
    [core/index/hot_key.h]; the generators of random data of [legacy]; [hot_lstm], the
    scripts and the vendored libraries.  Memory is sequentially consistent.  The split of
    a leaf runs in the thread that filled it.  Not proved: that an index with orphans, or
    one whose levels a split has rebuilt, keeps the map for all later operations
    ([splits_refine_map] ends there; [rebuild_keeps_answers] is about the rebuild alone). *)

From stdpp Require Export base option list list_numbers gmap sets strings.
From Stdlib Require Export ZArith Lia.
From Stdlib Require Import Sorting.Sorted.

Open Scope Z_scope.

(** ** The error monad

    A C++ function of the model either returns or ends in a [fault]: undefined
    behaviour (an access outside an object, a missing [return]), a failed
    [assert], a call of [exit], a thrown exception, or a loop that used up the
    fuel the model gave it. *)

Inductive fault : Type :=
| UB
| AssertFailed
| ExitCalled
| Thrown
| OutOfFuel.

Inductive res (A : Type) : Type :=
| Ok (a : A)
| Err (f : fault).
Arguments Ok {A} a.
Arguments Err {A} f.

#[export] Instance fault_eq_dec : EqDecision fault.
Proof. solve_decision. Defined.

#[export] Instance res_eq_dec {A} `{EqDecision A} : EqDecision (res A).
Proof. solve_decision. Defined.

#[export] Instance res_ret : MRet res := fun A a => Ok a.
#[export] Instance res_bind : MBind res := fun A B f m =>
  match m with Ok a => f a | Err e => Err e end.
#[export] Instance res_fmap : FMap res := fun A B f m =>
  match m with Ok a => Ok (f a) | Err e => Err e end.

(** An option read as "out of range is a fault". *)
Definition of_opt {A} (f : fault) (o : option A) : res A :=
  match o with Some a => Ok a | None => Err f end.

(** [assert b] *)
Definition assert_ (b : bool) : res unit := if b then Ok tt else Err AssertFailed.

Lemma bind_ok {A B} (m : res A) (f : A -> res B) b :
  m ≫= f = Ok b <-> exists a, m = Ok a /\ f a = Ok b.
Proof.
  destruct m; cbn; split.
  - eauto.
  - intros (? & [= ->] & H). exact H.
  - discriminate.
  - intros (? & [=] & _).
Qed.

Lemma of_opt_ok {A} f (o : option A) a : of_opt f o = Ok a <-> o = Some a.
Proof. destruct o; cbn; naive_solver. Qed.

Lemma assert_ok b u : assert_ b = Ok u <-> b = true.
Proof. destruct b, u; cbn; naive_solver. Qed.

(** Left folds that can fail. *)
Fixpoint foldlM {A B} (f : A -> B -> res A) (a : A) (l : list B) : res A :=
  match l with
  | [] => Ok a
  | b :: l' => a' ← f a b; foldlM f a' l'
  end.

Lemma foldlM_app {A B} (f : A -> B -> res A) a l1 l2 :
  foldlM f a (l1 ++ l2) = foldlM f a l1 ≫= (fun a' => foldlM f a' l2).
Proof.
  revert a; induction l1 as [|b l1 IH]; intros a; [done|].
  cbn. destruct (f a b); cbn; [apply IH|done].
Qed.

(** The invariant rule for such folds. *)
Lemma foldlM_ind {A B} (P : A -> Prop) (f : A -> B -> res A) l a a' :
  P a -> (forall x b y, b ∈ l -> P x -> f x b = Ok y -> P y) ->
  foldlM f a l = Ok a' -> P a'.
Proof.
  revert a; induction l as [|b l IH]; intros a Ha Hf H; cbn in H.
  { by simplify_eq. }
  apply bind_ok in H as (x & Hx & H).
  eapply (IH x); eauto using list_elem_of_here, list_elem_of_further.
Qed.

(** ** State and error *)

Definition ST (H A : Type) : Type := H -> res (A * H).

#[export] Instance st_ret {H} : MRet (ST H) := fun A a h => Ok (a, h).
#[export] Instance st_bind {H} : MBind (ST H) := fun A B f m h =>
  match m h with Ok (a, h') => f a h' | Err e => Err e end.

Definition st_get {H A} (f : H -> A) : ST H A := fun h => Ok (f h, h).
Definition st_put {H} (f : H -> H) : ST H unit := fun h => Ok (tt, f h).
Definition st_lift {H A} (m : res A) : ST H A := fun h => a ← m; Ok (a, h).
Definition st_fail {H A} (f : fault) : ST H A := fun _ => Err f.

Lemma st_bind_ok {H A B} (m : ST H A) (f : A -> ST H B) h b h' :
  (m ≫= f) h = Ok (b, h') <-> exists a h1, m h = Ok (a, h1) /\ f a h1 = Ok (b, h').
Proof.
  unfold mbind, st_bind. destruct (m h) as [[a h1]|e]; split.
  - eauto.
  - by intros (? & ? & [= -> ->] & ?).
  - done.
  - by intros (? & ? & [=] & _).
Qed.

(** ** Machine integers *)

Definition u32 (z : Z) : Z := z mod 2 ^ 32.
Definition u64 (z : Z) : Z := z mod 2 ^ 64.
Definition u16 (z : Z) : Z := z mod 2 ^ 16.
Definition u8 (z : Z) : Z := z mod 2 ^ 8.

(** Two's complement reading of a [w]-bit word. *)
Definition signed (w z : Z) : Z :=
  let r := z mod 2 ^ w in if r <? 2 ^ (w - 1) then r else r - 2 ^ w.

Definition i32 (z : Z) : Z := signed 32 z.

Lemma signed_id w z : 0 < w -> - 2 ^ (w - 1) <= z < 2 ^ (w - 1) -> signed w z = z.
Proof.
  intros Hw Hz. unfold signed.
  assert (E : 2 ^ w = 2 * 2 ^ (w - 1)).
  { rewrite <- Z.pow_succ_r by lia. f_equal. lia. }
  destruct (Z.ltb_spec z 0).
  - assert (Hm : z mod 2 ^ w = z + 2 ^ w).
    { symmetry. apply (Z.mod_unique_pos _ _ (-1)); lia. }
    rewrite Hm. destruct (Z.ltb_spec (z + 2 ^ w) (2 ^ (w - 1))); lia.
  - rewrite Z.mod_small by lia. destruct (Z.ltb_spec z (2 ^ (w - 1))); lia.
Qed.

Lemma u32_small z : 0 <= z < 2 ^ 32 -> u32 z = z.
Proof. apply Z.mod_small. Qed.
Lemma u64_small z : 0 <= z < 2 ^ 64 -> u64 z = z.
Proof. apply Z.mod_small. Qed.
Lemma u32_range z : 0 <= u32 z < 2 ^ 32.
Proof. apply Z.mod_pos_bound. lia. Qed.
Lemma u64_range z : 0 <= u64 z < 2 ^ 64.
Proof. apply Z.mod_pos_bound. lia. Qed.

(** Integer division and remainder as C++ has them (truncated). *)
Definition cdiv (a b : Z) : Z := Z.quot a b.
Definition cmod (a b : Z) : Z := Z.rem a b.

(** ** Lists *)

(** Indexing by a machine integer. *)
Definition zlookup {A} (l : list A) (i : Z) : option A :=
  if i <? 0 then None else l !! Z.to_nat i.
Definition zinsert {A} (i : Z) (x : A) (l : list A) : list A := <[Z.to_nat i := x]> l.

Lemma zlookup_nat {A} (l : list A) (i : nat) : zlookup l (Z.of_nat i) = l !! i.
Proof.
  unfold zlookup. destruct (Z.ltb_spec (Z.of_nat i) 0); [lia|]. by rewrite Nat2Z.id.
Qed.

Lemma zlookup_Some_lt {A} (l : list A) i x :
  zlookup l i = Some x -> 0 <= i < Z.of_nat (length l).
Proof.
  unfold zlookup. destruct (Z.ltb_spec i 0); [done|].
  intros H0%lookup_lt_Some. lia.
Qed.

Lemma zlookup_is_Some {A} (l : list A) i :
  0 <= i < Z.of_nat (length l) -> exists x, zlookup l i = Some x.
Proof.
  intros H. unfold zlookup. destruct (Z.ltb_spec i 0); [lia|].
  apply lookup_lt_is_Some. lia.
Qed.

(** Reading and writing an array element: outside the array is undefined. *)
Definition zload {A} (l : list A) (i : Z) : res A := of_opt UB (zlookup l i).
Definition zstore {A} (l : list A) (i : Z) (x : A) : res (list A) :=
  if (0 <=? i) && (i <? Z.of_nat (length l)) then Ok (zinsert i x l) else Err UB.

Lemma zload_nat {A} (l : list A) (i : nat) x : l !! i = Some x -> zload l (Z.of_nat i) = Ok x.
Proof. intros H. unfold zload. by rewrite zlookup_nat, H. Qed.

Lemma zstore_nat {A} (l : list A) (i : nat) x :
  (i < length l)%nat -> zstore l (Z.of_nat i) x = Ok (<[i := x]> l).
Proof.
  intros H. unfold zstore, zinsert.
  destruct (Z.leb_spec 0 (Z.of_nat i)); [|lia].
  destruct (Z.ltb_spec (Z.of_nat i) (Z.of_nat (length l))); [|lia].
  by rewrite Nat2Z.id.
Qed.

Lemma zstore_length {A} (l l' : list A) i x : zstore l i x = Ok l' -> length l' = length l.
Proof.
  unfold zstore, zinsert. destruct (_ && _); [|done]. intros [= <-]. apply length_insert.
Qed.

(** How many leading elements satisfy a test: where a scan with a [break] stops. *)
Fixpoint prefix_len {A} (p : A -> bool) (l : list A) : nat :=
  match l with
  | [] => 0%nat
  | x :: l' => if p x then S (prefix_len p l') else 0%nat
  end.

Lemma prefix_len_le {A} (p : A -> bool) l : (prefix_len p l <= length l)%nat.
Proof. induction l as [|x l IH]; cbn; [lia|]. destruct (p x); lia. Qed.

Lemma prefix_len_before {A} (p : A -> bool) l i x :
  (i < prefix_len p l)%nat -> l !! i = Some x -> p x = true.
Proof.
  revert i; induction l as [|y l IH]; intros i Hi Hx; [done|]. cbn in Hi.
  destruct (p y) eqn:E; [|lia]. destruct i; cbn in Hx; [congruence|].
  apply (IH i); [lia|done].
Qed.

Lemma prefix_len_at {A} (p : A -> bool) l x :
  l !! prefix_len p l = Some x -> p x = false.
Proof.
  induction l as [|y l IH]; cbn; [done|].
  destruct (p y) eqn:E; cbn; [done|]. congruence.
Qed.

Lemma prefix_len_unique {A} (p : A -> bool) l (k : nat) :
  (k <= length l)%nat ->
  (forall i x, (i < k)%nat -> l !! i = Some x -> p x = true) ->
  (forall x, l !! k = Some x -> p x = false) -> prefix_len p l = k.
Proof.
  revert k; induction l as [|y l IH]; intros k Hk Hb Ha; cbn in *; [lia|].
  destruct k as [|k].
  - by rewrite (Ha y eq_refl).
  - rewrite (Hb 0%nat y); [|lia|done]. f_equal. apply IH; [lia| |].
    + intros i x Hi. apply (Hb (S i)). lia.
    + intros x. apply Ha.
Qed.

(** The sum of a list of counts. *)
Fixpoint sum_nat (l : list nat) : nat :=
  match l with [] => 0%nat | n :: l' => (n + sum_nat l')%nat end.

Lemma sum_nat_app l1 l2 : sum_nat (l1 ++ l2) = (sum_nat l1 + sum_nat l2)%nat.
Proof. induction l1 as [|n l1 IH]; cbn; [done|]. rewrite IH. lia. Qed.

Lemma sum_nat_take_le l i : (sum_nat (take i l) <= sum_nat l)%nat.
Proof.
  pose proof (sum_nat_app (take i l) (drop i l)) as H.
  rewrite take_drop in H. lia.
Qed.

Lemma sum_nat_take_S l i n :
  l !! i = Some n -> sum_nat (take (S i) l) = (sum_nat (take i l) + n)%nat.
Proof.
  intros H. rewrite (take_S_r _ _ _ H), sum_nat_app. cbn. lia.
Qed.

(** A list cut at an index. *)
Lemma list_split_at {A} (l : list A) i x :
  l !! i = Some x -> l = take i l ++ x :: drop (S i) l.
Proof. intros H. symmetry. by apply take_drop_middle. Qed.

(** First element that satisfies a test. *)
Fixpoint find_first {A} (p : A -> bool) (l : list A) : option A :=
  match l with
  | [] => None
  | x :: l' => if p x then Some x else find_first p l'
  end.

Lemma find_first_Some {A} (p : A -> bool) l x :
  find_first p l = Some x -> x ∈ l /\ p x = true.
Proof.
  induction l as [|y l IH]; cbn; [done|].
  destruct (p y) eqn:E; intros H.
  - simplify_eq. split; [apply list_elem_of_here|done].
  - destruct (IH H). split; [by apply list_elem_of_further|done].
Qed.

Lemma find_first_None {A} (p : A -> bool) l :
  find_first p l = None <-> Forall (fun x => p x = false) l.
Proof.
  induction l as [|y l IH]; cbn; [by split|].
  rewrite Forall_cons. destruct (p y); [split; [done|naive_solver]|].
  rewrite IH. naive_solver.
Qed.

Lemma find_first_app {A} (p : A -> bool) l1 l2 :
  find_first p (l1 ++ l2) =
  match find_first p l1 with Some x => Some x | None => find_first p l2 end.
Proof. induction l1 as [|x l1 IH]; cbn; [done|]. by destruct (p x). Qed.

(** ** Automation *)

Create HintDb plin.
Create Rewrite HintDb plin.
#[export] Hint Rewrite @bind_ok @of_opt_ok assert_ok : plin.

Lemma filter_all {A} (P : A -> Prop) `{!forall x, Decision (P x)} l : Forall P l -> filter P l = l.
Proof. induction 1 as [|x l Hx _ IH]; [done|]. by rewrite filter_cons_True, IH. Qed.
Lemma filter_none {A} (P : A -> Prop) `{!forall x, Decision (P x)} l :
  Forall (fun x => ~ P x) l -> filter P l = [].
Proof. induction 1 as [|x l Hx _ IH]; [done|]. by rewrite filter_cons_False. Qed.

(** Take apart hypotheses of the form [m ≫= f = Ok b] and the like. *)
Ltac res_inv1 :=
  match goal with
  | H : (_ ≫= _) = Ok _ |- _ => apply bind_ok in H as (? & ? & ?)
  | H : of_opt _ _ = Ok _ |- _ => apply of_opt_ok in H
  | H : assert_ _ = Ok _ |- _ => apply assert_ok in H
  | H : mret _ = Ok _ |- _ => unfold mret, res_ret in H
  | H : Ok _ = Ok _ |- _ => injection H as H; subst
  | H : Err _ = Ok _ |- _ => discriminate H
  | H : Ok _ = Err _ |- _ => discriminate H
  end.
Ltac res_inv := repeat (res_inv1; simplify_eq/=).

(** Case analysis on the booleans of the goal or of a hypothesis. *)
Ltac zb :=
  repeat match goal with
  | H : (_ <? _) = true |- _ => apply Z.ltb_lt in H
  | H : (_ <? _) = false |- _ => apply Z.ltb_ge in H
  | H : (_ <=? _) = true |- _ => apply Z.leb_le in H
  | H : (_ <=? _) = false |- _ => apply Z.leb_gt in H
  | H : (_ =? _) = true |- _ => apply Z.eqb_eq in H
  | H : (_ =? _) = false |- _ => apply Z.eqb_neq in H
  | H : _ && _ = true |- _ => apply andb_true_iff in H as [? ?]
  | H : _ || _ = false |- _ => apply orb_false_iff in H as [? ?]
  | H : negb _ = true |- _ => apply negb_true_iff in H
  | H : negb _ = false |- _ => apply negb_false_iff in H
  end.

(** One step of a computation whose head call has been rewritten to its value. *)
Ltac mstep := cbn [mbind res_bind mret res_ret fmap res_fmap negb of_opt assert_].
Tactic Notation "mstep" "in" hyp(H) :=
  cbn [mbind res_bind mret res_ret fmap res_fmap negb of_opt assert_] in H.
