(* ===== verification/Doubles.v ===== *)
(** * Floating-point numbers of the program

    [_key_t] is [double], model slopes are [double], intercepts are [float] and
    the segmentation works in x87 [long double].  The three formats are the
    Standard Library's executable IEEE-754 operations at precisions 53, 24 and
    64; [parameters.h]'s flags are constants of the first.  [rank] embeds the
    non-NaN doubles in [Z] so that every comparison of keys is a comparison of
    integers, and [bits_of_double] is the 64-bit image that [memcpy] moves. *)

From S2P Require Import Prelude.
From Stdlib Require Import SpecFloat Sorting.Sorted.

Definition double : Type := spec_float.
Definition float : Type := spec_float.
Definition long_double : Type := spec_float.

#[export] Instance spec_float_eq_dec : EqDecision spec_float.
Proof. solve_decision. Defined.

(** ** Arithmetic on [double] *)

Definition dadd : double -> double -> double := SFadd 53 1024.
Definition dsub : double -> double -> double := SFsub 53 1024.
Definition dmul : double -> double -> double := SFmul 53 1024.
Definition ddiv : double -> double -> double := SFdiv 53 1024.

(** The comparison operators [==], [<], [<=] of C++ (false on NaN). *)
Definition deq (x y : double) : bool := SFeqb x y.
Definition dlt (x y : double) : bool := SFltb x y.
Definition dle (x y : double) : bool := SFleb x y.

(** Conversion of an integer to [double] (round to nearest). *)
Definition double_of_Z (z : Z) : double := binary_normalize 53 1024 z 0 false.

(** The decimal constant [n / d], correctly rounded. *)
Definition double_of_ratio (n d : Z) : double := ddiv (double_of_Z n) (double_of_Z d).

(** [float] to [double] (exact) and [double] to [float] (rounds). *)
Definition refloat (prec emax : Z) (x : spec_float) : spec_float :=
  match x with
  | S754_finite s m e => binary_round prec emax s m e
  | _ => x
  end.
Definition double_of_float (x : float) : double := refloat 53 1024 x.
Definition float_of_double (x : double) : float := refloat 24 128 x.

(** Truncation towards zero; [None] for NaN and infinities. *)
Definition trunc (x : spec_float) : option Z :=
  match x with
  | S754_zero _ => Some 0
  | S754_finite s m e =>
      let a := if 0 <=? e then Z.pos m * 2 ^ e else Z.pos m / 2 ^ (- e) in
      Some (if s then - a else a)
  | _ => None
  end.

(** Conversion to a signed integer type: out of range is undefined behaviour. *)
Definition to_signed_int (w : Z) (x : double) : res Z :=
  match trunc x with
  | Some z => if (- 2 ^ (w - 1) <=? z) && (z <? 2 ^ (w - 1)) then Ok z else Err UB
  | None => Err UB
  end.
Definition to_int64 : double -> res Z := to_signed_int 64.
Definition to_int32 : double -> res Z := to_signed_int 32.

(** Conversion to an unsigned integer type. *)
Definition to_uint (w : Z) (x : double) : res Z :=
  match trunc x with
  | Some z => if (0 <=? z) && (z <? 2 ^ w) then Ok z else Err UB
  | None => Err UB
  end.

(** ** Constants of parameters.h *)

Definition FREE_FLAG : double := SFmax_float 53 1024.
Definition DELETE_FLAG : double := dsub (SFmax_float 53 1024) (double_of_Z 1).

Definition BLOCK_SIZE : Z := 256.
Definition ROOT_SIZE : Z := 8.
Definition LOG_NUMBER : Z := 16.
Definition EPSILON_LEAF_NODE : Z := 256.
Definition EPSILON_INNER_NODE : Z := 8.
Definition INNER_NODE_INIT_RATIO : double := double_of_ratio 2 10.
Definition LEAF_NODE_INIT_RATIO : double := double_of_ratio 5 10.
Definition MAX_OVERFLOW_RATIO : double := double_of_ratio 3 10.
Definition MAX_ORPHAN_RATIO : double := double_of_ratio 5 100.
Definition MAX_BUFFER : Z := 2 ^ 20.
Definition lockSet : Z := 2 ^ 31.
Definition lockMask : Z := 2 ^ 31 - 1.
Definition double_bit_lockSet : Z := u32 (3 * 2 ^ 30).
Definition double_bit_lockMask : Z := 2 ^ 30 - 1.
Definition second_bit_lockSet : Z := 2 ^ 30.

(** The model that every [predict_block] evaluates: [key * slope + intercept + 0.5], in [double]; [intercept] is a [float]. *)
Definition linear (key slope : double) (intercept : float) : double :=
  dadd (dadd (dmul key slope) (double_of_float intercept)) (double_of_ratio 1 2).

(** ** Keys: valid doubles that are not NaN *)

Definition valid_double (x : double) : bool := valid_binary 53 1024 x.

Definition is_key (x : double) : bool :=
  match x with S754_nan => false | _ => valid_double x end.

(** The order embedding. *)
Definition rank (x : double) : Z :=
  match x with
  | S754_zero _ => 0
  | S754_infinity s => if s then - 2 ^ 64 else 2 ^ 64
  | S754_nan => 2 ^ 65
  | S754_finite s m e =>
      let r := (e + 1074) * 2 ^ 53 + Z.pos m in if s then - r else r
  end.

Lemma digits2_pos_bound m : Z.pos m < 2 ^ Z.pos (digits2_pos m).
Proof.
  induction m as [m IH|m IH|]; cbn [digits2_pos]; [| |lia];
    rewrite Pos2Z.inj_succ, Z.pow_succ_r by lia; lia.
Qed.

Lemma digits2_pos_lower m : 2 ^ (Z.pos (digits2_pos m) - 1) <= Z.pos m.
Proof.
  induction m as [m IH|m IH|]; cbn [digits2_pos]; [| |reflexivity];
    rewrite Pos2Z.inj_succ;
    replace (Z.succ (Z.pos (digits2_pos m)) - 1)
      with (Z.succ (Z.pos (digits2_pos m) - 1)) by lia;
    rewrite Z.pow_succ_r by lia; lia.
Qed.

(** What validity says of mantissa and exponent. *)
Lemma valid_finite s m e :
  valid_double (S754_finite s m e) = true ->
  -1074 <= e <= 971 /\ Z.pos m < 2 ^ 53 /\ (-1074 < e -> 2 ^ 52 <= Z.pos m).
Proof.
  unfold valid_double, valid_binary, bounded, canonical_mantissa, fexp, emin.
  intros H. zb. pose proof (digits2_pos_bound m) as Hu.
  pose proof (digits2_pos_lower m) as Hl.
  split; [lia|]. split.
  - eapply Z.lt_le_trans; [exact Hu|]. apply Z.pow_le_mono_r; lia.
  - intros He. replace 52 with (Z.pos (digits2_pos m) - 1) by lia. exact Hl.
Qed.

Lemma rank_bound s m e :
  valid_double (S754_finite s m e) = true ->
  1 <= (e + 1074) * 2 ^ 53 + Z.pos m < 2 ^ 64.
Proof. intros H%valid_finite. lia. Qed.

Lemma compare_pos m1 m2 : Pos.compare_cont Eq m1 m2 = (Z.pos m1 ?= Z.pos m2).
Proof. reflexivity. Qed.

Lemma lex_rank m1 e1 m2 e2 :
  Z.pos m1 < 2 ^ 53 -> Z.pos m2 < 2 ^ 53 ->
  match e1 ?= e2 with Lt => Lt | Eq => Z.pos m1 ?= Z.pos m2 | Gt => Gt end =
  ((e1 + 1074) * 2 ^ 53 + Z.pos m1 ?= (e2 + 1074) * 2 ^ 53 + Z.pos m2).
Proof.
  intros H1 H2. symmetry. destruct (Z.compare_spec e1 e2) as [->|He|He].
  - destruct (Z.compare_spec (Z.pos m1) (Z.pos m2)) as [Hm|Hm|Hm];
      [rewrite Hm; apply Z.compare_refl|apply Z.compare_lt_iff; lia|
       apply Z.compare_gt_iff; lia].
  - apply Z.compare_lt_iff. lia.
  - apply Z.compare_gt_iff. lia.
Qed.

(** Comparison of keys is comparison of ranks. *)
Lemma compare_rank x y :
  is_key x = true -> is_key y = true -> SFcompare x y = Some (rank x ?= rank y).
Proof.
  destruct x as [s1|s1| |s1 m1 e1], y as [s2|s2| |s2 m2 e2]; cbn [is_key]; intros Hx Hy;
    try discriminate; cbn [SFcompare rank].
  all: repeat match goal with
       | H : valid_double (S754_finite _ _ _) = true |- _ =>
           pose proof (valid_finite _ _ _ H); pose proof (rank_bound _ _ _ H); clear H
       end.
  all: try (destruct s1, s2; f_equal; try reflexivity; symmetry;
            first [apply Z.compare_lt_iff; lia|apply Z.compare_gt_iff; lia]).
  all: try (destruct s1; f_equal; try reflexivity; symmetry;
            first [apply Z.compare_lt_iff; lia|apply Z.compare_gt_iff; lia]).
  all: try (destruct s2; f_equal; try reflexivity; symmetry;
            first [apply Z.compare_lt_iff; lia|apply Z.compare_gt_iff; lia]).
  rewrite !compare_pos. destruct s1, s2; f_equal.
  - rewrite Z.compare_opp, <- lex_rank by lia.
    rewrite (Z.compare_antisym e1 e2), (Z.compare_antisym (Z.pos m1) (Z.pos m2)).
    by destruct (e1 ?= e2).
  - symmetry. apply Z.compare_lt_iff. lia.
  - symmetry. apply Z.compare_gt_iff. lia.
  - apply lex_rank; lia.
Qed.

Lemma dlt_rank x y :
  is_key x = true -> is_key y = true -> dlt x y = (rank x <? rank y).
Proof.
  intros Hx Hy. unfold dlt, SFltb. rewrite compare_rank by done.
  unfold Z.ltb. by destruct (rank x ?= rank y).
Qed.

Lemma dle_rank x y :
  is_key x = true -> is_key y = true -> dle x y = (rank x <=? rank y).
Proof.
  intros Hx Hy. unfold dle, SFleb. rewrite compare_rank by done.
  unfold Z.leb. by destruct (rank x ?= rank y).
Qed.

Lemma deq_rank x y :
  is_key x = true -> is_key y = true -> deq x y = (rank x =? rank y).
Proof.
  intros Hx Hy. unfold deq, SFeqb. rewrite compare_rank by done.
  destruct (Z.eqb_spec (rank x) (rank y)) as [->|Hne].
  - by rewrite Z.compare_refl.
  - destruct (Z.compare_spec (rank x) (rank y)); done.
Qed.

Lemma is_key_nan_l x y : is_key x = false -> valid_double x = true -> deq x y = false.
Proof. destruct x; cbn; try done; congruence. Qed.

#[export] Hint Resolve dlt_rank dle_rank deq_rank : plin.

(** Turn key comparisons into integer comparisons. *)
Ltac key_cmp :=
  repeat match goal with
  | |- context [dlt ?x ?y] => rewrite (dlt_rank x y) by (done || assumption)
  | |- context [dle ?x ?y] => rewrite (dle_rank x y) by (done || assumption)
  | |- context [deq ?x ?y] => rewrite (deq_rank x y) by (done || assumption)
  | H : context [dlt ?x ?y] |- _ => rewrite (dlt_rank x y) in H by (done || assumption)
  | H : context [dle ?x ?y] |- _ => rewrite (dle_rank x y) in H by (done || assumption)
  | H : context [deq ?x ?y] |- _ => rewrite (deq_rank x y) in H by (done || assumption)
  end.

(** [rank] identifies exactly the two zeros. *)
Lemma rank_inj x y :
  is_key x = true -> is_key y = true -> rank x = rank y ->
  x = y \/ (rank x = 0 /\ rank y = 0).
Proof.
  destruct x as [s1|s1| |s1 m1 e1], y as [s2|s2| |s2 m2 e2]; cbn [is_key]; intros Hx Hy;
    try discriminate; cbn [rank];
    repeat match goal with
    | H : valid_double (S754_finite _ _ _) = true |- _ =>
        pose proof (valid_finite _ _ _ H); pose proof (rank_bound _ _ _ H); clear H
    end; try (intros; right; lia); try (destruct s1; lia); try (destruct s2; lia).
  - destruct s1, s2; intros; try lia; by left.
  - destruct s1, s2; lia.
  - destruct s1, s2; lia.
  - intros H3. left.
    assert (e1 = e2) by (destruct s1, s2; lia). subst.
    assert (m1 = m2) by (destruct s1, s2; lia). subst.
    destruct s1, s2; try lia; done.
Qed.

(** ** The 64-bit image of a double *)

Definition sign_bit (s : bool) : Z := if s then 2 ^ 63 else 0.

Definition bits_of_double (x : double) : Z :=
  match x with
  | S754_zero s => sign_bit s
  | S754_infinity s => sign_bit s + 2047 * 2 ^ 52
  | S754_nan => 2047 * 2 ^ 52 + 2 ^ 51
  | S754_finite s m e =>
      if Z.pos m <? 2 ^ 52 then sign_bit s + Z.pos m
      else sign_bit s + (e + 1075) * 2 ^ 52 + (Z.pos m - 2 ^ 52)
  end.

Definition double_of_bits (z : Z) : double :=
  let s := negb (z / 2 ^ 63 =? 0) in
  let be := (z / 2 ^ 52) mod 2 ^ 11 in
  let f := z mod 2 ^ 52 in
  if be =? 0 then
    match f with Z.pos m => S754_finite s m (-1074) | _ => S754_zero s end
  else if be =? 2047 then
    if f =? 0 then S754_infinity s else S754_nan
  else match f + 2 ^ 52 with Z.pos m => S754_finite s m (be - 1075) | _ => S754_nan end.

Lemma bits_range x : valid_double x = true -> 0 <= bits_of_double x < 2 ^ 64.
Proof.
  destruct x as [s|s| |s m e]; intros H; cbn [bits_of_double]; unfold sign_bit.
  - destruct s; lia.
  - destruct s; lia.
  - lia.
  - apply valid_finite in H. destruct (Z.ltb_spec (Z.pos m) (2 ^ 52)), s; lia.
Qed.

Lemma decode_fields (sgn : bool) be f :
  0 <= be < 2 ^ 11 -> 0 <= f < 2 ^ 52 ->
  let z := sign_bit sgn + be * 2 ^ 52 + f in
  negb (z / 2 ^ 63 =? 0) = sgn /\ (z / 2 ^ 52) mod 2 ^ 11 = be /\ z mod 2 ^ 52 = f.
Proof.
  intros Hb Hf z. unfold z, sign_bit.
  assert (E1 : (if sgn then 2 ^ 63 else 0) + be * 2 ^ 52 + f
               = ((if sgn then 2 ^ 11 else 0) + be) * 2 ^ 52 + f).
  { destruct sgn; lia. }
  rewrite E1. repeat split.
  - assert (E2 : (((if sgn then 2 ^ 11 else 0) + be) * 2 ^ 52 + f) / 2 ^ 63
                 = if sgn then 1 else 0).
    { destruct sgn.
      - symmetry. apply (Z.div_unique_pos _ _ _ (be * 2 ^ 52 + f)); lia.
      - apply Z.div_small. lia. }
    rewrite E2. by destruct sgn.
  - rewrite Z.div_add_l, (Z.div_small f) by lia. rewrite Z.add_0_r.
    destruct sgn.
    + rewrite <- (Z.mul_1_l (2 ^ 11)) at 1.
      rewrite Z.add_comm, Z.mod_add by lia. apply Z.mod_small; lia.
    + apply Z.mod_small. lia.
  - rewrite Z.add_comm, Z.mod_add by lia. apply Z.mod_small; lia.
Qed.

(** Decoding the image of a double gives the double back. *)
Lemma double_bits_roundtrip x :
  valid_double x = true -> double_of_bits (bits_of_double x) = x.
Proof.
  intros H.
  assert (K : forall sgn be f z, 0 <= be < 2 ^ 11 -> 0 <= f < 2 ^ 52 ->
    z = sign_bit sgn + be * 2 ^ 52 + f ->
    double_of_bits z =
      if be =? 0 then match f with Z.pos m => S754_finite sgn m (-1074) | _ => S754_zero sgn end
      else if be =? 2047 then if f =? 0 then S754_infinity sgn else S754_nan
      else match f + 2 ^ 52 with
           | Z.pos m => S754_finite sgn m (be - 1075) | _ => S754_nan end).
  { intros sgn be f z Hb Hf ->. unfold double_of_bits.
    destruct (decode_fields sgn be f Hb Hf) as (-> & -> & ->). reflexivity. }
  destruct x as [s|s| |s m e]; cbn [bits_of_double].
  - rewrite (K s 0 0); [done|lia..].
  - rewrite (K s 2047 0); [done|lia..].
  - by rewrite (K false 2047 (2 ^ 51)).
  - apply valid_finite in H. destruct (Z.ltb_spec (Z.pos m) (2 ^ 52)).
    + rewrite (K s 0 (Z.pos m)) by lia. cbn. f_equal. lia.
    + rewrite (K s (e + 1075) (Z.pos m - 2 ^ 52)) by lia.
      destruct (Z.eqb_spec (e + 1075) 0); [lia|].
      destruct (Z.eqb_spec (e + 1075) 2047); [lia|].
      replace (Z.pos m - 2 ^ 52 + 2 ^ 52) with (Z.pos m) by lia.
      f_equal. lia.
Qed.

(** Every 64-bit word decodes to a valid double. *)
Lemma double_of_bits_valid z : 0 <= z < 2 ^ 64 -> valid_double (double_of_bits z) = true.
Proof.
  intros Hz. unfold double_of_bits.
  pose proof (Z.mod_pos_bound z (2 ^ 52) ltac:(lia)) as Hf.
  pose proof (Z.mod_pos_bound (z / 2 ^ 52) (2 ^ 11) ltac:(lia)) as Hb.
  set (be := (z / 2 ^ 52) mod 2 ^ 11) in *. set (f := z mod 2 ^ 52) in *.
  assert (D : forall m, Z.pos m < 2 ^ 52 -> Z.pos (digits2_pos m) <= 52).
  { intros m Hm. pose proof (digits2_pos_lower m) as Hl.
    destruct (Z.le_gt_cases (Z.pos (digits2_pos m)) 52); [done|].
    assert (2 ^ 52 <= 2 ^ (Z.pos (digits2_pos m) - 1)) by (apply Z.pow_le_mono_r; lia). lia. }
  destruct (Z.eqb_spec be 0).
  { destruct f as [|m|m] eqn:Ef; [done| |done].
    specialize (D m ltac:(lia)).
    unfold valid_double, valid_binary, bounded, canonical_mantissa, fexp, emin.
    apply andb_true_iff; split; [apply Z.eqb_eq; lia|apply Z.leb_le; lia]. }
  destruct (Z.eqb_spec be 2047); [by destruct (f =? 0)|].
  destruct (f + 2 ^ 52) as [|m|m] eqn:Ef; [done| |done].
  pose proof (digits2_pos_lower m) as Hl. pose proof (digits2_pos_bound m) as Hu.
  assert (Hd : Z.pos (digits2_pos m) = 53).
  { destruct (Z.lt_trichotomy (Z.pos (digits2_pos m)) 53) as [Hlt|[Heq|Hgt]]; [|done|].
    - assert (2 ^ Z.pos (digits2_pos m) <= 2 ^ 52) by (apply Z.pow_le_mono_r; lia). lia.
    - assert (2 ^ 53 <= 2 ^ (Z.pos (digits2_pos m) - 1)) by (apply Z.pow_le_mono_r; lia). lia. }
  unfold valid_double, valid_binary, bounded, canonical_mantissa, fexp, emin.
  apply andb_true_iff; split; [apply Z.eqb_eq; lia|apply Z.leb_le; lia].
Qed.

(** ** Sorting by a double *)

(** [std::sort] by key: a stable insertion sort, which is what [std::sort] must return
    when the keys differ. *)
Fixpoint insert_by {A} (k : A -> double) (x : A) (l : list A) : list A :=
  match l with
  | [] => [x]
  | y :: l' => if dlt (k y) (k x) then y :: insert_by k x l' else x :: l
  end.
Definition sort_by {A} (k : A -> double) (l : list A) : list A := foldr (insert_by k) [] l.

Lemma insert_by_perm {A} (k : A -> double) x l : insert_by k x l ≡ₚ x :: l.
Proof.
  induction l as [|y l IH]; cbn; [done|]. destruct (dlt (k y) (k x)); [|done].
  rewrite IH. constructor.
Qed.
Lemma sort_by_perm {A} (k : A -> double) l : sort_by k l ≡ₚ l.
Proof. induction l as [|x l IH]; cbn; [done|]. by rewrite insert_by_perm, IH. Qed.

(** Not after, in the order of numbers. *)
Definition not_above {A} (k : A -> double) (x y : A) : Prop := dlt (k y) (k x) = false.

Lemma insert_by_sorted {A} (k : A -> double) x l :
  is_key (k x) = true -> Forall (fun y => is_key (k y) = true) l ->
  StronglySorted (not_above k) l -> StronglySorted (not_above k) (insert_by k x l).
Proof.
  intros Hx Hl Hs. induction Hs as [|y l Hs IH Hy]; cbn; [by repeat constructor|].
  apply Forall_cons in Hl as [Hky Hl]. destruct (dlt (k y) (k x)) eqn:E.
  - constructor; [by apply IH|]. rewrite insert_by_perm. constructor; [|done].
    unfold not_above. rewrite dlt_rank in * by done. lia.
  - constructor; [by constructor|]. constructor; [done|].
    rewrite Forall_forall in *. intros z Hz. specialize (Hy z Hz). specialize (Hl z Hz).
    unfold not_above in *. rewrite dlt_rank in * by done. lia.
Qed.

Lemma sort_by_sorted {A} (k : A -> double) l :
  Forall (fun y => is_key (k y) = true) l -> StronglySorted (not_above k) (sort_by k l).
Proof.
  induction 1 as [|x l Hx Hl IH]; cbn; [constructor|]. apply insert_by_sorted; [done| |done].
  change (foldr (insert_by k) [] l) with (sort_by k l). by rewrite sort_by_perm.
Qed.
