(* ===== verification/Rounding.v ===== *)
(** * Rounding is monotone (core/index: every [predict_block])

    A valid finite [double] is an integer multiple of the smallest subnormal, [sval]; its
    [rank] is an order-preserving code of that multiple.  The operations of Doubles.v
    round the exact rational result [N / D] to nearest even, which is the one function
    [srnd N D]: so products with a non-negative factor, sums with a constant, quotients
    by a positive divisor and truncation keep the order of their operands. *)

From S2P Require Import Prelude Doubles.
From Stdlib Require Import SpecFloat.
Open Scope Z_scope.

(** ** Sticky quotients *)

(** The shift register for [N / D]: quotient, half bit, sticky bit. *)
Definition repr (N D : Z) : shr_record :=
  let x := N mod D in
  Build_shr_record (N / D) (D <=? 2 * x) (negb (2 * x =? (if D <=? 2 * x then D else 0))).

Lemma shr_1_spec m r s :
  0 <= m -> shr_1 (Build_shr_record m r s) = Build_shr_record (m / 2) (Z.odd m) (r || s).
Proof.
  intros Hm. destruct m as [|[p|p|]|p]; [done| | |done|lia]; cbn [shr_1 Z.odd]; f_equal.
  - change (Z.pos p~1) with (2 * Z.pos p + 1). apply (Z.div_unique_pos _ _ _ 1); lia.
  - change (Z.pos p~0) with (2 * Z.pos p). apply (Z.div_unique_pos _ _ _ 0); lia.
Qed.

Lemma shr_1_repr N D : 0 <= N -> 0 < D -> shr_1 (repr N D) = repr N (2 * D).
Proof.
  intros HN HD. unfold repr. rewrite shr_1_spec by (apply Z.div_pos; lia).
  pose proof (Z.div_mod N D ltac:(lia)) as E. pose proof (Z.mod_pos_bound N D HD) as Hx.
  set (m := N / D) in *. set (x := N mod D) in *.
  pose proof (Z.div_mod m 2 ltac:(lia)) as Em. pose proof (Z.mod_pos_bound m 2 ltac:(lia)) as Hb.
  rewrite Zmod_odd in Em, Hb. set (q := m / 2) in *.
  assert (Eq : N = (2 * D) * q + (D * (if Z.odd m then 1 else 0) + x)) by nia.
  assert (Hr : 0 <= D * (if Z.odd m then 1 else 0) + x < 2 * D) by (destruct (Z.odd m); lia).
  rewrite <- (Z.div_unique_pos _ _ _ _ Hr Eq), <- (Z.mod_unique_pos _ _ _ _ Hr Eq).
  destruct (Z.odd m).
  - rewrite (proj2 (Z.leb_le (2 * D) _)) by lia. f_equal.
    destruct (Z.leb_spec D (2 * x)); cbn [orb].
    + destruct (Z.eqb_spec (2 * (D * 1 + x)) (2 * D)); [lia|done].
    + destruct (Z.eqb_spec (2 * x) 0), (Z.eqb_spec (2 * (D * 1 + x)) (2 * D)); lia || done.
  - rewrite (proj2 (Z.leb_gt (2 * D) _)) by lia. f_equal.
    destruct (Z.leb_spec D (2 * x)); cbn [orb].
    + destruct (Z.eqb_spec (2 * (D * 0 + x)) 0); [lia|done].
    + destruct (Z.eqb_spec (2 * x) 0), (Z.eqb_spec (2 * (D * 0 + x)) 0); lia || done.
Qed.

Lemma iter_shr_repr p N D :
  0 <= N -> 0 < D -> iter_pos shr_1 p (repr N D) = repr N (D * 2 ^ Z.pos p).
Proof.
  intros HN. revert D; induction p as [p IH|p IH|]; intros D HD; cbn [iter_pos].
  - rewrite shr_1_repr, !IH by lia. f_equal.
    rewrite (Pos2Z.inj_xI p), <- (Z.add_diag (Z.pos p)), !Z.pow_add_r by lia. ring.
  - rewrite !IH by lia. f_equal. rewrite (Pos2Z.inj_xO p), <- (Z.add_diag (Z.pos p)), Z.pow_add_r by lia. ring.
  - rewrite shr_1_repr by lia. f_equal. lia.
Qed.

Lemma shr_repr N D e n :
  0 <= N -> 0 < D -> 0 <= n -> shr (repr N D) e n = (repr N (D * 2 ^ n), e + n).
Proof.
  intros HN HD Hn. destruct n as [|p|p]; [|by cbn [shr]; rewrite iter_shr_repr|lia].
  cbn [shr]. by rewrite Z.mul_1_r, Z.add_0_r.
Qed.

(** The register depends on the ratio only. *)
Lemma repr_scale N D c : 0 < D -> 0 < c -> repr (N * c) (D * c) = repr N D.
Proof.
  intros HD Hc. unfold repr. rewrite Z.div_mul_cancel_r, Z.mul_mod_distr_r by lia.
  set (x := N mod D). rewrite Z.mul_assoc.
  assert (E1 : (D * c <=? 2 * x * c) = (D <=? 2 * x)).
  { destruct (Z.leb_spec (D * c) (2 * x * c)), (Z.leb_spec D (2 * x)); nia || done. }
  rewrite E1. f_equal. f_equal. destruct (D <=? 2 * x).
  - destruct (Z.eqb_spec (2 * x * c) (D * c)), (Z.eqb_spec (2 * x) D); nia || done.
  - destruct (Z.eqb_spec (2 * x * c) 0), (Z.eqb_spec (2 * x) 0); nia || done.
Qed.
Lemma repr_ratio N1 D1 N2 D2 : 0 < D1 -> 0 < D2 -> N1 * D2 = N2 * D1 -> repr N1 D1 = repr N2 D2.
Proof.
  intros H1 H2 E. rewrite <- (repr_scale N1 D1 D2), <- (repr_scale N2 D2 D1) by lia.
  by rewrite E, (Z.mul_comm D2 D1).
Qed.

Lemma div_le_ratio N1 D1 N2 D2 :
  0 < D1 -> 0 < D2 -> N1 * D2 <= N2 * D1 -> N1 / D1 <= N2 / D2.
Proof.
  intros H1 H2 H. rewrite <- (Z.div_mul_cancel_r N1 D1 D2), <- (Z.div_mul_cancel_r N2 D2 D1) by lia.
  rewrite (Z.mul_comm D2 D1). apply Z.div_le_mono; lia.
Qed.

(** ** Round to nearest even *)

Definition nearest (r : shr_record) : Z := round_nearest_even (shr_m r) (loc_of_shr_record r).

Lemma nearest_repr N D :
  0 < D ->
  nearest (repr N D) =
    N / D + (if (D <? 2 * (N mod D)) || ((D =? 2 * (N mod D)) && Z.odd (N / D)) then 1 else 0).
Proof.
  intros HD. unfold nearest, repr. cbn [shr_m]. set (x := N mod D).
  rewrite <- Z.negb_even.
  destruct (Z.leb_spec D (2 * x)).
  - destruct (Z.eqb_spec (2 * x) D) as [E|E]; cbn [negb loc_of_shr_record round_nearest_even].
    + rewrite (proj2 (Z.ltb_ge D (2 * x))), (proj2 (Z.eqb_eq D (2 * x))) by lia.
      destruct (Z.even (N / D)); cbn [orb andb negb]; lia.
    + rewrite (proj2 (Z.ltb_lt D (2 * x))) by lia. cbn [orb]. lia.
  - rewrite (proj2 (Z.ltb_ge D (2 * x))), (proj2 (Z.eqb_neq D (2 * x))) by lia. cbn [orb andb].
    destruct (Z.eqb_spec (2 * x) 0); cbn [negb loc_of_shr_record round_nearest_even]; lia.
Qed.

Lemma nearest_mono N1 D1 N2 D2 :
  0 < D1 -> 0 < D2 -> N1 * D2 <= N2 * D1 -> nearest (repr N1 D1) <= nearest (repr N2 D2).
Proof.
  intros H1 H2 H. rewrite !nearest_repr by done.
  pose proof (div_le_ratio _ _ _ _ H1 H2 H) as Hm.
  pose proof (Z.div_mod N1 D1 ltac:(lia)) as E1. pose proof (Z.div_mod N2 D2 ltac:(lia)) as E2.
  pose proof (Z.mod_pos_bound N1 D1 H1). pose proof (Z.mod_pos_bound N2 D2 H2).
  set (x1 := N1 mod D1) in *. set (x2 := N2 mod D2) in *. set (m1 := N1 / D1) in *. set (m2 := N2 / D2) in *.
  destruct (Z.eq_dec m1 m2) as [Em|].
  2:{ repeat match goal with |- context [if ?b then _ else _] => destruct b end; lia. }
  rewrite Em. rewrite Em in E1. assert (Hx : x1 * D2 <= x2 * D1) by nia. clear -Hx H1 H2.
  assert (K1 : D1 < 2 * x1 -> D2 < 2 * x2) by nia.
  assert (K2 : D1 = 2 * x1 -> D2 <= 2 * x2) by nia. clear Hx.
  destruct (Z.ltb_spec D1 (2 * x1)), (Z.ltb_spec D2 (2 * x2)), (Z.eqb_spec D1 (2 * x1)),
    (Z.eqb_spec D2 (2 * x2)), (Z.odd m2); cbn [orb andb]; lia.
Qed.

Lemma nearest_exact N D q : 0 < D -> N = q * D -> nearest (repr N D) = q.
Proof.
  intros HD ->. rewrite nearest_repr, Z.div_mul, Z.mod_mul, Z.mul_0_r by lia.
  rewrite (proj2 (Z.ltb_ge D 0)), (proj2 (Z.eqb_neq D 0)) by lia. cbn [orb andb]. lia.
Qed.

(** ** The rounded result *)

(** In units of [2 ^ -1074]: the exponent that leaves 53 bits, and the mantissa. *)
Definition shift_of (N D : Z) : Z := Z.max 0 (Zdigits2 (N / D) - 53).
Definition mantissa (N D : Z) : Z := nearest (repr N (D * 2 ^ shift_of N D)).

(** A mantissa that rounds up to [2 ^ 53] moves to the next exponent. *)
Definition carry (k m : Z) : Z * Z := if m =? 2 ^ 53 then (k + 1, 2 ^ 52) else (k, m).
Definition pack (s : bool) (km : Z * Z) : double :=
  match km.2 with
  | Z0 => S754_zero s
  | Z.pos p => if km.1 <=? 2045 then S754_finite s p (km.1 - 1074) else S754_infinity s
  | Z.neg _ => S754_nan
  end.
Definition rounded (s : bool) (N D : Z) : double := pack s (carry (shift_of N D) (mantissa N D)).

Lemma Zdigits2_pos_log2 p : Zdigits2 (Z.pos p) = Z.log2 (Z.pos p) + 1.
Proof.
  cbn [Zdigits2]. pose proof (digits2_pos_bound p). pose proof (digits2_pos_lower p).
  rewrite (Z.log2_unique (Z.pos p) (Z.pos (digits2_pos p) - 1)); [lia|lia|].
  split; [lia|]. by replace (Z.succ (Z.pos (digits2_pos p) - 1)) with (Z.pos (digits2_pos p)) by lia.
Qed.
Lemma Zdigits2_nonneg m : 0 <= m -> 0 <= Zdigits2 m /\ m < 2 ^ Zdigits2 m.
Proof.
  intros Hm. destruct m as [|p|p]; [done| |lia]. pose proof (digits2_pos_bound p). cbn [Zdigits2]. lia.
Qed.
Lemma Zdigits2_mono m m' : 0 <= m <= m' -> Zdigits2 m <= Zdigits2 m'.
Proof.
  intros [H H']. destruct m as [|p|p]; [apply Zdigits2_nonneg; lia| |lia].
  destruct m' as [|p'|p']; [lia| |lia]. rewrite !Zdigits2_pos_log2.
  pose proof (Z.log2_le_mono _ _ H'). lia.
Qed.
Lemma Zdigits2_lower m k : 0 <= k -> 2 ^ k <= m -> k + 1 <= Zdigits2 m.
Proof.
  intros Hk Hm. pose proof (Z.pow_pos_nonneg 2 k ltac:(lia) Hk).
  destruct m as [|p|p]; [lia| |lia]. rewrite Zdigits2_pos_log2.
  rewrite <- (Z.log2_pow2 k) at 1 by done. pose proof (Z.log2_le_mono _ _ Hm). lia.
Qed.
Lemma Zdigits2_upper m k : 0 <= m -> m < 2 ^ k -> 0 <= k -> Zdigits2 m <= k.
Proof.
  intros Hm Hk H0. destruct m as [|p|p]; [done| |lia]. rewrite Zdigits2_pos_log2.
  pose proof (proj1 (Z.log2_lt_pow2 (Z.pos p) k ltac:(lia)) Hk). lia.
Qed.
Lemma Zdigits2_div m j : 0 <= m -> 0 <= j -> Zdigits2 (m / 2 ^ j) = Z.max 0 (Zdigits2 m - j).
Proof.
  intros Hm Hj. pose proof (Z.pow_pos_nonneg 2 j ltac:(lia) Hj) as Hp.
  destruct (Z.lt_ge_cases m (2 ^ j)) as [Hlt|Hge].
  - rewrite Z.div_small by lia. pose proof (Zdigits2_upper m j Hm Hlt Hj). cbn [Zdigits2]. lia.
  - assert (Hd : 0 < m / 2 ^ j) by (apply Z.div_str_pos; lia).
    destruct (m / 2 ^ j) as [|q|q] eqn:E; [lia| |lia]. destruct m as [|p|p]; [lia| |lia].
    rewrite !Zdigits2_pos_log2, <- E, <- Z.shiftr_div_pow2, Z.log2_shiftr by lia.
    pose proof (Z.log2_le_mono _ _ Hge). rewrite Z.log2_pow2 in * by done. lia.
Qed.

Lemma Zdigits2_shift m k : 0 < m -> 0 <= k -> Zdigits2 (m * 2 ^ k) = Zdigits2 m + k.
Proof.
  intros Hm Hk. pose proof (Z.pow_pos_nonneg 2 k ltac:(lia) Hk). destruct m as [|p|p]; [lia| |lia].
  destruct (Z.pos p * 2 ^ k) as [|q|q] eqn:E; [lia| |lia].
  rewrite !Zdigits2_pos_log2, <- E, Z.log2_mul_pow2 by lia. lia.
Qed.

Lemma mantissa_bounds N D :
  0 <= N -> 0 < D ->
  0 <= mantissa N D <= 2 ^ 53 /\ 0 <= shift_of N D /\ (0 < shift_of N D -> 2 ^ 52 <= mantissa N D).
Proof.
  intros HN HD. unfold mantissa. set (k := shift_of N D).
  assert (Hk : 0 <= k) by (unfold k, shift_of; lia).
  pose proof (Z.pow_pos_nonneg 2 k ltac:(lia) Hk) as Hp.
  assert (Hm : 0 <= N / D) by (apply Z.div_pos; lia).
  rewrite nearest_repr by lia. rewrite <- Z.div_div by lia. set (q := N / D) in *.
  assert (Hq : 0 <= q / 2 ^ k) by (apply Z.div_pos; lia).
  assert (Hd : Zdigits2 (q / 2 ^ k) <= 53).
  { rewrite Zdigits2_div by done. unfold k, shift_of. fold q. lia. }
  pose proof (proj2 (Zdigits2_nonneg _ Hq)) as Hu.
  pose proof (Z.pow_le_mono_r 2 _ 53 ltac:(lia) Hd).
  split; [match goal with |- context [if ?b then _ else _] => destruct b end; lia|]. split; [done|].
  intros Hpos. cut (2 ^ 52 <= q / 2 ^ k); [match goal with |- context [if ?b then _ else _] => destruct b end; lia|].
  apply Z.nlt_ge. intros Hlt. pose proof (Zdigits2_upper _ 52 Hq Hlt ltac:(lia)) as Hup.
  rewrite Zdigits2_div in Hup by done. unfold k, shift_of in Hup, Hpos. fold q in Hup, Hpos. lia.
Qed.

(** The exponent of the register is the exponent of the exact value. *)
Lemma shift_of_scaled N D N0 D0 j :
  0 <= N0 -> 0 < D0 -> 0 <= N -> 0 < D ->
  N * D0 * 2 ^ Z.max 0 (- j) = N0 * D * 2 ^ Z.max 0 j ->
  j <= Z.max (Zdigits2 (N0 / D0) + j - 53) 0 ->
  Z.max (Zdigits2 (N0 / D0) + j - 53) 0 = shift_of N D.
Proof.
  intros HN0 HD0 HN HD E Hj. unfold shift_of.
  pose proof (Z.pow_pos_nonneg 2 (Z.max 0 (- j)) ltac:(lia) ltac:(lia)) as P1.
  pose proof (Z.pow_pos_nonneg 2 (Z.max 0 j) ltac:(lia) ltac:(lia)) as P2.
  assert (Hm : 0 <= N0 / D0) by (apply Z.div_pos; lia).
  assert (Hq : 0 <= N / D) by (apply Z.div_pos; lia).
  destruct (Z.le_gt_cases j 0) as [Hneg|Hpos].
  - replace (Z.max 0 (- j)) with (- j) in * by lia. replace (Z.max 0 j) with 0 in E by lia.
    assert (Eq : N / D = N0 / D0 / 2 ^ (- j)).
    { rewrite Z.div_div by lia. rewrite <- (Z.div_mul_cancel_r N D (D0 * 2 ^ (- j))) by lia.
      rewrite <- (Z.div_mul_cancel_r N0 (D0 * 2 ^ (- j)) D) by lia. f_equal; lia. }
    rewrite Eq, Zdigits2_div by lia. lia.
  - replace (Z.max 0 (- j)) with 0 in E by lia. replace (Z.max 0 j) with j in * by lia.
    assert (Hd : 0 < Zdigits2 (N0 / D0)) by lia.
    assert (Eq : N0 / D0 = N / D / 2 ^ j).
    { rewrite Z.div_div by lia. rewrite <- (Z.div_mul_cancel_r N0 D0 (D * 2 ^ j)) by lia.
      rewrite <- (Z.div_mul_cancel_r N (D * 2 ^ j) D0) by lia. f_equal; lia. }
    rewrite Eq, Zdigits2_div in Hd |- * by lia. lia.
Qed.

(** The second pass of [binary_round_aux]. *)
Lemma second_pass k m :
  0 <= k -> 0 <= m <= 2 ^ 53 ->
  shr_fexp 53 1024 m (k - 1074) loc_Exact =
    (repr (carry k m).2 1, (carry k m).1 - 1074).
Proof.
  intros Hk Hm. unfold shr_fexp, fexp, emin, carry.
  assert (Hr : shr_record_of_loc m loc_Exact = repr m 1).
  { cbn [shr_record_of_loc]. unfold repr. by rewrite Z.div_1_r, Z.mod_1_r. }
  rewrite Hr. destruct (Z.eqb_spec m (2 ^ 53)) as [->|Hne]; cbn [fst snd].
  - change (Zdigits2 (2 ^ 53)) with 54.
    replace (Z.max (54 + (k - 1074) - 53) (3 - 1024 - 53) - (k - 1074)) with 1 by lia.
    rewrite shr_repr by lia. f_equal; first [by apply repr_ratio | lia].
  - pose proof (Zdigits2_upper m 53 ltac:(lia) ltac:(lia) ltac:(lia)).
    set (n := _ - (k - 1074)). assert (Hn : n <= 0) by (unfold n; lia).
    clearbody n. destruct n as [|n|n]; [done|lia|done].
Qed.

Lemma round_aux_spec s m e l N0 D0 N D :
  0 <= N0 -> 0 < D0 -> 0 <= N -> 0 < D -> shr_record_of_loc m l = repr N0 D0 ->
  N * D0 * 2 ^ Z.max 0 (- (e + 1074)) = N0 * D * 2 ^ Z.max 0 (e + 1074) ->
  e <= fexp 53 1024 (Zdigits2 m + e) ->
  binary_round_aux 53 1024 s m e l = rounded s N D.
Proof.
  intros HN0 HD0 HN HD Hr E He.
  assert (Hm : m = N0 / D0).
  { apply (f_equal shr_m) in Hr. cbn in Hr. rewrite <- Hr. by destruct l as [|[]]. }
  set (j := e + 1074) in *.
  assert (Hsh : fexp 53 1024 (Zdigits2 m + e) = shift_of N D - 1074).
  { rewrite <- (shift_of_scaled N D N0 D0 j) by (first [done | unfold fexp, emin in He; subst m; lia]).
    unfold fexp, emin. subst m. lia. }
  unfold binary_round_aux, shr_fexp at 1. rewrite Hr, Hsh, shr_repr by lia.
  replace (e + (shift_of N D - 1074 - e)) with (shift_of N D - 1074) by lia.
  assert (Hrep : repr N0 (D0 * 2 ^ (shift_of N D - 1074 - e)) = repr N (D * 2 ^ shift_of N D)).
  { pose proof (Z.pow_pos_nonneg 2 (shift_of N D) ltac:(lia) ltac:(unfold shift_of; lia)).
    pose proof (Z.pow_pos_nonneg 2 (shift_of N D - 1074 - e) ltac:(lia) ltac:(lia)).
    pose proof (Z.pow_pos_nonneg 2 (Z.max 0 (- j)) ltac:(lia) ltac:(lia)).
    apply repr_ratio; [lia|lia|].
    assert (Ep : 2 ^ Z.max 0 (- j) * 2 ^ shift_of N D = 2 ^ Z.max 0 j * 2 ^ (shift_of N D - 1074 - e)).
    { rewrite <- !Z.pow_add_r by (unfold shift_of, j in *; lia). f_equal. unfold j. lia. }
    apply (Z.mul_reg_r _ _ (2 ^ Z.max 0 (- j))); [lia|].
    transitivity (N0 * D * (2 ^ Z.max 0 (- j) * 2 ^ shift_of N D)); [ring|]. rewrite Ep.
    transitivity (N0 * D * 2 ^ Z.max 0 j * 2 ^ (shift_of N D - 1074 - e)); [ring|]. rewrite <- E. ring. }
  rewrite Hrep. fold (nearest (repr N (D * 2 ^ shift_of N D))). fold (mantissa N D).
  destruct (mantissa_bounds N D HN HD) as (B1 & B2 & _).
  rewrite second_pass by done. unfold rounded, pack.
  assert (Es : shr_m (repr (carry (shift_of N D) (mantissa N D)).2 1) = (carry (shift_of N D) (mantissa N D)).2)
    by (cbn [repr shr_m]; apply Z.div_1_r).
  rewrite Es. destruct (carry (shift_of N D) (mantissa N D)) as [k [|p|p]]; [done| |done].
  cbn [fst snd]. destruct (Z.leb_spec (k - 1074) (1024 - 53)), (Z.leb_spec k 2045); lia || done.
Qed.

(** ** The rank of the rounded result *)

Definition rank_of (km : Z * Z) : Z :=
  if km.2 =? 0 then 0 else if km.1 <=? 2045 then km.1 * 2 ^ 53 + km.2 else 2 ^ 64.
Definition rnd (N D : Z) : Z := rank_of (carry (shift_of N D) (mantissa N D)).
Definition srnd (N D : Z) : Z := if N <? 0 then - rnd (- N) D else rnd N D.

Lemma rounded_rank s N D :
  0 <= N -> 0 < D ->
  is_key (rounded s N D) = true /\ rank (rounded s N D) = if s then - rnd N D else rnd N D.
Proof.
  intros HN HD. unfold rounded, rnd. destruct (mantissa_bounds N D HN HD) as (B1 & B2 & B3).
  assert (HC : let c := carry (shift_of N D) (mantissa N D) in
    0 <= c.2 < 2 ^ 53 /\ 0 <= c.1 /\ (0 < c.1 -> 2 ^ 52 <= c.2)).
  { unfold carry. destruct (Z.eqb_spec (mantissa N D) (2 ^ 53)); cbn [fst snd]; lia. }
  destruct (carry (shift_of N D) (mantissa N D)) as [k m]. cbn [fst snd] in HC. destruct HC as (H1 & H2 & H3).
  unfold pack, rank_of. cbn [fst snd]. destruct m as [|p|p]; [by destruct s| |lia].
  cbn [Z.eqb]. destruct (Z.leb_spec k 2045); [|by destruct s].
  split.
  - cbn [is_key]. unfold valid_double, valid_binary, bounded, canonical_mantissa, fexp, emin.
    change (Z.pos (digits2_pos p)) with (Zdigits2 (Z.pos p)).
    pose proof (Zdigits2_upper (Z.pos p) 53 ltac:(lia) ltac:(lia) ltac:(lia)).
    pose proof (Zdigits2_lower (Z.pos p) 52 ltac:(lia)).
    apply andb_true_iff; split; [apply Z.eqb_eq|apply Z.leb_le]; lia.
  - cbn [rank]. replace (k - 1074 + 1074) with k by lia. done.
Qed.

Lemma rnd_nonneg N D : 0 <= N -> 0 < D -> 0 <= rnd N D <= 2 ^ 64.
Proof.
  intros HN HD. destruct (mantissa_bounds N D HN HD) as (B1 & B2 & _).
  unfold rnd, rank_of, carry. destruct (mantissa N D =? 2 ^ 53); cbn [fst snd];
    repeat match goal with |- context [if ?b then _ else _] => destruct b eqn:? end; zb; lia.
Qed.

Lemma rnd_mono N1 D1 N2 D2 :
  0 <= N1 -> 0 < D1 -> 0 <= N2 -> 0 < D2 -> N1 * D2 <= N2 * D1 -> rnd N1 D1 <= rnd N2 D2.
Proof.
  intros HN1 HD1 HN2 HD2 H.
  destruct (mantissa_bounds N1 D1 HN1 HD1) as (A1 & A2 & A3).
  destruct (mantissa_bounds N2 D2 HN2 HD2) as (B1 & B2 & B3).
  assert (Hk : shift_of N1 D1 <= shift_of N2 D2).
  { unfold shift_of. pose proof (div_le_ratio _ _ _ _ HD1 HD2 H).
    pose proof (Zdigits2_mono (N1 / D1) (N2 / D2) ltac:(split; [apply Z.div_pos; lia|done])). lia. }
  assert (Hm : shift_of N1 D1 = shift_of N2 D2 -> mantissa N1 D1 <= mantissa N2 D2).
  { intros Ek. unfold mantissa. rewrite Ek. pose proof (Z.pow_pos_nonneg 2 (shift_of N2 D2) ltac:(lia) B2).
    apply nearest_mono; nia. }
  unfold rnd, carry, rank_of.
  destruct (Z.eqb_spec (mantissa N1 D1) (2 ^ 53)), (Z.eqb_spec (mantissa N2 D2) (2 ^ 53)); cbn [fst snd];
    repeat match goal with |- context [if ?b then _ else _] => destruct b eqn:? end; zb; lia.
Qed.

Lemma rnd_0 D : 0 < D -> rnd 0 D = 0.
Proof.
  intros HD. unfold rnd, mantissa, shift_of. rewrite Z.div_0_l by lia. cbn [Zdigits2].
  rewrite (nearest_exact 0 _ 0) by lia. done.
Qed.

Lemma srnd_mono N1 D1 N2 D2 : 0 < D1 -> 0 < D2 -> N1 * D2 <= N2 * D1 -> srnd N1 D1 <= srnd N2 D2.
Proof.
  intros HD1 HD2 H. unfold srnd. destruct (Z.ltb_spec N1 0), (Z.ltb_spec N2 0).
  - pose proof (rnd_mono (- N2) D2 (- N1) D1 ltac:(lia) HD2 ltac:(lia) HD1 ltac:(lia)). lia.
  - pose proof (rnd_nonneg (- N1) D1 ltac:(lia) HD1). pose proof (rnd_nonneg N2 D2 ltac:(lia) HD2). lia.
  - nia.
  - by apply rnd_mono.
Qed.
Lemma srnd_bound N D : 0 < D -> - 2 ^ 64 <= srnd N D <= 2 ^ 64.
Proof.
  intros HD. unfold srnd. destruct (Z.ltb_spec N 0).
  - pose proof (rnd_nonneg (- N) D ltac:(lia) HD). lia.
  - pose proof (rnd_nonneg N D ltac:(lia) HD). lia.
Qed.
Lemma srnd_signed (s : bool) N D :
  0 <= N -> 0 < D -> srnd (if s then - N else N) D = if s then - rnd N D else rnd N D.
Proof.
  intros HN HD. unfold srnd. destruct s.
  - rewrite Z.opp_involutive. destruct (Z.ltb_spec (- N) 0); [done|].
    assert (N = 0) as -> by lia. change (- 0) with 0. by rewrite rnd_0.
  - by rewrite (proj2 (Z.ltb_ge N 0)).
Qed.

(** ** The exact value of a double *)

Definition sval (x : double) : Z :=
  match x with
  | S754_finite s m e => let a := Z.pos m * 2 ^ (e + 1074) in if s then - a else a
  | _ => 0
  end.
Definition finite (x : double) : bool :=
  match x with S754_zero _ => true | S754_finite _ _ _ => valid_double x | _ => false end.

(** [x] is the exact rational [N / D], in units of [2 ^ -1074], rounded to nearest even. *)
Definition rounds (x : double) (N D : Z) : Prop := is_key x = true /\ rank x = srnd N D.

Lemma rounds_rounded (s : bool) N D N' :
  0 <= N -> 0 < D -> N' = (if s then - N else N) -> rounds (rounded s N D) N' D.
Proof.
  intros HN HD ->. destruct (rounded_rank s N D HN HD) as [H1 H2]. split; [done|]. by rewrite srnd_signed.
Qed.
Lemma rounds_zero s D : 0 < D -> rounds (S754_zero s) 0 D.
Proof.
  intros HD. split; [done|]. cbn [rank]. unfold srnd. cbn [Z.ltb Z.compare].
  by rewrite rnd_0.
Qed.

(** Sign and magnitude of a finite value. *)
Lemma finite_key x : finite x = true -> is_key x = true.
Proof. by destruct x. Qed.

Lemma exact_record m : 0 <= m -> shr_record_of_loc m loc_Exact = repr m 1.
Proof. intros Hm. cbn [shr_record_of_loc]. unfold repr. by rewrite Z.div_1_r, Z.mod_1_r. Qed.

(** ** Products *)

Lemma dmul_rounds x y :
  finite x = true -> finite y = true -> rounds (dmul x y) (sval x * sval y) (2 ^ 1074).
Proof.
  destruct x as [sx|sx| |sx mx ex], y as [sy|sy| |sy my ey]; try done; intros Hx Hy;
    unfold dmul; cbn [SFmul sval]; rewrite ?Z.mul_0_l, ?Z.mul_0_r; try (by apply rounds_zero).
  destruct (valid_finite sx mx ex Hx) as (Ex & Mx & Nx), (valid_finite sy my ey Hy) as (Ey & My & Ny).
  pose proof (Z.pow_pos_nonneg 2 (ex + 1074) ltac:(lia) ltac:(lia)) as Px.
  pose proof (Z.pow_pos_nonneg 2 (ey + 1074) ltac:(lia) ltac:(lia)) as Py.
  set (N := Z.pos mx * 2 ^ (ex + 1074) * (Z.pos my * 2 ^ (ey + 1074))).
  rewrite (round_aux_spec _ _ _ _ (Z.pos (mx * my)) 1 N (2 ^ 1074));
    [|lia|lia|unfold N; lia|done|by apply exact_record| |].
  - apply rounds_rounded; [unfold N; lia|done|]. unfold N. destruct sx, sy; cbn [xorb]; ring.
  - unfold N. rewrite Pos2Z.inj_mul.
    assert (Ep : 2 ^ (ex + 1074) * 2 ^ (ey + 1074) * 2 ^ Z.max 0 (- (ex + ey + 1074)) =
                 2 ^ 1074 * 2 ^ Z.max 0 (ex + ey + 1074)).
    { rewrite <- !Z.pow_add_r by lia. f_equal. lia. }
    transitivity (Z.pos mx * Z.pos my * (2 ^ (ex + 1074) * 2 ^ (ey + 1074) * 2 ^ Z.max 0 (- (ex + ey + 1074))));
      [ring|]. rewrite Ep. ring.
  - unfold fexp, emin. destruct (Z.le_gt_cases (ex + ey) (-1074)); [lia|].
    assert (2 ^ 52 <= Z.pos (mx * my)).
    { rewrite Pos2Z.inj_mul. destruct (Z.le_gt_cases ex (-1074)); nia. }
    pose proof (Zdigits2_lower (Z.pos (mx * my)) 52 ltac:(lia)). lia.
Qed.

(** ** Sums *)

(** A finite double is its own rounding. *)
Lemma exact_rounds x : finite x = true -> rounds x (sval x) 1.
Proof.
  destruct x as [s|s| |s m e]; intros Hx; try done.
  destruct (valid_finite s m e Hx) as (He & Hm & Hn).
  split; [done|]. cbn [sval rank]. set (k := e + 1074).
  pose proof (Z.pow_pos_nonneg 2 k ltac:(lia) ltac:(lia)) as Pk.
  rewrite srnd_signed by lia.
  assert (E : rnd (Z.pos m * 2 ^ k) 1 = k * 2 ^ 53 + Z.pos m); [|by rewrite E].
  assert (Ek : shift_of (Z.pos m * 2 ^ k) 1 = k).
  { unfold shift_of. rewrite Z.div_1_r. pose proof (Zdigits2_upper (Z.pos m) 53 ltac:(lia) Hm ltac:(lia)) as Hu.
    rewrite Zdigits2_shift by lia. destruct (Z.le_gt_cases k 0); [lia|].
    pose proof (Zdigits2_lower (Z.pos m) 52 ltac:(lia) (Hn ltac:(lia))). lia. }
  unfold rnd, mantissa. rewrite Ek, (nearest_exact _ _ (Z.pos m)) by lia.
  unfold carry, rank_of. rewrite (proj2 (Z.eqb_neq (Z.pos m) (2 ^ 53))) by lia. cbn [fst snd Z.eqb].
  rewrite (proj2 (Z.leb_le k 2045)) by lia. done.
Qed.

Lemma shl_align_spec m e e' :
  Z.pos (shl_align m e e').1 = Z.pos m * 2 ^ Z.max 0 (e - e') /\
  (shl_align m e e').2 = Z.min e e'.
Proof.
  unfold shl_align. destruct (e' - e) as [|d|d] eqn:E; cbn [fst snd].
  - replace (Z.max 0 (e - e')) with 0 by lia. lia.
  - replace (Z.max 0 (e - e')) with 0 by lia. lia.
  - replace (Z.max 0 (e - e')) with (Z.pos d) by lia. split; [|lia].
    assert (H : forall p : positive, Z.pos (Pos.iter xO m p) = Z.pos m * 2 ^ Z.pos p).
    { intros p. induction p as [|p IH] using Pos.peano_ind; [cbn; lia|].
      rewrite Pos.iter_succ, Pos2Z.inj_succ, Z.pow_succ_r by lia. rewrite (Pos2Z.inj_xO (Pos.iter _ _ _)), IH. ring. }
    apply H.
Qed.

(** A sum that was computed exactly at exponent [e], then rounded. *)
Lemma binary_normalize_rounds z e s :
  -1074 <= e -> rounds (binary_normalize 53 1024 z e s) (z * 2 ^ (e + 1074)) 1.
Proof.
  intros He. pose proof (Z.pow_pos_nonneg 2 (e + 1074) ltac:(lia) ltac:(lia)) as Pe.
  assert (H : forall sg p, rounds (binary_round 53 1024 sg p e)
    (if sg then - (Z.pos p * 2 ^ (e + 1074)) else Z.pos p * 2 ^ (e + 1074)) 1).
  { intros sg p. unfold binary_round. change (Z.pos (digits2_pos p)) with (Zdigits2 (Z.pos p)).
    set (f := fexp 53 1024 (Zdigits2 (Z.pos p) + e)).
    destruct (shl_align_spec p e f) as [Em Ee]. destruct (shl_align p e f) as [mz ez]. cbn [fst snd] in Em, Ee.
    subst ez. pose proof (Z.pow_pos_nonneg 2 (Z.max 0 (e - f)) ltac:(lia) ltac:(lia)) as Pf.
    assert (Hf : -1074 <= f) by (unfold f, fexp, emin; lia).
    rewrite (round_aux_spec _ _ _ _ (Z.pos mz) 1 (Z.pos p * 2 ^ (e + 1074)) 1);
      [|lia|lia|lia|done|by apply exact_record| |].
    - by apply rounds_rounded; [lia| |].
    - replace (Z.max 0 (- (Z.min e f + 1074))) with 0 by lia.
      replace (Z.max 0 (Z.min e f + 1074)) with (Z.min e f + 1074) by lia. rewrite Em.
      replace (e + 1074) with (Z.max 0 (e - f) + (Z.min e f + 1074)) by lia.
      rewrite Z.pow_add_r by lia. ring.
    - rewrite Em, Zdigits2_shift by lia. unfold f, fexp, emin in *. lia. }
  destruct z as [|p|p]; cbn [binary_normalize]; [by apply rounds_zero|apply (H false)|].
  replace (Z.neg p * 2 ^ (e + 1074)) with (- (Z.pos p * 2 ^ (e + 1074))) by lia. apply (H true).
Qed.

Lemma double_of_Z_rounds z : rounds (double_of_Z z) (z * 2 ^ 1074) 1.
Proof. apply (binary_normalize_rounds z 0 false). lia. Qed.

Lemma dadd_rounds x y :
  finite x = true -> finite y = true -> rounds (dadd x y) (sval x + sval y) 1.
Proof.
  destruct x as [sx|sx| |sx mx ex], y as [sy|sy| |sy my ey]; try done; intros Hx Hy;
    unfold dadd; cbn [SFadd].
  - destruct sx, sy; by apply rounds_zero.
  - by apply exact_rounds.
  - replace (sval (S754_finite sx mx ex) + sval (S754_zero sy)) with (sval (S754_finite sx mx ex)) by (cbn [sval]; lia).
    by apply exact_rounds.
  - destruct (valid_finite sx mx ex Hx) as (Ex & _ & _), (valid_finite sy my ey Hy) as (Ey & _ & _).
    cbn [sval].
    pose proof (proj1 (shl_align_spec mx ex (Z.min ex ey))) as Ax.
    pose proof (proj1 (shl_align_spec my ey (Z.min ex ey))) as Ay.
    set (x' := (shl_align mx ex (Z.min ex ey)).1) in *. set (y' := (shl_align my ey (Z.min ex ey)).1) in *.
    match goal with |- rounds (binary_normalize _ _ ?z ?e ?s) ?N _ =>
      assert (E : N = z * 2 ^ (e + 1074)) end.
    { assert (Qx : Z.pos mx * 2 ^ (ex + 1074) = Z.pos x' * 2 ^ (Z.min ex ey + 1074)).
      { rewrite Ax, <- Z.mul_assoc, <- Z.pow_add_r by lia. do 2 f_equal. lia. }
      assert (Qy : Z.pos my * 2 ^ (ey + 1074) = Z.pos y' * 2 ^ (Z.min ex ey + 1074)).
      { rewrite Ay, <- Z.mul_assoc, <- Z.pow_add_r by lia. do 2 f_equal. lia. }
      rewrite Qx, Qy. destruct sx, sy; cbn [cond_Zopp]; ring. }
    rewrite E. apply binary_normalize_rounds. lia.
Qed.

(** ** Quotients *)

Lemma location_record m d :
  0 < d -> 0 <= m -> shr_record_of_loc (m / d) (new_location d (m mod d)) = repr m d.
Proof.
  intros Hd Hm. unfold repr. cbv zeta. pose proof (Z.mod_pos_bound m d Hd). generalize dependent (m mod d). intros x H.
  assert (K : forall c, (c = Eq -> 2 * x = d) -> (c = Lt -> 2 * x < d) -> (c = Gt -> d < 2 * x) -> x <> 0 ->
    shr_record_of_loc (m / d) (loc_Inexact c) =
    Build_shr_record (m / d) (d <=? 2 * x) (negb (2 * x =? (if d <=? 2 * x then d else 0)))).
  { intros c C1 C2 C3 Hx. destruct c; cbn [shr_record_of_loc].
    - specialize (C1 eq_refl). rewrite (proj2 (Z.leb_le d (2 * x))), (proj2 (Z.eqb_eq (2 * x) d)) by lia. done.
    - specialize (C2 eq_refl). rewrite (proj2 (Z.leb_gt d (2 * x))), (proj2 (Z.eqb_neq (2 * x) 0)) by lia. done.
    - specialize (C3 eq_refl). rewrite (proj2 (Z.leb_le d (2 * x))), (proj2 (Z.eqb_neq (2 * x) d)) by lia. done. }
  unfold new_location, new_location_even, new_location_odd.
  destruct x as [|p|p]; [|set (x := Z.pos p) in *|lia].
  { rewrite (proj2 (Z.leb_gt d (2 * 0))) by lia. by destruct (Z.even d). }
  assert (Hx : x <> 0) by done. destruct (Z.even d) eqn:Ed.
  - apply (K (2 * x ?= d)); [by intros ?%Z.compare_eq_iff|done|by intros ?%Z.compare_gt_iff|done].
  - assert (Hodd : d <> 2 * x) by (intros E; rewrite E, Z.even_mul in Ed; done).
    apply (K (match 2 * x + 1 ?= d with Gt => Gt | _ => Lt end)); [| | |done];
      destruct (Z.compare_spec (2 * x + 1) d); intros; lia || done.
Qed.

Lemma ddiv_rounds x y :
  finite x = true -> finite y = true -> 0 < sval y -> rounds (ddiv x y) (sval x * 2 ^ 1074) (sval y).
Proof.
  destruct x as [sx|sx| |sx mx ex], y as [sy|sy| |sy my ey]; intros Hx Hy Hpos;
    cbn [sval] in Hpos; try done; unfold ddiv; cbn [SFdiv].
  - by apply rounds_zero.
  - destruct (valid_finite sx mx ex Hx) as (Ex & Mx & Nx), (valid_finite sy my ey Hy) as (Ey & My & Ny).
    pose proof (Z.pow_pos_nonneg 2 (ex + 1074) ltac:(lia) ltac:(lia)) as Px.
    pose proof (Z.pow_pos_nonneg 2 (ey + 1074) ltac:(lia) ltac:(lia)) as Py.
    destruct sy; [lia|]. cbn [sval].
    unfold SFdiv_core_binary. set (d1 := Zdigits2 (Z.pos mx)). set (d2 := Zdigits2 (Z.pos my)).
    set (e' := Z.min _ (ex - ey)). set (s := ex - ey - e').
    assert (Hs : 0 <= s) by (unfold s, e'; lia).
    pose proof (Z.pow_pos_nonneg 2 s ltac:(lia) Hs) as Ps.
    assert (Em : match s with Z.pos _ => Z.shiftl (Z.pos mx) s | Z0 => Z.pos mx | Z.neg _ => 0 end = Z.pos mx * 2 ^ s).
    { destruct s as [|s|s]; [lia|by rewrite Z.shiftl_mul_pow2|lia]. }
    rewrite Em. set (m' := Z.pos mx * 2 ^ s).
    destruct (Z.div_eucl m' (Z.pos my)) as [q r] eqn:Eqr.
    assert (Eq : q = m' / Z.pos my) by (unfold Z.div; by rewrite Eqr).
    assert (Er : r = m' mod Z.pos my) by (unfold Z.modulo; by rewrite Eqr).
    rewrite Eq, Er. clear Eqr Eq Er q r.
    rewrite (round_aux_spec _ _ _ _ m' (Z.pos my) (Z.pos mx * 2 ^ (ex + 1074) * 2 ^ 1074) (Z.pos my * 2 ^ (ey + 1074)));
      [|unfold m'; lia|lia|lia|lia|apply location_record; unfold m'; lia| |].
    + apply rounds_rounded; [lia|lia|]. destruct sx; cbn [xorb]; ring.
    + unfold m'. assert (Ep : 2 ^ (ex + 1074) * 2 ^ 1074 * 2 ^ Z.max 0 (- (e' + 1074)) =
                              2 ^ s * 2 ^ (ey + 1074) * 2 ^ Z.max 0 (e' + 1074)).
      { rewrite <- !Z.pow_add_r by lia. f_equal. unfold s. lia. }
      transitivity (Z.pos mx * Z.pos my * (2 ^ (ex + 1074) * 2 ^ 1074 * 2 ^ Z.max 0 (- (e' + 1074)))); [ring|].
      rewrite Ep. ring.
    + assert (Hd : d1 + s - d2 <= Zdigits2 (m' / Z.pos my)).
      { destruct (Z.le_gt_cases (d1 + s - d2) 0) as [|Hgt].
        - pose proof (Zdigits2_nonneg (m' / Z.pos my) (Z.div_pos m' (Z.pos my) ltac:(unfold m'; lia) ltac:(lia))). lia.
        - replace (d1 + s - d2) with ((d1 + s - d2 - 1) + 1) by lia. apply Zdigits2_lower; [lia|].
          apply Z.div_le_lower_bound; [lia|].
          pose proof (digits2_pos_lower mx) as Lx. change (Z.pos (digits2_pos mx)) with d1 in Lx.
          pose proof (proj2 (Zdigits2_nonneg (Z.pos my) ltac:(lia))) as Uy. fold d2 in Uy.
          pose proof (Zdigits2_nonneg (Z.pos my) ltac:(lia)) as Dy. fold d2 in Dy.
          assert (1 <= d1) by (unfold d1; cbn [Zdigits2]; lia).
          unfold m'. transitivity (2 ^ d2 * 2 ^ (d1 + s - d2 - 1)).
          { apply Z.mul_le_mono_nonneg_r; [apply Z.pow_nonneg|]; lia. }
          rewrite <- Z.pow_add_r by lia. replace (d2 + (d1 + s - d2 - 1)) with (d1 - 1 + s) by lia.
          rewrite Z.pow_add_r by lia. apply Z.mul_le_mono_nonneg_r; lia. }
      unfold e', fexp, emin in *. unfold s in Hd. lia.
Qed.

(** ** Order *)

Lemma sval_le x y : finite x = true -> finite y = true -> rank x <= rank y <-> sval x <= sval y.
Proof.
  intros Hx Hy. destruct (exact_rounds x Hx) as [Kx Rx], (exact_rounds y Hy) as [Ky Ry]. split.
  - intros H. apply Z.nlt_ge. intros Hlt.
    assert (Hr : rank y <= rank x) by (rewrite Rx, Ry; apply srnd_mono; lia).
    destruct (rank_inj x y Kx Ky ltac:(lia)) as [->|[Zx Zy]]; [lia|].
    assert (Z0 : forall z, finite z = true -> rank z = 0 -> sval z = 0).
    { intros [s|s| |s m e] Hz; try done. cbn [rank]. pose proof (rank_bound s m e Hz). destruct s; lia. }
    rewrite (Z0 x Hx Zx), (Z0 y Hy Zy) in Hlt. lia.
  - intros H. rewrite Rx, Ry. apply srnd_mono; lia.
Qed.

(** A key is finite or one of the infinities, which are the extreme ranks. *)
Lemma key_cases x : is_key x = true -> finite x = true \/ exists s, x = S754_infinity s.
Proof. destruct x; naive_solver. Qed.
Lemma finite_rank x : finite x = true -> - 2 ^ 64 < rank x < 2 ^ 64.
Proof.
  destruct x as [s|s| |s m e]; try done. intros Hx. pose proof (rank_bound s m e Hx).
  cbn [rank]. destruct s; lia.
Qed.
Lemma rank_range x : is_key x = true -> - 2 ^ 64 <= rank x <= 2 ^ 64.
Proof.
  intros H. destruct (key_cases x H) as [Hf|[[] ->]]; [|done..].
  rewrite (proj2 (exact_rounds x Hf)). by apply srnd_bound.
Qed.

Lemma rank_finite k : is_key k = true -> Z.abs (rank k) < 2 ^ 64 -> finite k = true.
Proof. destruct k as [s|s| |s m e]; [done| |done|]; cbn; [destruct s; cbn; lia|done]. Qed.

Lemma dmul_key x y : finite x = true -> finite y = true -> is_key (dmul x y) = true.
Proof. intros. by apply dmul_rounds. Qed.
Lemma dmul_mono x y s :
  finite x = true -> finite y = true -> finite s = true -> 0 <= sval s ->
  rank x <= rank y -> rank (dmul x s) <= rank (dmul y s).
Proof.
  intros Hx Hy Hs H0 H%sval_le; try done. rewrite (proj2 (dmul_rounds x s Hx Hs)), (proj2 (dmul_rounds y s Hy Hs)).
  apply srnd_mono; [done|done|]. apply Z.mul_le_mono_nonneg_r; [done|]. nia.
Qed.

Lemma dadd_key x c : is_key x = true -> finite c = true -> is_key (dadd x c) = true.
Proof.
  intros Hx Hc. destruct (key_cases x Hx) as [Hf|[s ->]]; [by apply dadd_rounds|].
  destruct c; done.
Qed.
Lemma dadd_mono x y c :
  is_key x = true -> is_key y = true -> finite c = true -> rank x <= rank y -> rank (dadd x c) <= rank (dadd y c).
Proof.
  intros Hx Hy Hc H.
  assert (Hinf : forall s, dadd (S754_infinity s) c = S754_infinity s) by (intros s; destruct c; done).
  pose proof (rank_range _ (dadd_key x c Hx Hc)) as Bx. pose proof (rank_range _ (dadd_key y c Hy Hc)) as By.
  destruct (key_cases x Hx) as [Fx|[[] ->]]; [|rewrite Hinf; cbn [rank] in *; lia|].
  - pose proof (finite_rank x Fx). destruct (key_cases y Hy) as [Fy|[[] ->]].
    + apply sval_le in H; [|done..]. rewrite (proj2 (dadd_rounds x c Fx Hc)), (proj2 (dadd_rounds y c Fy Hc)).
      apply srnd_mono; lia.
    + cbn [rank] in H. lia.
    + rewrite Hinf. cbn [rank] in *. lia.
  - destruct (key_cases y Hy) as [Fy|[[] ->]]; [|cbn [rank] in H; lia|done].
    pose proof (finite_rank y Fy). cbn [rank] in H. lia.
Qed.

Lemma ddiv_key x d : is_key x = true -> finite d = true -> 0 < sval d -> is_key (ddiv x d) = true.
Proof.
  intros Hx Hd H0. destruct (key_cases x Hx) as [Hf|[s ->]]; [by apply ddiv_rounds|].
  destruct d; done.
Qed.

Lemma ddiv_mono x y d :
  is_key x = true -> is_key y = true -> finite d = true -> 0 < sval d ->
  rank x <= rank y -> rank (ddiv x d) <= rank (ddiv y d).
Proof.
  intros Hx Hy Hd H0 H.
  assert (Hinf : forall s, ddiv (S754_infinity s) d = S754_infinity s).
  { intros s. destruct d as [sd| | |sd m e]; try done; cbn [sval] in H0. destruct sd; [lia|]. by destruct s. }
  pose proof (rank_range _ (ddiv_key x d Hx Hd H0)) as Bx. pose proof (rank_range _ (ddiv_key y d Hy Hd H0)) as By.
  destruct (key_cases x Hx) as [Fx|[[] ->]]; [|rewrite Hinf; cbn [rank] in *; lia|].
  - pose proof (finite_rank x Fx). destruct (key_cases y Hy) as [Fy|[[] ->]].
    + apply sval_le in H; [|done..]. rewrite (proj2 (ddiv_rounds x d Fx Hd H0)), (proj2 (ddiv_rounds y d Fy Hd H0)).
      apply srnd_mono; [done|done|]. apply Z.mul_le_mono_nonneg_r; [lia|]. apply Z.mul_le_mono_nonneg_r; [|done]. by apply Z.pow_nonneg.
    + cbn [rank] in H. lia.
    + rewrite Hinf. cbn [rank] in *. lia.
  - destruct (key_cases y Hy) as [Fy|[[] ->]]; [|cbn [rank] in H; lia|done].
    pose proof (finite_rank y Fy). cbn [rank] in H. lia.
Qed.

(** Conversion to an integer keeps the order, and accepts finite numbers only. *)
Lemma trunc_sval x z : trunc x = Some z -> valid_double x = true -> finite x = true /\ z = Z.quot (sval x) (2 ^ 1074).
Proof.
  destruct x as [s|s| |s m e]; try done; intros [= <-] Hv; [done|]. split; [done|].
  destruct (valid_finite s m e Hv) as (He & _ & _). cbn [sval].
  assert (E : Z.quot (Z.pos m * 2 ^ (e + 1074)) (2 ^ 1074) =
              if 0 <=? e then Z.pos m * 2 ^ e else Z.pos m / 2 ^ (- e)).
  { rewrite Z.quot_div_nonneg by (first [done | apply Z.mul_nonneg_nonneg; [done|by apply Z.pow_nonneg]]).
    destruct (Z.leb_spec 0 e).
    - rewrite Z.pow_add_r, Z.mul_assoc by lia. by rewrite Z.div_mul.
    - replace (2 ^ 1074) with (2 ^ (- e) * 2 ^ (e + 1074)) by (rewrite <- Z.pow_add_r by lia; f_equal; lia).
      apply Z.div_mul_cancel_r; apply Z.pow_nonzero; lia. }
  destruct s; [rewrite Z.quot_opp_l by done; by rewrite E|by rewrite E].
Qed.
Lemma trunc_mono x y a b :
  is_key x = true -> is_key y = true -> rank x <= rank y -> trunc x = Some a -> trunc y = Some b -> a <= b.
Proof.
  intros Hx Hy H Ha Hb.
  destruct (trunc_sval x a Ha) as [Fx ->]; [by destruct x|].
  destruct (trunc_sval y b Hb) as [Fy ->]; [by destruct y|].
  apply sval_le in H; [|done..]. apply Z.quot_le_mono; [done|done].
Qed.
Lemma to_int64_mono x y a b :
  is_key x = true -> is_key y = true -> rank x <= rank y -> to_int64 x = Ok a -> to_int64 y = Ok b -> a <= b.
Proof.
  unfold to_int64, to_signed_int. intros Hx Hy H Ha Hb.
  destruct (trunc x) as [a'|] eqn:Ea; [|done]. destruct (trunc y) as [b'|] eqn:Eb; [|done].
  pose proof (trunc_mono x y a' b' Hx Hy H Ea Eb).
  destruct (_ && _) in Ha; [|done]. destruct (_ && _) in Hb; [|done]. by simplify_eq.
Qed.
Lemma to_int64_finite x a : is_key x = true -> to_int64 x = Ok a -> finite x = true.
Proof.
  intros Hx H. destruct (key_cases x Hx) as [|[s ->]]; [done|].
  destruct s; vm_compute in H; done.
Qed.
Lemma finite_between x y z :
  finite x = true -> is_key y = true -> finite z = true -> rank x <= rank y <= rank z -> finite y = true.
Proof.
  intros Hx Hy Hz H. destruct (key_cases y Hy) as [|[s ->]]; [done|].
  pose proof (finite_rank x Hx). pose proof (finite_rank z Hz). destruct s; cbn [rank] in H; lia.
Qed.
Lemma to_int64_between x y z a c :
  is_key x = true -> is_key y = true -> is_key z = true -> rank x <= rank y <= rank z ->
  to_int64 x = Ok a -> to_int64 z = Ok c -> exists b, to_int64 y = Ok b.
Proof.
  intros Hx Hy Hz H Ha Hc.
  pose proof (finite_between x y z (to_int64_finite x a Hx Ha) Hy (to_int64_finite z c Hz Hc) H) as Fy.
  unfold to_int64, to_signed_int in *.
  destruct (trunc x) as [a'|] eqn:Ea; [|done]. destruct (trunc z) as [c'|] eqn:Ec; [|done].
  destruct (trunc y) as [b'|] eqn:Eb; [|by destruct y].
  pose proof (trunc_mono x y a' b' Hx Hy ltac:(lia) Ea Eb). pose proof (trunc_mono y z b' c' Hy Hz ltac:(lia) Eb Ec).
  destruct (_ && _) eqn:E1 in Ha; [|done]. destruct (_ && _) eqn:E2 in Hc; [|done]. zb.
  rewrite (proj2 (Z.leb_le _ b')), (proj2 (Z.ltb_lt b' _)) by lia. by eexists.
Qed.

(** ** The model of a node *)

(** Non-negative and finite. *)
Definition rising (slope : double) : bool := finite slope && (0 <=? sval slope).

(** A [float] as a [double] is finite. *)
Definition usable (intercept : float) : bool := finite (double_of_float intercept).

Lemma linear_key k slope ic :
  finite k = true -> finite slope = true -> usable ic = true -> is_key (linear k slope ic) = true.
Proof. intros. apply dadd_key; [|done]. apply dadd_key; [|done]. by apply dmul_key. Qed.

Lemma linear_mono k k' slope ic :
  finite k = true -> finite k' = true -> rising slope = true -> usable ic = true ->
  rank k <= rank k' -> rank (linear k slope ic) <= rank (linear k' slope ic).
Proof.
  intros Hk Hk' [Hf H0]%andb_true_iff Hu H. zb. unfold linear.
  apply dadd_mono; [apply dadd_key; [by apply dmul_key|done]..|done|].
  apply dadd_mono; [by apply dmul_key..|done|]. by apply dmul_mono.
Qed.

(** What every [predict_block] converts to an integer. *)
Definition position (per_block : Z) (k slope : double) (intercept : float) : res Z :=
  to_int64 (ddiv (linear k slope intercept) (double_of_Z per_block)).

(** A model that does not fall and whose value is in range at two keys is in range, and
    monotone, between them. *)
Definition steady (per_block : Z) (slope : double) (intercept : float) (lo hi : double) : bool :=
  rising slope && usable intercept &&
  match position per_block lo slope intercept, position per_block hi slope intercept with
  | Ok _, Ok _ => true
  | _, _ => false
  end.

Section Position.
Context (b : Z) (Hb : finite (double_of_Z b) = true) (Hb0 : 0 < sval (double_of_Z b)).

Lemma position_mono k k' sl ic p p' :
  rising sl = true -> usable ic = true -> finite k = true -> finite k' = true -> rank k <= rank k' ->
  position b k sl ic = Ok p -> position b k' sl ic = Ok p' -> p <= p'.
Proof.
  intros Hs Hu Hk Hk' Hle H H'.
  assert (Hsf : finite sl = true) by (apply andb_true_iff in Hs; apply Hs).
  eapply to_int64_mono; [| | |exact H|exact H']; [apply ddiv_key; [by apply linear_key|done|done]..|].
  apply ddiv_mono; [by apply linear_key..|done|done|by apply linear_mono].
Qed.

Lemma steady_position k sl ic lo hi :
  steady b sl ic lo hi = true -> finite lo = true -> finite k = true -> finite hi = true ->
  rank lo <= rank k <= rank hi -> exists p, position b k sl ic = Ok p.
Proof.
  unfold steady. intros H Hl Hk Hh Hle. apply andb_true_iff in H as [H Hp]. apply andb_true_iff in H as [Hs Hu].
  assert (Hsf : finite sl = true) by (apply andb_true_iff in Hs; apply Hs).
  destruct (position b lo sl ic) as [p|] eqn:El; [|done]. destruct (position b hi sl ic) as [p'|] eqn:Eh; [|done].
  eapply to_int64_between; [| | | |exact El|exact Eh]; [apply ddiv_key; [by apply linear_key|done|done]..|].
  split; (apply ddiv_mono; [by apply linear_key..|done|done|]); apply linear_mono; done || lia.
Qed.
End Position.

(** ** Sizes computed in floating point *)

Lemma double_of_Z_mono z z' : z <= z' -> rank (double_of_Z z) <= rank (double_of_Z z').
Proof.
  intros H. rewrite (proj2 (double_of_Z_rounds z)), (proj2 (double_of_Z_rounds z')).
  apply srnd_mono; [done|done|]. rewrite !Z.mul_1_r. apply Z.mul_le_mono_nonneg_r; [by apply Z.pow_nonneg|done].
Qed.
Lemma double_of_Z_key z : is_key (double_of_Z z) = true.
Proof. apply double_of_Z_rounds. Qed.

Lemma to_uint_between w (f : double -> double) lo n hi a b z :
  (forall x y, is_key x = true -> is_key y = true -> rank x <= rank y -> rank (f x) <= rank (f y)) ->
  (forall x, is_key x = true -> is_key (f x) = true) ->
  lo <= n <= hi -> trunc (f (double_of_Z lo)) = Some a -> trunc (f (double_of_Z hi)) = Some b ->
  to_uint w (f (double_of_Z n)) = Ok z -> a <= z <= b.
Proof.
  intros Hf Hk Hn Ha Hb Hz. unfold to_uint in Hz.
  destruct (trunc (f (double_of_Z n))) as [t|] eqn:Et; [|done].
  destruct (_ && _) in Hz; [|done]. injection Hz as ->.
  pose proof double_of_Z_key as K.
  split; (eapply trunc_mono; [| | |eassumption|eassumption]; [by apply Hk..|]); apply Hf; try done;
    apply double_of_Z_mono; lia.
Qed.
