(* ===== verification/Bytes.v ===== *)
(** * Bytes and memory images

    A byte is an integer in [0, 256).  The hosts are little-endian, so the
    program's [memcpy] of an integer or a [double] moves its little-endian
    image; only the frame header is converted to network order.  [Codec] is
    the interface that the wire formats promise to their users: a fixed size, an
    encoder, a decoder, and the law that decoding undoes encoding. *)

From S2P Require Import Prelude Doubles.

Definition is_byte (b : Z) : Prop := 0 <= b < 256.

#[export] Instance is_byte_dec b : Decision (is_byte b).
Proof. unfold is_byte. apply _. Defined.

(** ** Little-endian and big-endian images *)

Fixpoint le_bytes (n : nat) (z : Z) : list Z :=
  match n with
  | O => []
  | S n' => (z mod 256) :: le_bytes n' (z / 256)
  end.

Fixpoint le_val (l : list Z) : Z :=
  match l with
  | [] => 0
  | b :: l' => b + 256 * le_val l'
  end.

Definition be_bytes (n : nat) (z : Z) : list Z := rev (le_bytes n z).
Definition be_val (l : list Z) : Z := le_val (rev l).

Lemma le_bytes_length n z : length (le_bytes n z) = n.
Proof. revert z; induction n as [|n IH]; intros z; cbn; [done|]. by rewrite IH. Qed.

Lemma be_bytes_length n z : length (be_bytes n z) = n.
Proof. unfold be_bytes. by rewrite length_rev, le_bytes_length. Qed.

Lemma le_val_bytes n z : 0 <= z < 256 ^ Z.of_nat n -> le_val (le_bytes n z) = z.
Proof.
  revert z; induction n as [|n IH]; intros z Hz.
  { cbn in *. lia. }
  rewrite Nat2Z.inj_succ, Z.pow_succ_r in Hz by lia. cbn [le_bytes le_val].
  rewrite IH.
  - pose proof (Z.div_mod z 256). lia.
  - split; [apply Z.div_pos; lia|]. apply Z.div_lt_upper_bound; lia.
Qed.

Lemma le_bytes_bytes n z : Forall is_byte (le_bytes n z).
Proof.
  revert z; induction n as [|n IH]; intros z; cbn; constructor; [|apply IH].
  unfold is_byte. apply Z.mod_pos_bound. lia.
Qed.

Lemma le_val_range l : Forall is_byte l -> 0 <= le_val l < 256 ^ Z.of_nat (length l).
Proof.
  induction 1 as [|b l Hb Hl IH]; cbn [le_val length]; [lia|].
  rewrite Nat2Z.inj_succ, Z.pow_succ_r by lia. unfold is_byte in Hb. lia.
Qed.

Lemma le_bytes_val l : Forall is_byte l -> le_bytes (length l) (le_val l) = l.
Proof.
  induction 1 as [|b l Hb Hl IH]; cbn [le_val length le_bytes]; [done|].
  unfold is_byte in Hb. f_equal.
  - rewrite Z.mul_comm, Z.mod_add by lia. apply Z.mod_small. lia.
  - rewrite Z.mul_comm, Z.div_add by lia. rewrite (Z.div_small b) by lia. apply IH.
Qed.

Lemma be_val_bytes n z : 0 <= z < 256 ^ Z.of_nat n -> be_val (be_bytes n z) = z.
Proof.
  intros Hz. unfold be_val, be_bytes. rewrite rev_involutive. by apply le_val_bytes.
Qed.

Lemma be_bytes_bytes n z : Forall is_byte (be_bytes n z).
Proof. unfold be_bytes. apply Forall_rev, le_bytes_bytes. Qed.

(** ** The codec interface *)

Class Codec (A : Type) := {
  csize : nat;
  enc : A -> list Z;
  dec : list Z -> A;
  cwf : A -> Prop;
  enc_length : forall a, length (enc a) = csize;
  dec_enc : forall a rest, cwf a -> dec (enc a ++ rest) = a
}.
Arguments csize A {_}.

(** A field of a decoded image. *)
Definition field (off n : nat) (l : list Z) : list Z := take n (drop off l).

Lemma field_app (l1 l2 l3 : list Z) off n :
  off = length l1 -> n = length l2 -> field off n (l1 ++ l2 ++ l3) = l2.
Proof.
  intros -> ->. unfold field. rewrite drop_app_length. by rewrite take_app_length.
Qed.

(** [f] is the image of the integer [z] at width [n] when it starts with it. *)
Lemma le_val_take n z rest :
  0 <= z < 256 ^ Z.of_nat n -> le_val (take n (le_bytes n z ++ rest)) = z.
Proof.
  intros Hz. rewrite <- (le_bytes_length n z) at 1.
  rewrite take_app_length. by apply le_val_bytes.
Qed.

(** Unsigned integers of [n] bytes as [memcpy] moves them. *)
Definition uint_codec (n : nat) : Codec Z.
Proof.
  refine {| csize := n; enc := le_bytes n; dec := fun l => le_val (take n l);
            cwf := fun z => 0 <= z < 256 ^ Z.of_nat n |}.
  - intros a. apply le_bytes_length.
  - intros a rest Ha. by apply le_val_take.
Defined.

#[export] Instance double_codec : Codec double.
Proof.
  refine {| csize := 8; enc := fun x => le_bytes 8 (bits_of_double x);
            dec := fun l => double_of_bits (le_val (take 8 l));
            cwf := fun x => valid_double x = true |}.
  - intros a. apply le_bytes_length.
  - intros a rest Ha. rewrite le_val_take.
    + by apply double_bits_roundtrip.
    + change (256 ^ Z.of_nat 8) with (2 ^ 64). by apply bits_range.
Defined.

(** Concatenated images of a list of values. *)
Definition enc_list {A} `{Codec A} (l : list A) : list Z := concat (map enc l).

Fixpoint dec_list {A} `{Codec A} (n : nat) (l : list Z) : list A :=
  match n with
  | O => []
  | S n' => dec l :: dec_list n' (drop (csize A) l)
  end.

Lemma enc_list_length {A} `{Codec A} (l : list A) :
  length (enc_list l) = (length l * csize A)%nat.
Proof.
  induction l as [|a l IH]; cbn; [done|].
  unfold enc_list in *. cbn. rewrite length_app, IH, enc_length. lia.
Qed.

Lemma enc_list_cons {A} `{Codec A} (a : A) l : enc_list (a :: l) = enc a ++ enc_list l.
Proof. reflexivity. Qed.

Lemma drop_enc {A} `{Codec A} (a : A) rest : drop (csize A) (enc a ++ rest) = rest.
Proof. rewrite <- (enc_length a). apply drop_app_length. Qed.

Lemma dec_enc_list {A} `{Codec A} (l : list A) rest :
  Forall cwf l -> dec_list (length l) (enc_list l ++ rest) = l.
Proof.
  induction 1 as [|a l Ha Hl IH]; [done|].
  cbn [length dec_list]. rewrite enc_list_cons, <- app_assoc, drop_enc, IH.
  by rewrite dec_enc.
Qed.

(** ** The helpers every process defines (edge_server.cpp, cloud_server.cpp,
    end_node.cpp) *)

Definition append_u32 (b : list Z) (v : Z) : list Z := b ++ le_bytes 4 v.
Definition append_u64 (b : list Z) (v : Z) : list Z := b ++ le_bytes 8 v.
Definition append_double (b : list Z) (v : double) : list Z := b ++ le_bytes 8 (bits_of_double v).

Definition read_u32 (b : list Z) (off : nat) : option Z :=
  if (length b <? off + 4)%nat then None else Some (le_val (field off 4 b)).

Definition read_double (b : list Z) (off : nat) : option double :=
  if (length b <? off + 8)%nat then None
  else Some (double_of_bits (le_val (field off 8 b))).

(** [memcpy(&out, &b[off], 8)] for a [uint64_t], in range. *)
Definition get_u64 (b : list Z) (off : nat) : Z := le_val (field off 8 b).
Definition get_double (b : list Z) (off : nat) : double :=
  double_of_bits (le_val (field off 8 b)).
(** ... and for an [int32_t]. *)
Definition get_i32 (b : list Z) (off : nat) : Z := i32 (le_val (field off 4 b)).

Lemma read_u32_append pre v rest :
  0 <= v < 2 ^ 32 -> read_u32 (append_u32 pre v ++ rest) (length pre) = Some v.
Proof.
  intros Hv. unfold read_u32, append_u32.
  rewrite !length_app, le_bytes_length.
  destruct (Nat.ltb_spec (length pre + 4 + length rest) (length pre + 4)); [lia|].
  rewrite <- app_assoc, field_app by (rewrite ?le_bytes_length; done).
  by rewrite le_val_bytes.
Qed.

Lemma get_u64_append pre v rest :
  0 <= v < 2 ^ 64 -> get_u64 (append_u64 pre v ++ rest) (length pre) = v.
Proof.
  intros Hv. unfold get_u64, append_u64.
  rewrite <- app_assoc, field_app by (rewrite ?le_bytes_length; done).
  by rewrite le_val_bytes.
Qed.

Lemma get_double_append pre x rest :
  valid_double x = true -> get_double (append_double pre x ++ rest) (length pre) = x.
Proof.
  intros Hx. unfold get_double, append_double.
  rewrite <- app_assoc, field_app by (rewrite ?le_bytes_length; done).
  rewrite le_val_bytes by (by apply bits_range). by apply double_bits_roundtrip.
Qed.

Lemma read_double_append pre x rest :
  valid_double x = true -> read_double (append_double pre x ++ rest) (length pre) = Some x.
Proof.
  intros Hx. unfold read_double, append_double.
  rewrite !length_app, le_bytes_length.
  destruct (Nat.ltb_spec (length pre + 8 + length rest) (length pre + 8)); [lia|].
  rewrite <- app_assoc, field_app by (rewrite ?le_bytes_length; done).
  rewrite le_val_bytes by (by apply bits_range). by rewrite double_bits_roundtrip.
Qed.

Create Rewrite HintDb plin_len.
#[export] Hint Rewrite @le_bytes_length @be_bytes_length @length_app : plin_len.
