(* ===== verification/Rpc.v ===== *)
(** * Messages and length-prefixed frames (common/proto.h, common/rpc.h, common/rpc.cpp)

    A frame is [u32 length, big endian][u8 type][body].  [read] and [write] are
    the operating system's: they move at least one byte and at most the number
    asked for, in stream order, or report an error; [StreamIO] states that, and
    the loops [read_all] and [write_all] are proved against it for every
    schedule of short transfers. *)

From S2P Require Import Prelude Doubles Bytes.

(** ** proto.h *)

Inductive MsgType : Type :=
| QUERY_REQ
| QUERY_RESP
| EDGE_FETCH_REQ
| EDGE_FETCH_RESP
| PLIN_PARAM_PUSH
| HOT_UPDATE
| LSTM_TRAIN_TRIGGER
| CROSS_EDGE_REQ
| HEARTBEAT
| HEARTBEAT_ACK
| RDMA_SNAPSHOT_INFO
| UNNAMED (b : Z).

Inductive Status : Type :=
| OK
| NOT_FOUND
| PARAM_STALE
| NOT_IMPLEMENTED
| ERROR
| UNNAMED_STATUS (b : Z).

#[export] Instance MsgType_eq_dec : EqDecision MsgType.
Proof. solve_decision. Defined.
#[export] Instance Status_eq_dec : EqDecision Status.
Proof. solve_decision. Defined.

(** [static_cast<uint8_t>] of an enumerator. *)
Definition byte_of_msg (t : MsgType) : Z :=
  match t with
  | QUERY_REQ => 1
  | QUERY_RESP => 2
  | EDGE_FETCH_REQ => 3
  | EDGE_FETCH_RESP => 4
  | PLIN_PARAM_PUSH => 5
  | HOT_UPDATE => 6
  | LSTM_TRAIN_TRIGGER => 7
  | CROSS_EDGE_REQ => 8
  | HEARTBEAT => 9
  | HEARTBEAT_ACK => 10
  | RDMA_SNAPSHOT_INFO => 11
  | UNNAMED b => b
  end.

(** [static_cast<MsgType>] of a byte: a value without an enumerator is kept. *)
Definition msg_of_byte (b : Z) : MsgType :=
  if b =? 1 then QUERY_REQ else if b =? 2 then QUERY_RESP
  else if b =? 3 then EDGE_FETCH_REQ else if b =? 4 then EDGE_FETCH_RESP
  else if b =? 5 then PLIN_PARAM_PUSH else if b =? 6 then HOT_UPDATE
  else if b =? 7 then LSTM_TRAIN_TRIGGER else if b =? 8 then CROSS_EDGE_REQ
  else if b =? 9 then HEARTBEAT else if b =? 10 then HEARTBEAT_ACK
  else if b =? 11 then RDMA_SNAPSHOT_INFO else UNNAMED b.

Definition byte_of_status (s : Status) : Z :=
  match s with
  | OK => 0
  | NOT_FOUND => 1
  | PARAM_STALE => 2
  | NOT_IMPLEMENTED => 3
  | ERROR => 255
  | UNNAMED_STATUS b => b
  end.

Definition status_of_byte (b : Z) : Status :=
  if b =? 0 then OK else if b =? 1 then NOT_FOUND
  else if b =? 2 then PARAM_STALE else if b =? 3 then NOT_IMPLEMENTED
  else if b =? 255 then ERROR else UNNAMED_STATUS b.

(** A message type the wire can carry: a byte, named by its enumerator. *)
Definition wf_msg (t : MsgType) : Prop :=
  is_byte (byte_of_msg t) /\ msg_of_byte (byte_of_msg t) = t.

Lemma wf_msg_named t : (forall b, t <> UNNAMED b) -> wf_msg t.
Proof.
  intros H. destruct t; try (by exfalso; eapply H); split; cbn; unfold is_byte; try lia; done.
Qed.

Lemma msg_of_byte_of b : byte_of_msg (msg_of_byte b) = b.
Proof.
  unfold msg_of_byte.
  repeat match goal with |- context [?x =? ?y] => destruct (Z.eqb_spec x y); [by subst|] end.
  done.
Qed.

Lemma wf_msg_of_byte b : is_byte b -> wf_msg (msg_of_byte b).
Proof. intros H. split; by rewrite msg_of_byte_of. Qed.

Lemma status_of_byte_of b : byte_of_status (status_of_byte b) = b.
Proof.
  unfold status_of_byte.
  repeat match goal with |- context [?x =? ?y] => destruct (Z.eqb_spec x y); [by subst|] end.
  done.
Qed.

(** ** rpc.h *)

Record Frame : Type := mkFrame { ftype : MsgType; body : list Z }.

#[export] Instance Frame_eq_dec : EqDecision Frame.
Proof. solve_decision. Defined.

(** ** The connected socket *)

Class StreamIO (W : Type) := {
  (** [read(fd, p, n)]: the bytes delivered, or [None] for a result [<= 0]. *)
  sys_read : W -> nat -> option (list Z) * W;
  (** [write(fd, p, n)]: the number of bytes taken, or [None] for [<= 0]. *)
  sys_write : W -> list Z -> option nat * W;
  (** The bytes the peer has sent and this end has not read. *)
  pending : W -> list Z;
  (** The bytes this end has sent. *)
  sent : W -> list Z
}.

Class StreamLaws (W : Type) `{StreamIO W} := {
  read_some : forall s n c s', sys_read s n = (Some c, s') ->
    c <> [] /\ (length c <= n)%nat /\ pending s = c ++ pending s' /\ sent s' = sent s;
  write_some : forall s l k s', sys_write s l = (Some k, s') ->
    (0 < k <= length l)%nat /\ sent s' = sent s ++ take k l /\ pending s' = pending s;
  read_none : forall s n s', sys_read s n = (None, s') ->
    pending s' = pending s /\ sent s' = sent s;
  write_none : forall s l s', sys_write s l = (None, s') ->
    pending s' = pending s /\ sent s' = sent s
}.

Section Io.
Context {W : Type} `{StreamIO W}.

(** [read_all] fills [n] bytes; the bytes read so far are returned also when it
    gives up. *)
Fixpoint read_all_loop (fuel : nat) (s : W) (n : nat) (acc : list Z)
  : res (bool * list Z * W) :=
  match n with
  | O => Ok (true, acc, s)
  | _ =>
      match fuel with
      | O => Err OutOfFuel
      | S fuel' =>
          match sys_read s n with
          | (None, s') => Ok (false, acc, s')
          | (Some c, s') => read_all_loop fuel' s' (n - length c) (acc ++ c)
          end
      end
  end.
Definition read_all (s : W) (n : nat) : res (bool * list Z * W) := read_all_loop n s n [].

Fixpoint write_all_loop (fuel : nat) (s : W) (l : list Z) : res (bool * W) :=
  match l with
  | [] => Ok (true, s)
  | _ =>
      match fuel with
      | O => Err OutOfFuel
      | S fuel' =>
          match sys_write s l with
          | (None, s') => Ok (false, s')
          | (Some k, s') => write_all_loop fuel' s' (drop k l)
          end
      end
  end.
Definition write_all (s : W) (l : list Z) : res (bool * W) := write_all_loop (length l) s l.

(** [std::vector::resize]: the old prefix stays, new elements are zero. *)
Definition resize (n : nat) (l : list Z) : list Z := take n l ++ replicate (n - length l) 0.

(** [out] is the frame the caller passes in; its fields are overwritten in the
    order of the code, also when the read fails half-way. *)
Definition read_frame (s : W) (out : Frame) : res (bool * Frame * W) :=
  '(ok, hdr, s) ← read_all s 4;
  if negb ok then Ok (false, out, s) else
  let payload_len := be_val hdr in
  if payload_len <? 1 then Ok (false, out, s) else
  '(ok, tb, s) ← read_all s 1;
  if negb ok then Ok (false, out, s) else
  let t := msg_of_byte (le_val tb) in
  let body_len := Z.to_nat (u32 (payload_len - 1)) in
  let b := resize body_len (body out) in
  if (0 <? body_len)%nat then
    '(ok, got, s) ← read_all s body_len;
    Ok (ok, mkFrame t (got ++ drop (length got) b), s)
  else Ok (true, mkFrame t b, s).

(** [payload_len] is computed in [uint32_t]. *)
Definition payload_len (f : Frame) : Z := u32 (1 + u32 (Z.of_nat (length (body f)))).

Definition write_frame (s : W) (f : Frame) : res (bool * W) :=
  '(ok, s) ← write_all s (be_bytes 4 (payload_len f));
  if negb ok then Ok (false, s) else
  '(ok, s) ← write_all s [byte_of_msg (ftype f)];
  if negb ok then Ok (false, s) else
  if (0 <? length (body f))%nat then write_all s (body f) else Ok (true, s).

(** The bytes of a frame on the wire. *)
Definition frame_bytes (f : Frame) : list Z :=
  be_bytes 4 (payload_len f) ++ byte_of_msg (ftype f) :: body f.

(** Frames the format can carry. *)
Definition wf_frame (f : Frame) : Prop :=
  wf_msg (ftype f) /\ Z.of_nat (length (body f)) < 2 ^ 32 - 1.

Lemma payload_len_wf f : wf_frame f -> payload_len f = 1 + Z.of_nat (length (body f)).
Proof. intros [_ H1]. unfold payload_len. rewrite (u32_small (Z.of_nat _)) by lia.
  apply u32_small. lia. Qed.

End Io.

(** ** The loops *)

Section IoLaws.
Context {W : Type} `{StreamLaws W}.

(** Whatever the short reads, [read_all] ends: it returns the next [n] bytes of
    the stream, or fails having consumed a strict prefix of them. *)
Lemma read_all_loop_spec fuel s n acc :
  (n <= fuel)%nat ->
  exists ok got s', read_all_loop fuel s n acc = Ok (ok, acc ++ got, s') /\
    pending s = got ++ pending s' /\ sent s' = sent s /\
    (if ok then length got = n else (length got < n)%nat).
Proof.
  revert s n acc; induction fuel as [|fuel IH]; intros s n acc Hn.
  { destruct n; [|lia]. exists true, [], s. cbn. by rewrite app_nil_r. }
  destruct n as [|n].
  { exists true, [], s. cbn. by rewrite app_nil_r. }
  cbn [read_all_loop]. destruct (sys_read s (S n)) as [[c|] s1] eqn:E.
  - apply read_some in E as (Hc & Hl & Hp & Hs).
    destruct c as [|b c]; [done|]. cbn [length] in *.
    destruct (IH s1 (S n - S (length c))%nat (acc ++ b :: c))
      as (ok & got & s' & E' & Hp' & Hs' & Hl'); [lia|].
    exists ok, ((b :: c) ++ got), s'. rewrite E', <- app_assoc.
    split; [done|]. split; [by rewrite Hp, Hp', <- app_assoc|].
    split; [congruence|]. rewrite length_app; cbn [length]. destruct ok; lia.
  - apply read_none in E as [Hp Hs].
    exists false, [], s1. rewrite app_nil_r. cbn. repeat split; [by symmetry|done|lia].
Qed.

Lemma read_all_spec s n :
  exists ok got s', read_all s n = Ok (ok, got, s') /\
    pending s = got ++ pending s' /\ sent s' = sent s /\
    (if ok then length got = n else (length got < n)%nat).
Proof. apply (read_all_loop_spec n s n []). lia. Qed.

Lemma write_all_loop_spec fuel s l :
  (length l <= fuel)%nat ->
  exists ok k s', write_all_loop fuel s l = Ok (ok, s') /\
    sent s' = sent s ++ take k l /\ pending s' = pending s /\
    (if ok then k = length l else (k < length l)%nat).
Proof.
  revert s l; induction fuel as [|fuel IH]; intros s l Hn.
  { destruct l; [|cbn in Hn; lia]. exists true, 0%nat, s. cbn. by rewrite app_nil_r. }
  destruct l as [|b l].
  { exists true, 0%nat, s. cbn. by rewrite app_nil_r. }
  cbn [write_all_loop]. destruct (sys_write s (b :: l)) as [[k|] s1] eqn:E.
  - apply write_some in E as (Hk & Hs & Hp).
    destruct (IH s1 (drop k (b :: l))) as (ok & k' & s' & E' & Hs' & Hp' & Hl').
    { rewrite length_drop. lia. }
    exists ok, (k + k')%nat, s'. rewrite E'. split; [done|].
    rewrite length_drop in Hl'. split; [|split; [congruence|]].
    + rewrite Hs', Hs, <- app_assoc. f_equal. by rewrite take_take_drop.
    + destruct ok; lia.
  - apply write_none in E as [Hp Hs].
    exists false, 0%nat, s1. cbn [take]. rewrite app_nil_r. cbn [length].
    repeat split; [done|done|lia].
Qed.

Lemma write_all_spec s l :
  exists ok k s', write_all s l = Ok (ok, s') /\
    sent s' = sent s ++ take k l /\ pending s' = pending s /\
    (if ok then k = length l else (k < length l)%nat).
Proof. apply write_all_loop_spec. lia. Qed.

(** A read that succeeds returned exactly the next [n] bytes. *)
Lemma read_all_true s n got s' :
  read_all s n = Ok (true, got, s') ->
  got = take n (pending s) /\ pending s' = drop n (pending s) /\ sent s' = sent s /\ length got = n.
Proof.
  intros E. destruct (read_all_spec s n) as (ok & g & s1 & E1 & Hp & Hs & Hl).
  rewrite E in E1. simplify_eq. rewrite Hp.
  by rewrite take_app_length, drop_app_length.
Qed.

(** [write_frame] puts the frame on the wire, or fails having sent a strict
    prefix of it. *)
Lemma write_frame_spec s f :
  exists ok k s', write_frame s f = Ok (ok, s') /\
    sent s' = sent s ++ take k (frame_bytes f) /\ pending s' = pending s /\
    (if ok then k = length (frame_bytes f) else (k < length (frame_bytes f))%nat).
Proof.
  unfold write_frame, frame_bytes.
  assert (Hhd : length (be_bytes 4 (payload_len f)) = 4%nat) by apply be_bytes_length.
  generalize dependent (be_bytes 4 (payload_len f)); intros hd Hhd.
  destruct (write_all_spec s hd) as (ok & k & s1 & -> & Hs & Hp & Hk). mstep.
  destruct ok; mstep.
  2: { exists false, k, s1. rewrite take_app_le by lia. repeat split; try done.
       rewrite length_app. lia. }
  destruct (write_all_spec s1 [byte_of_msg (ftype f)])
    as (ok & k1 & s2 & -> & Hs1 & Hp1 & Hk1). mstep. cbn [length] in Hk1.
  destruct ok; mstep.
  2: { assert (k1 = 0%nat) as -> by lia. cbn [take] in Hs1. rewrite app_nil_r in Hs1.
       exists false, (length hd), s2. rewrite take_app_length. subst k.
       rewrite firstn_all in Hs. repeat split; [congruence..|].
       rewrite length_app; cbn; lia. }
  assert (Hs3 : sent s2 = sent s ++ hd ++ [byte_of_msg (ftype f)]).
  { subst. rewrite Hs1, Hs, firstn_all. by rewrite <- app_assoc. }
  destruct (Nat.ltb_spec 0 (length (body f))).
  - destruct (write_all_spec s2 (body f)) as (ok & k2 & s3 & -> & Hs2 & Hp2 & Hk2).
    exists ok, (length hd + S k2)%nat, s3. split; [done|].
    rewrite take_app_add. cbn [take]. rewrite Hs2, Hs3, <- !app_assoc.
    repeat split; [congruence|]. rewrite length_app; cbn. destruct ok; lia.
  - destruct (body f) as [|x l] eqn:Eb; [|cbn in *; lia].
    exists true, (length (hd ++ [byte_of_msg (ftype f)])), s2.
    rewrite firstn_all. repeat split; congruence.
Qed.

(** Reading is the inverse of writing, frame by frame: if the stream starts with
    the image of a frame, a successful [read_frame] returns that frame and
    leaves the rest of the stream. *)
Lemma read_frame_true s out f rest f' s' :
  wf_frame f -> pending s = frame_bytes f ++ rest ->
  read_frame s out = Ok (true, f', s') ->
  f' = f /\ pending s' = rest /\ sent s' = sent s.
Proof.
  intros Hwf Hp Hr. unfold read_frame in Hr.
  pose proof (payload_len_wf _ Hwf) as Hpl. destruct Hwf as [[Hb Ht] Hlen].
  unfold frame_bytes in Hp. rewrite <- app_assoc in Hp. cbn [app] in Hp.
  destruct (read_all s 4) as [[[[] hdr] s1]|] eqn:E1; mstep in Hr; [|res_inv..].
  apply read_all_true in E1 as (Hh & Hp1 & Hs1 & _).
  rewrite Hp, take_app_length' in Hh by by rewrite be_bytes_length.
  rewrite Hp, drop_app_length' in Hp1 by by rewrite be_bytes_length.
  subst hdr. rewrite be_val_bytes in Hr by (rewrite Hpl; change (256 ^ Z.of_nat 4) with (2 ^ 32); lia).
  destruct (Z.ltb_spec (payload_len f) 1); [lia|].
  destruct (read_all s1 1) as [[[[] tb] s2]|] eqn:E2; mstep in Hr; [|res_inv..].
  apply read_all_true in E2 as (Htb & Hp2 & Hs2 & _).
  rewrite Hp1 in Htb, Hp2. cbn [take drop] in Htb, Hp2. rewrite ?take_0 in Htb.
  rewrite ?drop_0 in Hp2. subst tb. cbn [le_val] in Hr. rewrite Z.mul_0_r, Z.add_0_r, Ht in Hr.
  assert (Hbl : Z.to_nat (u32 (payload_len f - 1)) = length (body f)).
  { rewrite Hpl. replace (1 + _ - 1) with (Z.of_nat (length (body f))) by lia.
    rewrite u32_small by lia. apply Nat2Z.id. }
  rewrite Hbl in Hr. destruct (Nat.ltb_spec 0 (length (body f))).
  - destruct (read_all s2 (length (body f))) as [[[[] got] s3]|] eqn:E3; mstep in Hr; [|res_inv..].
    apply read_all_true in E3 as (Hg & Hp3 & Hs3 & Hl).
    rewrite Hp2, take_app_length in Hg. rewrite Hp2, drop_app_length in Hp3.
    injection Hr as <- <-. rewrite drop_ge, app_nil_r; [|rewrite Hg; unfold resize;
      rewrite length_app, length_take, length_replicate; lia].
    subst got. destruct f; cbn in *. repeat split; congruence.
  - destruct f as [t [|x l]]; cbn [body length] in *; [|lia]. res_inv.
    repeat split; congruence.
Qed.

End IoLaws.

(** ** Reading never hangs, and succeeds on a healthy connection *)

(** The connection is up: a read returns data as long as some is pending. *)
Definition healthy {W} `{StreamIO W} : Prop :=
  forall s n, (0 < n)%nat -> pending s <> [] -> exists c s', sys_read s n = (Some c, s').

(** The peer reads: a write takes some of the bytes. *)
Definition writable {W} `{StreamIO W} : Prop :=
  forall s l, l <> [] -> exists k s', sys_write s l = (Some k, s').

Section Live.
Context {W : Type} `{StreamLaws W}.

Lemma write_all_live s l : writable -> exists s', write_all s l = Ok (true, s').
Proof.
  intros Hw. unfold write_all. assert (Hn : (length l <= length l)%nat) by done. revert Hn.
  generalize (length l) at 2 3. intros fuel. revert s l. induction fuel as [|fuel IH]; intros s l Hn.
  { destruct l; [by exists s|cbn in Hn; lia]. }
  destruct l as [|b l]; [by exists s|]. cbn [write_all_loop].
  destruct (Hw s (b :: l)) as (k & s1 & E); [done|]. rewrite E. apply write_some in E as (Hk & _).
  apply IH. rewrite length_drop. lia.
Qed.

Lemma write_frame_live s f :
  writable -> exists s', write_frame s f = Ok (true, s') /\ sent s' = sent s ++ frame_bytes f.
Proof.
  intros Hw. assert (E : exists s', write_frame s f = Ok (true, s')).
  { unfold write_frame. destruct (write_all_live s (be_bytes 4 (payload_len f)) Hw) as (s1 & ->). mstep.
    destruct (write_all_live s1 [byte_of_msg (ftype f)] Hw) as (s2 & ->). mstep.
    case_match; [by apply write_all_live|by exists s2]. }
  destruct E as (s' & E). exists s'. split; [done|].
  destruct (write_frame_spec s f) as (ok & k & s1 & E1 & Hs & _ & Hk). rewrite E in E1. injection E1 as <- <-.
  by rewrite Hs, Hk, firstn_all.
Qed.

Lemma read_all_live s n :
  healthy -> (n <= length (pending s))%nat ->
  exists got s', read_all s n = Ok (true, got, s').
Proof.
  intros Hlive. unfold read_all.
  assert (K : forall fuel m s acc, (m <= fuel)%nat -> (m <= length (pending s))%nat ->
    exists got s', read_all_loop fuel s m acc = Ok (true, got, s')).
  { induction fuel as [|fuel IH]; intros m s1 acc Hf Hp.
    { destruct m; [|lia]. by eexists _, _. }
    destruct m as [|m]; [by eexists _, _|]. cbn [read_all_loop].
    destruct (Hlive s1 (S m)) as (c & s2 & E); [lia|intros Hn; rewrite Hn in Hp; cbn in Hp; lia|].
    rewrite E. apply read_some in E as (Hc & Hl & Hpd & _).
    destruct c as [|b c]; [done|]. rewrite Hpd, length_app in Hp.
    apply IH; cbn [length] in *; lia. }
  by apply K.
Qed.

Lemma read_frame_total s out :
  exists ok f s', read_frame s out = Ok (ok, f, s').
Proof.
  unfold read_frame.
  destruct (read_all_spec s 4) as (ok & hdr & s1 & -> & _). mstep.
  destruct ok; mstep; [|by eexists _, _, _].
  destruct (be_val hdr <? 1); [by eexists _, _, _|].
  destruct (read_all_spec s1 1) as (ok & tb & s2 & -> & _). mstep.
  destruct ok; mstep; [|by eexists _, _, _].
  destruct (0 <? Z.to_nat (u32 (be_val hdr - 1)))%nat; [|by eexists _, _, _].
  destruct (read_all_spec s2 (Z.to_nat (u32 (be_val hdr - 1)))) as (ok & got & s3 & -> & _).
  by eexists _, _, _.
Qed.

Lemma read_frame_live s out f rest :
  healthy -> wf_frame f -> pending s = frame_bytes f ++ rest ->
  exists s', read_frame s out = Ok (true, f, s') /\ pending s' = rest /\ sent s' = sent s.
Proof.
  intros Hlive Hwf Hp.
  assert (E : exists g s', read_frame s out = Ok (true, g, s')).
  { unfold read_frame. pose proof (payload_len_wf _ Hwf) as Hpl. destruct Hwf as [[Hb Ht] Hlen].
    unfold frame_bytes in Hp. rewrite <- app_assoc in Hp. cbn [app] in Hp.
    destruct (read_all_live s 4) as (hdr & s1 & E1); [done| |].
    { rewrite Hp, length_app, be_bytes_length. lia. }
    rewrite E1. mstep. apply read_all_true in E1 as (Hh & Hp1 & _ & _).
    rewrite Hp, take_app_length' in Hh by by rewrite be_bytes_length.
    rewrite Hp, drop_app_length' in Hp1 by by rewrite be_bytes_length.
    subst hdr. rewrite be_val_bytes by (rewrite Hpl; change (256 ^ Z.of_nat 4) with (2 ^ 32); lia).
    destruct (Z.ltb_spec (payload_len f) 1); [lia|].
    destruct (read_all_live s1 1) as (tb & s2 & E2); [done|rewrite Hp1; cbn; lia|].
    rewrite E2. mstep. apply read_all_true in E2 as (Htb & Hp2 & _ & _).
    rewrite Hp1 in Hp2. cbn [drop] in Hp2. rewrite ?drop_0 in Hp2.
    assert (Hbl : Z.to_nat (u32 (payload_len f - 1)) = length (body f)).
    { rewrite Hpl. replace (1 + _ - 1) with (Z.of_nat (length (body f))) by lia.
      rewrite u32_small by lia. apply Nat2Z.id. }
    rewrite Hbl. destruct (0 <? length (body f))%nat; [|by eexists _, _].
    destruct (read_all_live s2 (length (body f))) as (got & s3 & E3); [done| |].
    { rewrite Hp2, length_app. lia. }
    rewrite E3. mstep. by eexists _, _. }
  destruct E as (g & s' & E). exists s'.
  destruct (read_frame_true _ _ _ _ _ _ Hwf Hp E) as (-> & ? & ?). done.
Qed.

(** A conversation: the frames written one after the other, and read back. *)
Fixpoint write_frames (s : W) (fs : list Frame) : res (bool * W) :=
  match fs with
  | [] => Ok (true, s)
  | f :: fs' =>
      '(ok, s) ← write_frame s f;
      if negb ok then Ok (false, s) else write_frames s fs'
  end.

Fixpoint read_frames (s : W) (out : Frame) (n : nat) : res (list Frame * W) :=
  match n with
  | O => Ok ([], s)
  | S n' =>
      '(ok, f, s) ← read_frame s out;
      if negb ok then Ok ([], s) else
      '(fs, s) ← read_frames s f n'; Ok (f :: fs, s)
  end.

Lemma write_frames_true s fs s' :
  write_frames s fs = Ok (true, s') -> sent s' = sent s ++ concat (map frame_bytes fs).
Proof.
  revert s; induction fs as [|f fs IH]; intros s E; cbn [write_frames] in E.
  { res_inv. cbn. by rewrite app_nil_r. }
  destruct (write_frame_spec s f) as (ok & k & s1 & E1 & Hs & _ & Hk).
  rewrite E1 in E; mstep in E. destruct ok; mstep in E; [|res_inv].
  rewrite (IH _ E), Hs, Hk, firstn_all. cbn. by rewrite <- app_assoc.
Qed.

Lemma read_frames_live s out fs rest :
  healthy -> Forall wf_frame fs -> pending s = concat (map frame_bytes fs) ++ rest ->
  exists s', read_frames s out (length fs) = Ok (fs, s') /\ pending s' = rest.
Proof.
  intros Hl Hf. revert s out. induction Hf as [|f fs Hf1 Hf IH]; intros s out Hp; cbn in Hp.
  { exists s. by cbn. }
  cbn [length read_frames]. rewrite <- app_assoc in Hp.
  destruct (read_frame_live s out f _ Hl Hf1 Hp) as (s1 & -> & Hp1 & _). mstep.
  destruct (IH s1 f Hp1) as (s2 & -> & Hp2). mstep. by exists s2.
Qed.

(** C20: whatever partial transfers the kernel makes, a sequence of frames
    written with [write_frame] on one end of a healthy connection is read
    back by as many [read_frame]s on the other end, frame for frame, and the
    reads consume exactly the bytes that were written. *)
Theorem frames_roundtrip (s s' r : W) (l rest : list Z) (out : Frame) (fs : list Frame) :
  healthy -> Forall wf_frame fs ->
  write_frames s fs = Ok (true, s') ->
  sent s' = sent s ++ l ->
  pending r = l ++ rest ->
  exists r', read_frames r out (length fs) = Ok (fs, r') /\ pending r' = rest.
Proof.
  intros Hl Hf Hw Hs Hp. apply write_frames_true in Hw.
  rewrite Hs in Hw. apply app_inv_head in Hw. subst l.
  by apply read_frames_live.
Qed.

(** [read_frame] ends for every peer and every error: it never loops, and
    it fails on a header that announces no type byte. *)
Theorem read_frame_ends (s : W) (out : Frame) :
  (exists ok f s', read_frame s out = Ok (ok, f, s')) /\
  (forall rest, pending s = [0; 0; 0; 0] ++ rest ->
   exists s', read_frame s out = Ok (false, out, s')).
Proof.
  split; [apply read_frame_total|]. intros rest Hp. unfold read_frame.
  destruct (read_all_spec s 4) as (ok & hdr & s1 & E & _). rewrite E. mstep.
  destruct ok; mstep; [|by eexists]. apply read_all_true in E as (-> & _).
  rewrite Hp. cbn. by eexists.
Qed.

End Live.

(** ** A simulated socket: the kernel moves [sched] bytes at a time *)

Record sim : Type := mkSim { sim_in : list Z; sim_out : list Z; sim_sched : list nat }.

Definition sim_chunk (s : sim) (n : nat) : nat :=
  Nat.max 1 (Nat.min n (match sim_sched s with k :: _ => k | [] => n end)).

#[export] Instance sim_io : StreamIO sim := {|
  sys_read := fun s n =>
    match n, sim_in s with
    | O, _ | _, [] => (None, s)
    | _, _ =>
        let k := sim_chunk s n in
        (Some (take k (sim_in s)), mkSim (drop k (sim_in s)) (sim_out s) (tail (sim_sched s)))
    end;
  sys_write := fun s l =>
    match l with
    | [] => (None, s)
    | _ =>
        let k := sim_chunk s (length l) in
        (Some k, mkSim (sim_in s) (sim_out s ++ take k l) (tail (sim_sched s)))
    end;
  pending := sim_in;
  sent := sim_out
|}.

#[export] Instance sim_laws : StreamLaws sim.
Proof.
  split.
  - intros s n c s' E. cbn in E. destruct n as [|n]; [done|].
    destruct (sim_in s) as [|b l] eqn:El; [done|].
    pose proof (Nat.le_max_l 1 (Nat.min (S n) match sim_sched s with k :: _ => k | [] => S n end)).
    unfold sim_chunk in E.
    assert (Hk : (Nat.max 1 (Nat.min (S n) match sim_sched s with k :: _ => k | [] => S n end) <= S n)%nat) by lia.
    revert E Hk H. generalize (Nat.max 1 (Nat.min (S n) match sim_sched s with k :: _ => k | [] => S n end)).
    intros k E Hk H. injection E as <- <-. cbn [pending sent sim_in sim_out].
    destruct k as [|k]; [lia|]. rewrite ?El.
    split; [done|]. split; [rewrite length_take; lia|].
    split; [|done]. change (sim_in s = take (S k) (b :: l) ++ drop (S k) (b :: l)).
    by rewrite take_drop.
  - intros s l k s' E. cbn in E. destruct l as [|b l]; [done|].
    injection E as <- <-. cbn [sent pending sim_in sim_out]. unfold sim_chunk. cbn [length].
    split; [lia|done].
  - intros s n s' E. cbn in E. destruct n; [by simplify_eq|].
    destruct (sim_in s); by simplify_eq.
  - intros s l s' E. cbn in E. destruct l; by simplify_eq.
Qed.

Lemma sim_writable : writable (W := sim).
Proof. intros s [|b l] Hl; [done|]. by eexists _, _. Qed.

Lemma sim_healthy : healthy (W := sim).
Proof.
  intros s n Hn Hp. cbn in *. destruct n; [lia|]. destruct (sim_in s); [done|]. by eexists _, _.
Qed.

Definition ping : Frame := mkFrame HEARTBEAT [7; 0; 0; 0].
Definition empty_push : Frame := mkFrame PLIN_PARAM_PUSH [].

Lemma frames_roundtrip_witness :
  exists r', read_frames (mkSim (concat (map frame_bytes [ping; empty_push]) ++ [9]) [] [2%nat; 1%nat; 3%nat])
    (mkFrame HEARTBEAT []) 2 = Ok ([ping; empty_push], r') /\ pending r' = [9].
Proof.
  apply (frames_roundtrip (mkSim [] [] [3%nat; 2%nat])
           (mkSim [] (concat (map frame_bytes [ping; empty_push])) []) _
           (concat (map frame_bytes [ping; empty_push])) [9] (mkFrame HEARTBEAT []) [ping; empty_push]).
  - exact sim_healthy.
  - repeat constructor; try (apply wf_msg_named; discriminate); cbn; lia.
  - vm_compute. reflexivity.
  - reflexivity.
  - reflexivity.
Defined.

Lemma read_frame_ends_witness :
  exists s', read_frame (mkSim [0; 0; 0; 0; 5] [] []) ping = Ok (false, ping, s').
Proof. exact (proj2 (read_frame_ends (mkSim [0; 0; 0; 0; 5] [] []) ping) [5] eq_refl). Defined.

(** ** The fetch response that edge_server.cpp and cloud_server.cpp build *)

Definition make_fetch_resp (status : Status) (payload : Z) : Frame :=
  mkFrame EDGE_FETCH_RESP (append_u64 [byte_of_status status] payload ++ [0]).

Lemma make_fetch_resp_body status payload :
  0 <= payload < 2 ^ 64 ->
  length (body (make_fetch_resp status payload)) = 10%nat /\
  body (make_fetch_resp status payload) !! 0%nat = Some (byte_of_status status) /\
  get_u64 (body (make_fetch_resp status payload)) 1 = payload /\
  body (make_fetch_resp status payload) !! 9%nat = Some 0.
Proof.
  intros Hp. unfold make_fetch_resp, append_u64. cbn [body].
  rewrite !length_app, le_bytes_length. split; [done|]. split; [done|]. split.
  - exact (get_u64_append [byte_of_status status] payload [0] Hp).
  - rewrite <- app_assoc, lookup_app_r by (cbn; lia). cbn [length Nat.sub].
    rewrite lookup_app_r by (rewrite le_bytes_length; lia). by rewrite le_bytes_length.
Qed.
