(* ===== verification/RangeMap.v ===== *)
(** * Topology queries (common/range_map.h, common/range_map.cpp)

    The in-memory topology and its queries: the binary search [locate_end] over
    the key ranges, [edge_of], [siblings_of] and [same_edge].  The parser that
    fills the structure is in Topology.v. *)

From S2P Require Import Prelude Doubles.

Record EndInfo : Type := mkEnd {
  end_id : Z;
  end_edge : Z;
  end_host : list Ascii.ascii;
  end_port : Z;
  key_lo : double;
  key_hi : double
}.

Record EdgeInfo : Type := mkEdge {
  edge_id : Z;
  edge_host : list Ascii.ascii;
  edge_port : Z;
  end_ids : list Z
}.

(** [CloudInfo]: the port is not initialised by the constructor. *)
Record CloudInfo : Type := mkCloud { cloud_host : list Ascii.ascii; cloud_port : option Z }.

Record RangeMap : Type := mkRangeMap {
  rm_cloud : CloudInfo;
  rm_edges : list EdgeInfo;
  rm_ends : list EndInfo
}.

(** ** The queries *)

(** [int lo], [int hi]; the sum is computed in [int]. *)
Fixpoint locate_loop (fuel : nat) (ends : list EndInfo) (k : double) (lo hi : Z) : res Z :=
  if lo <=? hi then
    match fuel with
    | O => Err OutOfFuel
    | S fuel' =>
        if 2 ^ 31 <=? lo + hi then Err UB else
        let mid := cdiv (lo + hi) 2 in
        e ← of_opt UB (zlookup ends mid);
        if dlt k (key_lo e) then locate_loop fuel' ends k lo (mid - 1)
        else if dlt (key_hi e) k then locate_loop fuel' ends k (mid + 1) hi
        else Ok (end_id e)
    end
  else Ok (-1).

Definition locate_end (rm : RangeMap) (k : double) : res Z :=
  locate_loop (length (rm_ends rm)) (rm_ends rm) k 0 (Z.of_nat (length (rm_ends rm)) - 1).

Definition edge_of (rm : RangeMap) (id : Z) : Z :=
  match find_first (fun e => end_id e =? id) (rm_ends rm) with
  | Some e => end_edge e
  | None => -1
  end.

Definition siblings_of (rm : RangeMap) (id : Z) : list Z :=
  let my_edge := edge_of rm id in
  if my_edge <? 0 then []
  else map end_id
         (filter (fun e => (end_edge e =? my_edge) && negb (end_id e =? id)) (rm_ends rm)).

Definition same_edge (rm : RangeMap) (a b : Z) : bool :=
  (edge_of rm a =? edge_of rm b) && (0 <=? edge_of rm a).

(** ** Well-formed range tables *)

Definition end_ok (e : EndInfo) : bool :=
  is_key (key_lo e) && is_key (key_hi e) && dle (key_lo e) (key_hi e).

(** Every range is before the next one. *)
Fixpoint ranges_ok (l : list EndInfo) : bool :=
  match l with
  | [] => true
  | e :: l' =>
      end_ok e && ranges_ok l' &&
      match l' with [] => true | e' :: _ => dlt (key_hi e) (key_lo e') end
  end.

(** The specification: some end's range holds the key. *)
Definition in_range (k : double) (e : EndInfo) : bool :=
  dle (key_lo e) k && dle k (key_hi e).

Definition lo_rank (e : EndInfo) : Z := rank (key_lo e).
Definition hi_rank (e : EndInfo) : Z := rank (key_hi e).

Lemma ranges_ok_lookup l i e :
  ranges_ok l = true -> l !! i = Some e ->
  is_key (key_lo e) = true /\ is_key (key_hi e) = true /\ lo_rank e <= hi_rank e.
Proof.
  revert i; induction l as [|x l IH]; intros i H Hi; [done|]. cbn in H. zb.
  destruct i as [|i]; cbn in Hi; [|by eapply IH]. simplify_eq.
  unfold end_ok in *. zb. split; [done|]. split; [done|].
  unfold lo_rank, hi_rank. key_cmp. by apply Z.leb_le.
Qed.

Lemma ranges_ok_mono l i j e e' :
  ranges_ok l = true -> l !! i = Some e -> l !! j = Some e' -> (i < j)%nat ->
  hi_rank e < lo_rank e'.
Proof.
  revert i j e; induction l as [|x l IH]; intros i j e H Hi Hj Hij; [done|].
  pose proof (ranges_ok_lookup _ _ _ H Hi) as (_ & Kh & Ko).
  pose proof (ranges_ok_lookup _ _ _ H Hj) as (Kl & _ & _).
  cbn in H. zb.
  destruct j as [|j]; [lia|]. cbn in Hj.
  destruct i as [|i]; cbn in Hi.
  - simplify_eq. destruct l as [|y l]; [done|].
    match goal with H : dlt _ _ = true |- _ => rename H into Hd end.
    assert (Ky : is_key (key_lo y) = true /\ is_key (key_hi y) = true /\ lo_rank y <= hi_rank y).
    { by eapply (ranges_ok_lookup _ 0%nat). }
    destruct Ky as (Ky & Ky2 & Kyo). rewrite dlt_rank in Hd by done. zb.
    destruct j as [|j]; cbn in Hj.
    + simplify_eq. done.
    + pose proof (IH 0%nat (S j) y) as IH0. unfold lo_rank, hi_rank in *.
      specialize (IH0 ltac:(done) eq_refl Hj ltac:(lia)). lia.
  - eapply (IH i j); try done. lia.
Qed.

(** ** The binary search *)

Section Locate.
Context (ends : list EndInfo) (k : double).
Context (Hok : ranges_ok ends = true) (Hk : is_key k = true).
Context (Hlen : Z.of_nat (length ends) < 2 ^ 30).

Lemma in_range_rank e i :
  ends !! i = Some e -> in_range k e = true <-> lo_rank e <= rank k <= hi_rank e.
Proof.
  intros He. destruct (ranges_ok_lookup _ _ _ Hok He) as (H1 & H2 & _).
  unfold in_range, lo_rank, hi_rank. key_cmp. rewrite andb_true_iff, !Z.leb_le. done.
Qed.

(** At most one range holds a key. *)
Lemma in_range_unique i j e e' :
  ends !! i = Some e -> ends !! j = Some e' ->
  in_range k e = true -> in_range k e' = true -> i = j.
Proof.
  intros Hi Hj Ha Hb.
  pose proof (proj1 (in_range_rank e i Hi) Ha). pose proof (proj1 (in_range_rank e' j Hj) Hb).
  destruct (Nat.lt_trichotomy i j) as [Hl|[Hl|Hl]]; [|done|].
  - pose proof (ranges_ok_mono _ _ _ _ _ Hok Hi Hj Hl). lia.
  - pose proof (ranges_ok_mono _ _ _ _ _ Hok Hj Hi Hl). lia.
Qed.

(** The loop invariant: a range that holds [k] lies between [lo] and [hi]. *)
Lemma locate_loop_spec fuel lo hi :
  0 <= lo -> hi < Z.of_nat (length ends) -> hi - lo < Z.of_nat fuel ->
  (forall i e, ends !! i = Some e -> in_range k e = true -> lo <= Z.of_nat i <= hi) ->
  (exists i e, ends !! i = Some e /\ in_range k e = true /\
     locate_loop fuel ends k lo hi = Ok (end_id e)) \/
  ((forall i e, ends !! i = Some e -> in_range k e = false) /\
     locate_loop fuel ends k lo hi = Ok (-1)).
Proof.
  revert lo hi; induction fuel as [|fuel IH]; intros lo hi Hlo Hhi Hf Hinv.
  { right. cbn. destruct (Z.leb_spec lo hi); [lia|]. split; [|done].
    intros i e He. destruct (in_range k e) eqn:E; [|done].
    specialize (Hinv _ _ He E). lia. }
  cbn [locate_loop]. destruct (Z.leb_spec lo hi) as [Hle|Hgt].
  2: { right. split; [|done]. intros i e He. destruct (in_range k e) eqn:E; [|done].
       specialize (Hinv _ _ He E). lia. }
  destruct (Z.leb_spec (2 ^ 31) (lo + hi)); [lia|].
  assert (Hmid : cdiv (lo + hi) 2 = (lo + hi) / 2) by (apply Z.quot_div_nonneg; lia).
  rewrite Hmid. set (mid := (lo + hi) / 2).
  assert (lo <= mid <= hi).
  { unfold mid. split; [apply Z.div_le_lower_bound|apply Z.div_le_upper_bound]; lia. }
  destruct (zlookup_is_Some ends mid ltac:(lia)) as [e He]. rewrite He. mstep.
  assert (He' : ends !! Z.to_nat mid = Some e).
  { revert He. unfold zlookup. destruct (Z.ltb_spec mid 0); [lia|done]. }
  destruct (ranges_ok_lookup _ _ _ Hok He') as (K1 & K2 & _).
  assert (Hlocal : forall i e', ends !! i = Some e' -> in_range k e' = true ->
    (rank k < lo_rank e -> Z.of_nat i <= mid - 1) /\
    (hi_rank e < rank k -> mid + 1 <= Z.of_nat i)).
  { intros i e' Hi Hin. apply (in_range_rank _ i Hi) in Hin.
    destruct (Nat.lt_trichotomy i (Z.to_nat mid)) as [Hl|[Hl|Hl]].
    - pose proof (ranges_ok_mono _ _ _ _ _ Hok Hi He' Hl).
      pose proof (ranges_ok_lookup _ _ _ Hok He') as (_ & _ & ?). lia.
    - subst i. rewrite He' in Hi. simplify_eq. lia.
    - pose proof (ranges_ok_mono _ _ _ _ _ Hok He' Hi Hl).
      pose proof (ranges_ok_lookup _ _ _ Hok He') as (_ & _ & ?). lia. }
  key_cmp. fold (lo_rank e) (hi_rank e).
  destruct (Z.ltb_spec (rank k) (lo_rank e)).
  { apply IH; [lia..|]. intros i e' Hi Hin.
    specialize (Hinv _ _ Hi Hin). destruct (Hlocal _ _ Hi Hin). lia. }
  destruct (Z.ltb_spec (hi_rank e) (rank k)).
  { apply IH; [lia..|]. intros i e' Hi Hin.
    specialize (Hinv _ _ Hi Hin). destruct (Hlocal _ _ Hi Hin). lia. }
  left. exists (Z.to_nat mid), e. split; [done|]. split; [|done].
  apply (in_range_rank _ _ He'). lia.
Qed.

End Locate.

(** The search depends on the key only through its rank. *)
Lemma locate_deq rm k k' :
  ranges_ok (rm_ends rm) = true -> is_key k = true -> is_key k' = true -> deq k k' = true ->
  locate_end rm k = locate_end rm k'.
Proof.
  intros Hok Hk Hk' Hd. rewrite deq_rank in Hd by done. zb. unfold locate_end.
  generalize 0 (Z.of_nat (length (rm_ends rm)) - 1). generalize (length (rm_ends rm)).
  intros fuel; induction fuel as [|fuel IH]; intros lo hi; cbn [locate_loop]; [done|].
  destruct (lo <=? hi); [|done]. destruct (2 ^ 31 <=? lo + hi); [done|].
  destruct (zlookup (rm_ends rm) (cdiv (lo + hi) 2)) as [e|] eqn:E; mstep; [|done].
  assert (He : exists i, rm_ends rm !! i = Some e).
  { unfold zlookup in E. destruct (_ <? 0); [done|by eexists]. }
  destruct He as [i He]. destruct (ranges_ok_lookup _ _ _ Hok He) as (H1 & H2 & _).
  key_cmp. rewrite Hd. destruct (_ <? _); [apply IH|]. destruct (_ <? _); [apply IH|done].
Qed.

(** The binary search finds what a linear one does. *)
Lemma locate_spec (rm : RangeMap) (k : double) :
  ranges_ok (rm_ends rm) = true -> is_key k = true ->
  Z.of_nat (length (rm_ends rm)) < 2 ^ 30 ->
  locate_end rm k = Ok match find_first (in_range k) (rm_ends rm) with
                       | Some e => end_id e
                       | None => -1
                       end.
Proof.
  intros Hok Hk Hlen. unfold locate_end.
  destruct (locate_loop_spec (rm_ends rm) k Hok Hk Hlen (length (rm_ends rm)) 0
              (Z.of_nat (length (rm_ends rm)) - 1)) as [(i & e & He & Hin & ->)|[Hno ->]];
    [lia..| | |].
  { intros i e Hi _. apply lookup_lt_Some in Hi. lia. }
  - destruct (find_first _ _) as [e'|] eqn:E.
    + apply find_first_Some in E as [Hel Hin'].
      apply list_elem_of_lookup in Hel as [j Hj].
      pose proof (in_range_unique _ k Hok Hk _ _ _ _ He Hj Hin Hin'). simplify_eq. done.
    + apply find_first_None in E. rewrite Forall_lookup in E.
      rewrite (E _ _ He) in Hin. done.
  - destruct (find_first _ _) as [e'|] eqn:E; [|done].
    apply find_first_Some in E as [Hel Hin'].
    apply list_elem_of_lookup in Hel as [j Hj]. rewrite (Hno _ _ Hj) in Hin'. done.
Qed.

(** C23: on a table of disjoint ranges in order, [locate_end] returns without
    overflow or out-of-range access; it returns the id of the one end whose
    range contains the key, and -1 exactly when no range does. *)
Theorem locate_end_correct (rm : RangeMap) (k : double) :
  ranges_ok (rm_ends rm) = true -> is_key k = true ->
  Z.of_nat (length (rm_ends rm)) < 2 ^ 30 ->
  locate_end rm k = Ok match find_first (in_range k) (rm_ends rm) with
                       | Some e => end_id e
                       | None => -1
                       end.
Proof. apply locate_spec. Qed.

(** ** Edges of ends *)

(** Ids of ends are positive and unique. *)
Definition ids_ok (rm : RangeMap) : Prop :=
  NoDup (map end_id (rm_ends rm)) /\
  Forall (fun e => 0 < end_id e /\ 0 <= end_edge e) (rm_ends rm).

Lemma edge_of_end rm e :
  ids_ok rm -> e ∈ rm_ends rm -> edge_of rm (end_id e) = end_edge e.
Proof.
  intros [Hnd Hpos] He. unfold edge_of.
  destruct (find_first _ _) as [e'|] eqn:E.
  - apply find_first_Some in E as [He' Heq]. zb. f_equal.
    apply list_elem_of_lookup in He as [i Hi]. apply list_elem_of_lookup in He' as [j Hj].
    assert (i = j).
    { refine (NoDup_lookup _ i j (end_id e) Hnd _ _); rewrite list_lookup_fmap, ?Hi, ?Hj; cbn; congruence. }
    congruence.
  - apply find_first_None in E. rewrite Forall_forall in E.
    specialize (E e He). cbn in E. rewrite Z.eqb_refl in E. done.
Qed.

(** With unique ids, [siblings_of] lists exactly the other ends of the same
    edge, and [same_edge] holds between an end and each of its siblings. *)
Theorem siblings_of_correct (rm : RangeMap) (a : EndInfo) (b : Z) :
  ids_ok rm -> a ∈ rm_ends rm ->
  (b ∈ siblings_of rm (end_id a) <->
   exists e, e ∈ rm_ends rm /\ end_id e = b /\ b <> end_id a /\
     same_edge rm (end_id a) b = true).
Proof.
  intros Hids Ha. pose proof (edge_of_end rm a Hids Ha) as Ea.
  assert (Hpos : 0 <= end_edge a).
  { destruct Hids as [_ Hp]. rewrite Forall_forall in Hp. by apply Hp. }
  unfold siblings_of, same_edge. rewrite Ea.
  destruct (Z.ltb_spec (end_edge a) 0); [lia|].
  rewrite list_elem_of_fmap. split.
  - intros (e & -> & He). apply list_elem_of_filter in He as [Hp He].
    apply Is_true_eq_true in Hp. zb. exists e. split; [done|]. split; [done|].
    split; [done|]. rewrite (edge_of_end rm e Hids He).
    rewrite andb_true_iff, Z.eqb_eq, Z.leb_le. lia.
  - intros (e & He & <- & Hne & Hs). zb.
    rewrite (edge_of_end rm e Hids He) in *.
    exists e. split; [done|]. apply list_elem_of_filter. split; [|done].
    apply Is_true_eq_left. rewrite andb_true_iff, negb_true_iff, Z.eqb_eq, Z.eqb_neq. lia.
Qed.
