(* ===== verification/Topology.v ===== *)
(** * The topology parser (common/range_map.cpp)

    [RangeMap::load] as a fold over the lines of the file: the string helpers,
    the section state machine with its list items in progress, the final checks and
    the sort by [key_lo].  Strings are lists of characters, [npos] is [None].
    [std::stoi] and [std::stod] are modelled for decimal input (leading blanks,
    sign, digits, fraction, exponent; longest prefix; [Thrown] when there is
    none or the value does not fit), and [std::sort] as a stable insertion
    sort, which is what it must return when the [key_lo]s differ. *)

From S2P Require Import Prelude Doubles RangeMap.
From Stdlib Require Import SpecFloat.

Definition str : Type := list Ascii.ascii.
Definition s_ (s : String.string) : str := String.list_ascii_of_string s.
Arguments s_ s%_string.

(** ** std::string *)

Definition ch_eqb (a b : Ascii.ascii) : bool := Ascii.eqb a b.
Definition in_set (set : str) (c : Ascii.ascii) : bool := existsb (ch_eqb c) set.

(** Position, from [from] on, of the first character that satisfies [p]. *)
Fixpoint find_char_if (p : Ascii.ascii -> bool) (s : str) : option nat :=
  match s with
  | [] => None
  | c :: s' => if p c then Some 0%nat else S <$> find_char_if p s'
  end.
Definition find_from (p : Ascii.ascii -> bool) (s : str) (from : nat) : option nat :=
  Nat.add from <$> find_char_if p (drop from s).

Definition find_first_not_of (set s : str) (from : nat) : option nat :=
  find_from (fun c => negb (in_set set c)) s from.
Definition find_first_of (set s : str) (from : nat) : option nat :=
  find_from (in_set set) s from.
Definition find_ch (c : Ascii.ascii) (s : str) (from : nat) : option nat :=
  find_from (ch_eqb c) s from.

(** Position of the last character outside [set]. *)
Definition find_last_not_of (set s : str) : option nat :=
  (fun i => (length s - S i)%nat) <$> find_first_not_of set (rev s) 0.

Fixpoint prefixb (p s : str) : bool :=
  match p, s with
  | [], _ => true
  | a :: p', b :: s' => ch_eqb a b && prefixb p' s'
  | _, _ => false
  end.

(** [s.find(pat)]. *)
Fixpoint find_sub (pat s : str) : option nat :=
  if prefixb pat s then Some 0%nat
  else match s with [] => None | _ :: s' => S <$> find_sub pat s' end.

(** [s.substr(pos)] and [s.substr(pos, n)]: throws when [pos] is past the end. *)
Definition substr (s : str) (pos : nat) : res str :=
  if (length s <? pos)%nat then Err Thrown else Ok (drop pos s).
Definition substr_n (s : str) (pos n : nat) : res str :=
  if (length s <? pos)%nat then Err Thrown else Ok (take n (drop pos s)).

Definition remove_ch (c : Ascii.ascii) (s : str) : str :=
  filter (fun x => negb (ch_eqb c x)) s.

(** [std::getline] on a string stream, with a delimiter: the tokens. *)
Fixpoint split_on (sep : Ascii.ascii) (cur s : str) : list str :=
  match s with
  | [] => match cur with [] => [] | _ => [rev cur] end
  | c :: s' => if ch_eqb sep c then rev cur :: split_on sep [] s' else split_on sep (c :: cur) s'
  end.
Definition getlines (sep : Ascii.ascii) (s : str) : list str := split_on sep [] s.

(** ** std::stoi, std::stod *)

Definition is_blank (c : Ascii.ascii) : bool :=
  in_set (Ascii.ascii_of_nat 9 :: Ascii.ascii_of_nat 10 :: Ascii.ascii_of_nat 11 ::
          Ascii.ascii_of_nat 12 :: Ascii.ascii_of_nat 13 :: s_ " ") c.

Definition digit_of (c : Ascii.ascii) : option Z :=
  let n := Z.of_nat (Ascii.nat_of_ascii c) in
  if (48 <=? n) && (n <=? 57) then Some (n - 48) else None.

(** The leading digits: their value, their number and the rest. *)
Fixpoint digits (s : str) (v : Z) (n : nat) : Z * nat * str :=
  match s with
  | c :: s' =>
      match digit_of c with
      | Some d => digits s' (10 * v + d) (S n)
      | None => (v, n, s)
      end
  | [] => (v, n, s)
  end.

Fixpoint skip_blanks (s : str) : str :=
  match s with c :: s' => if is_blank c then skip_blanks s' else s | [] => [] end.

Definition sign (s : str) : bool * str :=
  match s with
  | c :: s' =>
      if ch_eqb c (Ascii.ascii_of_nat 45) then (true, s')
      else if ch_eqb c (Ascii.ascii_of_nat 43) then (false, s') else (false, s)
  | [] => (false, s)
  end.

Definition sto_int (w : Z) (s : str) : res Z :=
  let '(neg, s) := sign (skip_blanks s) in
  let '(v, n, _) := digits s 0 0 in
  let z := if neg then - v else v in
  if (n =? 0)%nat then Err Thrown
  else if (- 2 ^ (w - 1) <=? z) && (z <? 2 ^ (w - 1)) then Ok z else Err Thrown.
Definition stoi : str -> res Z := sto_int 32.
Definition stoll : str -> res Z := sto_int 64.

(** [m * 10^e], correctly rounded. *)
Definition double_of_decimal (neg : bool) (m e : Z) : double :=
  match m with
  | Z.pos p =>
      let x :=
        if 0 <=? e then binary_normalize 53 1024 (m * 10 ^ e) 0 false
        else match 10 ^ (- e) with
             | Z.pos d => SFdiv 53 1024 (S754_finite false p 0) (S754_finite false d 0)
             | _ => S754_nan
             end in
      if neg then SFopp x else x
  | _ => S754_zero neg
  end.

Definition stod (s : str) : res double :=
  let '(neg, s) := sign (skip_blanks s) in
  let '(v, n, s) := digits s 0 0 in
  let '(v, n, frac, s) :=
    match s with
    | c :: s' =>
        if ch_eqb c (Ascii.ascii_of_nat 46) then
          let '(v', n', s'') := digits s' v 0 in (v', (n + n')%nat, Z.of_nat n', s'')
        else (v, n, 0, s)
    | [] => (v, n, 0, s)
    end in
  if (n =? 0)%nat then Err Thrown else
  let ex :=
    match s with
    | c :: s' =>
        if in_set (s_ "eE") c then
          let '(eneg, s') := sign s' in
          let '(ev, en, _) := digits s' 0 0 in
          if (en =? 0)%nat then 0 else if eneg then - ev else ev
        else 0
    | [] => 0
    end in
  match double_of_decimal neg v (ex - frac) with
  | S754_infinity _ => Err Thrown
  | x => Ok x
  end.

(** ** The helpers of the parser *)

Definition ws : str :=
  s_ " " ++ [Ascii.ascii_of_nat 9; Ascii.ascii_of_nat 13; Ascii.ascii_of_nat 10].

Definition trim (s : str) : str :=
  match find_first_not_of ws s 0, find_last_not_of ws s with
  | Some start, Some last =>
      let t := take (last - start + 1) (drop start s) in
      match find_sub (s_ " #") t with
      | Some c => take c t
      | None => t
      end
  | _, _ => []
  end.

Definition split_kv (line : str) : option (str * str) :=
  match find_ch (Ascii.ascii_of_nat 58) line 0 with
  | None => None
  | Some pos => Some (trim (take pos line), trim (drop (pos + 1) line))
  end.

(** The template [parse_int]. *)
Definition parse_int (s : str) : res Z :=
  stoll (trim (foldl (fun t c => remove_ch c t) s
                 [Ascii.ascii_of_nat 123; Ascii.ascii_of_nat 125; Ascii.ascii_of_nat 91;
                  Ascii.ascii_of_nat 93; Ascii.ascii_of_nat 39])).

(** The text after [key:] up to [,] or [}]. *)
Definition find_val (s key : str) : str :=
  match find_sub (key ++ s_ ":") s with
  | None => []
  | Some pos =>
      match find_first_not_of (s_ " " ++ [Ascii.ascii_of_nat 9]) s (pos + length key + 1) with
      | None => []
      | Some after =>
          match find_first_of (s_ ",}") s after with
          | None => trim (drop after s)
          | Some e => trim (take (e - after) (drop after s))
          end
      end
  end.

(** [Some] of the pair that [host] and [port] are set to, [None] for [false]. *)
Definition extract_host_port (s : str) : res (option (str * Z)) :=
  let h := find_val s (s_ "host") in
  let p := find_val s (s_ "port") in
  match h, p with
  | [], _ | _, [] => Ok None
  | _, _ => n ← stoi p; Ok (Some (h, u16 n))
  end.

Fixpoint stoi_all (l : list str) : res (list Z) :=
  match l with
  | [] => Ok []
  | tok :: l' =>
      match trim tok with
      | [] => stoi_all l'
      | tr => n ← stoi tr; ns ← stoi_all l'; Ok (n :: ns)
      end
  end.

Definition parse_int_list (s : str) : res (list Z) :=
  stoi_all (getlines (Ascii.ascii_of_nat 44)
    (foldl (fun t c => remove_ch c t) s
       [Ascii.ascii_of_nat 91; Ascii.ascii_of_nat 93; Ascii.ascii_of_nat 123])).

(** ** load *)

Inductive section : Type := NONE | CLOUD | EDGES | ENDS.

Record parser : Type := mkParser {
  p_section : section;
  cur_edge : EdgeInfo;
  cur_end : EndInfo;
  in_edge : bool;
  in_end : bool;
  p_cloud : CloudInfo;
  p_edges : list EdgeInfo;
  p_ends : list EndInfo
}.

Definition edge0 : EdgeInfo := mkEdge 0 [] 0 [].
Definition end0 : EndInfo := mkEnd 0 0 [] 0 (S754_zero false) (S754_zero false).
Definition parser0 : parser := mkParser NONE edge0 end0 false false (mkCloud [] None) [] [].

Definition flush_edge (p : parser) : parser :=
  if in_edge p then
    mkParser (p_section p) edge0 (cur_end p) false (in_end p) (p_cloud p)
      (p_edges p ++ [cur_edge p]) (p_ends p)
  else p.
Definition flush_end (p : parser) : parser :=
  if in_end p then
    mkParser (p_section p) (cur_edge p) end0 (in_edge p) false (p_cloud p)
      (p_edges p) (p_ends p ++ [cur_end p])
  else p.

Definition with_section (sec : section) (p : parser) : parser :=
  mkParser sec (cur_edge p) (cur_end p) (in_edge p) (in_end p) (p_cloud p) (p_edges p) (p_ends p).
Definition with_cloud (c : CloudInfo) (p : parser) : parser :=
  mkParser (p_section p) (cur_edge p) (cur_end p) (in_edge p) (in_end p) c (p_edges p) (p_ends p).
Definition with_edge (e : EdgeInfo) (p : parser) : parser :=
  mkParser (p_section p) e (cur_end p) true (in_end p) (p_cloud p) (p_edges p) (p_ends p).
Definition with_end (e : EndInfo) (p : parser) : parser :=
  mkParser (p_section p) (cur_edge p) e (in_edge p) true (p_cloud p) (p_edges p) (p_ends p).

Definition set_host_port_edge (hp : option (str * Z)) (e : EdgeInfo) : EdgeInfo :=
  match hp with
  | Some (h, p) => mkEdge (edge_id e) h p (end_ids e)
  | None => e
  end.
Definition set_host_port_end (hp : option (str * Z)) (e : EndInfo) : EndInfo :=
  match hp with
  | Some (h, p) => mkEnd (end_id e) (end_edge e) h p (key_lo e) (key_hi e)
  | None => e
  end.

(** One [key: value] line of the cloud block. *)
Definition cloud_line (line : str) (c : CloudInfo) : res CloudInfo :=
  match split_kv line with
  | None => Ok c
  | Some (k, v) =>
      if bool_decide (k = s_ "host") then Ok (mkCloud v (cloud_port c))
      else if bool_decide (k = s_ "port") then
        n ← stoi v; Ok (mkCloud (cloud_host c) (Some (u16 n)))
      else Ok c
  end.

(** An inline edge: [{ id: 1, host: ..., port: ..., ends: [...] }]. *)
Definition inline_edge (rest : str) (e : EdgeInfo) : res EdgeInfo :=
  e ← match find_sub (s_ "id:") rest with
      | None => Ok e
      | Some pos =>
          match find_first_not_of (s_ " " ++ [Ascii.ascii_of_nat 9]) rest (pos + 3) with
          | None => Err Thrown
          | Some after =>
              let tok := match find_ch (Ascii.ascii_of_nat 44) rest after with
                         | None => drop after rest
                         | Some comma => take (comma - after) (drop after rest)
                         end in
              n ← stoi tok; Ok (mkEdge n (edge_host e) (edge_port e) (end_ids e))
          end
      end;
  hp ← extract_host_port rest;
  let e := set_host_port_edge hp e in
  match find_sub (s_ "ends:") rest with
  | None => Ok e
  | Some pos =>
      l ← parse_int_list (drop (pos + 5) rest);
      Ok (mkEdge (edge_id e) (edge_host e) (edge_port e) l)
  end.

Definition edge_kv (line : str) (e : EdgeInfo) : res EdgeInfo :=
  match split_kv line with
  | None => Ok e
  | Some (k, v) =>
      if bool_decide (k = s_ "id") then
        n ← stoi v; Ok (mkEdge n (edge_host e) (edge_port e) (end_ids e))
      else if bool_decide (k = s_ "host") then
        Ok (mkEdge (edge_id e) v (edge_port e) (end_ids e))
      else if bool_decide (k = s_ "port") then
        n ← stoi v; Ok (mkEdge (edge_id e) (edge_host e) (u16 n) (end_ids e))
      else if bool_decide (k = s_ "ends") then
        l ← parse_int_list v; Ok (mkEdge (edge_id e) (edge_host e) (edge_port e) l)
      else Ok e
  end.

Definition edges_line (line : str) (p : parser) : res parser :=
  match line with
  | c :: l' =>
      if ch_eqb c (Ascii.ascii_of_nat 45) then
        let p := flush_edge p in
        let rest := trim l' in
        match rest with
        | d :: _ =>
            if ch_eqb d (Ascii.ascii_of_nat 123) then
              e ← inline_edge rest (cur_edge p); Ok (with_edge e p)
            else Ok (with_edge (cur_edge p) p)
        | [] => Ok (with_edge (cur_edge p) p)
        end
      else if in_edge p then e ← edge_kv line (cur_edge p); Ok (with_edge e p)
      else Ok p
  | [] => Ok p
  end.

(** [parse_field]: [after] may be [npos], and then [substr] throws. *)
Definition parse_field (rest key : str) : res str :=
  match find_sub (key ++ s_ ":") rest with
  | None => Ok []
  | Some pos =>
      match find_first_not_of (s_ " " ++ [Ascii.ascii_of_nat 9]) rest (pos + length key + 1) with
      | None => Err Thrown
      | Some after =>
          match find_first_of (s_ ",}") rest after with
          | None => Ok (trim (drop after rest))
          | Some e => Ok (trim (take (e - after) (drop after rest)))
          end
      end
  end.

Definition opt_stoi (s : str) (old : Z) : res Z :=
  match s with [] => Ok old | _ => stoi s end.

(** [key_range: [lo, hi]]; with no comma both bounds are the whole text. *)
Definition key_range (rest : str) (e : EndInfo) : res EndInfo :=
  match find_sub (s_ "key_range:") rest with
  | None => Ok e
  | Some kr =>
      match find_ch (Ascii.ascii_of_nat 91) rest kr with
      | None => Ok e
      | Some lb =>
          match find_ch (Ascii.ascii_of_nat 93) rest lb with
          | None => Ok e
          | Some rb =>
              let inner := take (rb - lb - 1) (drop (lb + 1) rest) in
              let '(a, b) :=
                match find_ch (Ascii.ascii_of_nat 44) inner 0 with
                | Some comma => (take comma inner, drop (comma + 1) inner)
                | None => (inner, inner)
                end in
              lo ← stod (trim a);
              hi ← stod (trim b);
              Ok (mkEnd (end_id e) (end_edge e) (end_host e) (end_port e) lo hi)
          end
      end
  end.

Definition inline_end (rest : str) (e : EndInfo) : res EndInfo :=
  id_s ← parse_field rest (s_ "id");
  edge_s ← parse_field rest (s_ "edge");
  i ← opt_stoi id_s (end_id e);
  g ← opt_stoi edge_s (end_edge e);
  let e := mkEnd i g (end_host e) (end_port e) (key_lo e) (key_hi e) in
  hp ← extract_host_port rest;
  key_range rest (set_host_port_end hp e).

Definition end_kv (line : str) (e : EndInfo) : res EndInfo :=
  match split_kv line with
  | None => Ok e
  | Some (k, v) =>
      if bool_decide (k = s_ "id") then
        n ← stoi v; Ok (mkEnd n (end_edge e) (end_host e) (end_port e) (key_lo e) (key_hi e))
      else if bool_decide (k = s_ "edge") then
        n ← stoi v; Ok (mkEnd (end_id e) n (end_host e) (end_port e) (key_lo e) (key_hi e))
      else if bool_decide (k = s_ "host") then
        Ok (mkEnd (end_id e) (end_edge e) v (end_port e) (key_lo e) (key_hi e))
      else if bool_decide (k = s_ "port") then
        n ← stoi v;
        Ok (mkEnd (end_id e) (end_edge e) (end_host e) (u16 n) (key_lo e) (key_hi e))
      else if bool_decide (k = s_ "key_lo") then
        x ← stod v; Ok (mkEnd (end_id e) (end_edge e) (end_host e) (end_port e) x (key_hi e))
      else if bool_decide (k = s_ "key_hi") then
        x ← stod v; Ok (mkEnd (end_id e) (end_edge e) (end_host e) (end_port e) (key_lo e) x)
      else Ok e
  end.

Definition ends_line (line : str) (p : parser) : res parser :=
  match line with
  | c :: l' =>
      if ch_eqb c (Ascii.ascii_of_nat 45) then
        let p := flush_end p in
        let rest := trim l' in
        match rest with
        | d :: _ =>
            if ch_eqb d (Ascii.ascii_of_nat 123) then
              e ← inline_end rest (cur_end p); Ok (with_end e p)
            else Ok (with_end (cur_end p) p)
        | [] => Ok (with_end (cur_end p) p)
        end
      else if in_end p then e ← end_kv line (cur_end p); Ok (with_end e p)
      else Ok p
  | [] => Ok p
  end.

(** The body of the [while (std::getline(f, raw))] loop. *)
Definition load_line (p : parser) (raw : str) : res parser :=
  let line := trim raw in
  match line with
  | [] => Ok p
  | c :: _ =>
      if ch_eqb c (Ascii.ascii_of_nat 35) then Ok p
      else if prefixb (s_ "cloud:") line then
        let p := with_section CLOUD (flush_end (flush_edge p)) in
        let val := trim (drop 6 line) in
        match val with
        | d :: _ =>
            if ch_eqb d (Ascii.ascii_of_nat 123) then
              hp ← extract_host_port val;
              match hp with
              | Some (h, n) => Ok (with_cloud (mkCloud h (Some n)) p)
              | None => Ok p
              end
            else Ok p
        | [] => Ok p
        end
      else if bool_decide (line = s_ "edges:") then
        Ok (with_section EDGES (flush_end (flush_edge p)))
      else if bool_decide (line = s_ "ends:") then
        Ok (with_section ENDS (flush_end (flush_edge p)))
      else match p_section p with
           | NONE => Ok p
           | CLOUD => c ← cloud_line line (p_cloud p); Ok (with_cloud c p)
           | EDGES => edges_line line p
           | ENDS => ends_line line p
           end
  end.

(** [std::sort] by [key_lo]. *)
Fixpoint insert_end (e : EndInfo) (l : list EndInfo) : list EndInfo :=
  match l with
  | [] => [e]
  | x :: l' => if dlt (key_lo e) (key_lo x) then e :: x :: l' else x :: insert_end e l'
  end.
Definition sort_ends (l : list EndInfo) : list EndInfo := foldl (fun acc e => insert_end e acc) [] l.

(** [Ok None] is the result [false]; the port of the cloud is read only after
    the host was found non-empty. *)
Definition load (text : str) : res (option RangeMap) :=
  p ← foldlM load_line parser0 (getlines (Ascii.ascii_of_nat 10) text);
  let p := flush_end (flush_edge p) in
  match cloud_host (p_cloud p) with
  | [] => Ok None
  | _ =>
      port ← of_opt UB (cloud_port (p_cloud p));
      if port =? 0 then Ok None
      else match p_edges p, p_ends p with
           | [], _ | _, [] => Ok None
           | _, _ => Ok (Some (mkRangeMap (p_cloud p) (p_edges p) (sort_ends (p_ends p))))
           end
  end.

(** ** The shipped topology (common/topology.yaml) *)

Definition topology_yaml : String.string := "# Static topology for the 1-cloud / 2-edge / 10-end demo.
# Key ranges derived from Data.txt (9,999,999 rows, sorted by key).
# Each end holds exactly 1,000,000 rows. Boundaries:
#   End N key_hi = key at row N*1000000   (last  row of block N)
#   End N key_lo = key at row (N-1)*M+1  (first row of block N)
# _key_t = double (from parameters.h). All key values are large floats.
cloud:
  host: 127.0.0.1
  port: 7000

edges:
  - { id: 1, host: 127.0.0.1, port: 7101, ends: [1, 2, 3, 4, 5] }
  - { id: 2, host: 127.0.0.1, port: 7102, ends: [6, 7, 8, 9, 10] }

ends:
  - { id: 1,  edge: 1, host: 127.0.0.1, port: 7201, key_range: [-1e13,                -12815012040.383575] }
  - { id: 2,  edge: 1, host: 127.0.0.1, port: 7202, key_range: [-12815008635.778347,  -8412909134.803921] }
  - { id: 3,  edge: 1, host: 127.0.0.1, port: 7203, key_range: [-8412904218.133328,   -5241986277.736485] }
  - { id: 4,  edge: 1, host: 127.0.0.1, port: 7204, key_range: [-5241981717.063254,   -2528482259.317568] }
  - { id: 5,  edge: 1, host: 127.0.0.1, port: 7205, key_range: [-2528480743.304966,    5194391.707614] }
  - { id: 6,  edge: 2, host: 127.0.0.1, port: 7206, key_range: [5202302.971719,        2535148186.474630] }
  - { id: 7,  edge: 2, host: 127.0.0.1, port: 7207, key_range: [2535148311.171382,     5242610742.708064] }
  - { id: 8,  edge: 2, host: 127.0.0.1, port: 7208, key_range: [5242617165.837655,     8416781211.038959] }
  - { id: 9,  edge: 2, host: 127.0.0.1, port: 7209, key_range: [8416782370.537807,    12813373369.570753] }
  - { id: 10, edge: 2, host: 127.0.0.1, port: 7210, key_range: [12813376566.001352,    1e13] }
"%string.

Definition shipped : res (option RangeMap) := load (s_ topology_yaml).

(** The cases of [run_topology_test] (common/loopback_test.cpp): a key and the
    end it belongs to. *)
Definition topology_cases : list (str * Z) :=
  [(s_ "-1e13", 1); (s_ "-50332314890.551338", 1); (s_ "-12815012040.383575", 1);
   (s_ "-12815008635.778347", 2); (s_ "5194391.707614", 5); (s_ "5202302.971719", 6);
   (s_ "12813376566.001352", 10); (s_ "1e13", 10)].

(** Shape of a table that the queries of RangeMap.v are correct on. *)
Definition ids_okb (rm : RangeMap) : bool :=
  bool_decide (NoDup (map end_id (rm_ends rm))) &&
  forallb (fun e => (0 <? end_id e) && (0 <=? end_edge e)) (rm_ends rm).

Lemma ids_okb_ok rm : ids_okb rm = true -> ids_ok rm.
Proof.
  unfold ids_okb, ids_ok. intros H. zb. split; [by apply bool_decide_eq_true in H|].
  apply Forall_forall. intros e He. rewrite forallb_forall in H0.
  specialize (H0 e (proj1 (list_elem_of_In _ _) He)). zb. lia.
Qed.

(** The shipped topology parses; its ten ranges are disjoint and in order,
    so that the search theorems apply to it, its ids are unique, and the search
    answers the test-suite's cases. *)
Theorem shipped_topology_ok :
  exists rm, shipped = Ok (Some rm) /\
    ranges_ok (rm_ends rm) = true /\ ids_ok rm /\
    map end_id (rm_ends rm) = [1; 2; 3; 4; 5; 6; 7; 8; 9; 10] /\
    map (fun e => (edge_id e, end_ids e)) (rm_edges rm) =
      [(1, [1; 2; 3; 4; 5]); (2, [6; 7; 8; 9; 10])] /\
    siblings_of rm 1 = [2; 3; 4; 5] /\
    same_edge rm 1 3 = true /\ same_edge rm 1 6 = false /\
    Forall (fun c => exists k, stod (fst c) = Ok k /\ locate_end rm k = Ok (snd c)) topology_cases.
Proof.
  eexists. split; [vm_compute; reflexivity|].
  split; [vm_compute; reflexivity|]. split; [apply ids_okb_ok; vm_compute; reflexivity|].
  repeat (split; [vm_compute; reflexivity|]).
  repeat constructor; (eexists; split; [vm_compute; reflexivity|vm_compute; reflexivity]).
Qed.

(** ** What load promises *)

(** Not after: the order that [std::sort] establishes. *)
Definition not_after (a b : EndInfo) : Prop := dlt (key_lo b) (key_lo a) = false.

Lemma dlt_asym x y : dlt x y = true -> dlt y x = false.
Proof.
  unfold dlt, SFltb.
  assert (E : SFcompare y x = CompOpp <$> SFcompare x y).
  { destruct x as [s1|s1| |s1 m1 e1], y as [s2|s2| |s2 m2 e2]; cbn; try done;
      try (by destruct s1, s2); try (by destruct s1); try (by destruct s2).
    rewrite (Z.compare_antisym e1 e2). rewrite !compare_pos, (Z.compare_antisym (Z.pos m1) (Z.pos m2)).
    destruct s1, s2, (e1 ?= e2), (Z.pos m1 ?= Z.pos m2); done. }
  rewrite E. by destruct (SFcompare x y) as [[]|].
Qed.

Lemma insert_end_sorted e l : Sorted.Sorted not_after l -> Sorted.Sorted not_after (insert_end e l).
Proof.
  induction 1 as [|x l Hl IH Hx]; cbn; [by repeat constructor|].
  destruct (dlt (key_lo e) (key_lo x)) eqn:E.
  - repeat constructor; try done. by apply dlt_asym.
  - constructor; [done|]. destruct l as [|y l]; cbn in *.
    + by constructor.
    + destruct (dlt (key_lo e) (key_lo y)); constructor; [done|]. by inversion Hx.
Qed.

Lemma insert_end_perm e l : insert_end e l ≡ₚ e :: l.
Proof.
  induction l as [|x l IH]; cbn; [done|]. destruct (dlt _ _); [done|].
  rewrite IH. constructor.
Qed.

Lemma sort_ends_spec l : Sorted.Sorted not_after (sort_ends l) /\ sort_ends l ≡ₚ l.
Proof.
  unfold sort_ends.
  assert (K : forall acc, Sorted.Sorted not_after acc ->
    Sorted.Sorted not_after (foldl (fun acc e => insert_end e acc) acc l) /\
    foldl (fun acc e => insert_end e acc) acc l ≡ₚ acc ++ l).
  { induction l as [|x l IH]; intros acc Hacc; cbn; [by rewrite app_nil_r|].
    destruct (IH (insert_end x acc)) as [Hs Hp]; [by apply insert_end_sorted|].
    split; [done|]. rewrite Hp, insert_end_perm. cbn. by rewrite Permutation_middle. }
  apply (K []). constructor.
Qed.

(** C39: a topology that [load] accepts has a cloud address with a non-zero port,
    at least one edge and one end, and the ends it parsed sorted by [key_lo]. *)
Theorem load_promises (text : str) (rm : RangeMap) :
  load text = Ok (Some rm) ->
  cloud_host (rm_cloud rm) <> [] /\
  (exists port, cloud_port (rm_cloud rm) = Some port /\ port <> 0) /\
  rm_edges rm <> [] /\ rm_ends rm <> [] /\
  Sorted.Sorted not_after (rm_ends rm) /\
  exists p, foldlM load_line parser0 (getlines (Ascii.ascii_of_nat 10) text) = Ok p /\
    rm_ends rm ≡ₚ p_ends (flush_end (flush_edge p)).
Proof.
  unfold load. intros H. apply bind_ok in H as (p & Hp & H). rewrite Hp.
  remember (flush_end (flush_edge p)) as q.
  destruct (cloud_host (p_cloud q)) as [|c h] eqn:Eh; [res_inv|].
  apply bind_ok in H as (port & Hport & H). apply of_opt_ok in Hport.
  destruct (Z.eqb_spec port 0); [res_inv|].
  destruct (p_edges q) as [|e es] eqn:Ee; [res_inv|].
  destruct (p_ends q) as [|x xs] eqn:Ex; [res_inv|].
  injection H as <-. cbn [rm_cloud rm_edges rm_ends].
  destruct (sort_ends_spec (x :: xs)) as [Hs Hperm].
  split; [by rewrite Eh|]. split; [by exists port|]. split; [done|].
  split.
  { intros Hn. rewrite Hn in Hperm. by apply Permutation_nil_cons in Hperm. }
  split; [done|]. exists p. split; [done|]. rewrite <- Heqq, Ex. done.
Qed.

Lemma shipped_loads : exists rm, load (s_ topology_yaml) = Ok (Some rm).
Proof. eexists. vm_compute. reflexivity. Qed.

Lemma load_promises_witness :
  exists rm, load (s_ topology_yaml) = Ok (Some rm) /\ rm_ends rm <> [].
Proof.
  destruct shipped_loads as [rm E]. exists rm. split; [exact E|].
  exact (proj1 (proj2 (proj2 (proj2 (load_promises _ _ E))))).
Defined.

(** [trim] is documented to strip blanks and the comment after them, but it
    cuts the comment last: with two blanks before [#] a blank stays, and then
    the section header is not recognised and its items are dropped. *)
Theorem header_with_comment_is_missed :
  trim (s_ "edges:  # two edges") = s_ "edges: " /\
  load_line parser0 (s_ "edges: # two edges") = Ok (with_section EDGES parser0) /\
  load_line parser0 (s_ "edges:  # two edges") = Ok parser0.
Proof. split; [|split]; vm_compute; reflexivity. Qed.

(** ** The queries on the shipped topology *)

Definition shipped_map : RangeMap :=
  match shipped with Ok (Some rm) => rm | _ => mkRangeMap (mkCloud [] None) [] [] end.

Lemma locate_end_correct_witness : locate_end shipped_map (double_of_Z 1) = Ok 5.
Proof.
  refine (locate_end_correct shipped_map (double_of_Z 1) _ _ _); vm_compute; reflexivity.
Defined.

Lemma siblings_of_correct_witness :
  4 ∈ siblings_of shipped_map (end_id (default end0 (rm_ends shipped_map !! 0%nat))) <->
  exists e, e ∈ rm_ends shipped_map /\ end_id e = 4 /\
    4 <> end_id (default end0 (rm_ends shipped_map !! 0%nat)) /\
    same_edge shipped_map (end_id (default end0 (rm_ends shipped_map !! 0%nat))) 4 = true.
Proof.
  refine (siblings_of_correct shipped_map (default end0 (rm_ends shipped_map !! 0%nat)) 4 _ _).
  - apply ids_okb_ok. vm_compute. reflexivity.
  - apply list_elem_of_lookup. exists 0%nat. vm_compute. reflexivity.
Defined.
