(* ===== verification/Text.v ===== *)
(** * Decimal text

    What [std::to_string] and [operator<<] write for an integer, and that [std::stoi] and
    the splitting of lines and fields read it back. *)

From S2P Require Import Prelude Topology.
Open Scope Z_scope.

Definition char_of_digit (d : Z) : Ascii.ascii := Ascii.ascii_of_nat (Z.to_nat (48 + d)).

(** The decimal digits of a number below [10 ^ fuel], before [acc]. *)
Fixpoint show_digits (fuel : nat) (z : Z) (acc : str) : str :=
  match fuel with
  | O => acc
  | S f =>
      let acc := char_of_digit (z mod 10) :: acc in
      if z / 10 =? 0 then acc else show_digits f (z / 10) acc
  end.
Definition show_int (z : Z) : str :=
  if z <? 0 then Ascii.ascii_of_nat 45 :: show_digits 10 (- z) [] else show_digits 10 z [].

Definition comma : Ascii.ascii := Ascii.ascii_of_nat 44.
Definition newline : Ascii.ascii := Ascii.ascii_of_nat 10.

(** ** Decimal numbers *)

Lemma digit_of_char d : 0 <= d < 10 -> digit_of (char_of_digit d) = Some d.
Proof.
  intros Hd. unfold digit_of, char_of_digit. rewrite Ascii.nat_ascii_embedding by lia.
  rewrite Z2Nat.id by lia. rewrite (proj2 (Z.leb_le _ _)), (proj2 (Z.leb_le _ _)) by lia. cbn. f_equal. lia.
Qed.

(** Only the first character after a number decides where it ends. *)
Definition ends_number (s : str) : Prop := match s with [] => True | c :: _ => digit_of c = None end.

Lemma digits_stop s v n : ends_number s -> digits s v n = (v, n, s).
Proof. destruct s as [|c s]; cbn; [done|]. by intros ->. Qed.

(** Reading the digits of [z] before [acc] from an accumulated [v]. *)
Lemma digits_show fuel z acc v n :
  0 <= z < 10 ^ Z.of_nat fuel -> (0 < fuel)%nat ->
  exists k, (0 < k)%nat /\
  digits (show_digits fuel z acc) v n = digits acc (v * 10 ^ Z.of_nat k + z) (n + k)%nat.
Proof.
  revert z acc v n. induction fuel as [|f IH]; intros z acc v n Hz Hf; [lia|]. cbn [show_digits].
  pose proof (Z.mod_pos_bound z 10 ltac:(lia)) as Hm.
  assert (Hd : z = 10 * (z / 10) + z mod 10) by (apply Z.div_mod; lia).
  destruct (Z.eqb_spec (z / 10) 0) as [E0|E0].
  - exists 1%nat. split; [lia|]. cbn [digits]. rewrite digit_of_char by lia.
    f_equal; [lia|lia].
  - destruct f as [|f]; [exfalso; cbn in Hz; apply E0, Z.div_small; lia|].
    destruct (IH (z / 10) (char_of_digit (z mod 10) :: acc) v n) as (k & Hk & H); [|lia|].
    { split; [apply Z.div_pos; lia|]. apply Z.div_lt_upper_bound; [lia|].
      rewrite Nat2Z.inj_succ, Z.pow_succ_r in Hz by lia. lia. }
    exists (S k). split; [lia|]. rewrite H. cbn [digits]. rewrite digit_of_char by lia.
    f_equal; [|lia]. rewrite Nat2Z.inj_succ, Z.pow_succ_r by lia. lia.
Qed.

(** The numbers the tool prints. *)
Definition shown (z : Z) : Prop := 0 <= z < 2 ^ 31.

Lemma show_digits_app fuel z acc s : show_digits fuel z acc ++ s = show_digits fuel z (acc ++ s).
Proof. revert z acc. induction fuel as [|f IH]; intros z acc; cbn; [done|]. case_match; [done|]. apply IH. Qed.

Lemma show_int_digits z s : shown z -> show_int z ++ s = show_digits 10 z s.
Proof.
  intros Hz. unfold show_int. rewrite (proj2 (Z.ltb_ge _ _)) by (unfold shown in Hz; lia).
  by rewrite show_digits_app.
Qed.

Lemma digits_show_int z s :
  shown z -> ends_number s -> exists n, n <> 0%nat /\ digits (show_int z ++ s) 0 0 = (z, n, s).
Proof.
  intros Hz Hs. rewrite show_int_digits by done.
  destruct (digits_show 10 z s 0 0) as (k & Hk & E); [unfold shown in Hz; lia|lia|].
  exists k. split; [lia|]. rewrite E, digits_stop by done. do 2 f_equal; lia.
Qed.

(** A digit is no blank, sign, comma or newline. *)
Lemma digit_plain c d :
  digit_of c = Some d ->
  is_blank c = false /\ ch_eqb c (Ascii.ascii_of_nat 45) = false /\ ch_eqb c (Ascii.ascii_of_nat 43) = false /\
  ch_eqb comma c = false /\ ch_eqb newline c = false.
Proof. destruct c as [[] [] [] [] [] [] [] []]; vm_compute; intros [=]; done. Qed.

Lemma show_digits_all fuel z acc :
  0 <= z -> Forall (fun c => digit_of c <> None) acc -> Forall (fun c => digit_of c <> None) (show_digits fuel z acc).
Proof.
  revert z acc. induction fuel as [|f IH]; intros z acc Hz Ha; cbn; [done|].
  pose proof (Z.mod_pos_bound z 10 ltac:(lia)).
  assert (Hd : Forall (fun c => digit_of c <> None) (char_of_digit (z mod 10) :: acc)).
  { constructor; [by rewrite digit_of_char by lia|done]. }
  case_match; [done|]. apply IH; [apply Z.div_pos; lia|done].
Qed.

Lemma show_int_all z : shown z -> Forall (fun c => digit_of c <> None) (show_int z).
Proof.
  intros Hz. rewrite <- (app_nil_r (show_int z)), show_int_digits by done.
  apply show_digits_all; [unfold shown in Hz; lia|constructor].
Qed.

(** [stoi] reads back what [operator<<] wrote. *)
Lemma stoi_show z : shown z -> stoi (show_int z) = Ok z.
Proof.
  intros Hz. destruct (digits_show_int z [] Hz I) as (n & Hn & E). rewrite app_nil_r in E.
  pose proof (show_int_all z Hz) as Ha. unfold stoi, sto_int.
  assert (Es : sign (skip_blanks (show_int z)) = (false, show_int z)).
  { destruct (show_int z) as [|c s] eqn:Ec; [done|]. apply Forall_cons in Ha as [Hc _].
    destruct (digit_of c) as [d|] eqn:Ed; [|done]. destruct (digit_plain c d Ed) as (B & M & P & _).
    cbn [skip_blanks]. rewrite B. cbn [sign]. by rewrite M, P. }
  rewrite Es, E. destruct (Nat.eqb_spec n 0) as [|_]; [done|]. unfold shown in Hz.
  by rewrite (proj2 (Z.leb_le _ _)), (proj2 (Z.ltb_lt _ _)) by lia.
Qed.

(** ** Lines and fields *)

Definition without (sep : Ascii.ascii) (s : str) : Prop := Forall (fun c => ch_eqb sep c = false) s.

Lemma split_on_field sep cur s rest :
  without sep s -> split_on sep cur (s ++ sep :: rest) = (rev cur ++ s) :: split_on sep [] rest.
Proof.
  intros Hs. revert cur. induction Hs as [|c s Hc Hs IH]; intros cur; cbn.
  - unfold ch_eqb. rewrite Ascii.eqb_refl. by rewrite app_nil_r.
  - rewrite Hc, IH. cbn. by rewrite <- app_assoc.
Qed.

Lemma split_on_last sep cur s :
  without sep s -> rev cur ++ s <> [] -> split_on sep cur s = [rev cur ++ s].
Proof.
  intros Hs. revert cur. induction Hs as [|c s Hc Hs IH]; intros cur Hne; cbn.
  - rewrite app_nil_r in *. destruct cur; [done|]. done.
  - rewrite Hc, IH; cbn; rewrite <- app_assoc; [done|]. by destruct (rev cur).
Qed.

Lemma getlines_lines ls : Forall (without newline) ls ->
  getlines newline (concat (map (fun l => l ++ [newline]) ls)) = ls.
Proof.
  unfold getlines. induction 1 as [|l ls Hl Hls IH]; [done|]. cbn [map concat].
  rewrite <- app_assoc. cbn [app]. by rewrite split_on_field, IH by done.
Qed.

Lemma shown_without z : shown z -> without comma (show_int z) /\ without newline (show_int z).
Proof.
  intros Hz. pose proof (show_int_all z Hz) as Ha. split; eapply Forall_impl; try exact Ha.
  all: intros c Hc; cbn in Hc; destruct (digit_of c) as [d|] eqn:E; [|done]; by apply (digit_plain c d E).
Qed.

(** ** Fields of a stream *)

(** [std::getline(ss, token, ',')]: at the end of the stream [token] keeps its value. *)
Definition next_token (ss : option str) (token : str) : option str * str :=
  match ss with
  | None => (None, token)
  | Some s =>
      let n := prefix_len (fun c => negb (ch_eqb comma c)) s in
      if (n <? length s)%nat then (Some (drop (S n) s), take n s) else (None, s)
  end.

Lemma next_token_field w rest token :
  without comma w -> next_token (Some (w ++ comma :: rest)) token = (Some rest, w).
Proof.
  intros Hw. unfold next_token.
  assert (E : prefix_len (fun c => negb (ch_eqb comma c)) (w ++ comma :: rest) = length w).
  { apply prefix_len_unique.
    - rewrite length_app. lia.
    - intros i x Hi Hx. rewrite lookup_app_l in Hx by done. by rewrite (proj1 (Forall_lookup _ _) Hw i x Hx).
    - intros x Hx. rewrite list_lookup_middle in Hx by done. injection Hx as <-. done. }
  rewrite E, length_app. cbn [length]. rewrite (proj2 (Nat.ltb_lt _ _)) by lia.
  rewrite take_app_length. f_equal. f_equal. rewrite drop_app_ge by lia.
  by replace (S (length w) - length w)%nat with 1%nat by lia.
Qed.

Lemma next_token_last w token : without comma w -> next_token (Some w) token = (None, w).
Proof.
  intros Hw. unfold next_token. assert (E : prefix_len (fun c => negb (ch_eqb comma c)) w = length w).
  { induction Hw as [|c w Hc _ IH]; [done|]. cbn [prefix_len length]. by rewrite Hc, IH. }
  by rewrite E, Nat.ltb_irrefl.
Qed.
