(* ===== verification/Transport.v ===== *)
(** * Transports (common/transport.h, common/transport.cpp, common/rdma_transport.cpp)

    [Transport] is the interface that the End and the Edge are written against:
    frames, and one-sided reads of registered memory.  [TcpTransport] implements
    it over the socket of Rpc.v, [RdmaTransport] over the verbs library, which is
    the parameter [Verbs]: completion queues, the buffers the adapter writes to,
    and a clock.  How a connection is made is in RdmaSetup.v.  Times are in microseconds. *)

From S2P Require Import Prelude Doubles Bytes Rpc Topology.

(** ** Modes and ports *)

Inductive Mode : Type := TCP | RDMA | AUTO.

#[export] Instance Mode_eq_dec : EqDecision Mode.
Proof. solve_decision. Defined.

Definition parse_mode (raw : str) : Mode :=
  if bool_decide (raw = s_ "tcp") then TCP
  else if bool_decide (raw = s_ "rdma") then RDMA
  else AUTO.

Definition mode_name (m : Mode) : str :=
  match m with TCP => s_ "tcp" | RDMA => s_ "rdma" | AUTO => s_ "auto" end.

(** The sum is an [int]. *)
Definition rdma_port_for (tcp_port offset : Z) : res Z :=
  let p := tcp_port + offset in
  if 2 ^ 31 <=? p then Err UB else
  let port := if p <? 1 then tcp_port else p in
  let port := if 65535 <? port then tcp_port else port in
  Ok (u16 port).

(** ** The interface *)

Record RegisteredMemory : Type := mkMem { mem_addr : Z; mem_rkey : Z; mem_size : Z }.

(** [t_read_remote] returns the bytes it copied to [dst], [None] for [false];
    [t_register_memory] takes the address of a range and its bytes. *)
Class Transport (W : Type) := {
  t_read_frame : W -> Frame -> Z -> res (bool * Frame * W);
  t_write_frame : W -> Frame -> res (bool * W);
  t_close : W -> W;
  t_supports_remote_read : W -> bool;
  t_register_memory : W -> Z -> list Z -> option RegisteredMemory * W;
  t_read_remote : W -> Z -> Z -> nat -> res (option (list Z) * W)
}.

(** What a one-sided read promises: it ends, and a success returns the remote bytes.
    [t_remote] is the memory that the remote keys open through this transport; after a read
    that failed nothing is known of it. *)
Class RemoteLaws (W : Type) `{Transport W} := {
  t_remote : W -> Z -> Z -> option Z;
  remote_read : forall s a k bytes,
    (forall i, (i < length bytes)%nat -> t_remote s k (u64 (a + Z.of_nat i)) = bytes !! i) ->
    exists r s', t_read_remote s a k (length bytes) = Ok (r, s') /\
      match r with Some l => l = bytes /\ t_remote s' = t_remote s | None => True end
}.

(** ** TcpTransport *)

Inductive select_result : Type := READY | TIMEOUT | EINTR | FAILED.

(** [select] on the socket; a signal can interrupt it [sel_signals] more times. *)
Class Select (W : Type) := {
  sys_select : W -> Z -> select_result * W;
  sel_signals : W -> nat
}.

Class SelectLaws (W : Type) `{StreamIO W} `{Select W} := {
  select_keeps : forall s t r s', sys_select s t = (r, s') ->
    pending s' = pending s /\ sent s' = sent s;
  select_interrupted : forall s t s', sys_select s t = (EINTR, s') ->
    (sel_signals s' < sel_signals s)%nat
}.

Record TcpTransport (W : Type) : Type := mkTcp { tcp_open : bool; tcp_sock : W }.
Arguments mkTcp {W} _ _.
Arguments tcp_open {W} _.
Arguments tcp_sock {W} _.

Section Tcp.
Context {W : Type} `{StreamIO W} `{Select W}.

(** [do ... while (rc < 0 && errno == EINTR)]: is the socket readable? *)
Fixpoint select_loop (fuel : nat) (s : W) (timeout_ms : Z) : res (bool * W) :=
  match fuel with
  | O => Err OutOfFuel
  | S fuel' =>
      match sys_select s timeout_ms with
      | (READY, s') => Ok (true, s')
      | (EINTR, s') => select_loop fuel' s' timeout_ms
      | (_, s') => Ok (false, s')
      end
  end.

Definition tcp_read_frame (t : TcpTransport W) (out : Frame) (timeout_ms : Z)
  : res (bool * Frame * TcpTransport W) :=
  if negb (tcp_open t) then Ok (false, out, t) else
  '(ready, s) ← (if 0 <=? timeout_ms
                  then select_loop (S (sel_signals (tcp_sock t))) (tcp_sock t) timeout_ms
                  else Ok (true, tcp_sock t));
  if negb ready then Ok (false, out, mkTcp true s) else
  '(ok, f, s) ← read_frame s out;
  Ok (ok, f, mkTcp true s).

Definition tcp_write_frame (t : TcpTransport W) (f : Frame) : res (bool * TcpTransport W) :=
  if negb (tcp_open t) then Ok (false, t) else
  '(ok, s) ← write_frame (tcp_sock t) f;
  Ok (ok, mkTcp true s).

Definition tcp_close (t : TcpTransport W) : TcpTransport W := mkTcp false (tcp_sock t).

(** The methods that the base class defines refuse. *)
#[export] Instance tcp_transport : Transport (TcpTransport W) := {
  t_read_frame := tcp_read_frame;
  t_write_frame := tcp_write_frame;
  t_close := tcp_close;
  t_supports_remote_read := fun _ => false;
  t_register_memory := fun t _ _ => (None, t);
  t_read_remote := fun t _ _ _ => Ok (None, t)
}.

End Tcp.

(** ** RdmaTransport *)

Definition kMaxFrameBytes : Z := 4 * 1024 * 1024.
Definition kRecvDepth : Z := 8.
Definition kPollSleepUs : Z := 50.
Definition kDefaultCmTimeoutMs : Z := 3000.

Inductive cq : Type := SEND_CQ | RECV_CQ.
(** [ibv_poll_cq] for one entry: an error, nothing, or a completion with its
    status and its work-request id. *)
Inductive polled : Type := PollError | Empty | Completed (success : bool) (wr_id : Z).

Class Verbs (W : Type) := {
  v_now : W -> Z;
  v_sleep : W -> Z -> W;
  v_poll : W -> cq -> polled * W;
  (** Post the bytes as a SEND; post a READ of [n] bytes at an address; give
      the receive buffer [i] back to the adapter. *)
  v_post_send : W -> list Z -> bool * W;
  v_post_read : W -> Z -> Z -> nat -> bool * W;
  v_post_recv : W -> Z -> bool * W;
  v_reg_mr : W -> Z -> list Z -> option Z * W;
  (** The buffers the adapter writes to. *)
  v_read_buf : W -> list Z;
  v_recv_buf : W -> Z -> list Z;
  v_teardown : W -> W
}.

Record RdmaTransport (W : Type) : Type := mkRdma { rdma_closed : bool; rdma_world : W }.
Arguments mkRdma {W} _ _.
Arguments rdma_closed {W} _.
Arguments rdma_world {W} _.

Section Rdma.
Context {W : Type} `{Verbs W}.

(** [poll_cq]: the work-request id of the first successful completion. *)
Fixpoint poll_loop (fuel : nat) (w : W) (q : cq) (timeout_ms deadline : Z)
  : res (option Z * W) :=
  match fuel with
  | O => Err OutOfFuel
  | S fuel' =>
      if (timeout_ms <? 0) || (v_now w <? deadline) then
        match v_poll w q with
        | (PollError, w) => Ok (None, w)
        | (Empty, w) => poll_loop fuel' (v_sleep w kPollSleepUs) q timeout_ms deadline
        | (Completed false _, w) => Ok (None, w)
        | (Completed true id, w) => Ok (Some id, w)
        end
      else Ok (None, w)
  end.

Definition poll_cq (fuel : nat) (w : W) (q : cq) (timeout_ms : Z) : res (option Z * W) :=
  poll_loop fuel w q timeout_ms
    (v_now w + 1000 * (if timeout_ms <? 0 then 60000 else timeout_ms)).

(** Enough iterations for a timed wait; an untimed one has [patience]. *)
Definition poll_fuel (patience : nat) (timeout_ms : Z) : nat :=
  if timeout_ms <? 0 then patience else S (Z.to_nat (20 * timeout_ms)).

Context (patience : nat).
Definition wait_cq (w : W) (q : cq) (timeout_ms : Z) : res (option Z * W) :=
  poll_cq (poll_fuel patience timeout_ms) w q timeout_ms.

(** The bounds check is made in [uint32_t]. *)
Definition rdma_read_frame (t : RdmaTransport W) (out : Frame) (timeout_ms : Z)
  : res (bool * Frame * RdmaTransport W) :=
  '(id, w) ← wait_cq (rdma_world t) RECV_CQ timeout_ms;
  let t := mkRdma (rdma_closed t) w in
  match id with
  | None => Ok (false, out, t)
  | Some idx =>
      if kRecvDepth <=? idx then Ok (false, out, t) else
      let b := v_recv_buf w idx in
      if (length b <? 5)%nat then Ok (false, out, t) else
      let payload_len := be_val (take 4 b) in
      if (payload_len <? 1) || (Z.of_nat (length b) <? u32 (payload_len + 4))
      then Ok (false, out, t) else
      ty ← of_opt UB (b !! 4%nat);
      let body_len := Z.to_nat (payload_len - 1) in
      bd ← (if (0 <? body_len)%nat
             then if (length b <? 5 + body_len)%nat then Err UB
                  else Ok (take body_len (drop 5 b))
             else Ok []);
      let '(ok, w) := v_post_recv w idx in
      Ok (ok, mkFrame (msg_of_byte ty) bd, mkRdma (rdma_closed t) w)
  end.

Definition rdma_write_frame (t : RdmaTransport W) (f : Frame) : res (bool * RdmaTransport W) :=
  let plen := 1 + Z.of_nat (length (body f)) in
  let total := 4 + plen in
  if kMaxFrameBytes <? total then Ok (false, t) else
  let '(posted, w) :=
    v_post_send (rdma_world t) (be_bytes 4 (u32 plen) ++ byte_of_msg (ftype f) :: body f) in
  if negb posted then Ok (false, mkRdma (rdma_closed t) w) else
  '(id, w) ← wait_cq w SEND_CQ kDefaultCmTimeoutMs;
  Ok (bool_decide (is_Some id), mkRdma (rdma_closed t) w).

Fixpoint read_remote_loop (fuel : nat) (w : W) (remote_addr rkey : Z) (size : nat) (dst : list Z)
  : res (option (list Z) * W) :=
  let done_ := length dst in
  if (done_ <? size)%nat then
    match fuel with
    | O => Err OutOfFuel
    | S fuel' =>
        let chunk := Z.to_nat (Z.min kMaxFrameBytes (Z.of_nat (size - done_))) in
        let '(posted, w) := v_post_read w (u64 (remote_addr + Z.of_nat done_)) rkey chunk in
        if negb posted then Ok (None, w) else
        '(id, w) ← wait_cq w SEND_CQ kDefaultCmTimeoutMs;
        match id with
        | None => Ok (None, w)
        | Some _ => read_remote_loop fuel' w remote_addr rkey size (dst ++ take chunk (v_read_buf w))
        end
    end
  else Ok (Some dst, w).

Definition rdma_read_remote (t : RdmaTransport W) (remote_addr rkey : Z) (size : nat)
  : res (option (list Z) * RdmaTransport W) :=
  '(r, w) ← read_remote_loop size (rdma_world t) remote_addr rkey size [];
  Ok (r, mkRdma (rdma_closed t) w).

Definition rdma_register_memory (t : RdmaTransport W) (address : Z) (bytes : list Z)
  : option RegisteredMemory * RdmaTransport W :=
  if (address =? 0) || (length bytes =? 0)%nat then (None, t) else
  let '(key, w) := v_reg_mr (rdma_world t) address bytes in
  (match key with
   | Some k => Some (mkMem address k (Z.of_nat (length bytes)))
   | None => None
   end, mkRdma (rdma_closed t) w).

Definition rdma_close (t : RdmaTransport W) : RdmaTransport W :=
  if rdma_closed t then t else mkRdma true (v_teardown (rdma_world t)).

#[local] Instance rdma_transport : Transport (RdmaTransport W) := {
  t_read_frame := rdma_read_frame;
  t_write_frame := rdma_write_frame;
  t_close := rdma_close;
  t_supports_remote_read := fun _ => true;
  t_register_memory := rdma_register_memory;
  t_read_remote := rdma_read_remote
}.

End Rdma.

(** ** connect_transport

    [connect_tcp] is the socket library's; [connect_rdma] is absent in a build
    without PLIN_ENABLE_RDMA.  The error text is [err], which the caller passes
    in empty. *)

Section Connect.
Context {W : Type} (connect_tcp : list Ascii.ascii -> Z -> option W) (errno_text : str).
Context (connect_rdma : option (list Ascii.ascii -> Z -> W + str)).

Definition connect_transport (host : list Ascii.ascii) (tcp_port : Z) (mode : Mode)
    (rdma_port_offset : Z) (err : str) : res (option W * str) :=
  r ← (if bool_decide (mode = TCP) then Ok (None, err) else
       match connect_rdma with
       | Some connect =>
           port ← rdma_port_for tcp_port rdma_port_offset;
           Ok match connect host port with
              | inl t => (Some t, err)
              | inr rdma_err => (None, rdma_err)
              end
       | None => Ok (None, s_ "RDMA support was not compiled in")
       end);
  match r with
  | (Some t, err) => Ok (Some t, err)
  | (None, err) =>
      if bool_decide (mode = RDMA) then Ok (None, err) else
      match connect_tcp host tcp_port with
      | Some t => Ok (Some t, err)
      | None => Ok (None, if bool_decide (err = []) then errno_text else err)
      end
  end.

End Connect.

(** ** What the verbs library documents *)

(** A work request of the send queue. *)
Inductive work : Type :=
| WSend (bytes : list Z)
| WRead (address rkey : Z) (n : nat).
Definition work_id (r : work) : Z := match r with WSend _ => 1 | WRead _ _ _ => 2 end.

(** The send queue completes its work requests in the order in which they were posted, and
    every one of them is signaled: a poll that returns a completion takes the oldest. *)
Class VerbsLaws (W : Type) `{Verbs W} := {
  (** The messages sent, the memory a remote key gives access to, and the work requests
      whose completion has not been polled, the oldest first. *)
  v_sent : W -> list (list Z);
  v_remote : W -> Z -> Z -> option Z;
  v_outstanding : W -> list work;
  sleep_lasts : forall w d, v_now w + d <= v_now (v_sleep w d);
  poll_time : forall w q r w', v_poll w q = (r, w') -> v_now w <= v_now w';
  poll_keeps : forall w q r w', v_poll w q = (r, w') ->
    v_sent w' = v_sent w /\ v_remote w' = v_remote w;
  poll_empty : forall w q w', v_poll w q = (Empty, w') -> v_outstanding w' = v_outstanding w;
  poll_completed : forall w b id w', v_poll w SEND_CQ = (Completed b id, w') ->
    exists r, v_outstanding w = r :: v_outstanding w' /\ id = work_id r;
  sleep_keeps : forall w d, v_sent (v_sleep w d) = v_sent w /\
    v_remote (v_sleep w d) = v_remote w /\ v_outstanding (v_sleep w d) = v_outstanding w;
  post_send_sends : forall w l w', v_post_send w l = (true, w') ->
    v_sent w' = v_sent w ++ [l] /\ v_outstanding w' = v_outstanding w ++ [WSend l];
  post_read_starts : forall w a k n b w', v_post_read w a k n = (b, w') ->
    (b = true -> v_outstanding w' = v_outstanding w ++ [WRead a k n]) /\ v_remote w' = v_remote w;
  (** When a READ has completed and no other request is under way, the read buffer starts
      with the remote bytes. *)
  read_completes : forall w id w' a k n, v_poll w SEND_CQ = (Completed true id, w') ->
    v_outstanding w = [WRead a k n] ->
    (n <= length (v_read_buf w'))%nat /\
    forall i, (i < n)%nat -> v_read_buf w' !! i = v_remote w k (u64 (a + Z.of_nat i))
}.

Section RdmaLaws.
Context {W : Type} `{VerbsLaws W} (patience : nat).

Lemma poll_loop_inv fuel w q t d r w' (Q : W -> Prop) :
  poll_loop fuel w q t d = Ok (r, w') ->
  Q w ->
  (forall w w1, Q w -> v_poll w q = (Empty, w1) -> Q (v_sleep w1 kPollSleepUs)) ->
  match r with
  | Some id => exists w0, Q w0 /\ v_poll w0 q = (Completed true id, w')
  | None => True
  end.
Proof.
  revert w; induction fuel as [|fuel IH]; intros w E HQ Hstep; [done|]. cbn in E.
  destruct ((t <? 0) || (v_now w <? d)); [|by simplify_eq].
  destruct (v_poll w q) as [[| |[] id] w1] eqn:Ep; simplify_eq; try done.
  - eapply IH; [done| |done]. by eapply Hstep.
  - by exists w.
Qed.

(** A timed wait sleeps at least 50 us per round, so the rounds are bounded. *)
Lemma poll_loop_total fuel w q t d :
  0 <= t -> (0 < fuel)%nat -> d - v_now w <= kPollSleepUs * (Z.of_nat fuel - 1) ->
  exists r w', poll_loop fuel w q t d = Ok (r, w').
Proof.
  unfold kPollSleepUs. intros Ht. revert w; induction fuel as [|fuel IH]; intros w Hf Hd; [lia|].
  cbn [poll_loop]. destruct (Z.ltb_spec t 0); [lia|]. cbn [orb].
  destruct (Z.ltb_spec (v_now w) d) as [Hlt|]; [|by eexists _, _].
  destruct (v_poll w q) as [[| |[] id] w1] eqn:Ep; try by eexists _, _.
  pose proof (poll_time _ _ _ _ Ep) as Hp.
  pose proof (sleep_lasts w1 kPollSleepUs) as Hs. unfold kPollSleepUs in Hs.
  destruct fuel as [|fuel]; [lia|]. apply IH; [lia|]. unfold kPollSleepUs. lia.
Qed.

Lemma wait_cq_total w q t :
  0 <= t -> exists r w', wait_cq patience w q t = Ok (r, w').
Proof.
  intros Ht. unfold wait_cq, poll_fuel, poll_cq. destruct (Z.ltb_spec t 0); [lia|].
  apply poll_loop_total; unfold kPollSleepUs; lia.
Qed.

(** A poll that succeeds is the end of a wait in which nothing else completed. *)
Lemma wait_cq_some w q t id w' :
  wait_cq patience w q t = Ok (Some id, w') ->
  exists w0, v_remote w0 = v_remote w /\ v_outstanding w0 = v_outstanding w /\ v_poll w0 q = (Completed true id, w').
Proof.
  intros E. unfold wait_cq, poll_cq in E.
  eapply (poll_loop_inv _ _ _ _ _ _ _
    (fun w0 => v_remote w0 = v_remote w /\ v_outstanding w0 = v_outstanding w)) in E; [|done|].
  - destruct E as (w0 & [Hm Ho] & Ep). by exists w0.
  - intros w0 w1 [Hm Ho] Ep. destruct (poll_keeps _ _ _ _ Ep) as [_ E1]. apply poll_empty in Ep.
    destruct (sleep_keeps w1 kPollSleepUs) as (_ & -> & ->). by rewrite E1, Ep.
Qed.

Lemma wait_cq_keeps w q t r w' :
  wait_cq patience w q t = Ok (r, w') -> v_sent w' = v_sent w /\ v_remote w' = v_remote w.
Proof.
  unfold wait_cq, poll_cq. generalize (v_now w + 1000 * (if t <? 0 then 60000 else t)).
  intros d. generalize (poll_fuel patience t). intros fuel.
  revert w; induction fuel as [|fuel IH]; intros w E; [done|]. cbn in E.
  destruct ((t <? 0) || (v_now w <? d)); [|by simplify_eq].
  destruct (v_poll w q) as [[| |[] id] w1] eqn:Ep; simplify_eq;
    destruct (poll_keeps _ _ _ _ Ep) as [E1 E2]; try done.
  destruct (IH _ E) as [-> ->]. destruct (sleep_keeps w1 kPollSleepUs) as (-> & -> & _). done.
Qed.

(** The chunks of a remote read are appended in order: when nothing was outstanding, the
    completion of each poll is the one of the READ just posted. *)
Lemma read_remote_loop_spec fuel w a k size dst bytes :
  (size - length dst <= fuel)%nat -> (length dst <= size)%nat -> v_outstanding w = [] ->
  (forall i, (i < size)%nat -> v_remote w k (u64 (a + Z.of_nat i)) = bytes !! i) ->
  dst = take (length dst) bytes -> length bytes = size ->
  exists r w', read_remote_loop patience fuel w a k size dst = Ok (r, w') /\ v_remote w' = v_remote w /\
    match r with Some l => l = bytes /\ v_outstanding w' = [] | None => True end.
Proof.
  revert w dst; induction fuel as [|fuel IH]; intros w dst Hf Hd Hout Hmem Hpre Hlen;
    cbn [read_remote_loop].
  { destruct (Nat.ltb_spec (length dst) size); [lia|]. eexists _, _. split; [done|]. split; [done|]. cbn.
    split; [|done]. rewrite Hpre. apply take_ge. lia. }
  destruct (Nat.ltb_spec (length dst) size) as [Hlt|Hge].
  2: { eexists _, _. split; [done|]. split; [done|]. cbn. split; [|done]. rewrite Hpre. apply take_ge. lia. }
  set (chunk := Z.to_nat (Z.min kMaxFrameBytes (Z.of_nat (size - length dst)))).
  assert (Hc : (0 < chunk <= size - length dst)%nat) by (unfold chunk, kMaxFrameBytes; lia).
  destruct (v_post_read w _ k chunk) as [b w1] eqn:Ep.
  apply post_read_starts in Ep as [Hr Hm]. destruct b; cbn [negb]; [|by eexists _, _].
  specialize (Hr eq_refl). rewrite Hout in Hr. cbn [app] in Hr.
  destruct (wait_cq_total w1 SEND_CQ kDefaultCmTimeoutMs) as (id & w2 & Ew); [done|].
  rewrite Ew. mstep. pose proof (wait_cq_keeps _ _ _ _ _ Ew) as [_ Hm2].
  destruct id as [id|]; [|eexists _, _; split; [done|split; [congruence|done]]].
  destruct (wait_cq_some _ _ _ _ _ Ew) as (w0 & Hm0 & Ho0 & Ep0). rewrite Hr in Ho0.
  destruct (read_completes _ _ _ _ _ _ Ep0 Ho0) as [Hl Hb].
  destruct (poll_completed _ _ _ _ Ep0) as (r0 & Er0 & _). rewrite Ho0 in Er0. injection Er0 as _ Hout2.
  rewrite <- Hm, <- Hm2.
  apply IH; rewrite ?length_app, ?length_take_le by lia; [lia|lia|done| | |done].
  - intros i Hi. rewrite Hm2, Hm. by apply Hmem.
  - assert (E : take chunk (v_read_buf w2) = take chunk (drop (length dst) bytes)).
    { apply list_eq; intros i. destruct (Nat.lt_ge_cases i chunk).
      - rewrite !lookup_take_lt, lookup_drop by lia. rewrite Hb, Hm0, Hm, <- (Hmem (length dst + i)%nat) by lia. f_equal.
        unfold u64. rewrite Zplus_mod_idemp_l. f_equal. lia.
      - rewrite !lookup_take_ge by lia. done. }
    rewrite E. rewrite Hpre at 1. apply take_take_drop.
Qed.

(** The RDMA transport keeps the promise of one-sided reads while no operation before has
    left a work request behind. *)
Definition rdma_remote_laws : RemoteLaws (RdmaTransport W) (H := rdma_transport patience).
Proof.
  refine {| t_remote := fun t : RdmaTransport W =>
    match v_outstanding (rdma_world t) with [] => v_remote (rdma_world t) | _ => fun _ _ => None end |}.
  intros s a k bytes Hmem. cbn [t_read_remote rdma_transport]. unfold rdma_read_remote.
  destruct bytes as [|x bytes].
  { exists (Some []), s. split; [by destruct s|done]. }
  assert (Hout : v_outstanding (rdma_world s) = []).
  { specialize (Hmem 0%nat). cbn in Hmem. destruct (v_outstanding (rdma_world s)); [done|].
    discriminate Hmem. lia. }
  rewrite Hout in Hmem.
  destruct (read_remote_loop_spec (length (x :: bytes)) (rdma_world s) a k (length (x :: bytes)) []
              (x :: bytes)) as (r & w' & -> & Hm & Hr); [lia|cbn; lia|done|done|done|done|].
  mstep. eexists _, _. split; [done|]. destruct r as [l|]; [|done]. destruct Hr as [-> Ho].
  cbn [rdma_world]. by rewrite Ho, Hout, Hm.
Defined.

End RdmaLaws.

(** ** Properties *)

(** The RDMA port is always a port: the TCP port moved by the offset when
    that is one, and the TCP port itself when it is not. *)
Theorem rdma_port_for_range (tcp_port offset : Z) :
  1 <= tcp_port <= 65535 -> tcp_port + offset < 2 ^ 31 ->
  rdma_port_for tcp_port offset =
    Ok (if (1 <=? tcp_port + offset) && (tcp_port + offset <=? 65535)
        then tcp_port + offset else tcp_port).
Proof.
  intros Ht Ho. unfold rdma_port_for, u16.
  destruct (Z.leb_spec (2 ^ 31) (tcp_port + offset)); [lia|].
  destruct (Z.ltb_spec (tcp_port + offset) 1).
  - destruct (Z.ltb_spec 65535 tcp_port); [lia|]. rewrite Z.mod_small by lia.
    by destruct (Z.leb_spec 1 (tcp_port + offset)); [lia|].
  - destruct (Z.leb_spec 1 (tcp_port + offset)); [|lia].
    destruct (Z.ltb_spec 65535 (tcp_port + offset)), (Z.leb_spec (tcp_port + offset) 65535);
      try lia; cbn; by rewrite Z.mod_small by lia.
Qed.

Lemma rdma_port_for_range_witness : rdma_port_for 7101 1000 = Ok 8101.
Proof. refine (rdma_port_for_range 7101 1000 _ _); lia. Defined.

(** Decoding the image of a frame at the start of a buffer. *)
Lemma frame_image f junk :
  wf_frame f ->
  length (frame_bytes f ++ junk) = (5 + length (body f) + length junk)%nat /\
  be_val (take 4 (frame_bytes f ++ junk)) = 1 + Z.of_nat (length (body f)) /\
  (frame_bytes f ++ junk) !! 4%nat = Some (byte_of_msg (ftype f)) /\
  take (length (body f)) (drop 5 (frame_bytes f ++ junk)) = body f.
Proof.
  intros Hwf. pose proof (payload_len_wf _ Hwf) as Hpl. destruct Hwf as [_ Hlen].
  unfold frame_bytes. rewrite <- app_assoc. cbn [app].
  assert (H4 : length (be_bytes 4 (payload_len f)) = 4%nat) by apply be_bytes_length.
  split; [rewrite length_app, H4; cbn [length]; rewrite length_app; lia|]. split; [|split].
  - rewrite take_app_length' by done. rewrite Hpl. apply be_val_bytes.
    change (256 ^ Z.of_nat 4) with (2 ^ 32). lia.
  - rewrite lookup_app_r by lia. by rewrite H4.
  - rewrite drop_app_ge by lia. rewrite H4. cbn. by rewrite drop_0, take_app_length.
Qed.

(** C36: a frame of at most 4 MiB that one end's [write_frame] reports sent is one
    message, and the other end's [read_frame], finding that message at the start
    of a receive buffer, returns the frame, whatever the buffer held behind it;
    a larger frame is refused without sending anything. *)
Theorem rdma_frame_roundtrip {W} `{VerbsLaws W} (patience : nat) (f : Frame)
    (w w' : RdmaTransport W) (ok : bool) :
  wf_msg (ftype f) ->
  rdma_write_frame patience w f = Ok (ok, w') ->
  (5 + Z.of_nat (length (body f)) <= kMaxFrameBytes -> ok = true ->
     v_sent (rdma_world w') = v_sent (rdma_world w) ++ [frame_bytes f] /\
     forall (r : RdmaTransport W) (r1 r2 : W) (t idx : Z) (junk : list Z) (out : Frame),
       wait_cq patience (rdma_world r) RECV_CQ t = Ok (Some idx, r1) -> idx < kRecvDepth ->
       v_recv_buf r1 idx = frame_bytes f ++ junk ->
       Z.of_nat (length (frame_bytes f ++ junk)) < 2 ^ 32 ->
       v_post_recv r1 idx = (true, r2) ->
       rdma_read_frame patience r out t = Ok (true, f, mkRdma (rdma_closed r) r2)) /\
  (kMaxFrameBytes < 5 + Z.of_nat (length (body f)) -> ok = false /\ w' = w).
Proof.
  intros Hty Hw. unfold rdma_write_frame in Hw.
  destruct (Z.ltb_spec kMaxFrameBytes (4 + (1 + Z.of_nat (length (body f))))) as [Hbig|Hsmall].
  { simplify_eq. split; [lia|done]. }
  split; [|lia]. intros Hlen ->.
  assert (Hwf : wf_frame f) by (split; [done|unfold kMaxFrameBytes in *; lia]).
  pose proof (payload_len_wf _ Hwf) as Hpl.
  assert (Himg : be_bytes 4 (u32 (1 + Z.of_nat (length (body f)))) ++ byte_of_msg (ftype f) :: body f
                 = frame_bytes f).
  { unfold frame_bytes. rewrite Hpl, u32_small; [done|]. unfold kMaxFrameBytes in *. lia. }
  rewrite Himg in Hw.
  destruct (v_post_send (rdma_world w) (frame_bytes f)) as [[] w1] eqn:Ep; mstep in Hw; [|simplify_eq].
  destruct (wait_cq patience w1 SEND_CQ kDefaultCmTimeoutMs) as [[id w2]|] eqn:Ew; mstep in Hw; [|done].
  injection Hw as Hid <-. cbn [rdma_world]. split.
  { rewrite (proj1 (wait_cq_keeps _ _ _ _ _ _ Ew)). by apply (post_send_sends _ _ _ Ep). }
  intros r r1 r2 t idx junk out Hr Hidx Hb Hjunk Hpost. unfold rdma_read_frame. rewrite Hr. mstep.
  destruct (Z.leb_spec kRecvDepth idx); [lia|].
  rewrite Hb. destruct (frame_image f junk Hwf) as (El & Ev & Et & Ed).
  rewrite Ev, Et. rewrite El in Hjunk |- *.
  destruct (Nat.ltb_spec (5 + length (body f) + length junk) 5); [lia|].
  destruct (Z.ltb_spec (1 + Z.of_nat (length (body f))) 1); [lia|].
  rewrite u32_small by lia. cbn [orb].
  destruct (Z.ltb_spec (Z.of_nat (5 + length (body f) + length junk))
    (1 + Z.of_nat (length (body f)) + 4)); [lia|]. mstep.
  replace (Z.to_nat (1 + Z.of_nat (length (body f)) - 1)) with (length (body f)) by lia.
  destruct (Nat.ltb_spec 0 (length (body f))).
  - destruct (Nat.ltb_spec (5 + length (body f) + length junk) (5 + length (body f))); [lia|].
    mstep. rewrite Ed, Hpost, (proj2 Hty). by destruct f.
  - mstep. rewrite Hpost, (proj2 Hty). destruct f as [ty [|x l]]; [done|]. cbn in *. lia.
Qed.

(** The bounds check [payload_len + 4 > b.size()] is made in 32 bits: a
    message of at least five bytes whose length prefix is within 4 of 2^32 passes
    it, and the copy then reads past the receive buffer. *)
Theorem rdma_length_check_wraps {W} `{Verbs W} (patience : nat) (r : RdmaTransport W)
    (r1 : W) (t idx : Z) (out : Frame) :
  wait_cq patience (rdma_world r) RECV_CQ t = Ok (Some idx, r1) -> idx < kRecvDepth ->
  5 <= Z.of_nat (length (v_recv_buf r1 idx)) <= kMaxFrameBytes ->
  2 ^ 32 - 4 <= be_val (take 4 (v_recv_buf r1 idx)) < 2 ^ 32 ->
  rdma_read_frame patience r out t = Err UB.
Proof.
  unfold kMaxFrameBytes. intros Hr Hidx Hl Hv. unfold rdma_read_frame. rewrite Hr. mstep.
  destruct (Z.leb_spec kRecvDepth idx); [lia|].
  set (b := v_recv_buf r1 idx) in *. set (p := be_val (take 4 b)) in *.
  destruct (Nat.ltb_spec (length b) 5); [lia|].
  destruct (Z.ltb_spec p 1); [lia|]. cbn [orb].
  assert (E : u32 (p + 4) = p + 4 - 2 ^ 32).
  { unfold u32. symmetry. apply (Z.mod_unique_pos _ _ 1); lia. }
  rewrite E. destruct (Z.ltb_spec (Z.of_nat (length b)) (p + 4 - 2 ^ 32)); [lia|].
  destruct (lookup_lt_is_Some_2 b 4) as [ty ->]; [lia|]. mstep.
  destruct (Nat.ltb_spec 0 (Z.to_nat (p - 1))); [|lia].
  destruct (Nat.ltb_spec (length b) (5 + Z.to_nat (p - 1))); [done|lia].
Qed.

(** C37: [read_remote] ends, whatever the completions.  When no work request was left
    behind by an earlier operation that timed out, and it reports success, it has copied
    exactly the bytes of the remote range, across any number of 4 MiB chunks, and again
    leaves no work request behind. *)
Theorem read_remote_correct {W} `{VerbsLaws W} (patience : nat) (t : RdmaTransport W)
    (a k : Z) (bytes : list Z) :
  v_outstanding (rdma_world t) = [] ->
  (forall i, (i < length bytes)%nat ->
     v_remote (rdma_world t) k (u64 (a + Z.of_nat i)) = bytes !! i) ->
  exists r t', rdma_read_remote patience t a k (length bytes) = Ok (r, t') /\
    match r with Some l => l = bytes /\ v_outstanding (rdma_world t') = [] | None => True end.
Proof.
  intros Hout Hmem. unfold rdma_read_remote.
  destruct (read_remote_loop_spec patience (length bytes) (rdma_world t) a k (length bytes) []
              bytes) as (r & w' & -> & _ & Hr); [lia|cbn; lia|done|done|done|done|].
  mstep. by eexists _, _.
Qed.

(** A timed wait on a completion queue ends after at most 20 rounds per
    millisecond; with a negative timeout the 60 s that the deadline is computed
    from never apply: on a queue that stays empty no number of rounds is enough. *)
Theorem poll_cq_waits {W} `{VerbsLaws W} (patience : nat) (w : W) (q : cq) (t : Z) :
  (0 <= t -> exists r w', wait_cq patience w q t = Ok (r, w')) /\
  (t < 0 -> (forall w, exists w', v_poll w q = (Empty, w')) ->
   wait_cq patience w q t = Err OutOfFuel).
Proof.
  split; [apply wait_cq_total|]. intros Ht Hq. unfold wait_cq, poll_cq.
  generalize (v_now w + 1000 * (if t <? 0 then 60000 else t)). intros d.
  generalize (poll_fuel patience t). intros n. revert w; induction n as [|n IH]; intros w; [done|].
  cbn [poll_loop]. destruct (Z.ltb_spec t 0); [|lia]. cbn [orb].
  destruct (Hq w) as [w1 ->]. apply IH.
Qed.

(** ** An adapter connected to itself *)

Module Loopback.

(** Completions are held back until [due]; a sleep lasts at least [nap]. *)
Record world : Type := mkWorld {
  clock : Z;
  messages : list (list Z);
  memory : list Z;
  queue : list work;
  buffer : list Z;
  due : Z;
  nap : Z
}.

Definition remote_byte (w : world) (k a : Z) : option Z :=
  if k =? 1 then zlookup (memory w) (a - 4096) else None.
Definition remote_bytes (w : world) (a k : Z) (n : nat) : option (list Z) :=
  mapM (fun i => remote_byte w k (u64 (a + Z.of_nat i))) (seq 0 n).

Definition with_queue (w : world) (q : list work) (b : list Z) : world :=
  mkWorld (clock w) (messages w) (memory w) q b (due w) (nap w).

Definition poll (w : world) (q : cq) : polled * world :=
  match q with
  | SEND_CQ =>
      if clock w <? due w then (Empty, w) else
      match queue w with
      | [] => (Empty, w)
      | WSend _ :: rest => (Completed true 1, with_queue w rest (buffer w))
      | WRead a k n :: rest =>
          match remote_bytes w a k n with
          | Some l => (Completed true 2, with_queue w rest l)
          | None => (Completed false 2, with_queue w rest (buffer w))
          end
      end
  | RECV_CQ => match messages w with [] => (Empty, w) | _ => (Completed true 0, w) end
  end.

#[global] Instance verbs : Verbs world := {
  v_now := clock;
  v_sleep := fun w d =>
    mkWorld (clock w + Z.max (nap w) d) (messages w) (memory w) (queue w) (buffer w) (due w) (nap w);
  v_poll := poll;
  v_post_send := fun w l =>
    (true, mkWorld (clock w) (messages w ++ [l]) (memory w) (queue w ++ [WSend l]) (buffer w) (due w) (nap w));
  v_post_read := fun w a k n => (true, with_queue w (queue w ++ [WRead a k n]) (buffer w));
  v_post_recv := fun w _ => (true, w);
  v_reg_mr := fun w a l => (Some 1, mkWorld (clock w) (messages w) l (queue w) (buffer w) (due w) (nap w));
  v_read_buf := buffer;
  v_recv_buf := fun w _ => default [] (head (messages w));
  v_teardown := fun w => w
}.

Lemma mapM_lookup {A B} (f : A -> option B) l l' i :
  mapM f l = Some l' -> l' !! i = l !! i ≫= f.
Proof.
  intros H%mapM_Some. revert i; induction H as [|x y l l' Hxy H IH]; intros i; [done|].
  destruct i as [|i]; cbn; [done|apply IH].
Qed.

Lemma poll_cases w q r w' :
  poll w q = (r, w') ->
  clock w' = clock w /\ messages w' = messages w /\ memory w' = memory w /\
  match q, r with
  | _, Empty => w' = w
  | SEND_CQ, Completed b id => exists x, queue w = x :: queue w' /\ id = work_id x /\
      match x with WRead a k n => b = true -> remote_bytes w a k n = Some (buffer w') | WSend _ => True end
  | SEND_CQ, PollError => False
  | RECV_CQ, _ => True
  end.
Proof.
  unfold poll. destruct q.
  - destruct (clock w <? due w); [by intros [= <- <-]|].
    destruct (queue w) as [|[l|a k n] rest] eqn:Eq.
    + by intros [= <- <-].
    + intros [= <- <-]. cbn. do 3 (split; [done|]). by exists (WSend l).
    + destruct (remote_bytes w a k n) as [l|] eqn:El; intros [= <- <-]; cbn; do 3 (split; [done|]);
        exists (WRead a k n); by rewrite ?El.
  - destruct (messages w) as [|m ms] eqn:Em; intros [= <- <-]; by rewrite ?Em.
Qed.

#[global] Instance laws : VerbsLaws world.
Proof.
  refine {| v_sent := messages; v_remote := remote_byte; v_outstanding := queue |}.
  - intros w d. cbn. lia.
  - intros w q r w' E. destruct (poll_cases _ _ _ _ E) as (Ec & _). cbn. lia.
  - intros w q r w' E. destruct (poll_cases _ _ _ _ E) as (_ & Em & Ey & _). split; [done|]. unfold remote_byte. by rewrite Ey.
  - intros w q w' E. destruct (poll_cases _ _ _ _ E) as (_ & _ & _ & Ew). destruct q; by rewrite Ew.
  - intros w b id w' E. destruct (poll_cases _ _ _ _ E) as (_ & _ & _ & x & Ex & Ei & _). by exists x.
  - done.
  - intros w l w'. cbn. by intros [= <-].
  - intros w a k n b w'. cbn. by intros [= <- <-].
  - intros w id w' a k n E Hq. destruct (poll_cases _ _ _ _ E) as (_ & _ & _ & x & Ex & _ & Hx).
    cbn in Hq. rewrite Hq in Ex. injection Ex as <- _. specialize (Hx eq_refl). cbn [v_read_buf verbs].
    pose proof (Forall2_length _ _ _ (proj1 (mapM_Some _ _ _) Hx)) as Hl.
    rewrite length_seq in Hl. split; [lia|]. intros i Hi.
    rewrite (mapM_lookup _ _ _ i Hx), lookup_seq_lt by lia. done.
Defined.

Definition quiet : world := mkWorld 0 [] [] [] [] 0 0.
Definition with_memory (l : list Z) : world := mkWorld 0 [] l [] [] 0 0.
(** The first completion comes after four seconds; a sleep lasts a second. *)
Definition slow : world := mkWorld 0 [] [10; 20; 30; 40] [] [] 4000000 1000000.

End Loopback.

(** A completion that comes after its operation has timed out is taken for the completion of
    the next one, since [poll_cq] does not compare work-request ids: a first read of two
    bytes gives up after three seconds; a second read, of the two bytes behind them, then
    reports success and copies the bytes of the first. *)
Theorem late_completion_is_taken :
  exists t1, rdma_read_remote 9 (mkRdma false Loopback.slow) 4096 1 2 = Ok (None, t1) /\
    exists t2, rdma_read_remote 9 t1 4098 1 2 = Ok (Some [10; 20], t2) /\
      map (Loopback.remote_byte (rdma_world t1) 1) [4098; 4099] = [Some 30; Some 40].
Proof. eexists. split; [vm_compute; reflexivity|]. eexists. split; vm_compute; reflexivity. Qed.

Definition demo_frame : Frame := mkFrame HEARTBEAT [1; 0; 0; 0].

Lemma rdma_frame_roundtrip_witness :
  v_sent (rdma_world (mkRdma false (Loopback.mkWorld 0 [frame_bytes demo_frame] [] [] [] 0 0)))
  = v_sent Loopback.quiet ++ [frame_bytes demo_frame].
Proof.
  refine (proj1 (proj1 (rdma_frame_roundtrip 9 demo_frame (mkRdma false Loopback.quiet)
    (mkRdma false (Loopback.mkWorld 0 [frame_bytes demo_frame] [] [] [] 0 0)) true _ _) _ _)).
  - by apply wf_msg_named.
  - vm_compute; reflexivity.
  - vm_compute; discriminate.
  - reflexivity.
Defined.

Lemma rdma_length_check_wraps_witness :
  rdma_read_frame 9
    (mkRdma false (Loopback.mkWorld 0 [[255; 255; 255; 255; 3; 0]] [] [] [] 0 0))
    demo_frame 5 = Err UB.
Proof.
  refine (rdma_length_check_wraps 9 _ _ 5 0 demo_frame _ _ _ _);
    [vm_compute; reflexivity|reflexivity|vm_compute; split; discriminate|
     vm_compute; split; [discriminate|reflexivity]].
Defined.

Lemma read_remote_correct_witness :
  exists r t', rdma_read_remote 9 (mkRdma false (Loopback.with_memory [7; 8; 9])) 4096 1 3
    = Ok (r, t') /\ match r with Some l => l = [7; 8; 9] /\ v_outstanding (rdma_world t') = [] | None => True end.
Proof.
  refine (read_remote_correct 9 (mkRdma false (Loopback.with_memory [7; 8; 9])) 4096 1 [7; 8; 9] eq_refl _).
  intros i Hi. cbn [length] in Hi. do 3 (destruct i as [|i]; [reflexivity|]). lia.
Defined.

Lemma read_remote_succeeds :
  exists t', rdma_read_remote 9 (mkRdma false (Loopback.with_memory [7; 8; 9])) 4096 1 3 = Ok (Some [7; 8; 9], t').
Proof. eexists. vm_compute. reflexivity. Qed.

Lemma poll_cq_waits_witness :
  exists r w', wait_cq 9 Loopback.quiet RECV_CQ 50 = Ok (r, w').
Proof. refine (proj1 (poll_cq_waits 9 Loopback.quiet RECV_CQ 50) _). lia. Defined.

(** ** A transport of queues, for the examples of the files that use the interface *)

Module Pipe.

Record pipe : Type := mkPipe {
  inbox : list Frame;
  outbox : list Frame;
  memory : list Z;
  remote : bool
}.

Definition read (p : pipe) (out : Frame) (_ : Z) : res (bool * Frame * pipe) :=
  match inbox p with
  | [] => Ok (false, out, p)
  | f :: l => Ok (true, f, mkPipe l (outbox p) (memory p) (remote p))
  end.

Definition in_memory (p : pipe) (k a : Z) (n : nat) : bool :=
  (k =? 1) && (4096 <=? a) && (a + Z.of_nat n <=? 4096 + Z.of_nat (length (memory p))) &&
  (4096 + Z.of_nat (length (memory p)) <? 2 ^ 64).

#[global] Instance transport : Transport pipe := {
  t_read_frame := read;
  t_write_frame := fun p f => Ok (true, mkPipe (inbox p) (outbox p ++ [f]) (memory p) (remote p));
  t_close := fun p => p;
  t_supports_remote_read := remote;
  t_register_memory := fun p a l => (Some (mkMem a 1 (Z.of_nat (length l))), p);
  t_read_remote := fun p a k n =>
    Ok (if in_memory p k a n then Some (take n (drop (Z.to_nat (a - 4096)) (memory p))) else None, p)
}.

#[global] Instance remote_laws : RemoteLaws pipe.
Proof.
  refine {| t_remote := fun p (_ a : Z) => zlookup (memory p) (a - 4096) |}.
  intros p a k bytes Hb. cbn [t_read_remote transport].
  eexists _, _. split; [reflexivity|].
  destruct (in_memory p k a (length bytes)) eqn:E; [|done]. split; [|done]. unfold in_memory in E. zb.
  apply list_eq. intros i. destruct (Nat.lt_ge_cases i (length bytes)) as [Hi|Hi].
  - rewrite lookup_take_lt, lookup_drop, <- Hb by done. rewrite u64_small by lia.
    unfold zlookup. destruct (Z.ltb_spec (a + Z.of_nat i - 4096) 0); [lia|]. f_equal. lia.
  - rewrite lookup_take_ge, lookup_ge_None_2 by done. done.
Defined.

End Pipe.
