(* ===== verification/RdmaSetup.v ===== *)
(** * RDMA connections (common/rdma_transport.cpp)

    [connect_rdma], [listen_rdma], [RdmaListenerImpl::accept], [make_transport] and
    [RdmaTransport::close] over a ledger of the objects the verbs library has handed
    out.  A handle is a pointer, or the queue pair of an identifier; creating one adds
    it to the ledger, destroying or using one that is not there is undefined.  What
    the library answers is a script: one boolean per call that can fail, and the
    outcomes of [select] and [rdma_get_cm_event] in order.

    The theorems say for every script what is left in the ledger: nothing but the
    transport, when there is one, except in the cases listed with them. *)

From S2P Require Import Prelude Topology Transport.
Open Scope Z_scope.

(** [(p, false)] is the object at [p], [(p, true)] the queue pair of [p]. *)
Definition handle : Type := Z * bool.
Notation obj p := ((p, false) : handle).
Notation qp p := ((p, true) : handle).

Inductive cm_event_type : Type :=
| ADDR_RESOLVED
| ADDR_ERROR
| ROUTE_RESOLVED
| ROUTE_ERROR
| CONNECT_REQUEST
| CONNECT_ERROR
| REJECTED
| ESTABLISHED
| DISCONNECTED
| OTHER_EVENT.

#[export] Instance cm_event_type_eq_dec : EqDecision cm_event_type.
Proof. solve_decision. Defined.

(** One turn of the wait: [select] fails, is interrupted or runs out of time, the event
    cannot be read, or an event. *)
Inductive turn : Type :=
| SelectFailed
| Interrupted
| NothingReady
| GetFailed
| Event (ty : cm_event_type).

Record nic : Type := mkNic {
  live : gset handle;
  fresh : Z;
  answers : list bool;
  turns : list turn
}.

Definition M (A : Type) : Type := nic -> res (A * nic).
#[export] Instance M_ret : MRet M := fun A a w => Ok (a, w).
#[export] Instance M_bind : MBind M := fun A B f m w =>
  match m w with Ok (a, w') => f a w' | Err e => Err e end.

(** ** The library *)

Definition ask : M bool := fun w =>
  match answers w with
  | [] => Ok (false, w)
  | b :: l => Ok (b, mkNic (live w) (fresh w) l (turns w))
  end.

Definition new_handle : M Z := fun w =>
  Ok (fresh w, mkNic ({[obj (fresh w)]} ∪ live w) (fresh w + 1) (answers w) (turns w)).

(** A call that returns a pointer, null when it fails. *)
Definition create : M Z := b ← ask; if (b : bool) then new_handle else mret 0.

Definition use (h : handle) : M unit := fun w =>
  if decide (h ∈ live w) then Ok (tt, w) else Err UB.
Definition destroy (h : handle) : M unit := fun w =>
  if decide (h ∈ live w) then Ok (tt, mkNic (live w ∖ {[h]}) (fresh w) (answers w) (turns w)) else Err UB.

(** A call on an object, that can fail. *)
Definition call_on (p : Z) : M bool := _ ← use (obj p); ask.

Definition new_qp (id : Z) : M bool := fun w =>
  Ok (true, mkNic ({[qp id]} ∪ live w) (fresh w) (answers w) (turns w)).
Definition create_qp (id : Z) : M bool :=
  ok ← call_on id;
  if (ok : bool) then new_qp id else mret false.

(** [if (p) ibv_...(p)] *)
Definition free (p : Z) : M unit := if p =? 0 then mret tt else destroy (obj p).
Fixpoint free_all (ps : list Z) : M unit :=
  match ps with [] => mret tt | p :: ps' => _ ← free p; free_all ps' end.

(** ** wait_cm_event *)

Definition failure_event (ty : cm_event_type) : bool :=
  match ty with
  | DISCONNECTED | REJECTED | CONNECT_ERROR | ADDR_ERROR | ROUTE_ERROR => true
  | _ => false
  end.

(** The event of a connection request carries a new identifier.  Without a timeout the
    wait does not end before an event does. *)
Fixpoint wait_turns (ts : list turn) (expected : cm_event_type) (forever : bool) : M (option Z) :=
  match ts with
  | [] => if forever then (fun _ => Err OutOfFuel) : M (option Z) else mret None
  | t :: ts' =>
      _ ← ((fun w => Ok (tt, mkNic (live w) (fresh w) (answers w) ts')) : M unit);
      match t with
      | SelectFailed | NothingReady | GetFailed => mret None
      | Interrupted => wait_turns ts' expected forever
      | Event ty =>
          id ← (if decide (ty = CONNECT_REQUEST) then new_handle else mret 0);
          if decide (ty = expected) then mret (Some id)
          else if decide (expected = CONNECT_REQUEST /\ ty = DISCONNECTED)
          then wait_turns ts' expected forever
          else if failure_event ty then mret None else wait_turns ts' expected forever
      end
  end.
Definition wait_cm_event (expected : cm_event_type) (forever : bool) : M (option Z) :=
  fun w => wait_turns (turns w) expected forever w.

(** ** RdmaTransport *)

Record rtrans : Type := mkTrans {
  r_id : Z;
  r_ec : Z;
  r_pd : Z;
  r_scq : Z;
  r_rcq : Z;
  r_send : Z;
  r_read : Z;
  r_recv : list Z;
  r_external : list Z;
  r_closed : bool
}.

Definition with_buffers (t : rtrans) (send read : Z) (recv : list Z) : rtrans :=
  mkTrans (r_id t) (r_ec t) (r_pd t) (r_scq t) (r_rcq t) send read recv (r_external t) (r_closed t).

(** [init_buffers]; a receive buffer that was not reached has no registration. *)
Fixpoint recv_loop (n : nat) (id : Z) (mrs : list Z) : M (bool * list Z) :=
  match n with
  | O => mret (true, mrs)
  | S n' =>
      mr ← create;
      if mr =? 0 then mret (false, mrs) else
      posted ← (_ ← use (qp id); ask);
      if (posted : bool) then recv_loop n' id (mrs ++ [mr]) else mret (false, mrs ++ [mr])
  end.

Definition init_buffers (t : rtrans) : M (bool * rtrans) :=
  send ← create;
  read ← create;
  if (send =? 0) || (read =? 0) then mret (false, with_buffers t send read []) else
  '(ok, recv) ← recv_loop (Z.to_nat kRecvDepth) (r_id t) [];
  mret (ok, with_buffers t send read recv).

Definition register_external (t : rtrans) : M (bool * rtrans) :=
  mr ← create;
  if mr =? 0 then mret (false, t) else
  mret (true, mkTrans (r_id t) (r_ec t) (r_pd t) (r_scq t) (r_rcq t) (r_send t) (r_read t) (r_recv t)
                (r_external t ++ [mr]) (r_closed t)).

Definition close_transport (t : rtrans) : M rtrans :=
  if r_closed t then mret t else
  _ ← (if r_id t =? 0 then mret tt else use (obj (r_id t)));
  _ ← free_all (r_external t ++ [r_send t; r_read t] ++ r_recv t);
  _ ← (if r_id t =? 0 then mret tt else _ ← destroy (qp (r_id t)); destroy (obj (r_id t)));
  _ ← free_all [r_scq t; r_rcq t; r_pd t; r_ec t];
  mret (mkTrans 0 0 0 0 0 (r_send t) (r_read t) (r_recv t) [] true).

(** [build_qp]: what it made is returned also when it fails. *)
Definition build_qp (id : Z) : M (bool * Z * Z * Z) :=
  pd ← create;
  if pd =? 0 then mret (false, 0, 0, 0) else
  scq ← create;
  rcq ← create;
  if (scq =? 0) || (rcq =? 0) then mret (false, pd, scq, rcq) else
  ok ← create_qp id;
  mret (ok, pd, scq, rcq).

Definition qp_error : str := s_ "failed to create RDMA QP".
Definition buffer_error : str := s_ "failed to register RDMA buffers".

(** A transport whose buffers fail is destroyed on return, with its identifier and its
    channel. *)
Definition make_transport (id ec : Z) : M (rtrans + str) :=
  '(ok, pd, scq, rcq) ← build_qp id;
  if negb ok then _ ← free_all [scq; rcq; pd]; mret (inr qp_error) else
  '(ok, t) ← init_buffers (mkTrans id ec pd scq rcq 0 0 [] [] false);
  if (ok : bool) then mret (inl t) else _ ← close_transport t; mret (inr buffer_error).

(** ** connect_rdma, listen_rdma, accept *)

(** The clean-up of the functions that own a bare identifier and its channel. *)
Definition drop (id ec : Z) (err : str) {A} : M (A + str) :=
  _ ← destroy (obj id);
  _ ← destroy (obj ec);
  mret (inr err).

Definition open_id : M ((Z * Z) + str) :=
  ec ← create;
  if ec =? 0 then mret (inr (s_ "rdma_create_event_channel failed")) else
  id ← create;
  if id =? 0 then _ ← destroy (obj ec); mret (inr (s_ "rdma_create_id failed")) else
  mret (inl (id, ec)).

(** [connect_rdma] up to the resolved address; [ask] answers for [getaddrinfo]. *)
Definition resolve : M ((Z * Z) + str) :=
  r ← open_id;
  match r with
  | inr e => mret (inr e)
  | inl (id, ec) =>
      found ← ask;
      if negb found then drop id ec (s_ "getaddrinfo failed for RDMA connect") else
      ok ← call_on id;
      ev ← (if (ok : bool) then wait_cm_event ADDR_RESOLVED false else mret None);
      match ev with
      | None => drop id ec (s_ "rdma_resolve_addr failed")
      | Some _ => mret (inl (id, ec))
      end
  end.

Definition close_with (t : rtrans) (err : str) {A} : M (A + str) :=
  _ ← close_transport t; mret (inr err).

(** The rest, once the transport is made. *)
Definition establish (id : Z) (t : rtrans) : M (rtrans + str) :=
  ok ← call_on id;
  ev ← (if (ok : bool) then wait_cm_event ROUTE_RESOLVED false else mret None);
  match ev with
  | None => close_with t (s_ "rdma_resolve_route failed")
  | Some _ =>
      ok ← call_on id;
      ev ← (if (ok : bool) then wait_cm_event ESTABLISHED false else mret None);
      match ev with
      | None => close_with t (s_ "rdma_connect failed")
      | Some _ => mret (inl t)
      end
  end.

Definition connect_rdma : M (rtrans + str) :=
  r ← resolve;
  match r with
  | inr e => mret (inr e)
  | inl (id, ec) =>
      t ← make_transport id ec;
      match t with
      | inr e => drop id ec e
      | inl t => establish id t
      end
  end.

Definition listen_rdma : M ((Z * Z) + str) :=
  r ← open_id;
  match r with
  | inr e => mret (inr e)
  | inl (id, ec) =>
      found ← ask;
      if negb found then drop id ec (s_ "getaddrinfo failed for RDMA listen") else
      bound ← call_on id;
      if negb bound then drop id ec (s_ "rdma_bind_addr failed") else
      listening ← call_on id;
      if negb listening then drop id ec (s_ "rdma_listen failed") else
      mret (inl (id, ec))
  end.

Definition establish_child (child : Z) (t : rtrans) : M (rtrans + str) :=
  ok ← call_on child;
  if negb ok then close_with t (s_ "rdma_accept failed") else
  ev ← wait_cm_event ESTABLISHED false;
  match ev with
  | None => close_with t (s_ "RDMA accept failed waiting for ESTABLISHED")
  | Some _ => mret (inl t)
  end.

(** [RdmaListenerImpl::accept]; the transport of a child has no channel of its own. *)
Definition accept : M (rtrans + str) :=
  child ← wait_cm_event CONNECT_REQUEST true;
  match child with
  | None => mret (inr (s_ "RDMA accept failed waiting for CONNECT_REQUEST"))
  | Some child =>
      t ← make_transport child 0;
      match t with
      | inr e => _ ← use (obj child); mret (inr e)
      | inl t => establish_child child t
      end
  end.

Definition close_listener (l : Z * Z) : M (Z * Z) :=
  _ ← free l.1;
  _ ← free l.2;
  mret (0, 0).

(** ** The ledger *)

(** What a computation leaves: its result and final state satisfy [Q], and it is
    defined.  [wp_or] also allows a fault that satisfies [E]. *)
Definition wp_or {A} (E : fault -> Prop) (m : M A) (Q : A -> nic -> Prop) (w : nic) : Prop :=
  match m w with Ok (a, w') => Q a w' | Err f => E f end.
Notation wp := (wp_or (fun _ => False)).

Lemma wp_ret {A} E (a : A) Q w : Q a w -> wp_or E (mret a) Q w.
Proof. done. Qed.
Lemma wp_bind {A B} E (m : M A) (f : A -> M B) Q w :
  wp_or E m (fun a w' => wp_or E (f a) Q w') w -> wp_or E (m ≫= f) Q w.
Proof. unfold wp_or, mbind, M_bind. destruct (m w) as [[a w']|]; done. Qed.
Lemma wp_mono {A} E (E' : fault -> Prop) (m : M A) (Q R : A -> nic -> Prop) w :
  wp_or E m Q w -> (forall f, E f -> E' f) -> (forall a w', Q a w' -> R a w') -> wp_or E' m R w.
Proof. unfold wp_or. destruct (m w) as [[a w']|]; auto. Qed.

(** Beside [base], whose handles are older than [n0], exactly [own] is live. *)
Record ledger (base : gset handle) (n0 : Z) (own : list handle) (w : nic) : Prop := {
  lg_start : 0 < n0 <= fresh w;
  lg_base h : h ∈ base -> h.1 < n0;
  lg_nodup : NoDup own;
  lg_own h : h ∈ own -> n0 <= h.1 < fresh w;
  lg_live : live w = base ∪ list_to_set own
}.

Section Ledger.
Context (base : gset handle) (n0 : Z).

Lemma ledger_perm own own' w : own ≡ₚ own' -> ledger base n0 own w -> ledger base n0 own' w.
Proof.
  intros HP [H1 H2 H3 H4 H5]. split; [done|done|by rewrite <- HP| |].
  - intros h Hh. apply H4. by rewrite HP.
  - rewrite H5. f_equal. apply set_eq. intros h. rewrite !elem_of_list_to_set. by rewrite HP.
Qed.

Lemma ledger_live own w h : ledger base n0 own w -> h ∈ own -> h ∈ live w.
Proof. intros [_ _ _ _ ->] Hh. apply elem_of_union_r. by apply elem_of_list_to_set. Qed.

Lemma ledger_scripts own w l ts : ledger base n0 own w -> ledger base n0 own (mkNic (live w) (fresh w) l ts).
Proof. by intros []. Qed.

Lemma ledger_take own w h ts l : ledger base n0 (h :: own) w ->
  ledger base n0 own (mkNic (live w ∖ {[h]}) (fresh w) l ts).
Proof.
  intros [H1 H2 H3 H4 H5]. apply NoDup_cons in H3 as [Hno H3]. split; cbn; [done|done|done| |].
  - intros x Hx. apply H4. by apply elem_of_cons; right.
  - rewrite H5. cbn. assert (Hb : h ∉ base).
    { intros Hb. specialize (H2 _ Hb). specialize (H4 h ltac:(by apply elem_of_cons; left)). lia. }
    rewrite <- (elem_of_list_to_set (C := gset handle)) in Hno. set_solver.
Qed.

Lemma ledger_new own w l ts : ledger base n0 own w ->
  ledger base n0 (obj (fresh w) :: own) (mkNic ({[obj (fresh w)]} ∪ live w) (fresh w + 1) l ts).
Proof.
  intros [H1 H2 H3 H4 H5]. split; cbn; [lia|done| | |].
  - apply NoDup_cons. split; [|done]. intros Hx%H4. cbn in Hx. lia.
  - intros h [->|Hh]%elem_of_cons; [cbn; lia|]. specialize (H4 h Hh). lia.
  - rewrite H5. set_solver.
Qed.

Lemma wp_ask E own Q w :
  ledger base n0 own w -> (forall b w', ledger base n0 own w' -> turns w' = turns w -> Q b w') -> wp_or E ask Q w.
Proof.
  intros Hw HQ. unfold wp_or, ask. destruct (answers w); [by apply HQ|]. apply HQ; [by apply ledger_scripts|done].
Qed.

Lemma wp_use E own h Q w : ledger base n0 own w -> h ∈ own -> Q tt w -> wp_or E (use h) Q w.
Proof. intros Hw Hh HQ. unfold wp_or, use. rewrite decide_True by (by eapply ledger_live). done. Qed.

Lemma wp_call E own p Q w :
  ledger base n0 own w -> obj p ∈ own ->
  (forall b w', ledger base n0 own w' -> turns w' = turns w -> Q b w') -> wp_or E (call_on p) Q w.
Proof. intros Hw Hp HQ. apply wp_bind. eapply wp_use; [done|done|]. by eapply wp_ask. Qed.

Lemma wp_create E own Q w :
  ledger base n0 own w ->
  (forall w', ledger base n0 own w' -> turns w' = turns w -> Q 0 w') ->
  (forall p w', p <> 0 -> ledger base n0 (obj p :: own) w' -> qp p ∉ own -> turns w' = turns w -> Q p w') ->
  wp_or E create Q w.
Proof.
  intros Hw H0 Hp. apply wp_bind. eapply wp_ask; [exact Hw|]. intros [] w1 Hw1 Ht; [|by apply H0].
  unfold wp_or, new_handle. apply Hp; [|by apply ledger_new| |done].
  - destruct Hw1. lia.
  - intros Hq. pose proof (lg_own _ _ _ _ Hw1 _ Hq). cbn in *. lia.
Qed.

Lemma wp_destroy E own own' h Q w :
  ledger base n0 own w -> own ≡ₚ h :: own' ->
  (forall w', ledger base n0 own' w' -> turns w' = turns w -> Q tt w') -> wp_or E (destroy h) Q w.
Proof.
  intros Hw HP HQ. apply (ledger_perm _ _ _ HP) in Hw. unfold wp_or, destroy.
  rewrite decide_True by (eapply ledger_live; [done|apply elem_of_cons; by left]).
  apply HQ; [by apply ledger_take|done].
Qed.

(** The objects at the pointers that are not null. *)
Definition objs (ps : list Z) : list handle := map (fun p => obj p) (filter (fun p => p <> 0) ps).

Lemma objs_app ps qs : objs (ps ++ qs) = objs ps ++ objs qs.
Proof. unfold objs. by rewrite filter_app, map_app. Qed.
Lemma objs_cons p ps : p <> 0 -> objs (p :: ps) = obj p :: objs ps.
Proof. intros Hp. unfold objs. by rewrite filter_cons_True. Qed.
Lemma objs_null ps : objs (0 :: ps) = objs ps.
Proof. unfold objs. by rewrite filter_cons_False by auto. Qed.

Lemma wp_free_all E ps own own' Q w :
  ledger base n0 own w -> own ≡ₚ objs ps ++ own' ->
  (forall w', ledger base n0 own' w' -> turns w' = turns w -> Q tt w') -> wp_or E (free_all ps) Q w.
Proof.
  revert own w. induction ps as [|p ps IH]; intros own w Hw HP HQ; cbn [free_all].
  - apply wp_ret, HQ; [by apply (ledger_perm _ _ _ HP)|done].
  - apply wp_bind. unfold free. destruct (Z.eqb_spec p 0) as [->|Hp].
    + apply wp_ret. rewrite objs_null in HP. by apply (IH own).
    + rewrite objs_cons in HP by done. eapply wp_destroy; [done|exact HP|]. intros w1 Hw1 Ht1.
      apply (IH (objs ps ++ own')); [done|done|]. intros w2 Hw2 Ht2. apply HQ; [done|congruence].
Qed.

Lemma wp_create_qp E own id Q w :
  ledger base n0 own w -> obj id ∈ own -> qp id ∉ own ->
  (forall w', ledger base n0 own w' -> turns w' = turns w -> Q false w') ->
  (forall w', ledger base n0 (qp id :: own) w' -> turns w' = turns w -> Q true w') ->
  wp_or E (create_qp id) Q w.
Proof.
  intros Hw Hid Hq HF HT. apply wp_bind. eapply wp_call; [done|done|]. intros [] w1 Hw1 Ht; [|by apply HF].
  unfold wp_or. apply HT; [|done]. destruct Hw1 as [H1 H2 H3 H4 H5]. pose proof (H4 _ Hid) as Hr. cbn in Hr.
  split; cbn; [done|done|by apply NoDup_cons| |].
  - intros h [->|Hh]%elem_of_cons; [done|by apply H4].
  - rewrite H5. set_solver.
Qed.

(** Waiting for anything but a request: the identifiers of the requests that arrive
    meanwhile are in the ledger, and nobody knows them. *)
Lemma wp_wait E own ex Q w :
  ledger base n0 own w -> ex <> CONNECT_REQUEST ->
  (forall r lost w', ledger base n0 (lost ++ own) w' ->
     (Event CONNECT_REQUEST ∉ turns w -> lost = [] /\ Event CONNECT_REQUEST ∉ turns w') -> Q r w') ->
  wp_or E (wait_cm_event ex false) Q w.
Proof.
  unfold wait_cm_event, wp_or. remember (turns w) as ts eqn:Ets. intros Hw Hex. revert w own Q Hw Ets.
  induction ts as [|t ts IH]; intros w own Q Hw Ets HQ; cbn [wait_turns].
  { apply (HQ None []); [done|]. intros _. rewrite <- Ets. split; [done|apply not_elem_of_nil]. }
  pose proof (ledger_scripts _ _ (answers w) ts Hw) as Hw1.
  assert (Hend : forall r, Q r (mkNic (live w) (fresh w) (answers w) ts)).
  { intros r. apply (HQ r []); [done|]. intros Hno. split; [done|]. by apply not_elem_of_cons in Hno as [_ Hno]. }
  assert (Hgo : match wait_turns ts ex false (mkNic (live w) (fresh w) (answers w) ts) with
                | Ok (a, w') => Q a w' | Err f => E f end).
  { apply (IH _ own); [done|done|]. intros r lost w' Hw' Hno. apply (HQ r lost); [done|].
    intros [_ Hn]%not_elem_of_cons. by apply Hno. }
  destruct t as [| | | |ty]; [apply Hend|apply Hgo|apply Hend|apply Hend|].
  destruct (decide (ty = CONNECT_REQUEST)) as [->|Hne]; cbv [mbind M_bind new_handle mret M_ret];
    cbn [live fresh answers turns].
  - rewrite decide_False by congruence. rewrite decide_False by naive_solver. cbn [failure_event].
    apply (IH _ (obj (fresh w) :: own)); [by apply ledger_new|done|].
    intros r lost w' Hw' Hno. apply (HQ r (lost ++ [obj (fresh w)])); [by rewrite <- app_assoc|].
    intros [Hn _]%not_elem_of_cons. done.
  - destruct (decide (ty = ex)); [apply Hend|]. rewrite decide_False by naive_solver.
    destruct (failure_event ty); [apply Hend|apply Hgo].
Qed.

(** Waiting for a request: its identifier is the only new object. *)
Lemma wp_wait_request own Q w :
  ledger base n0 own w ->
  (forall w', ledger base n0 own w' -> Q None w') ->
  (forall c w', c <> 0 -> ledger base n0 (obj c :: own) w' -> qp c ∉ own ->
     (exists before, turns w = before ++ Event CONNECT_REQUEST :: turns w') -> Q (Some c) w') ->
  wp_or (fun f => f = OutOfFuel) (wait_cm_event CONNECT_REQUEST true) Q w.
Proof.
  unfold wait_cm_event, wp_or. intros Hw HN. remember (turns w) as ts eqn:Ets. revert w Hw Ets Q HN.
  induction ts as [|t ts IH]; intros w Hw Ets Q HN HS; cbn [wait_turns]; [done|].
  pose proof (ledger_scripts _ _ (answers w) ts Hw) as Hw1.
  assert (Hgo : match wait_turns ts CONNECT_REQUEST true (mkNic (live w) (fresh w) (answers w) ts) with
                | Ok (a, w') => Q a w' | Err f => f = OutOfFuel end).
  { apply (IH _ Hw1 eq_refl); [done|]. intros c w' Hc Hw' Hq [before Hb]. apply HS; [done..|].
    exists (t :: before). cbn. by rewrite Hb. }
  destruct t as [| | | |ty]; [by apply HN|done|by apply HN|by apply HN|].
  destruct (decide (ty = CONNECT_REQUEST)) as [->|Hne]; cbv [mbind M_bind new_handle mret M_ret];
    cbn [live fresh answers turns].
  - pose proof (lg_start _ _ _ _ Hw). apply HS; [lia|by apply ledger_new| |by exists []].
    intros Hq%(lg_own _ _ _ _ Hw). cbn in Hq. lia.
  - repeat case_decide; try done. destruct (failure_event ty); [by apply HN|done].
Qed.
End Ledger.

(** ** Who owns what *)

(** The objects of an open transport. *)
Definition owned (t : rtrans) : list handle :=
  objs (r_external t ++ [r_send t; r_read t] ++ r_recv t) ++
  qp (r_id t) :: obj (r_id t) :: objs [r_scq t; r_rcq t; r_pd t; r_ec t].

Section Owners.
Context (base : gset handle) (n0 : Z).
Notation ledger := (ledger base n0).

Lemma wp_close E t rest Q w :
  r_id t <> 0 -> r_closed t = false -> ledger (owned t ++ rest) w ->
  (forall t' w', r_closed t' = true -> ledger rest w' -> Q t' w') -> wp_or E (close_transport t) Q w.
Proof.
  intros Hid Hc Hw HQ. unfold close_transport. rewrite Hc, (proj2 (Z.eqb_neq _ _) Hid).
  apply wp_bind. eapply wp_use; [exact Hw| |].
  { unfold owned. rewrite !elem_of_app, !elem_of_cons. tauto. }
  apply wp_bind. eapply wp_free_all; [exact Hw|unfold owned; rewrite <- app_assoc; reflexivity|].
  intros w1 Hw1 _. cbn [app] in Hw1. apply wp_bind, wp_bind. eapply wp_destroy; [exact Hw1|reflexivity|].
  intros w2 Hw2 _. eapply wp_destroy; [exact Hw2|reflexivity|]. intros w3 Hw3 _.
  apply wp_bind. eapply wp_free_all; [exact Hw3|reflexivity|]. intros w4 Hw4 _. apply wp_ret. by apply HQ.
Qed.

Lemma wp_close_with E {A} t e rest (Q : A + str -> nic -> Prop) w :
  r_id t <> 0 -> r_closed t = false -> ledger (owned t ++ rest) w ->
  (forall w', ledger rest w' -> Q (inr e) w') -> wp_or E (close_with t e) Q w.
Proof. intros Hid Hc Hw HQ. apply wp_bind. eapply wp_close; [done|done|done|]. intros. apply wp_ret. by apply HQ. Qed.

Lemma wp_drop E {A} id ec e rest (Q : A + str -> nic -> Prop) w :
  ledger (obj id :: obj ec :: rest) w -> (forall w', ledger rest w' -> Q (inr e) w') -> wp_or E (drop id ec e) Q w.
Proof.
  intros Hw HQ. apply wp_bind. eapply wp_destroy; [exact Hw|reflexivity|]. intros w1 Hw1 _.
  apply wp_bind. eapply wp_destroy; [exact Hw1|reflexivity|]. intros w2 Hw2 _. apply wp_ret. by apply HQ.
Qed.

Lemma wp_recv_loop E n id mrs own Q w :
  ledger (objs mrs ++ own) w -> qp id ∈ own ->
  (forall ok mrs' w', ledger (objs mrs' ++ own) w' -> Q (ok, mrs') w') -> wp_or E (recv_loop n id mrs) Q w.
Proof.
  intros Hw Hq HQ. revert mrs w Hw. induction n as [|n IH]; intros mrs w Hw; cbn [recv_loop]; [by apply wp_ret, HQ|].
  apply wp_bind. eapply wp_create; [exact Hw| |].
  - intros w1 Hw1 _. cbn [Z.eqb]. by apply wp_ret, HQ.
  - intros p w1 Hp Hw1 _ _. rewrite (proj2 (Z.eqb_neq _ _) Hp).
    assert (Hw1' : ledger (objs (mrs ++ [p]) ++ own) w1).
    { eapply ledger_perm; [|exact Hw1]. rewrite objs_app, objs_cons by done. cbn. solve_Permutation. }
    apply wp_bind, wp_bind. eapply wp_use; [exact Hw1'|by apply elem_of_app; right|].
    eapply wp_ask; [exact Hw1'|]. intros [] w2 Hw2 _; [by apply IH|by apply wp_ret, HQ].
Qed.

Lemma wp_init_buffers E t rest Q w :
  r_send t = 0 -> r_read t = 0 -> r_recv t = [] -> r_closed t = false -> ledger (owned t ++ rest) w ->
  (forall ok t' w', r_id t' = r_id t -> r_ec t' = r_ec t -> r_closed t' = false ->
     ledger (owned t' ++ rest) w' -> Q (ok, t') w') ->
  wp_or E (init_buffers t) Q w.
Proof.
  intros E1 E2 E3 Ec Hw HQ. unfold init_buffers.
  set (others := objs (r_external t) ++ qp (r_id t) :: obj (r_id t) :: objs [r_scq t; r_rcq t; r_pd t; r_ec t] ++ rest).
  assert (Hown : forall s r l, owned (with_buffers t s r l) ++ rest ≡ₚ objs [s; r] ++ objs l ++ others).
  { intros s r l. unfold owned, with_buffers, others. cbn [r_external r_send r_read r_recv r_id r_scq r_rcq r_pd r_ec].
    rewrite !objs_app. cbn [app]. rewrite <- !app_assoc. cbn [app]. solve_Permutation. }
  assert (Hw0 : ledger others w).
  { eapply ledger_perm; [|exact Hw]. unfold owned, others. rewrite E1, E2, E3, objs_app, objs_app, !objs_null.
    cbn. rewrite !app_nil_r, <- app_assoc. done. }
  assert (Hret : forall ok s r l w', ledger (objs [s; r] ++ objs l ++ others) w' -> Q (ok, with_buffers t s r l) w').
  { intros ok s r l w' Hl. apply HQ; [done|done|done|]. by eapply ledger_perm; [symmetry; apply Hown|]. }
  assert (Hone : forall s w', (s = 0 -> ledger others w') -> (s <> 0 -> ledger (obj s :: others) w') ->
    ledger (objs [s] ++ others) w').
  { intros s w' H0 H1. destruct (Z.eq_dec s 0) as [->|Hs]; [by apply H0|]. rewrite objs_cons by done. by apply H1. }
  assert (Hread : forall s w1, ledger (objs [s] ++ others) w1 ->
    wp_or E (read ← create; if (s =? 0) || (read =? 0) then mret (false, with_buffers t s read []) else
      '(ok, recv) ← recv_loop (Z.to_nat kRecvDepth) (r_id t) []; mret (ok, with_buffers t s read recv)) Q w1).
  { intros s w1 Hw1. apply wp_bind. eapply wp_create; [exact Hw1| |].
    - intros w2 Hw2 _. rewrite orb_true_r. apply wp_ret, Hret. eapply ledger_perm; [|exact Hw2].
      change [s; 0] with ([s] ++ [0]). rewrite objs_app, objs_null. cbn. by rewrite app_nil_r.
    - intros r w2 Hr Hw2 _ _.
      assert (Hw2' : ledger (objs [s; r] ++ objs [] ++ others) w2).
      { eapply ledger_perm; [|exact Hw2]. change [s; r] with ([s] ++ [r]).
        rewrite objs_app, (objs_cons r) by done. cbn. solve_Permutation. }
      destruct ((s =? 0) || (r =? 0)); [by apply wp_ret, Hret|]. apply wp_bind.
      eapply (wp_recv_loop _ _ _ [] (objs [s; r] ++ others)).
      + eapply ledger_perm; [|exact Hw2']. done.
      + unfold others. rewrite !elem_of_app, elem_of_cons. tauto.
      + intros ok l w3 Hw3. apply wp_ret, Hret. eapply ledger_perm; [|exact Hw3]. solve_Permutation. }
  apply wp_bind. eapply wp_create; [exact Hw0| |].
  - intros w1 Hw1 _. apply Hread. by rewrite objs_null.
  - intros s w1 Hs Hw1 _ _. apply Hread. by rewrite objs_cons.
Qed.

Lemma owned_fresh id ec pd scq rcq :
  owned (mkTrans id ec pd scq rcq 0 0 [] [] false) ≡ₚ qp id :: obj id :: objs [scq; rcq; pd; ec].
Proof. unfold owned. cbn [r_external r_send r_read r_recv r_id r_scq r_rcq r_pd r_ec app]. by rewrite !objs_null. Qed.

Lemma wp_build_qp E id own Q w :
  ledger own w -> obj id ∈ own -> qp id ∉ own ->
  (forall pd scq rcq w', ledger (objs [scq; rcq; pd] ++ own) w' -> Q (false, pd, scq, rcq) w') ->
  (forall pd scq rcq w', ledger (qp id :: objs [scq; rcq; pd] ++ own) w' -> Q (true, pd, scq, rcq) w') ->
  wp_or E (build_qp id) Q w.
Proof.
  intros Hw Hid Hq HF HT. unfold build_qp. apply wp_bind. eapply wp_create; [exact Hw| |].
  { intros w1 Hw1 _. apply wp_ret, HF. by rewrite !objs_null. }
  intros pd w1 Hpd Hw1 _ _. rewrite (proj2 (Z.eqb_neq _ _) Hpd).
  assert (Hins : forall scq rcq, objs [rcq] ++ objs [scq; pd] ++ own ≡ₚ objs [scq; rcq; pd] ++ own).
  { intros scq rcq. change [scq; rcq; pd] with ([scq] ++ [rcq] ++ [pd]). change [scq; pd] with ([scq] ++ [pd]).
    rewrite !objs_app. solve_Permutation. }
  assert (Hcqs : forall scq w', ledger (objs [scq; pd] ++ own) w' -> wp_or E
    (rcq ← create; if (scq =? 0) || (rcq =? 0) then mret (false, pd, scq, rcq) else
     ok ← create_qp id; mret (ok, pd, scq, rcq)) Q w').
  { intros scq w2 Hw2. apply wp_bind. eapply wp_create; [exact Hw2| |].
    - intros w3 Hw3 _. rewrite orb_true_r. apply wp_ret, HF. eapply ledger_perm; [apply Hins|]. by rewrite objs_null.
    - intros rcq w3 Hr Hw3 _ _.
      assert (Hw3' : ledger (objs [scq; rcq; pd] ++ own) w3) by (eapply ledger_perm; [apply Hins|by rewrite objs_cons]).
      destruct ((scq =? 0) || (rcq =? 0)); [by apply wp_ret, HF|]. apply wp_bind.
      eapply wp_create_qp; [exact Hw3'|by apply elem_of_app; right| | |].
      + intros [(p & Hp & _)%list_elem_of_fmap|Hx]%elem_of_app; done.
      + intros w4 Hw4 _. by apply wp_ret, HF.
      + intros w4 Hw4 _. by apply wp_ret, HT. }
  apply wp_bind. eapply wp_create; [exact Hw1| |].
  - intros w2 Hw2 _. apply Hcqs. rewrite objs_null, objs_cons by done. done.
  - intros scq w2 Hs Hw2 _ _. apply Hcqs. by rewrite !objs_cons.
Qed.

(** [make_transport] on an identifier without queue pair: a transport that owns it, or
    nothing made, or nothing made and the identifier and its channel gone. *)
Lemma wp_make_transport E id ec rest Q w :
  id <> 0 -> ledger (obj id :: objs [ec] ++ rest) w -> qp id ∉ rest ->
  (forall t w', r_id t = id -> r_ec t = ec -> r_closed t = false -> ledger (owned t ++ rest) w' -> Q (inl t) w') ->
  (forall w', ledger (obj id :: objs [ec] ++ rest) w' -> Q (inr qp_error) w') ->
  (forall w', ledger rest w' -> Q (inr buffer_error) w') ->
  wp_or E (make_transport id ec) Q w.
Proof.
  intros Hid Hw Hq HT HN HB. unfold make_transport. apply wp_bind.
  eapply wp_build_qp; [exact Hw|by apply elem_of_cons; left| | |].
  - rewrite elem_of_cons, elem_of_app. intros [[=]|[(p & [=] & _)%list_elem_of_fmap|Hx]]. done.
  - intros pd scq rcq w1 Hw1. cbn [negb]. apply wp_bind. eapply wp_free_all; [exact Hw1|done|].
    intros. by apply wp_ret, HN.
  - intros pd scq rcq w1 Hw1. cbn [negb]. apply wp_bind. eapply (wp_init_buffers _ _ rest); try done.
    + eapply ledger_perm; [|exact Hw1]. rewrite owned_fresh.
      change [scq; rcq; pd; ec] with ([scq; rcq; pd] ++ [ec]). rewrite objs_app. cbn. solve_Permutation.
    + intros [] t w2 E1 E2 E3 Hw2; cbn in E1, E2; [by apply wp_ret, HT|]. apply wp_bind.
      eapply wp_close; [congruence|done|exact Hw2|]. intros. by apply wp_ret, HB.
Qed.
End Owners.

(** ** Events are consumed by the waits only *)

Definition quiet {A} (m : M A) : Prop := forall w a w', m w = Ok (a, w') -> turns w' = turns w.

Lemma quiet_ret {A} (a : A) : quiet (mret a).
Proof. by intros w b w' [= _ <-]. Qed.
Lemma quiet_bind {A B} (m : M A) (f : A -> M B) : quiet m -> (forall a, quiet (f a)) -> quiet (m ≫= f).
Proof.
  intros Hm Hf w b w' H. unfold mbind, M_bind in H. destruct (m w) as [[a w1]|] eqn:E; [|done].
  rewrite (Hf _ _ _ _ H). by eapply Hm.
Qed.
Lemma quiet_ask : quiet ask.
Proof. intros w a w' H. unfold ask in H. by destruct (answers w); injection H as _ <-. Qed.
Lemma quiet_new : quiet new_handle.
Proof. by intros w a w' [= _ <-]. Qed.
Lemma quiet_new_qp id : quiet (new_qp id).
Proof. by intros w a w' [= _ <-]. Qed.
Lemma quiet_use h : quiet (use h).
Proof. intros w a w' H. unfold use in H. by case_decide; simplify_eq. Qed.
Lemma quiet_destroy h : quiet (destroy h).
Proof. intros w a w' H. unfold destroy in H. by case_decide; simplify_eq. Qed.

Create HintDb quiet.
#[export] Hint Resolve quiet_ret quiet_bind quiet_ask quiet_new quiet_new_qp quiet_use quiet_destroy : quiet.
Ltac quiet :=
  repeat (case_match || apply quiet_bind || apply quiet_ret ||
          match goal with |- forall _, _ => intros ? end || solve [eauto with quiet]).

Lemma quiet_create : quiet create.
Proof. unfold create. quiet. Qed.
Lemma quiet_create_qp id : quiet (create_qp id).
Proof. unfold create_qp, call_on. quiet. Qed.
Lemma quiet_free p : quiet (free p).
Proof. unfold free. quiet. Qed.
#[export] Hint Resolve quiet_free : quiet.
Lemma quiet_free_all ps : quiet (free_all ps).
Proof. induction ps as [|p ps IH]; cbn [free_all]; quiet. Qed.
#[export] Hint Resolve quiet_create quiet_create_qp quiet_free_all : quiet.

Lemma quiet_recv_loop n id mrs : quiet (recv_loop n id mrs).
Proof. revert mrs. induction n as [|n IH]; intros mrs; cbn [recv_loop]; quiet. Qed.
#[export] Hint Resolve quiet_recv_loop : quiet.

Lemma quiet_make_transport id ec : quiet (make_transport id ec).
Proof. unfold make_transport, build_qp, init_buffers, close_transport. quiet. Qed.

(** A ledger that the library could have: pointers already handed out. *)
Definition nic_ok (w : nic) : Prop := 0 < fresh w /\ forall h, h ∈ live w -> h.1 < fresh w.

Lemma nic_ok_ledger w : nic_ok w -> ledger (live w) (fresh w) [] w.
Proof.
  intros [H1 H2]. split; [lia|done|constructor| |].
  - intros h Hh. by apply elem_of_nil in Hh.
  - cbn. by rewrite union_empty_r_L.
Qed.

Lemma ledger_empty base n0 w : ledger base n0 [] w -> live w = base.
Proof. intros [_ _ _ _ ->]. cbn. by rewrite union_empty_r_L. Qed.

Section TopLevel.
Context (base : gset handle) (n0 : Z).
Notation ledger := (ledger base n0).
Definition no_requests (w : nic) : Prop := Event CONNECT_REQUEST ∉ turns w.

Lemma wp_open_id E Q w :
  ledger [] w ->
  (forall e w', ledger [] w' -> Q (inr e) w') ->
  (forall id ec w', id <> 0 -> ec <> 0 -> ledger [obj id; obj ec] w' -> turns w' = turns w -> Q (inl (id, ec)) w') ->
  wp_or E open_id Q w.
Proof.
  intros Hw HE HI. unfold open_id. apply wp_bind. eapply wp_create; [exact Hw| |].
  { intros w1 Hw1 _. by apply wp_ret, HE. }
  intros ec w1 Hec Hw1 _ T1. rewrite (proj2 (Z.eqb_neq _ _) Hec). apply wp_bind. eapply wp_create; [exact Hw1| |].
  - intros w2 Hw2 _. cbn [Z.eqb]. apply wp_bind. eapply wp_destroy; [exact Hw2|done|]. intros. by apply wp_ret, HE.
  - intros id w2 Hid Hw2 _ T2. rewrite (proj2 (Z.eqb_neq _ _) Hid). apply wp_ret, HI; congruence.
Qed.

Lemma wp_resolve E Q w :
  ledger [] w -> no_requests w ->
  (forall e w', ledger [] w' -> Q (inr e) w') ->
  (forall id ec w', id <> 0 -> ledger [obj id; obj ec] w' -> no_requests w' -> ec <> 0 -> Q (inl (id, ec)) w') ->
  wp_or E resolve Q w.
Proof.
  unfold no_requests. intros Hw Hno HE HI. unfold resolve. apply wp_bind. apply wp_open_id; [done| |].
  { intros. by apply wp_ret, HE. }
  intros id ec w1 Hid Hec Hw1 T1. apply wp_bind. eapply wp_ask; [exact Hw1|].
  intros [] w2 Hw2 T2; cbn [negb]; [|eapply wp_drop; [exact Hw2|intros; by apply HE]].
  apply wp_bind. eapply wp_call; [exact Hw2|by apply elem_of_cons; left|].
  assert (Hdrop : forall w' e, ledger [obj id; obj ec] w' -> wp_or E (drop id ec e) Q w').
  { intros w' e Hw'. eapply wp_drop; [exact Hw'|]. intros; by apply HE. }
  intros [] w3 Hw3 T3; apply wp_bind; [|apply wp_ret; by apply Hdrop].
  eapply wp_wait; [exact Hw3|done|]. intros r lost w4 Hw4 H4.
  destruct H4 as [-> H4]; [by rewrite T3, T2, T1|]. destruct r; [|by apply Hdrop].
  apply wp_ret, HI; done.
Qed.

(** One step of the connection after the transport is made: a call and an event. *)
Lemma wp_advance E {A} t id ex rest e (k : M (A + str)) Q w :
  r_id t = id -> id <> 0 -> r_closed t = false -> ledger (owned t ++ rest) w -> no_requests w ->
  ex <> CONNECT_REQUEST ->
  (forall w', ledger rest w' -> Q (inr e) w') ->
  (forall w', ledger (owned t ++ rest) w' -> no_requests w' -> wp_or E k Q w') ->
  wp_or E (ok ← call_on id;
           ev ← (if (ok : bool) then wait_cm_event ex false else mret None);
           match ev with None => close_with t e | Some _ => k end) Q w.
Proof.
  unfold no_requests. intros Eid Hid Hc Hw Hno Hex HE HK.
  assert (Hin : obj id ∈ owned t ++ rest).
  { unfold owned. rewrite Eid, !elem_of_app, !elem_of_cons. tauto. }
  assert (Hclose : forall w', ledger (owned t ++ rest) w' -> wp_or E (close_with t e) Q w').
  { intros w' Hw'. eapply wp_close_with; [congruence|done|exact Hw'|done]. }
  apply wp_bind. eapply wp_call; [exact Hw|exact Hin|]. intros [] w1 Hw1 T1; apply wp_bind; [|by apply wp_ret, Hclose].
  eapply wp_wait; [exact Hw1|done|]. intros r lost w2 Hw2 H2. destruct H2 as [-> H2]; [by rewrite T1|].
  destruct r; [by apply HK|by apply Hclose].
Qed.
End TopLevel.

(** The buffers of a connection cannot be registered, or a receive not be posted. *)
Definition buffers_fail (w : nic) : Prop :=
  exists id ec w1 w2, resolve w = Ok (inl (id, ec), w1) /\ make_transport id ec w1 = Ok (inr buffer_error, w2).

Lemma establish_ledger base n0 w0 id t w :
  r_id t = id -> id <> 0 -> r_closed t = false -> ledger base n0 (owned t ++ []) w -> no_requests w ->
  ~ buffers_fail w0 ->
  match establish id t w
  with
  | Ok (inl t, w') => ledger base n0 (owned t) w' /\ ~ buffers_fail w0 /\
      exists t' w'', close_transport t w' = Ok (t', w'') /\ live w'' = base
  | Ok (inr _, w') => live w' = base /\ ~ buffers_fail w0
  | Err f => f = UB /\ buffers_fail w0
  end.
Proof.
  intros Et Hid Hc Hw Hno Hnb.
  assert (H : wp (establish id t) (fun r w' => match r with
    | inl t' => t' = t /\ ledger base n0 (owned t ++ []) w'
    | inr _ => ledger base n0 [] w' end) w).
  { eapply wp_advance; [exact Et|exact Hid|done|exact Hw|exact Hno|done|auto|]. intros w1 Hw1 Hno1.
    eapply wp_advance; [exact Et|exact Hid|done|exact Hw1|exact Hno1|done|auto|]. intros w2 Hw2 _. by apply wp_ret. }
  revert H. unfold wp_or. destruct (establish id t w) as [[[t'|e] w']|]; [| |done].
  - intros [-> H]. split; [by rewrite app_nil_r in H|]. split; [done|].
    assert (Hcl : wp (close_transport t) (fun _ w'' => live w'' = base) w').
    { eapply wp_close; [congruence|done|exact H|]. intros t' w'' _ Hl. by apply ledger_empty in Hl. }
    unfold wp_or in Hcl. destruct (close_transport t w') as [[t' w'']|]; [|done]. by exists t', w''.
  - intros H. split; [by apply ledger_empty in H|done].
Qed.

(** C17: [connect_rdma] returns a transport that owns every object it made and whose [close]
    destroys exactly those, or returns none and leaves nothing behind; and it destroys
    its identifier and channel twice exactly when the buffers fail. *)
Theorem connect_rdma_ledger (w : nic) :
  nic_ok w -> no_requests w ->
  match connect_rdma w with
  | Ok (inl t, w') =>
      ledger (live w) (fresh w) (owned t) w' /\ ~ buffers_fail w /\
      exists t' w'', close_transport t w' = Ok (t', w'') /\ live w'' = live w
  | Ok (inr _, w') => live w' = live w /\ ~ buffers_fail w
  | Err f => f = UB /\ buffers_fail w
  end.
Proof.
  intros Hok Hno. pose proof (nic_ok_ledger w Hok) as Hw. set (base := live w) in *. set (n0 := fresh w) in *.
  assert (Hres : wp resolve (fun r w1 => match r with
    | inl (id, ec) => id <> 0 /\ ec <> 0 /\ ledger base n0 [obj id; obj ec] w1 /\ no_requests w1
    | inr _ => ledger base n0 [] w1 end) w) by (eapply wp_resolve; eauto).
  unfold wp_or in Hres. unfold connect_rdma, mbind at 1, M_bind at 1.
  destruct (resolve w) as [[[[id ec]|e] w1]|] eqn:Er; [| |done].
  2:{ split; [by apply ledger_empty in Hres|]. intros (id & ec & w2 & w3 & H & _). congruence. }
  destruct Hres as (Hid & Hec & Hw1 & Hno1).
  assert (Hmk : wp (make_transport id ec) (fun r w2 => match r with
    | inl t => r_id t = id /\ r_closed t = false /\ ledger base n0 (owned t ++ []) w2
    | inr e => (e = qp_error /\ ledger base n0 [obj id; obj ec] w2) \/ (e = buffer_error /\ ledger base n0 [] w2)
    end) w1).
  { eapply (wp_make_transport _ _ _ id ec []); [done|by rewrite objs_cons|apply not_elem_of_nil|auto| |auto].
    intros w2 Hw2. rewrite objs_cons in Hw2 by done. auto. }
  unfold wp_or in Hmk. unfold mbind at 1, M_bind at 1.
  destruct (make_transport id ec w1) as [[[t|e] w2]|] eqn:Em; [| |done].
  - (* the transport is made *)
    destruct Hmk as (Et & Hc & Hw2). pose proof (quiet_make_transport id ec _ _ _ Em) as Hq.
    assert (Hno2 : no_requests w2) by (unfold no_requests; by rewrite Hq).
    assert (Hnb : ~ buffers_fail w) by (intros (id' & ec' & w3 & w4 & H1 & H2); congruence).
    apply (establish_ledger base n0 w id t w2); done.
  - destruct Hmk as [[-> Hw2]|[-> Hw2]].
    + assert (Hd : wp (drop id ec qp_error) (fun (r : rtrans + str) w' => r = inr qp_error /\ ledger base n0 [] w') w2).
      { eapply wp_drop; [exact Hw2|done]. }
      unfold wp_or in Hd. destruct (drop id ec qp_error w2) as [[r w']|]; [|done]. destruct Hd as [-> Hd].
      split; [by apply ledger_empty in Hd|]. intros (id' & ec' & w3 & w4 & H1 & H2).
      assert (qp_error <> buffer_error) by (vm_compute; discriminate). congruence.
    + assert (Hdead : drop id ec buffer_error (A := rtrans) w2 = Err UB).
      { unfold drop, mbind, M_bind, destroy. rewrite decide_False; [done|].
        rewrite (ledger_empty _ _ _ Hw2). intros Hb. pose proof (lg_base _ _ _ _ Hw1 _ Hb).
        pose proof (lg_own _ _ _ _ Hw1 (obj id) ltac:(by apply elem_of_cons; left)). cbn in *. lia. }
      rewrite Hdead. split; [done|]. by exists id, ec, w1, w2.
Qed.

Lemma establish_child_ledger base n0 c t w :
  r_id t = c -> c <> 0 -> r_closed t = false -> ledger base n0 (owned t ++ []) w -> no_requests w ->
  wp (establish_child c t) (fun r w' => match r with
    | inl t' => t' = t /\ ledger base n0 (owned t) w'
    | inr e => e <> qp_error /\ live w' = base end) w.
Proof.
  intros Et Hc Hcl Hw Hno.
  assert (Hclose : forall e w', e <> qp_error -> ledger base n0 (owned t ++ []) w' ->
    wp (close_with t e) (fun (r : rtrans + str) w' => match r with
      | inl t' => t' = t /\ ledger base n0 (owned t) w' | inr e => e <> qp_error /\ live w' = base end) w').
  { intros e w' He Hw'. eapply wp_close_with; [congruence|done|exact Hw'|]. intros w2 Hw2%ledger_empty. done. }
  assert (Hin : obj c ∈ owned t ++ []).
  { unfold owned. rewrite Et, !elem_of_app, !elem_of_cons. tauto. }
  apply wp_bind. eapply wp_call; [exact Hw|exact Hin|]. intros [] w1 Hw1 T1; cbn [negb].
  2:{ apply Hclose; [vm_compute; discriminate|done]. }
  apply wp_bind. eapply wp_wait; [exact Hw1|done|]. intros r lost w2 Hw2 H2. destruct H2 as [-> H2].
  { unfold no_requests in Hno. by rewrite T1. }
  destruct r; [apply wp_ret; split; [done|]; by rewrite app_nil_r in Hw2|].
  apply Hclose; [vm_compute; discriminate|done].
Qed.

(** The buffers of a child cannot be registered, or a receive not be posted. *)
Definition child_buffers_fail (w : nic) : Prop :=
  exists c w1 w2, wait_cm_event CONNECT_REQUEST true w = Ok (Some c, w1) /\
    make_transport c 0 w1 = Ok (inr buffer_error, w2).

(** At most one request arrives. *)
Definition one_request (w : nic) : Prop :=
  forall before after, turns w = before ++ Event CONNECT_REQUEST :: after -> Event CONNECT_REQUEST ∉ after.

(** [accept], when no second request arrives meanwhile: a transport that owns what was
    made, or nothing left, except that a child whose queue pair fails is never
    destroyed, and that a child whose buffers fail is rejected after it was destroyed. *)
Theorem accept_ledger (w : nic) :
  nic_ok w -> one_request w ->
  match accept w with
  | Ok (inl t, w') => ledger (live w) (fresh w) (owned t) w' /\ ~ child_buffers_fail w
  | Ok (inr e, w') =>
      (if decide (e = qp_error) then exists c, ledger (live w) (fresh w) [obj c] w' else live w' = live w) /\
      ~ child_buffers_fail w
  | Err f => f = OutOfFuel \/ f = UB /\ child_buffers_fail w
  end.
Proof.
  intros Hok H1r. pose proof (nic_ok_ledger w Hok) as Hw. set (base := live w) in *. set (n0 := fresh w) in *.
  assert (Hreq : wp_or (fun f => f = OutOfFuel) (wait_cm_event CONNECT_REQUEST true) (fun r w1 => match r with
    | Some c => c <> 0 /\ ledger base n0 [obj c] w1 /\ no_requests w1
    | None => ledger base n0 [] w1 end) w).
  { apply (wp_wait_request base n0 []); [done|done|]. intros c w' Hc Hw' _ [before Hb].
    split; [done|]. split; [done|]. by eapply H1r. }
  unfold wp_or in Hreq. unfold accept, mbind at 1, M_bind at 1.
  destruct (wait_cm_event CONNECT_REQUEST true w) as [[[c|] w1]|f] eqn:Er; [| |by left].
  2:{ split; [|intros (c & w2 & w3 & H & _); congruence]. rewrite decide_False by (vm_compute; discriminate).
      by apply ledger_empty in Hreq. }
  destruct Hreq as (Hc & Hw1 & Hno1).
  assert (Hmk : wp (make_transport c 0) (fun r w2 => match r with
    | inl t => r_id t = c /\ r_closed t = false /\ ledger base n0 (owned t ++ []) w2
    | inr e => (e = qp_error /\ ledger base n0 [obj c] w2) \/ (e = buffer_error /\ ledger base n0 [] w2)
    end) w1).
  { eapply (wp_make_transport _ _ _ c 0 []); [done|by rewrite objs_null|apply not_elem_of_nil|auto|auto|auto]. }
  unfold wp_or in Hmk. unfold mbind at 1, M_bind at 1.
  destruct (make_transport c 0 w1) as [[[t|e] w2]|] eqn:Em; [| |done].
  - destruct Hmk as (Et & Hcl & Hw2). pose proof (quiet_make_transport c 0 _ _ _ Em) as Hq.
    assert (Hno2 : no_requests w2) by (unfold no_requests; by rewrite Hq).
    assert (Hnb : ~ child_buffers_fail w) by (intros (c' & w3 & w4 & Ha & Hb); congruence).
    pose proof (establish_child_ledger base n0 c t w2 Et Hc Hcl Hw2 Hno2) as He. unfold wp_or in He.
    destruct (establish_child c t w2) as [[[t'|e] w']|]; [| |done]; destruct He as [He1 He2].
    + by subst t'.
    + split; [|done]. by rewrite decide_False.
  - destruct Hmk as [[-> Hw2]|[-> Hw2]]; unfold mbind, M_bind, use.
    + rewrite decide_True by (eapply ledger_live; [exact Hw2|by apply elem_of_cons; left]).
      cbn [mret M_ret]. rewrite decide_True by done. split; [by exists c|].
      intros (c' & w3 & w4 & Ha & Hb). assert (qp_error <> buffer_error) by (vm_compute; discriminate). congruence.
    + rewrite decide_False.
      * right. split; [done|]. by exists c, w1, w2.
      * rewrite (ledger_empty _ _ _ Hw2). intros Hb. pose proof (lg_base _ _ _ _ Hw1 _ Hb).
        pose proof (lg_own _ _ _ _ Hw1 (obj c) ltac:(by apply elem_of_cons; left)). cbn in *. lia.
Qed.

(** A listener owns its identifier and its channel, [close] destroys both, and a failed
    [listen_rdma] leaves nothing. *)
Theorem listen_rdma_ledger (w : nic) :
  nic_ok w ->
  wp listen_rdma (fun r w' => match r with
    | inl l => wp (close_listener l) (fun _ w'' => live w'' = live w) w'
    | inr _ => live w' = live w end) w.
Proof.
  intros Hok. pose proof (nic_ok_ledger w Hok) as Hw. set (base := live w) in *. set (n0 := fresh w) in *.
  apply wp_bind. eapply (wp_open_id base n0); [exact Hw| |].
  { intros e w1 Hw1. by apply ledger_empty in Hw1. }
  intros id ec w1 Hid Hec Hw1 _.
  assert (Hdrop : forall (e : str) w', ledger base n0 [obj id; obj ec] w' ->
    wp (drop id ec e) (fun r w'' => match r with
      | inl l => wp (close_listener l) (fun _ w3 => live w3 = base) w''
      | inr _ => live w'' = base end) w').
  { intros e w' Hw'. eapply wp_drop; [exact Hw'|]. by intros w2 Hw2%ledger_empty. }
  apply wp_bind. eapply wp_ask; [exact Hw1|]. intros [] w2 Hw2 _; cbn [negb]; [|by apply Hdrop].
  apply wp_bind. eapply wp_call; [exact Hw2|by apply elem_of_cons; left|]. intros [] w3 Hw3 _; cbn [negb]; [|by apply Hdrop].
  apply wp_bind. eapply wp_call; [exact Hw3|by apply elem_of_cons; left|]. intros [] w4 Hw4 _; cbn [negb]; [|by apply Hdrop].
  apply wp_ret. unfold close_listener, free. cbn [fst snd]. rewrite !(proj2 (Z.eqb_neq _ _)) by done.
  apply wp_bind. eapply wp_destroy; [exact Hw4|done|]. intros w5 Hw5 _.
  apply wp_bind. eapply wp_destroy; [exact Hw5|done|]. intros w6 Hw6 _. apply wp_ret. by apply ledger_empty in Hw6.
Qed.

(** ** Three connections *)

Definition start_nic (l : list bool) (ts : list turn) : nic := mkNic {[obj 1]} 2 l ts.

Lemma start_nic_ok l ts : nic_ok (start_nic l ts).
Proof. split; cbn; [lia|]. intros h ->%elem_of_singleton. cbn. lia. Qed.

(** All calls succeed (channel, identifier, address, 3 for the queue pair's parts, the
    queue pair, 2 buffers, 8 receives of 2 calls, route, connect). *)
Definition good_script : list bool := replicate 40 true.
Definition good_turns : list turn := [Event ADDR_RESOLVED; Interrupted; Event ROUTE_RESOLVED; Event OTHER_EVENT; Event ESTABLISHED].
(** The second of the two buffers cannot be registered. *)
Definition bad_script : list bool := replicate 9 true ++ [false].

Lemma connect_rdma_ledger_witness :
  (exists t w', connect_rdma (start_nic good_script good_turns) = Ok (inl t, w') /\
    exists t' w'', close_transport t w' = Ok (t', w'') /\ live w'' = {[obj 1]}) /\
  connect_rdma (start_nic bad_script good_turns) = Err UB.
Proof.
  split; [|vm_compute; reflexivity].
  pose proof (connect_rdma_ledger (start_nic good_script good_turns) (start_nic_ok _ _)) as H.
  assert (Hno : no_requests (start_nic good_script good_turns)).
  { unfold no_requests, start_nic, good_turns. cbn [turns]. rewrite !elem_of_cons, elem_of_nil. naive_solver. }
  specialize (H Hno).
  assert (Hok : match connect_rdma (start_nic good_script good_turns) with Ok (inl _, _) => true | _ => false end = true)
    by (vm_compute; reflexivity).
  destruct (connect_rdma (start_nic good_script good_turns)) as [[[t|e] w']|]; [|discriminate Hok|discriminate Hok].
  exists t, w'. split; [reflexivity|]. destruct H as (_ & _ & H). exact H.
Defined.

Lemma accept_ledger_witness :
  exists t w', accept (start_nic good_script [Event DISCONNECTED; Event CONNECT_REQUEST; Event ESTABLISHED]) = Ok (inl t, w') /\
    ledger {[obj 1]} 2 (owned t) w'.
Proof.
  set (w := start_nic good_script [Event DISCONNECTED; Event CONNECT_REQUEST; Event ESTABLISHED]).
  assert (H1 : one_request w).
  { intros [|x [|y [|z before]]] after; cbn; intros E; simplify_eq.
    - rewrite elem_of_cons, elem_of_nil. naive_solver.
    - destruct before; done. }
  pose proof (accept_ledger w (start_nic_ok _ _) H1) as H.
  assert (Hok : match accept w with Ok (inl _, _) => true | _ => false end = true) by (vm_compute; reflexivity).
  destruct (accept w) as [[[t|e] w']|]; [|discriminate Hok|discriminate Hok].
  exists t, w'. split; [reflexivity|]. apply H.
Defined.

(** A request that arrives while [accept] waits for another connection to be established
    is taken from the channel and dropped; the second call of [accept] does not see it. *)
Theorem accept_drops_request :
  exists t w', accept (start_nic good_script [Event CONNECT_REQUEST; Event CONNECT_REQUEST; Event ESTABLISHED]) = Ok (inl t, w') /\
    turns w' = [] /\ accept w' = Err OutOfFuel.
Proof.
  set (w := start_nic good_script _).
  assert (H : match accept w with Ok (inl t, w') => turns w' = [] /\ accept w' = Err OutOfFuel | _ => False end)
    by (vm_compute; done).
  destruct (accept w) as [[[t|e] w']|]; [|done|done]. by exists t, w'.
Qed.
