(* ===== verification/CacheModel.v ===== *)
(** * Model parameters: prediction, serialization, and the End's replica
    (core/index/cache_model.h, core/index/serialize.h, end/parent_plin_cache.h)

    [predict_pos] descends the levels of [Param]s to a slot number.  The Edge
    serializes the levels into a PLIN_PARAM_PUSH body and the End reads them back
    into its [ParentPlinCache]; both ends then predict with the same code.  The
    reader is modelled on [std::istream::read]: a short read sets the fail bit
    and leaves the missing bytes of the destination as they were. *)

From S2P Require Import Prelude Doubles Bytes.

(** ** Param, t_record *)

Record Param : Type := mkParam {
  first_key : double;
  slope : double;
  intercept : double;
  block_num : Z
}.

(** An [addr] is the address of a leaf. *)
Record t_record : Type := mkRecord { rkey : double; addr : Z; valid : bool }.

Definition InnerSlotsPerBlock : Z := 8.

(** ** Prediction *)

(** The comparison [predicted_block > block_number - 4] is made after a 32-bit
    unsigned subtraction, and the result is a [uint32_t]. *)
Definition predict_block (key slope : double) (intercept : float) (block_number : Z) : res Z :=
  pb ← to_int64 (ddiv (linear key slope intercept) (double_of_Z InnerSlotsPerBlock));
  if pb <? 0 then Ok 0
  else if u32 (block_number - 4) <? pb then Ok (u32 (block_number - 2))
  else Ok (u32 (pb + 1)).

(** The scan [while (k < size)]: how many leading [first_key]s are [<= v]. *)
Fixpoint count_le (v : double) (l : list Param) : nat :=
  match l with
  | [] => 0%nat
  | p :: l' => if dle (first_key p) v then S (count_le v l') else 0%nat
  end.

(** [temp_pos]: on an empty level [size - 1] wraps and the access is out of range. *)
Definition temp_pos (v : double) (l : list Param) : nat :=
  let k := count_le v l in
  if (length l <=? k)%nat then (length l - 1)%nat else k.

(** One level: the next predicted value is the target slot. *)
Definition predict_level (v : double) (l : list Param) : res double :=
  p ← of_opt UB (l !! temp_pos v l);
  b ← predict_block v (slope p) (float_of_double (intercept p)) (u32 (block_num p));
  Ok (double_of_Z (u64 (b * InnerSlotsPerBlock))).

(** From the top level down to level 1. *)
Definition predict_pos (parameter : list (list Param)) (key : double) : res Z :=
  v ← foldlM predict_level key (rev parameter);
  to_int32 v.

(** ** Serialization *)

Definition serialize_record (r : t_record) : list Z :=
  le_bytes 8 (bits_of_double (rkey r)) ++ le_bytes 8 (addr r) ++ [if valid r then 1 else 0].

Definition serialize_param (p : Param) : list Z :=
  le_bytes 8 (bits_of_double (first_key p)) ++ le_bytes 8 (bits_of_double (slope p)) ++
  le_bytes 8 (bits_of_double (intercept p)) ++ le_bytes 8 (block_num p).

Definition size_bytes {A} (l : list A) : list Z := le_bytes 8 (Z.of_nat (length l)).

Definition serialize_vector (t : list t_record) : list Z :=
  size_bytes t ++ concat (map serialize_record t).
Definition serialize_vector_of_params (v : list Param) : list Z :=
  size_bytes v ++ concat (map serialize_param v).
Definition serialize_parameter (p : list (list Param)) : list Z :=
  size_bytes p ++ concat (map serialize_vector_of_params p).

(** ** std::istringstream *)

Record istream : Type := mkIs { is_buf : list Z; is_good : bool }.

(** [is.read(p, n)] into memory that held [old]. *)
Definition is_read (n : nat) (old : list Z) (ist : istream) : list Z * istream :=
  if is_good ist then
    let got := take n (is_buf ist) in
    (got ++ drop (length got) old, mkIs (drop n (is_buf ist)) (n <=? length (is_buf ist))%nat)
  else (old, ist).

(** A [size_t] local that is read without an initial value: using it after a
    short read is undefined. *)
Definition read_size (ist : istream) : res (Z * istream) :=
  let '(l, ist1) := is_read 8 (replicate 8 0) ist in
  if is_good ist1 then Ok (le_val l, ist1) else Err UB.

Definition zeros8 : list Z := replicate 8 0.

(** [Param::deserialize] into a value-initialised element. *)
Definition deserialize_param (ist : istream) : Param * istream :=
  let '(a, ist) := is_read 8 zeros8 ist in
  let '(b, ist) := is_read 8 zeros8 ist in
  let '(c, ist) := is_read 8 zeros8 ist in
  let '(d, ist) := is_read 8 zeros8 ist in
  (mkParam (double_of_bits (le_val a)) (double_of_bits (le_val b))
           (double_of_bits (le_val c)) (le_val d), ist).

Definition deserialize_record (ist : istream) : t_record * istream :=
  let '(a, ist) := is_read 8 zeros8 ist in
  let '(b, ist) := is_read 8 zeros8 ist in
  let '(c, ist) := is_read 1 [0] ist in
  (mkRecord (double_of_bits (le_val a)) (le_val b) (negb (le_val c =? 0)), ist).

Fixpoint repeat_read {A} (f : istream -> A * istream) (n : nat) (ist : istream)
  : list A * istream :=
  match n with
  | O => ([], ist)
  | S n' => let '(x, ist) := f ist in let '(l, ist) := repeat_read f n' ist in (x :: l, ist)
  end.

(** [resize(size)] throws beyond [max_size()], the element size being [w]. *)
Definition resize_ok (w size : Z) : bool := size <=? (2 ^ 63 - 1) / w.

Definition deserialize_vector (ist : istream) : res (list t_record * istream) :=
  '(size, ist) ← read_size ist;
  if resize_ok 24 size then Ok (repeat_read deserialize_record (Z.to_nat size) ist)
  else Err Thrown.

Definition deserialize_vector_of_params (ist : istream) : res (list Param * istream) :=
  '(size, ist) ← read_size ist;
  if resize_ok 32 size then Ok (repeat_read deserialize_param (Z.to_nat size) ist)
  else Err Thrown.

Fixpoint deserialize_levels (n : nat) (ist : istream) : res (list (list Param) * istream) :=
  match n with
  | O => Ok ([], ist)
  | S n' =>
      '(v, ist) ← deserialize_vector_of_params ist;
      '(vs, ist) ← deserialize_levels n' ist;
      Ok (v :: vs, ist)
  end.

Definition deserialize_parameter (ist : istream) : res (list (list Param) * istream) :=
  '(outer_size, ist) ← read_size ist;
  if 100 <? outer_size then Err Thrown
  else deserialize_levels (Z.to_nat outer_size) ist.

(** ** ParentPlinCache *)

Definition ParentPlinCache : Type := list (list Param).

Definition loaded (c : ParentPlinCache) : bool :=
  match c with [] => false | _ => true end.

(** The replica is replaced only after the whole body was read. *)
Definition load_from_push (data : list Z) (c : ParentPlinCache) : res ParentPlinCache :=
  '(params, _) ← deserialize_parameter (mkIs data true);
  Ok params.

Definition cache_predict_pos (c : ParentPlinCache) (k : double) : res Z :=
  match c with [] => Ok (-1) | _ => predict_pos c k end.

(** ** Prediction stays inside the node *)

(** With at least four blocks, the predicted block is never the last one:
    its eight slots, and those of the block after it, lie inside the node,
    whatever the key and the model. *)
Theorem predict_block_in_node (key slope : double) (intercept : float) (bn b : Z) :
  4 <= bn < 2 ^ 32 ->
  predict_block key slope intercept bn = Ok b ->
  0 <= b <= bn - 2 /\ (b + 1) * InnerSlotsPerBlock + 7 < bn * InnerSlotsPerBlock.
Proof.
  unfold predict_block, InnerSlotsPerBlock. intros Hbn H.
  apply bind_ok in H as (pb & _ & H).
  rewrite (u32_small (bn - 4)), (u32_small (bn - 2)) in H by lia.
  destruct (Z.ltb_spec pb 0); [injection H as <-; lia|].
  destruct (Z.ltb_spec (bn - 4) pb); [injection H as <-; lia|].
  rewrite u32_small in H by lia. injection H as <-. lia.
Qed.

Lemma predict_block_in_node_witness :
  4 <= 5 < 2 ^ 32 /\ 0 <= 3 <= 5 - 2.
Proof.
  split; [lia|].
  refine (proj1 (predict_block_in_node (double_of_Z 20) (double_of_Z 1) (double_of_Z 0) 5 3 _ _));
    [lia|vm_compute; reflexivity].
Defined.

(** [temp_pos] picks the segment after the last one whose first key is at most
    the value, or the last segment. *)
Lemma temp_pos_spec v l p :
  l !! temp_pos v l = Some p ->
  (forall i q, (i < temp_pos v l)%nat -> l !! i = Some q -> dle (first_key q) v = true) /\
  (dle (first_key p) v = false \/ S (temp_pos v l) = length l).
Proof.
  assert (K1 : forall l i q, (i < count_le v l)%nat -> l !! i = Some q -> dle (first_key q) v = true).
  { induction l0 as [|x l0 IH]; intros i q Hi Hq; [done|]. cbn in Hi.
    destruct (dle (first_key x) v) eqn:E; [|lia]. destruct i; cbn in Hq; [congruence|].
    eapply IH; [|done]. lia. }
  assert (K2 : forall l q, l !! count_le v l = Some q -> dle (first_key q) v = false).
  { induction l0 as [|x l0 IH]; intros q Hq; [done|]. cbn in Hq.
    destruct (dle (first_key x) v) eqn:E; [by apply IH|]. cbn in Hq. congruence. }
  unfold temp_pos. destruct (Nat.leb_spec (length l) (count_le v l)); intros Hp.
  - split; [intros i q Hi Hq; refine (K1 l i q _ Hq); lia|]. right. pose proof (lookup_lt_Some _ _ _ Hp). lia.
  - split; [intros i q Hi Hq; refine (K1 l i q _ Hq); lia|]. left. exact (K2 l p Hp).
Qed.

(** ** Round trip *)

Definition param_wf (p : Param) : Prop :=
  valid_double (first_key p) = true /\ valid_double (slope p) = true /\
  valid_double (intercept p) = true /\ 0 <= block_num p < 2 ^ 64.

(** A parameter table that [bulk_load] can have built. *)
Definition parameter_wf (ps : list (list Param)) : Prop :=
  (length ps <= 100)%nat /\
  Forall (fun v => Forall param_wf v /\ Z.of_nat (length v) <= (2 ^ 63 - 1) / 32) ps.

Lemma is_read_app l old rest n :
  length l = n -> length old = n ->
  is_read n old (mkIs (l ++ rest) true) = (l, mkIs rest true).
Proof.
  intros <- Ho. unfold is_read. cbn [is_good is_buf].
  rewrite take_app_length, drop_app_length, length_app.
  rewrite drop_ge by lia. rewrite app_nil_r.
  by destruct (Nat.leb_spec (length l) (length l + length rest)); [|lia].
Qed.

Lemma read_size_app {A} (l : list A) rest :
  Z.of_nat (length l) < 2 ^ 64 ->
  read_size (mkIs (size_bytes l ++ rest) true) = Ok (Z.of_nat (length l), mkIs rest true).
Proof.
  intros Hl. unfold read_size, size_bytes.
  rewrite is_read_app by (rewrite ?le_bytes_length, ?length_replicate; done).
  cbn [is_good]. rewrite le_val_bytes; [done|]. change (256 ^ Z.of_nat 8) with (2 ^ 64). lia.
Qed.

Lemma deserialize_param_app p rest :
  param_wf p -> deserialize_param (mkIs (serialize_param p ++ rest) true) = (p, mkIs rest true).
Proof.
  intros (H1 & H2 & H3 & H4). unfold deserialize_param, serialize_param, zeros8.
  rewrite <- !app_assoc.
  do 4 (rewrite is_read_app by (rewrite ?le_bytes_length, ?length_replicate; done)).
  rewrite !le_val_bytes by (change (256 ^ Z.of_nat 8) with (2 ^ 64); auto using bits_range).
  rewrite !double_bits_roundtrip by done. by destruct p.
Qed.

Lemma repeat_read_params v rest :
  Forall param_wf v ->
  repeat_read deserialize_param (length v) (mkIs (concat (map serialize_param v) ++ rest) true)
  = (v, mkIs rest true).
Proof.
  induction 1 as [|p v Hp Hv IH]; [done|]. cbn [length repeat_read map concat].
  rewrite <- app_assoc, deserialize_param_app by done. by rewrite IH.
Qed.

Lemma deserialize_vector_app v rest :
  Forall param_wf v -> Z.of_nat (length v) <= (2 ^ 63 - 1) / 32 ->
  deserialize_vector_of_params (mkIs (serialize_vector_of_params v ++ rest) true)
  = Ok (v, mkIs rest true).
Proof.
  intros Hv Hl. unfold deserialize_vector_of_params, serialize_vector_of_params.
  assert ((2 ^ 63 - 1) / 32 < 2 ^ 64) by (vm_compute; reflexivity).
  rewrite <- app_assoc, read_size_app by lia. mstep. unfold resize_ok.
  destruct (Z.leb_spec (Z.of_nat (length v)) ((2 ^ 63 - 1) / 32)); [|lia].
  by rewrite Nat2Z.id, repeat_read_params.
Qed.

Lemma deserialize_levels_app ps rest :
  Forall (fun v => Forall param_wf v /\ Z.of_nat (length v) <= (2 ^ 63 - 1) / 32) ps ->
  deserialize_levels (length ps) (mkIs (concat (map serialize_vector_of_params ps) ++ rest) true)
  = Ok (ps, mkIs rest true).
Proof.
  induction 1 as [|v ps [Hv Hl] Hps IH]; [done|]. cbn [length deserialize_levels map concat].
  rewrite <- app_assoc, deserialize_vector_app by done. mstep. rewrite IH. done.
Qed.

Lemma load_from_push_spec ps c :
  parameter_wf ps -> load_from_push (serialize_parameter ps) c = Ok ps.
Proof.
  intros [Hl Hps]. unfold load_from_push, deserialize_parameter, serialize_parameter.
  rewrite read_size_app by lia. mstep.
  destruct (Z.ltb_spec 100 (Z.of_nat (length ps))); [lia|].
  rewrite Nat2Z.id. pose proof (deserialize_levels_app ps [] Hps) as E.
  rewrite app_nil_r in E. by rewrite E.
Qed.

(** C21: an End that receives a parameter push holds exactly the Edge's levels,
    whatever its replica held before, and predicts the same slot as the Edge
    for every key. *)
Theorem param_push_roundtrip (ps : list (list Param)) (c : ParentPlinCache) (k : double) :
  parameter_wf ps -> ps <> [] ->
  load_from_push (serialize_parameter ps) c = Ok ps /\
  loaded ps = true /\ cache_predict_pos ps k = predict_pos ps k.
Proof.
  intros Hwf Hne. split; [by apply load_from_push_spec|]. by destruct ps.
Qed.

Definition demo_params : list (list Param) :=
  [[mkParam (double_of_Z 1) (double_of_Z 2) (double_of_Z 0) 5;
    mkParam (double_of_Z 50) (double_of_Z 1) (double_of_Z 3) 6];
   [mkParam (double_of_Z 1) (double_of_Z 1) (double_of_Z 0) 4]].

Lemma demo_params_wf : parameter_wf demo_params.
Proof.
  split; [cbn; lia|].
  repeat constructor; try (vm_compute; done); try (vm_compute; discriminate).
Qed.

Lemma param_push_roundtrip_witness :
  load_from_push (serialize_parameter demo_params) [] = Ok demo_params.
Proof.
  refine (proj1 (param_push_roundtrip demo_params [] (double_of_Z 7) demo_params_wf _)).
  discriminate.
Defined.

(** A push whose outer size is above 100 is refused with an exception, and
    one too short to hold its outer size is read uninitialised. *)
Theorem param_push_refused (c : ParentPlinCache) (n : Z) (rest : list Z) :
  0 <= n < 2 ^ 64 ->
  (100 < n -> load_from_push (le_bytes 8 n ++ rest) c = Err Thrown) /\
  (forall data, (length data < 8)%nat -> load_from_push data c = Err UB).
Proof.
  intros Hn. split.
  - intros H100. unfold load_from_push, deserialize_parameter, read_size.
    rewrite is_read_app by (rewrite ?le_bytes_length, ?length_replicate; done).
    cbn [is_good]. rewrite le_val_bytes by (change (256 ^ Z.of_nat 8) with (2 ^ 64); lia).
    mstep. destruct (Z.ltb_spec 100 n); [done|lia].
  - intros data Hd. unfold load_from_push, deserialize_parameter, read_size, is_read.
    cbn [is_good is_buf]. destruct (Nat.leb_spec 8 (length data)); [lia|]. done.
Qed.

Lemma param_push_refused_witness :
  load_from_push (le_bytes 8 101 ++ []) [] = Err Thrown.
Proof. refine (proj1 (param_push_refused [] 101 [] _) _); lia. Defined.
