(* ===== verification/Snapshot.v ===== *)
(** * The snapshot an End reads with one-sided RDMA (common/rdma_snapshot.h,
    edge_server.cpp build_rdma_snapshot, end_node.cpp rdma_snapshot_lookup)

    The Edge sorts its rows by predicted leaf with a counting sort; the End
    predicts the leaf with its replica of the model and reads one descriptor and
    one run of records.  The structures travel as their memory images on a
    little-endian host with natural alignment. *)

From S2P Require Import Prelude Doubles Bytes Rpc Transport CacheModel.
From Stdlib Require Import SpecFloat.

(** ** rdma_snapshot.h *)

Definition kSnapshotMagic : Z := 0x504c5244.
Definition kSnapshotVersion : Z := 1.

Record SnapshotInfo : Type := mkInfo {
  magic : Z;
  version : Z;
  desc_addr : Z;
  desc_rkey : Z;
  leaf_count : Z;
  record_addr : Z;
  record_rkey : Z;
  record_count : Z
}.
Definition info0 : SnapshotInfo := mkInfo kSnapshotMagic kSnapshotVersion 0 0 0 0 0 0.

Record LeafDescriptor : Type := mkDesc {
  d_offset : Z;
  d_count : Z;
  d_version : Z;
  d_first_key : double
}.
Definition desc0 : LeafDescriptor := mkDesc 0 0 kSnapshotVersion (S754_zero false).

Record KeyPayloadRecord : Type := mkKp { kp_key : double; kp_payload : Z }.
Definition record0 : KeyPayloadRecord := mkKp (S754_zero false) 0.

#[export] Instance SnapshotInfo_eq_dec : EqDecision SnapshotInfo.
Proof. solve_decision. Defined.
#[export] Instance LeafDescriptor_eq_dec : EqDecision LeafDescriptor.
Proof. solve_decision. Defined.
#[export] Instance KeyPayloadRecord_eq_dec : EqDecision KeyPayloadRecord.
Proof. solve_decision. Defined.

(** ** Memory images *)

Definition is_u (n : nat) (z : Z) : Prop := 0 <= z < 256 ^ Z.of_nat n.

Lemma uint_read n z rest : is_u n z -> le_val (field 0 n (le_bytes n z ++ rest)) = z.
Proof. intros H. unfold field. rewrite drop_0. by apply le_val_take. Qed.

Lemma field_skip (l1 l2 : list Z) off n :
  (length l1 <= off)%nat -> field off n (l1 ++ l2) = field (off - length l1) n l2.
Proof. intros H. unfold field. by rewrite drop_app_ge. Qed.

#[export] Instance desc_codec : Codec LeafDescriptor.
Proof.
  refine {|
    csize := 24;
    enc := fun d => le_bytes 8 (d_offset d) ++ le_bytes 4 (d_count d) ++
                    le_bytes 4 (d_version d) ++ le_bytes 8 (bits_of_double (d_first_key d));
    dec := fun l => mkDesc (le_val (field 0 8 l)) (le_val (field 8 4 l)) (le_val (field 12 4 l))
                           (double_of_bits (le_val (field 16 8 l)));
    cwf := fun d => is_u 8 (d_offset d) /\ is_u 4 (d_count d) /\ is_u 4 (d_version d) /\
                    valid_double (d_first_key d) = true |}.
  - intros d. by rewrite !length_app, !le_bytes_length.
  - intros [o c v k] rest (Ho & Hc & Hv & Hk). cbn [d_offset d_count d_version d_first_key] in *.
    rewrite <- !app_assoc. f_equal.
    + by apply uint_read.
    + rewrite field_skip; rewrite le_bytes_length; [|lia]. by apply uint_read.
    + do 2 (rewrite field_skip; rewrite le_bytes_length; [|lia]). by apply uint_read.
    + do 3 (rewrite field_skip; rewrite le_bytes_length; [|lia]).
      rewrite uint_read by (red; change (256 ^ Z.of_nat 8) with (2 ^ 64); by apply bits_range).
      by apply double_bits_roundtrip.
Defined.

#[export] Instance record_codec : Codec KeyPayloadRecord.
Proof.
  refine {|
    csize := 16;
    enc := fun r => le_bytes 8 (bits_of_double (kp_key r)) ++ le_bytes 8 (kp_payload r);
    dec := fun l => mkKp (double_of_bits (le_val (field 0 8 l))) (le_val (field 8 8 l));
    cwf := fun r => valid_double (kp_key r) = true /\ is_u 8 (kp_payload r) |}.
  - intros d. by rewrite !length_app, !le_bytes_length.
  - intros [k p] rest (Hk & Hp). cbn [kp_key kp_payload] in *. rewrite <- app_assoc. f_equal.
    + rewrite uint_read by (red; change (256 ^ Z.of_nat 8) with (2 ^ 64); by apply bits_range).
      by apply double_bits_roundtrip.
    + rewrite field_skip; rewrite le_bytes_length; [|lia]. by apply uint_read.
Defined.

(** [SnapshotInfo] has four bytes of padding before [record_count]; the sender
    copies whatever they hold. *)
Definition info_bytes (pad : Z) (i : SnapshotInfo) : list Z :=
  le_bytes 4 (magic i) ++ le_bytes 4 (version i) ++ le_bytes 8 (desc_addr i) ++
  le_bytes 4 (desc_rkey i) ++ le_bytes 4 (leaf_count i) ++ le_bytes 8 (record_addr i) ++
  le_bytes 4 (record_rkey i) ++ le_bytes 4 pad ++ le_bytes 8 (record_count i).
Definition info_size : nat := 48.

Definition info_of_bytes (l : list Z) : SnapshotInfo :=
  mkInfo (le_val (field 0 4 l)) (le_val (field 4 4 l)) (le_val (field 8 8 l))
         (le_val (field 16 4 l)) (le_val (field 20 4 l)) (le_val (field 24 8 l))
         (le_val (field 32 4 l)) (le_val (field 40 8 l)).

Definition info_wf (i : SnapshotInfo) : Prop :=
  is_u 4 (magic i) /\ is_u 4 (version i) /\ is_u 8 (desc_addr i) /\ is_u 4 (desc_rkey i) /\
  is_u 4 (leaf_count i) /\ is_u 8 (record_addr i) /\ is_u 4 (record_rkey i) /\
  is_u 8 (record_count i).

Lemma info_bytes_length pad i : length (info_bytes pad i) = info_size.
Proof. unfold info_bytes. by rewrite !length_app, !le_bytes_length. Qed.

Ltac skip_fields :=
  repeat (rewrite field_skip; rewrite le_bytes_length; [|lia]); cbn [Nat.sub].

Lemma info_roundtrip pad i : info_wf i -> info_of_bytes (info_bytes pad i) = i.
Proof.
  destruct i as [m v da dk lc ra rk rc]. unfold info_wf, info_bytes, info_of_bytes.
  cbn [magic version desc_addr desc_rkey leaf_count record_addr record_rkey record_count].
  intros (H1 & H2 & H3 & H4 & H5 & H6 & H7 & H8).
  rewrite <- (app_nil_r (le_bytes 8 rc)). f_equal; skip_fields; by apply uint_read.
Qed.

(** ** Building the snapshot *)

Record Dataset : Type := mkDataset { ds_keys : list double; ds_payloads : list Z }.

Record EdgeRdmaSnapshot : Type := mkSnap {
  descs : list LeafDescriptor;
  records : list KeyPayloadRecord;
  snap_version : Z
}.

Definition bump (d : LeafDescriptor) : LeafDescriptor :=
  mkDesc (d_offset d) (u32 (d_count d + 1)) (d_version d) (d_first_key d).

(** The leaf a row is filed under: the predicted slot, forced into the table. *)
Definition clamp_leaf (n : nat) (predicted : Z) : nat :=
  let leaf := if predicted <? 0 then 0%nat else Z.to_nat predicted in
  if (n <=? leaf)%nat then (n - 1)%nat else leaf.

(** First pass: the leaf of each row, and the number of rows per leaf. *)
Fixpoint count_pass (parameter : list (list Param)) (keys : list double)
    (ds : list LeafDescriptor) : res (list nat * list LeafDescriptor) :=
  match keys with
  | [] => Ok ([], ds)
  | k :: keys' =>
      predicted ← predict_pos parameter k;
      let leaf := clamp_leaf (length ds) predicted in
      d ← of_opt UB (ds !! leaf);
      '(ids, ds) ← count_pass parameter keys' (<[leaf := bump d]> ds);
      Ok (leaf :: ids, ds)
  end.

(** Offsets; the count is reused as a cursor. *)
Fixpoint offset_pass (offset : Z) (ds : list LeafDescriptor) : list LeafDescriptor :=
  match ds with
  | [] => []
  | d :: ds' =>
      mkDesc offset 0 (d_version d) (d_first_key d) :: offset_pass (u64 (offset + d_count d)) ds'
  end.

(** Second pass: every row to the cursor of its leaf. *)
Fixpoint fill_pass (ids : list nat) (rows : list KeyPayloadRecord)
    (ds : list LeafDescriptor) (recs : list KeyPayloadRecord)
  : res (list LeafDescriptor * list KeyPayloadRecord) :=
  match ids, rows with
  | leaf :: ids', row :: rows' =>
      d ← of_opt UB (ds !! leaf);
      let pos := u64 (d_offset d + d_count d) in
      recs ← zstore recs pos row;
      fill_pass ids' rows' (<[leaf := bump d]> ds) recs
  | [], _ => Ok (ds, recs)
  | _ :: _, [] => Err UB
  end.

Definition rows_of (ds : Dataset) : list KeyPayloadRecord :=
  zip_with mkKp (ds_keys ds) (ds_payloads ds).

Definition build_rdma_snapshot (local_table : list t_record) (parameter : list (list Param))
    (ds : Dataset) : res EdgeRdmaSnapshot :=
  match local_table, ds_keys ds with
  | [], _ | _, [] => Ok (mkSnap (replicate (length local_table) desc0) [] kSnapshotVersion)
  | _, _ =>
      let ds0 := map (fun r => mkDesc 0 0 kSnapshotVersion (rkey r)) local_table in
      '(ids, ds1) ← count_pass parameter (ds_keys ds) ds0;
      '(ds2, recs) ← fill_pass ids (rows_of ds) (offset_pass 0 ds1)
                       (replicate (length (ds_keys ds)) record0);
      Ok (mkSnap ds2 recs kSnapshotVersion)
  end.

(** ** Looking a key up remotely *)

Record EndRdmaSnapshot : Type := mkEndSnap { info : SnapshotInfo; snap_loaded : bool }.

Inductive RDMALookupStatus : Type := HIT | MISS | UNAVAILABLE.

#[export] Instance RDMALookupStatus_eq_dec : EqDecision RDMALookupStatus.
Proof. solve_decision. Defined.

Section Lookup.
Context {W : Type} `{Transport W}.

Fixpoint scan_records (key : double) (l : list KeyPayloadRecord) : option Z :=
  match l with
  | [] => None
  | r :: l' => if deq (kp_key r) key then Some (kp_payload r) else scan_records key l'
  end.

(** [out] is unchanged unless the result is [HIT]. *)
Definition rdma_snapshot_lookup (edge : W) (snapshot : EndRdmaSnapshot) (key : double)
    (predicted_slot out : Z) : res (RDMALookupStatus * Z * W) :=
  let i := info snapshot in
  if negb (snap_loaded snapshot) || negb (t_supports_remote_read edge)
  then Ok (UNAVAILABLE, out, edge) else
  if negb (magic i =? kSnapshotMagic) || (leaf_count i =? 0) || (predicted_slot <? 0)
  then Ok (UNAVAILABLE, out, edge) else
  let leaf_id := if leaf_count i <=? u32 predicted_slot
                 then u32 (leaf_count i - 1) else u32 predicted_slot in
  '(got, edge) ← t_read_remote edge (u64 (desc_addr i + u64 (leaf_id * 24))) (desc_rkey i) 24;
  match got with
  | None => Ok (UNAVAILABLE, out, edge)
  | Some l =>
      let desc : LeafDescriptor := dec l in
      if negb (d_version desc =? version i) || (d_count desc =? 0)
      then Ok (UNAVAILABLE, out, edge) else
      if record_count i <? u64 (d_offset desc + d_count desc)
      then Ok (UNAVAILABLE, out, edge) else
      let n := Z.to_nat (d_count desc) in
      '(got, edge) ← t_read_remote edge (u64 (record_addr i + u64 (d_offset desc * 16)))
                       (record_rkey i) (n * 16);
      match got with
      | None => Ok (UNAVAILABLE, out, edge)
      | Some l =>
          match scan_records key (dec_list n l) with
          | Some p => Ok (HIT, p, edge)
          | None => Ok (MISS, out, edge)
          end
      end
  end.

End Lookup.

(** ** The counting sort *)

(** The rows of leaf [j], in their order. *)
Fixpoint group {A} (ids : list nat) (rows : list A) (j : nat) : list A :=
  match ids, rows with
  | i :: ids', r :: rows' => if (i =? j)%nat then r :: group ids' rows' j else group ids' rows' j
  | _, _ => []
  end.

Lemma group_app {A} ids1 ids2 (r1 r2 : list A) j :
  length ids1 = length r1 -> group (ids1 ++ ids2) (r1 ++ r2) j = group ids1 r1 j ++ group ids2 r2 j.
Proof.
  revert r1; induction ids1 as [|i ids1 IH]; intros [|r r1] H; cbn in *; [done..|].
  rewrite IH by lia. by destruct (i =? j)%nat.
Qed.

Lemma group_length_count {A} ids (rows : list A) j :
  length ids = length rows -> length (group ids rows j) = count_occ Nat.eq_dec ids j.
Proof.
  revert rows; induction ids as [|i ids IH]; intros [|r rows] H; cbn in *; [done..|].
  destruct (Nat.eqb_spec i j); destruct (Nat.eq_dec i j); try done; cbn; rewrite IH; lia.
Qed.

(** Where leaf [j] starts. *)
Definition base (ids : list nat) (j : nat) : nat :=
  sum_nat (map (count_occ Nat.eq_dec ids) (seq 0 j)).

Lemma base_S ids j : base ids (S j) = (base ids j + count_occ Nat.eq_dec ids j)%nat.
Proof. unfold base. rewrite seq_S, map_app, sum_nat_app. cbn. lia. Qed.

Lemma base_mono ids i j : (i <= j)%nat -> (base ids i <= base ids j)%nat.
Proof. induction 1 as [|j Hj IH]; [done|]. rewrite base_S. lia. Qed.

Lemma base_total ids n : Forall (fun i => (i < n)%nat) ids -> base ids n = length ids.
Proof.
  induction 1 as [|i ids Hi Hids IH].
  { clear. induction n as [|n IH]; [done|]. rewrite base_S, IH. done. }
  cbn [length]. rewrite <- IH. clear IH Hids.
  assert (K : forall m, base (i :: ids) m = (base ids m + if (i <? m)%nat then 1 else 0)%nat).
  { induction m as [|m IH]; [done|]. rewrite !base_S, IH. cbn [count_occ].
    destruct (Nat.eq_dec i m) as [->|Hne].
    - rewrite Nat.ltb_irrefl. destruct (Nat.ltb_spec m (S m)); lia.
    - destruct (Nat.ltb_spec i m), (Nat.ltb_spec i (S m)); lia. }
  rewrite K. destruct (Nat.ltb_spec i n); lia.
Qed.

(** A list cut into consecutive slices is their concatenation. *)
Lemma slices_concat {A} (l : list A) (g : nat -> list A) (b : nat -> nat) n :
  b 0%nat = 0%nat -> (forall j, (j < n)%nat -> b (S j) = (b j + length (g j))%nat) ->
  b n = length l ->
  (forall j i, (j < n)%nat -> (i < length (g j))%nat -> l !! (b j + i)%nat = g j !! i) ->
  l = concat (map g (seq 0 n)).
Proof.
  intros H0 HS Hn Hl.
  assert (Hmono : forall m k, (m <= k)%nat -> (k <= n)%nat -> (b m <= b k)%nat).
  { intros m k Hmk. induction Hmk as [|k Hk IH]; intros Hkn; [done|].
    rewrite HS by lia. specialize (IH ltac:(lia)). lia. }
  assert (K : forall m, (m <= n)%nat -> take (b m) l = concat (map g (seq 0 m))).
  { induction m as [|m IH]; intros Hm; [by rewrite H0|].
    rewrite seq_S, map_app, concat_app, <- IH by lia. cbn. rewrite app_nil_r.
    pose proof (Hmono (S m) n Hm ltac:(lia)) as Hb. rewrite HS in * by lia.
    rewrite <- take_take_drop. f_equal. apply list_eq. intros i.
    destruct (Nat.lt_ge_cases i (length (g m))).
    - rewrite lookup_take_lt, lookup_drop by lia. apply Hl; lia.
    - rewrite lookup_take_ge, lookup_ge_None_2 by lia. done. }
  rewrite <- K by lia. rewrite Hn. symmetry. by apply take_ge.
Qed.

(** The leaf of a row, as both passes and the End compute it. *)
Definition filed (ps : list (list Param)) (n : nat) (k : double) (i : nat) : Prop :=
  exists p, predict_pos ps k = Ok p /\ i = clamp_leaf n p.

Lemma clamp_leaf_lt n p : (0 < n)%nat -> (clamp_leaf n p < n)%nat.
Proof.
  intros Hn. unfold clamp_leaf. destruct (p <? 0).
  - destruct (Nat.leb_spec n 0); lia.
  - destruct (Nat.leb_spec n (Z.to_nat p)); lia.
Qed.

Lemma filed_lt ps n k i : (0 < n)%nat -> filed ps n k i -> (i < n)%nat.
Proof. intros Hn (p & _ & ->). by apply clamp_leaf_lt. Qed.

Lemma count_pass_spec ps keys ds :
  (0 < length ds)%nat -> (forall k, k ∈ keys -> exists p, predict_pos ps k = Ok p) ->
  (forall j d, ds !! j = Some d -> 0 <= d_count d /\ d_count d + Z.of_nat (length keys) < 2 ^ 32) ->
  exists ids ds', count_pass ps keys ds = Ok (ids, ds') /\
    Forall2 (filed ps (length ds)) keys ids /\ length ds' = length ds /\
    forall j d, ds !! j = Some d -> ds' !! j =
      Some (mkDesc (d_offset d) (d_count d + Z.of_nat (count_occ Nat.eq_dec ids j))
                   (d_version d) (d_first_key d)).
Proof.
  revert ds; induction keys as [|k keys IH]; intros ds Hn Hp Hc.
  { exists [], ds. split; [done|]. split; [by constructor|]. split; [done|].
    intros j [o c v f] Hj. rewrite Hj. cbn. by rewrite Z.add_0_r. }
  cbn [count_pass]. destruct (Hp k) as [p Ep]; [apply list_elem_of_here|]. rewrite Ep. mstep.
  pose proof (clamp_leaf_lt (length ds) p Hn) as Hlt.
  destruct (lookup_lt_is_Some_2 _ _ Hlt) as [d Hd]. rewrite Hd. mstep.
  set (leaf := clamp_leaf (length ds) p) in *.
  assert (Hb : d_count (bump d) = d_count d + 1).
  { cbn. apply u32_small. destruct (Hc _ _ Hd). cbn [length] in *. lia. }
  destruct (IH (<[leaf := bump d]> ds)) as (ids & ds' & -> & Hf & Hl & Hds).
  - by rewrite length_insert.
  - intros x Hx. apply Hp. by apply list_elem_of_further.
  - intros j e He. cbn [length] in Hc.
    destruct (decide (leaf = j)) as [<-|Hne].
    + rewrite list_lookup_insert_eq in He by done. injection He as <-.
      rewrite Hb. destruct (Hc _ _ Hd). lia.
    + rewrite list_lookup_insert_ne in He by done. destruct (Hc _ _ He). lia.
  - mstep. exists (leaf :: ids), ds'. rewrite length_insert in Hf, Hl.
    split; [done|]. split; [constructor; [by exists p|done]|]. split; [done|].
    intros j e He. destruct (decide (leaf = j)) as [<-|Hne].
    + rewrite Hd in He. injection He as <-.
      rewrite (Hds leaf (bump d)) by by rewrite list_lookup_insert_eq.
      rewrite Hb. cbn [count_occ bump d_offset d_version d_first_key].
      destruct (Nat.eq_dec leaf leaf); [|done]. do 2 f_equal. lia.
    + rewrite (Hds j e) by by rewrite list_lookup_insert_ne.
      cbn [count_occ]. by destruct (Nat.eq_dec leaf j).
Qed.

Lemma offset_pass_spec ds off j d :
  0 <= off -> Forall (fun d => 0 <= d_count d) ds ->
  off + Z.of_nat (sum_nat (map (fun d => Z.to_nat (d_count d)) ds)) < 2 ^ 64 ->
  ds !! j = Some d ->
  offset_pass off ds !! j =
    Some (mkDesc (off + Z.of_nat (sum_nat (take j (map (fun d => Z.to_nat (d_count d)) ds))))
                 0 (d_version d) (d_first_key d)).
Proof.
  revert off j; induction ds as [|e ds IH]; intros off j Ho Hc Ht Hj; [done|].
  apply Forall_cons in Hc as [He Hc]. cbn [map sum_nat] in Ht.
  destruct j as [|j]; cbn in Hj |- *.
  - injection Hj as <-. do 2 f_equal. lia.
  - rewrite u64_small by lia. rewrite IH; [|lia|done|lia|done]. do 2 f_equal. lia.
Qed.

Lemma offset_pass_length off ds : length (offset_pass off ds) = length ds.
Proof. revert off; induction ds; intros; cbn; by rewrite ?IHds. Qed.

(** What the second pass maintains: [ids] are the leaves of all rows, of which
    [seen] have been filed. *)
Record filling (ids : list nat) (seen : list nat) (rows : list KeyPayloadRecord)
    (ds0 ds : list LeafDescriptor) (recs : list KeyPayloadRecord) : Prop := {
  fl_recs : length recs = length ids;
  fl_descs : length ds = length ds0;
  fl_desc : forall j d0, ds0 !! j = Some d0 ->
    ds !! j = Some (mkDesc (Z.of_nat (base ids j)) (Z.of_nat (count_occ Nat.eq_dec seen j))
                           (d_version d0) (d_first_key d0));
  fl_rows : forall j i, (i < count_occ Nat.eq_dec seen j)%nat ->
    recs !! (base ids j + i)%nat = group seen rows j !! i
}.

Lemma filling_step ids seen rest rows ds0 ds recs leaf row :
  ids = seen ++ leaf :: rest -> length seen = length rows ->
  Z.of_nat (length ids) < 2 ^ 32 -> Forall (fun i => (i < length ds0)%nat) ids ->
  filling ids seen rows ds0 ds recs ->
  exists d recs', ds !! leaf = Some d /\ zstore recs (u64 (d_offset d + d_count d)) row = Ok recs' /\
    filling ids (seen ++ [leaf]) (rows ++ [row]) ds0 (<[leaf := bump d]> ds) recs'.
Proof.
  intros Hids Hlen Hb Hall [Hr Hd Hdesc Hrows].
  assert (Hleaf : (leaf < length ds0)%nat).
  { rewrite Forall_forall in Hall. apply Hall. rewrite Hids. apply elem_of_app. right.
    apply list_elem_of_here. }
  destruct (lookup_lt_is_Some_2 _ _ Hleaf) as [d0 Hd0].
  set (n := count_occ Nat.eq_dec seen leaf).
  assert (Hcount : (n < count_occ Nat.eq_dec ids leaf)%nat).
  { rewrite Hids, count_occ_app. cbn. destruct (Nat.eq_dec leaf leaf); [|done]. fold n. lia. }
  assert (Hpos : (base ids leaf + n < length ids)%nat).
  { rewrite <- (base_total ids (length ds0) Hall).
    pose proof (base_mono ids (S leaf) (length ds0) Hleaf). rewrite base_S in *. lia. }
  rewrite (Hdesc _ _ Hd0). eexists _, _. split; [done|]. cbn [d_offset d_count].
  rewrite u64_small by (fold n; lia). rewrite <- Nat2Z.inj_add. fold n. split.
  { apply zstore_nat. lia. }
  assert (Hc : forall j, count_occ Nat.eq_dec (seen ++ [leaf]) j
            = (count_occ Nat.eq_dec seen j + if decide (leaf = j) then 1 else 0)%nat).
  { intros j. rewrite count_occ_app. cbn.
    by destruct (Nat.eq_dec leaf j), (decide (leaf = j)). }
  constructor.
  - by rewrite length_insert.
  - by rewrite length_insert.
  - intros j e He. rewrite Hc. destruct (decide (leaf = j)) as [<-|Hne].
    + rewrite list_lookup_insert_eq by lia. rewrite Hd0 in He. injection He as <-.
      unfold bump. cbn [d_offset d_count d_version d_first_key]. fold n.
      rewrite u32_small by lia. do 2 f_equal. lia.
    + rewrite list_lookup_insert_ne by done. rewrite (Hdesc _ _ He), Nat.add_0_r. done.
  - intros j i Hi. rewrite Hc in Hi. rewrite group_app by done. cbn [group].
    assert (Hg : length (group seen rows j) = count_occ Nat.eq_dec seen j)
      by by apply group_length_count.
    destruct (decide (leaf = j)) as [<-|Hne].
    + rewrite Nat.eqb_refl. destruct (Nat.eq_dec i n) as [->|Hin].
      * rewrite list_lookup_insert_eq by lia. rewrite lookup_app_r by lia.
        replace (n - length (group seen rows leaf))%nat with 0%nat by (fold n in Hg; lia). done.
      * rewrite list_lookup_insert_ne by lia. rewrite lookup_app_l by (fold n in Hg, Hi; lia).
        apply Hrows. fold n. fold n in Hi. lia.
    + destruct (Nat.eqb_spec leaf j); [done|]. rewrite app_nil_r.
      rewrite list_lookup_insert_ne; [apply Hrows; lia|].
      assert (Hij : (i < count_occ Nat.eq_dec ids j)%nat).
      { rewrite Hids, count_occ_app. lia. }
      destruct (Nat.lt_trichotomy j leaf) as [Hlt|[Heq|Hgt]]; [|done|].
      * pose proof (base_mono ids (S j) leaf Hlt). rewrite base_S in *. lia.
      * pose proof (base_mono ids (S leaf) j Hgt). rewrite base_S in *. lia.
Qed.

Lemma fill_pass_spec rest : forall ids seen rows rrows ds0 ds recs,
  ids = seen ++ rest -> length seen = length rows -> length rest = length rrows ->
  Z.of_nat (length ids) < 2 ^ 32 -> Forall (fun i => (i < length ds0)%nat) ids ->
  filling ids seen rows ds0 ds recs ->
  exists ds' recs', fill_pass rest rrows ds recs = Ok (ds', recs') /\
    filling ids ids (rows ++ rrows) ds0 ds' recs'.
Proof.
  induction rest as [|leaf rest IH]; intros ids seen rows [|row rrows] ds0 ds recs Hids Hl Hr Hb Hall Hf;
    cbn [length] in Hr; try lia.
  { exists ds, recs. rewrite app_nil_r in *. subst. done. }
  destruct (filling_step _ _ _ _ _ _ _ _ row Hids Hl Hb Hall Hf) as (d & recs' & Hd & Hs & Hf').
  cbn [fill_pass]. rewrite Hd. mstep. rewrite Hs. mstep.
  destruct (IH ids (seen ++ [leaf]) (rows ++ [row]) rrows ds0 (<[leaf:=bump d]> ds) recs')
    as (ds' & r' & -> & Hfin).
  - by rewrite <- app_assoc.
  - rewrite !length_app. cbn. lia.
  - lia.
  - done.
  - done.
  - done.
  - exists ds', r'. split; [done|]. by rewrite <- app_assoc in Hfin.
Qed.

(** After the offsets are laid out, nothing is filed yet. *)
Lemma filling_start ps keys ids ds0 ds1 :
  (0 < length ds0)%nat -> Z.of_nat (length keys) < 2 ^ 32 ->
  (forall j d, ds0 !! j = Some d -> d_count d = 0) ->
  Forall2 (filed ps (length ds0)) keys ids -> length ds1 = length ds0 ->
  (forall j d, ds0 !! j = Some d -> ds1 !! j =
      Some (mkDesc (d_offset d) (d_count d + Z.of_nat (count_occ Nat.eq_dec ids j))
                   (d_version d) (d_first_key d))) ->
  Forall (fun i => (i < length ds0)%nat) ids /\
  filling ids [] [] ds0 (offset_pass 0 ds1) (replicate (length keys) record0).
Proof.
  intros Hn Hb H0 Hf Hl1 Hd1. pose proof (Forall2_length _ _ _ Hf) as Hlk.
  assert (Hall : Forall (fun i => (i < length ds0)%nat) ids).
  { apply Forall_forall. intros i Hi. apply list_elem_of_lookup in Hi as [x Hx].
    destruct (Forall2_lookup_r _ _ _ _ _ Hf Hx) as (k & _ & Hk). by eapply filed_lt. }
  assert (Hcounts : map (fun d => Z.to_nat (d_count d)) ds1
                    = map (count_occ Nat.eq_dec ids) (seq 0 (length ds0))).
  { apply list_eq. intros j. rewrite !list_lookup_fmap.
    destruct (Nat.lt_ge_cases j (length ds0)) as [Hj|Hj].
    - rewrite lookup_seq_lt by done. destruct (lookup_lt_is_Some_2 _ _ Hj) as [d Hd].
      rewrite (Hd1 _ _ Hd). cbn. f_equal. rewrite (H0 _ _ Hd). lia.
    - rewrite lookup_seq_ge by done. rewrite lookup_ge_None_2 by lia. done. }
  split; [done|]. constructor.
  - by rewrite length_replicate.
  - by rewrite offset_pass_length.
  - intros j d Hd. pose proof (Hd1 _ _ Hd) as Hd'.
    assert (Hpos : Forall (fun d => 0 <= d_count d) ds1).
    { apply Forall_lookup. intros i e He.
      destruct (ds0 !! i) as [d'|] eqn:Ed.
      * rewrite (Hd1 _ _ Ed) in He. injection He as <-. cbn. rewrite (H0 _ _ Ed). lia.
      * apply lookup_ge_None_1 in Ed. apply lookup_lt_Some in He. lia. }
    assert (Htot : 0 + Z.of_nat (sum_nat (map (fun d => Z.to_nat (d_count d)) ds1)) < 2 ^ 64).
    { rewrite Hcounts. fold (base ids (length ds0)). rewrite base_total by done. lia. }
    rewrite (offset_pass_spec ds1 0 j _ ltac:(lia) Hpos Htot Hd').
    rewrite Hcounts, firstn_map, take_seq.
    replace (j `min` length ds0)%nat with j by (apply lookup_lt_Some in Hd; lia). done.
  - intros j i Hi. cbn in Hi. lia.
Qed.

(** The shape of a built snapshot: the records are the groups of the leaves one
    after the other, and descriptor [j] is the extent of group [j]. *)
Lemma build_spec table ps (ds : Dataset) :
  table <> [] -> ds_keys ds <> [] -> length (ds_payloads ds) = length (ds_keys ds) ->
  Z.of_nat (length (ds_keys ds)) < 2 ^ 32 ->
  (forall k, k ∈ ds_keys ds -> exists p, predict_pos ps k = Ok p) ->
  exists ids snap, build_rdma_snapshot table ps ds = Ok snap /\
    Forall2 (filed ps (length table)) (ds_keys ds) ids /\
    Forall (fun i => (i < length table)%nat) ids /\ length (records snap) = length ids /\
    records snap = concat (map (group ids (rows_of ds)) (seq 0 (length table))) /\
    length (descs snap) = length table /\
    forall j r, table !! j = Some r ->
      descs snap !! j = Some (mkDesc (Z.of_nat (base ids j))
        (Z.of_nat (length (group ids (rows_of ds) j))) kSnapshotVersion (rkey r)) /\
      take (length (group ids (rows_of ds) j)) (drop (base ids j) (records snap))
      = group ids (rows_of ds) j.
Proof.
  intros Ht Hk Hpl Hb Hp. unfold build_rdma_snapshot.
  destruct table as [|r0 table]; [done|]. remember (r0 :: table) as t.
  destruct (ds_keys ds) as [|k0 keys] eqn:Ek; [done|]. rewrite <- Ek in *.
  set (ds0 := map (fun r => mkDesc 0 0 kSnapshotVersion (rkey r)) t).
  assert (Hn : length ds0 = length t) by apply length_map.
  assert (Htl : (0 < length t)%nat) by (subst; cbn; lia).
  assert (Hzero : forall j d, ds0 !! j = Some d -> d_count d = 0).
  { intros j d Hj. unfold ds0 in Hj. rewrite list_lookup_fmap in Hj.
    destruct (t !! j); [|done]. by injection Hj as <-. }
  destruct (count_pass_spec ps (ds_keys ds) ds0) as (ids & ds1 & E1 & Hf & Hl1 & Hd1);
    [lia|done|intros j d Hj; rewrite (Hzero _ _ Hj); lia|].
  rewrite E1. mstep. pose proof (Forall2_length _ _ _ Hf) as Hlk.
  destruct (filling_start ps (ds_keys ds) ids ds0 ds1) as [Hall Hstart]; [lia|done..|].
  assert (Hrows : length (rows_of ds) = length ids).
  { unfold rows_of. rewrite length_zip_with. lia. }
  destruct (fill_pass_spec ids ids [] [] (rows_of ds) ds0 (offset_pass 0 ds1)
    (replicate (length (ds_keys ds)) record0)) as (ds2 & recs & E2 & [Hr Hd Hdesc Hfl]);
    [done|done|by symmetry|lia|done|done|].
  rewrite E2. mstep. rewrite Hn in Hf.
  exists ids, (mkSnap ds2 recs kSnapshotVersion). split; [done|]. split; [done|].
  split; [by rewrite <- Hn|]. split; [done|].
  cbn [records descs app] in *.
  assert (Hgl : forall j, length (group ids (rows_of ds) j) = count_occ Nat.eq_dec ids j)
    by (intros; by apply group_length_count).
  split; [|split; [lia|]].
  - apply (slices_concat _ _ (base ids)).
    + done.
    + intros j _. by rewrite base_S, Hgl.
    + rewrite base_total; [done|]. by rewrite <- Hn.
    + intros j i Hj Hi. rewrite Hgl in Hi. by apply Hfl.
  - intros j r Hj. rewrite Hgl.
    assert (Hd0 : ds0 !! j = Some (mkDesc 0 0 kSnapshotVersion (rkey r))).
    { unfold ds0. by rewrite list_lookup_fmap, Hj. }
    split; [exact (Hdesc _ _ Hd0)|].
    apply list_eq. intros i. destruct (Nat.lt_ge_cases i (count_occ Nat.eq_dec ids j)).
    + rewrite lookup_take_lt, lookup_drop by done. by apply Hfl.
    + rewrite lookup_take_ge, lookup_ge_None_2 by (rewrite ?Hgl; done). done.
Qed.

(** ** Groups as filters *)

Definition leaf_is (ps : list (list Param)) (n j : nat) (row : KeyPayloadRecord) : bool :=
  match predict_pos ps (kp_key row) with
  | Ok p => (clamp_leaf n p =? j)%nat
  | Err _ => false
  end.

Lemma rows_keys ds : length (ds_payloads ds) = length (ds_keys ds) -> map kp_key (rows_of ds) = ds_keys ds.
Proof.
  destruct ds as [ks ps]. unfold rows_of. cbn. revert ps.
  induction ks as [|k ks IH]; intros [|p ps] H; cbn in *; try lia; [done|].
  rewrite IH by lia. done.
Qed.

Lemma group_filter ps n ids rows j :
  Forall2 (filed ps n) (map kp_key rows) ids -> group ids rows j = filter (leaf_is ps n j) rows.
Proof.
  revert ids; induction rows as [|r rows IH]; intros [|i ids] H; try done.
  { by apply Forall2_nil_inv_r in H. }
  cbn [map] in H. apply Forall2_cons in H as [(p & Ep & ->) H]. cbn [group].
  assert (Hb : leaf_is ps n j r = (clamp_leaf n p =? j)%nat) by (unfold leaf_is; by rewrite Ep).
  revert Hb. destruct (clamp_leaf n p =? j)%nat; intros Hb.
  - rewrite filter_cons_True by (rewrite Hb; exact I). by rewrite (IH _ H).
  - rewrite filter_cons_False by (rewrite Hb; intros []). by apply IH.
Qed.

Lemma group_elem {A} ids (rows : list A) j r : r ∈ group ids rows j -> r ∈ rows.
Proof.
  revert rows; induction ids as [|i ids IH]; intros [|x rows]; cbn;
    try (intros H; by apply elem_of_nil in H).
  destruct (i =? j)%nat; rewrite ?elem_of_cons; naive_solver.
Qed.

Lemma concat_groups_perm {A} (ids : list nat) (rows : list A) n :
  length ids = length rows -> Forall (fun i => (i < n)%nat) ids ->
  concat (map (group ids rows) (seq 0 n)) ≡ₚ rows.
Proof.
  intros Hl Hall. revert rows Hl. induction Hall as [|i ids Hi Hall IH]; intros [|r rows] Hl;
    cbn in Hl; try lia.
  { clear. induction n as [|n IH]; [done|]. rewrite seq_S, map_app, concat_app, IH. done. }
  rewrite <- (IH rows) at 2 by lia. clear IH Hall Hl.
  assert (K : forall m, concat (map (group (i :: ids) (r :: rows)) (seq 0 m)) ≡ₚ
    (if (i <? m)%nat then [r] else []) ++ concat (map (group ids rows) (seq 0 m))).
  { induction m as [|m IH]; [by destruct i|].
    rewrite !seq_S, !map_app, !concat_app, IH. cbn [map concat Nat.add group]. rewrite !app_nil_r.
    destruct (Nat.eqb_spec i m) as [->|Hne].
    - rewrite Nat.ltb_irrefl. destruct (Nat.ltb_spec m (S m)); [|lia]. cbn [app].
      by rewrite Permutation_middle.
    - destruct (Nat.ltb_spec i m), (Nat.ltb_spec i (S m)); try lia; done. }
  rewrite K. by destruct (Nat.ltb_spec i n); [|lia].
Qed.

(** C19: the snapshot holds every loaded row exactly once, filed by predicted leaf:
    the run of records that descriptor [j] names is the rows whose predicted leaf
    is [j], in their loading order, and nothing else. *)
Theorem build_rdma_snapshot_groups (table : list t_record) (ps : list (list Param)) (ds : Dataset) :
  table <> [] -> ds_keys ds <> [] -> length (ds_payloads ds) = length (ds_keys ds) ->
  Z.of_nat (length (ds_keys ds)) < 2 ^ 32 ->
  (forall k, k ∈ ds_keys ds -> exists p, predict_pos ps k = Ok p) ->
  exists snap, build_rdma_snapshot table ps ds = Ok snap /\
    records snap ≡ₚ rows_of ds /\ length (descs snap) = length table /\
    forall j r, table !! j = Some r -> exists d, descs snap !! j = Some d /\
      d_first_key d = rkey r /\ d_version d = kSnapshotVersion /\
      take (Z.to_nat (d_count d)) (drop (Z.to_nat (d_offset d)) (records snap))
      = filter (leaf_is ps (length table) j) (rows_of ds).
Proof.
  intros Ht Hk Hpl Hb Hp.
  destruct (build_spec table ps ds Ht Hk Hpl Hb Hp)
    as (ids & snap & E & Hf & Hall & _ & Hr & Hl & Hd).
  exists snap. split; [done|]. split; [|split; [done|]].
  - rewrite Hr. apply concat_groups_perm; [|done].
    rewrite <- (Forall2_length _ _ _ Hf), <- (rows_keys ds Hpl). by rewrite length_map.
  - intros j r Hj. destruct (Hd j r Hj) as [Hdj Hg]. eexists. split; [exact Hdj|].
    split; [done|]. split; [done|]. cbn [d_count d_offset]. rewrite !Nat2Z.id, Hg.
    apply group_filter. by rewrite rows_keys.
Qed.

(** ** The End's side *)

Section Remote.
Context {W : Type} `{RemoteLaws W}.

(** The remote key opens memory that holds these bytes at this address. *)
Definition holds (w : W) (rk a : Z) (bytes : list Z) : Prop :=
  forall i, (i < length bytes)%nat -> t_remote w rk (u64 (a + Z.of_nat i)) = bytes !! i.

Lemma holds_slice w rk a l1 l2 l3 :
  holds w rk a (l1 ++ l2 ++ l3) -> holds w rk (u64 (a + Z.of_nat (length l1))) l2.
Proof.
  intros Hh i Hi. specialize (Hh (length l1 + i)%nat). rewrite !length_app in Hh.
  rewrite lookup_app_r, Nat.add_sub', lookup_app_l in Hh by lia. rewrite <- Hh by lia. f_equal.
  unfold u64. rewrite Zplus_mod_idemp_l. f_equal. lia.
Qed.

Lemma enc_list_app {A} `{Codec A} (l1 l2 : list A) :
  enc_list (l1 ++ l2) = enc_list l1 ++ enc_list l2.
Proof. unfold enc_list. by rewrite map_app, concat_app. Qed.

(** One read of [n] consecutive elements. *)
Lemma read_elements {A} `{Codec A} (w : W) rk a (l : list A) off n :
  holds w rk a (enc_list l) -> (off + n <= length l)%nat -> Forall cwf l ->
  Z.of_nat (off * csize A) < 2 ^ 64 ->
  exists r w', t_read_remote w (u64 (a + u64 (Z.of_nat off * Z.of_nat (csize A)))) rk (n * csize A)
               = Ok (r, w') /\
    match r with Some b => dec_list n b = take n (drop off l) /\ t_remote w' = t_remote w | None => True end.
Proof.
  intros Hh Hn Hwf Ho.
  assert (E : l = take off l ++ take n (drop off l) ++ drop n (drop off l)) by by rewrite !take_drop.
  rewrite E, !enc_list_app in Hh. apply holds_slice in Hh.
  set (sl := take n (drop off l)) in *.
  assert (Hl : length sl = n) by (unfold sl; rewrite length_take, length_drop; lia).
  rewrite enc_list_length, length_take_le in Hh by lia.
  rewrite Nat2Z.inj_mul in Hh. rewrite Nat2Z.inj_mul in Ho.
  rewrite (u64_small (Z.of_nat off * _)) by lia.
  destruct (remote_read w (u64 (a + Z.of_nat off * Z.of_nat (csize A))) rk (enc_list sl))
    as (r & w' & Er & Hb).
  { intros i Hi. by apply Hh. }
  rewrite enc_list_length, Hl in Er. eexists _, _. split; [exact Er|].
  destruct r as [b|]; [|done]. destruct Hb as [-> Hm]. split; [|done]. rewrite <- Hl, <- (app_nil_r (enc_list sl)).
  apply dec_enc_list. unfold sl. by apply Forall_take, Forall_drop.
Qed.

(** What RDMA_SNAPSHOT_INFO tells the End about a snapshot in the Edge's memory. *)
Record published (edge : W) (es : EndRdmaSnapshot) (snap : EdgeRdmaSnapshot) : Prop := {
  pub_loaded : snap_loaded es = true;
  pub_supports : t_supports_remote_read edge = true;
  pub_magic : magic (info es) = kSnapshotMagic;
  pub_version : version (info es) = kSnapshotVersion;
  pub_leaves : leaf_count (info es) = Z.of_nat (length (descs snap));
  pub_records : record_count (info es) = Z.of_nat (length (records snap));
  pub_small : 0 < leaf_count (info es) < 2 ^ 32 /\ record_count (info es) < 2 ^ 32;
  pub_wf : Forall cwf (descs snap) /\ Forall cwf (records snap);
  pub_desc_mem : holds edge (desc_rkey (info es)) (desc_addr (info es)) (enc_list (descs snap));
  pub_record_mem :
    holds edge (record_rkey (info es)) (record_addr (info es)) (enc_list (records snap))
}.

Definition reliable : Prop :=
  forall s a k n r s', t_read_remote s a k n = Ok (r, s') -> is_Some r.

(** A lookup scans the run of its leaf, or gives up because a read failed or the
    run is empty. *)
Lemma lookup_spec edge es snap key slot out d :
  published edge es snap -> 0 <= slot < 2 ^ 31 ->
  descs snap !! clamp_leaf (length (descs snap)) slot = Some d ->
  d_version d = kSnapshotVersion ->
  0 <= d_offset d -> 0 <= d_count d -> d_offset d + d_count d <= Z.of_nat (length (records snap)) ->
  exists st out' edge', rdma_snapshot_lookup edge es key slot out = Ok (st, out', edge') /\
    match scan_records key (take (Z.to_nat (d_count d)) (drop (Z.to_nat (d_offset d)) (records snap))) with
    | Some p => (st = HIT /\ out' = p) \/ (st = UNAVAILABLE /\ out' = out /\ ~ reliable)
    | None => (st = MISS \/ st = UNAVAILABLE) /\ out' = out
    end.
Proof.
  intros [Hld Hsup Hmag Hver Hlc Hrc [Hs1 Hs2] [Hw1 Hw2] Hdm Hrm] Hslot Hd Hdv Ho Hc Hbound.
  unfold rdma_snapshot_lookup. rewrite Hld, Hsup, Hmag, Z.eqb_refl. cbn [negb orb].
  destruct (Z.eqb_spec (leaf_count (info es)) 0); [lia|].
  destruct (Z.ltb_spec slot 0); [lia|]. cbn [orb].
  rewrite !u32_small by lia. set (nl := length (descs snap)) in *.
  set (j := clamp_leaf nl slot) in *.
  assert (Hj : (if leaf_count (info es) <=? slot then leaf_count (info es) - 1 else slot) = Z.of_nat j).
  { unfold j, clamp_leaf. rewrite Hlc. destruct (Z.ltb_spec slot 0); [lia|].
    destruct (Z.leb_spec (Z.of_nat nl) slot), (Nat.leb_spec nl (Z.to_nat slot)); lia. }
  rewrite Hj. pose proof (lookup_lt_Some _ _ _ Hd) as Hjn. fold nl in Hjn.
  destruct (read_elements edge _ _ (descs snap) j 1 Hdm) as (r & e1 & E1 & Hr1);
    [lia|done|change (csize LeafDescriptor) with 24%nat; lia|].
  change (1 * csize LeafDescriptor)%nat with 24%nat in E1.
  change (Z.of_nat (csize LeafDescriptor)) with 24 in E1. rewrite E1. mstep.
  set (sl := take _ _).
  destruct r as [b|].
  2: { exists UNAVAILABLE, out, e1. split; [done|]. destruct (scan_records key sl); [right|by auto].
       split; [done|]. split; [done|]. intros Hrel. destruct (Hrel _ _ _ _ _ _ E1). done. }
  destruct Hr1 as [Hr1 Hm1]. rewrite (drop_S _ _ _ Hd) in Hr1. cbn in Hr1. injection Hr1 as Hr1.
  change (mkDesc _ _ _ _) with (dec (A := LeafDescriptor) b) in Hr1. rewrite Hr1.
  rewrite Hdv, Hver, Z.eqb_refl. cbn [negb orb].
  destruct (Z.eqb_spec (d_count d) 0) as [Hz|Hz].
  { exists UNAVAILABLE, out, e1. split; [done|].
    assert (Hsl : sl = []) by (unfold sl; by rewrite Hz). rewrite Hsl. cbn. auto. }
  rewrite u64_small by lia. destruct (Z.ltb_spec (record_count (info es)) (d_offset d + d_count d)); [lia|].
  destruct (read_elements e1 (record_rkey (info es)) (record_addr (info es)) (records snap)
              (Z.to_nat (d_offset d)) (Z.to_nat (d_count d))) as (r & e2 & E2 & Hr2).
  { intros i Hi. rewrite Hm1. by apply Hrm. }
  { lia. } { done. } { change (csize KeyPayloadRecord) with 16%nat; lia. }
  change (csize KeyPayloadRecord) with 16%nat in E2. rewrite Z2Nat.id in E2 by lia.
  change (Z.of_nat 16) with 16 in E2. rewrite E2. mstep. fold sl in Hr2.
  destruct r as [b2|].
  2: { exists UNAVAILABLE, out, e2. split; [done|]. destruct (scan_records key sl); [right|by auto].
       split; [done|]. split; [done|]. intros Hrel. destruct (Hrel _ _ _ _ _ _ E2). done. }
  rewrite (proj1 Hr2). destruct (scan_records key sl) as [p|].
  - exists HIT, p, e2. auto.
  - exists MISS, out, e2. auto.
Qed.

End Remote.

Lemma scan_records_some k l p :
  scan_records k l = Some p -> exists r, r ∈ l /\ deq (kp_key r) k = true /\ kp_payload r = p.
Proof.
  induction l as [|r l IH]; cbn; [done|]. destruct (deq (kp_key r) k) eqn:E; intros Hp.
  - injection Hp as <-. exists r. split; [apply list_elem_of_here|done].
  - destruct (IH Hp) as (x & Hx & ?). exists x. split; [by apply list_elem_of_further|done].
Qed.

Lemma scan_records_found k l r :
  r ∈ l -> deq (kp_key r) k = true -> is_Some (scan_records k l).
Proof.
  intros Hr Hd. induction l as [|x l IH]; cbn; [by apply elem_of_nil in Hr|].
  destruct (deq (kp_key x) k) eqn:E; [by eexists|].
  apply elem_of_cons in Hr as [->|Hr]; [congruence|by apply IH].
Qed.

Lemma deq_refl k : is_key k = true -> deq k k = true.
Proof. intros H. rewrite deq_rank by done. apply Z.eqb_refl. Qed.

(** C18: an End that predicts with the Edge's model finds in the snapshot exactly what
    the Edge loaded: a hit is the payload of a loaded row with that key, [out] is
    untouched otherwise, and a loaded key is hit with its payload, unless a remote
    read fails, which is reported as unavailable and never as a miss. *)
Theorem snapshot_lookup_correct {W} `{RemoteLaws W} (table : list t_record)
    (ps : list (list Param)) (ds : Dataset) (snap : EdgeRdmaSnapshot)
    (edge : W) (es : EndRdmaSnapshot) (key : double) (slot out : Z) :
  table <> [] -> ds_keys ds <> [] -> length (ds_payloads ds) = length (ds_keys ds) ->
  Z.of_nat (length (ds_keys ds)) < 2 ^ 32 ->
  (forall k, k ∈ ds_keys ds -> exists p, predict_pos ps k = Ok p) ->
  (forall r r', r ∈ rows_of ds -> r' ∈ rows_of ds -> deq (kp_key r) (kp_key r') = true -> r = r') ->
  build_rdma_snapshot table ps ds = Ok snap ->
  published edge es snap ->
  predict_pos ps key = Ok slot -> 0 <= slot < 2 ^ 31 -> is_key key = true ->
  exists st out' edge', rdma_snapshot_lookup edge es key slot out = Ok (st, out', edge') /\
    (st = HIT -> exists r, r ∈ rows_of ds /\ deq (kp_key r) key = true /\ kp_payload r = out') /\
    (st <> HIT -> out' = out) /\
    (forall p, mkKp key p ∈ rows_of ds ->
       (st = HIT /\ out' = p) \/ (st = UNAVAILABLE /\ ~ reliable)).
Proof.
  intros Ht Hk Hpl Hb Hp Huniq Hbuild Hpub Hslot Hrange Hkey.
  destruct (build_spec table ps ds Ht Hk Hpl Hb Hp)
    as (ids & snap' & E & Hf & Hall & Hlen & Hr & Hl & Hd).
  rewrite Hbuild in E. injection E as <-.
  set (j := clamp_leaf (length table) slot).
  assert (Hjt : (j < length table)%nat) by (apply clamp_leaf_lt; destruct table; [done|cbn; lia]).
  destruct (lookup_lt_is_Some_2 _ _ Hjt) as [r0 Hr0].
  destruct (Hd _ _ Hr0) as [Hdj Hg].
  assert (Hgf : group ids (rows_of ds) j = filter (leaf_is ps (length table) j) (rows_of ds)).
  { apply group_filter. by rewrite rows_keys. }
  assert (Hext : (base ids j + length (group ids (rows_of ds) j) <= length (records snap))%nat).
  { rewrite group_length_count, <- base_S, Hlen, <- (base_total ids _ Hall); [by apply base_mono|].
    rewrite <- (Forall2_length _ _ _ Hf), <- (rows_keys ds Hpl). by rewrite length_map. }
  remember (group ids (rows_of ds) j) as g.
  assert (Hdj' : descs snap !! clamp_leaf (length (descs snap)) slot
    = Some (mkDesc (Z.of_nat (base ids j)) (Z.of_nat (length g)) kSnapshotVersion (rkey r0)))
    by (rewrite Hl; exact Hdj).
  destruct (lookup_spec edge es snap key slot out _ Hpub Hrange Hdj')
    as (st & out' & edge' & Elook & Hres); [done|cbn; lia..|].
  cbn [d_count d_offset] in Hres. rewrite !Nat2Z.id, Hg in Hres.
  exists st, out', edge'. split; [done|].
  destruct (scan_records key g) as [p|] eqn:Es.
  - apply scan_records_some in Es as (r & Hin & Hdq & <-).
    rewrite Hgf in Hin. apply list_elem_of_filter in Hin as [_ Hin].
    split; [destruct Hres as [[-> ->]|(-> & _)]; [by exists r|done]|].
    split; [naive_solver|]. intros p Hp'.
    assert (r = mkKp key p) as ->; [|naive_solver].
    apply Huniq; [done|done|]. cbn. done.
  - destruct Hres as [Hst ->]. split; [naive_solver|]. split; [done|]. intros p Hin. exfalso.
    destruct (scan_records_found key g (mkKp key p)) as [x Hx]; [|by apply deq_refl|congruence].
    rewrite Hgf. apply list_elem_of_filter. split; [|done].
    unfold leaf_is. cbn [kp_key]. rewrite Hslot, Nat.eqb_refl. exact I.
Qed.

(** ** An example *)

Definition demo_table : list t_record :=
  map (fun i => mkRecord (double_of_Z (Z.of_nat i)) (Z.of_nat i) true) (seq 0 25).
Definition demo_data : Dataset := mkDataset (map double_of_Z [1; 9; 20; 33; 60; 61]) [11; 19; 30; 43; 70; 71].
Definition demo_snap : EdgeRdmaSnapshot :=
  match build_rdma_snapshot demo_table demo_params demo_data with
  | Ok s => s
  | Err _ => mkSnap [] [] 0
  end.
Definition demo_edge : Pipe.pipe :=
  Pipe.mkPipe [] [] (enc_list (descs demo_snap) ++ enc_list (records demo_snap)) true.
Definition demo_end : EndRdmaSnapshot :=
  mkEndSnap (mkInfo kSnapshotMagic kSnapshotVersion 4096 1 25 (4096 + 25 * 24) 1 6) true.

Definition predicts_all (ps : list (list Param)) (ks : list double) : bool :=
  forallb (fun k => match predict_pos ps k with Ok _ => true | Err _ => false end) ks.

Lemma predicts_all_spec ps ks :
  predicts_all ps ks = true -> forall k, k ∈ ks -> exists p, predict_pos ps k = Ok p.
Proof.
  unfold predicts_all. rewrite forallb_forall. intros H k Hk.
  specialize (H k (proj1 (list_elem_of_In _ _) Hk)). destruct (predict_pos ps k); [by eexists|done].
Qed.

Definition distinct_keys (l : list KeyPayloadRecord) : bool :=
  forallb (fun r => forallb (fun r' =>
    negb (deq (kp_key r) (kp_key r')) || bool_decide (r = r')) l) l.

Lemma distinct_keys_spec l : distinct_keys l = true ->
  forall r r', r ∈ l -> r' ∈ l -> deq (kp_key r) (kp_key r') = true -> r = r'.
Proof.
  unfold distinct_keys. rewrite forallb_forall. intros H r r' Hr Hr' Hd.
  specialize (H r (proj1 (list_elem_of_In _ _) Hr)). rewrite forallb_forall in H.
  specialize (H r' (proj1 (list_elem_of_In _ _) Hr')). rewrite Hd in H. cbn in H.
  by apply bool_decide_eq_true in H.
Qed.

Lemma demo_descs_size : length (enc_list (descs demo_snap)) = 600%nat.
Proof. vm_compute. reflexivity. Qed.
Lemma demo_records_size : length (enc_list (records demo_snap)) = 96%nat.
Proof. vm_compute. reflexivity. Qed.

Lemma demo_published : published demo_edge demo_end demo_snap.
Proof.
  constructor.
  1-6: vm_compute; reflexivity.
  - vm_compute. repeat split; discriminate || reflexivity.
  - split; apply Forall_forall; intros x Hx; apply list_elem_of_In in Hx; vm_compute in Hx;
      repeat (destruct Hx as [<-|Hx]; [vm_compute; repeat split; discriminate || reflexivity|]);
      destruct Hx.
  - intros i Hi. rewrite demo_descs_size in Hi. unfold demo_edge, demo_end.
    cbn [t_remote Pipe.remote_laws Pipe.memory info desc_addr].
    rewrite u64_small by lia. replace (4096 + Z.of_nat i - 4096) with (Z.of_nat i) by lia.
    rewrite zlookup_nat, lookup_app_l; [done|]. rewrite demo_descs_size. lia.
  - intros i Hi. rewrite demo_records_size in Hi. unfold demo_edge, demo_end.
    cbn [t_remote Pipe.remote_laws Pipe.memory info record_addr].
    rewrite u64_small by lia.
    replace (4096 + 25 * 24 + Z.of_nat i - 4096) with (Z.of_nat (600 + i)) by lia.
    rewrite zlookup_nat, lookup_app_r; rewrite demo_descs_size; [|lia].
    f_equal. lia.
Qed.

Lemma build_rdma_snapshot_groups_witness :
  exists snap, build_rdma_snapshot demo_table demo_params demo_data = Ok snap /\
    records snap ≡ₚ rows_of demo_data.
Proof.
  destruct (build_rdma_snapshot_groups demo_table demo_params demo_data) as (s & E & P & _).
  - discriminate.
  - discriminate.
  - reflexivity.
  - reflexivity.
  - apply predicts_all_spec. vm_compute. reflexivity.
  - exists s. by split.
Defined.

Lemma snapshot_lookup_correct_witness :
  exists st out' edge',
    rdma_snapshot_lookup demo_edge demo_end (double_of_Z 60) 24 0 = Ok (st, out', edge') /\
    ((st = HIT /\ out' = 70) \/ (st = UNAVAILABLE /\ ~ reliable (W := Pipe.pipe))).
Proof.
  destruct (snapshot_lookup_correct demo_table demo_params demo_data demo_snap demo_edge demo_end
    (double_of_Z 60) 24 0) as (st & out' & e' & E & _ & _ & Hit).
  - discriminate.
  - discriminate.
  - reflexivity.
  - reflexivity.
  - apply predicts_all_spec. vm_compute. reflexivity.
  - apply distinct_keys_spec. vm_compute. reflexivity.
  - vm_compute. reflexivity.
  - apply demo_published.
  - vm_compute. reflexivity.
  - lia.
  - reflexivity.
  - exists st, out', e'. split; [exact E|]. apply Hit.
    apply list_elem_of_In. vm_compute. tauto.
Defined.
