(* ===== verification/EndNode.v ===== *)
(** * The End (end/end_node.cpp, end/hot_cache.h)

    The four-stage lookup: own B+ tree, hot cache, same-edge sibling (one-sided
    read, then a fetch request), cross-edge fetch; the control frames that update
    the replica of the model, the hot cache and the snapshot descriptor; and the
    workload replay.  The third-party containers are interfaces: [CuckooMap] is
    libcuckoo's hash map, [BtreeMap] is tlx's.  [edge_mu] is held for the whole of
    each exchange, so an exchange is one step here.  The main function is in EndMain.v. *)

From S2P Require Import Prelude Doubles Bytes Rpc RangeMap Topology Transport CacheModel Snapshot.
From stdpp Require Import sorting.
From Stdlib Require Import SpecFloat.

Open Scope Z_scope.

(** ** Containers *)

(** libcuckoo's [cuckoohash_map<double, uint64_t>]: [insert_or_assign], [find]. *)
Class CuckooMap (M : Type) := {
  cm_empty : M;
  cm_find : M -> double -> option Z;
  cm_assign : M -> double -> Z -> M;
  cm_size : M -> Z
}.

Class CuckooMapLaws (M : Type) `{CuckooMap M} := {
  cm_find_empty : forall k, cm_find cm_empty k = None;
  cm_find_assign : forall m k v k', is_key k = true -> is_key k' = true ->
    cm_find (cm_assign m k v) k' = if deq k k' then Some v else cm_find m k'
}.

(** tlx's [btree_map<double, uint64_t>]: [insert] keeps an existing entry. *)
Class BtreeMap (B : Type) := {
  bt_empty : B;
  bt_find : B -> double -> option Z;
  bt_insert : B -> double -> Z -> B
}.

Class BtreeMapLaws (B : Type) `{BtreeMap B} := {
  bt_find_empty : forall k, bt_find bt_empty k = None;
  bt_find_insert : forall m k v k', is_key k = true -> is_key k' = true ->
    bt_find (bt_insert m k v) k' =
      match bt_find m k' with
      | Some x => Some x
      | None => if deq k k' then Some v else None
      end
}.

(** ** Frames of a connection, in order *)

(** [arrives w fs]: the next frames that reads of [w] return are [fs]. *)
Class Arrivals (W : Type) `{Transport W} := {
  arrives : W -> list Frame -> Prop;
  write_arrives : forall w f b w' fs,
    t_write_frame w f = Ok (b, w') -> arrives w fs -> arrives w' fs;
  remote_arrives : forall w a k n r w' fs,
    t_read_remote w a k n = Ok (r, w') -> arrives w fs -> arrives w' fs
}.

(** The connection is up: frames that arrive are read. *)
Definition delivers {W} `{Arrivals W} : Prop :=
  forall w f fs out t, arrives w (f :: fs) ->
    exists w', t_read_frame w out t = Ok (true, f, w') /\ arrives w' fs.
Definition accepts {W} `{Transport W} : Prop :=
  forall w f, exists w', t_write_frame w f = Ok (true, w').

(** ** HotCache *)

Section HotCache.
Context {M : Type} `{CuckooMap M}.

Definition hot_find (m : M) (k : double) : option Z := cm_find m k.
Definition hot_upsert (m : M) (k : double) (v : Z) : M := cm_assign m k v.
Definition batch_upsert (m : M) (kv : list (double * Z)) : M :=
  foldl (fun m p => cm_assign m p.1 p.2) m kv.
Definition hot_size (m : M) : Z := cm_size m.
Definition hot_clear (m : M) : M := cm_empty.

End HotCache.

(** ** Data files: the rows that [in >> k >> p] extracts *)

Definition Rows : Type := option (list (double * Z)).

Record LocalStore (B : Type) : Type := mkStore { btree : B; store_loaded : Z }.
Arguments mkStore {B} _ _.
Arguments btree {B} _.
Arguments store_loaded {B} _.

Definition within (lo hi k : double) : bool := dle lo k && dle k hi.

Definition load_range {B} `{BtreeMap B} (file : Rows) (lo hi : double) : LocalStore B :=
  match file with
  | None => mkStore bt_empty 0
  | Some rows =>
      foldl (fun s r =>
        if within lo hi r.1
        then mkStore (bt_insert (btree s) r.1 r.2) (store_loaded s + 1) else s)
        (mkStore bt_empty 0) rows
  end.

Fixpoint first_in_range (rows : list (double * Z)) (lo hi : double) : option double :=
  match rows with
  | [] => None
  | r :: rows' =>
      if within lo hi r.1 then Some r.1
      else if dlt hi r.1 then None
      else first_in_range rows' lo hi
  end.
Definition find_first_key_in_range (file : Rows) (lo hi : double) : option double :=
  match file with None => None | Some rows => first_in_range rows lo hi end.

(** ** Control frames *)

(** What the frames of the Edge update. *)
Record Control (M : Type) : Type := mkControl {
  plin_cache : ParentPlinCache;
  hot_cache : M;
  rdma_snapshot : EndRdmaSnapshot
}.
Arguments mkControl {M} _ _ _.
Arguments plin_cache {M} _.
Arguments hot_cache {M} _.
Arguments rdma_snapshot {M} _.

(** The pairs of a HOT_UPDATE body; a trailing partial pair is ignored. *)
Definition hot_pairs (b : list Z) : list (double * Z) :=
  map (fun i => (get_double b (i * 16), get_u64 b (i * 16 + 8))) (seq 0 (length b / 16)).

Section Control.
Context {M : Type} `{CuckooMap M}.

Definition set_hot (c : Control M) (m : M) : Control M := mkControl (plin_cache c) m (rdma_snapshot c).

Definition apply_edge_control_frame (f : Frame) (c : Control M) : res (Control M) :=
  if bool_decide (ftype f = PLIN_PARAM_PUSH) then
    ppc ← load_from_push (body f) (plin_cache c);
    Ok (mkControl ppc (hot_cache c) (rdma_snapshot c))
  else if bool_decide (ftype f = HOT_UPDATE) then
    Ok (set_hot c (batch_upsert (hot_cache c) (hot_pairs (body f))))
  else if bool_decide (ftype f = RDMA_SNAPSHOT_INFO) then
    if negb (length (body f) =? info_size)%nat then Ok c else
    let i := info_of_bytes (body f) in
    Ok (mkControl (plin_cache c) (hot_cache c)
          (mkEndSnap i ((magic i =? kSnapshotMagic) && (0 <? leaf_count i) && (0 <? record_count i))))
  else Ok c.

Definition is_control (t : MsgType) : bool :=
  bool_decide (t = PLIN_PARAM_PUSH) || bool_decide (t = HOT_UPDATE) ||
  bool_decide (t = RDMA_SNAPSHOT_INFO).

(** ** Exchanges with the Edge *)

Context {W : Type} `{Transport W}.

(** A default-constructed [Frame]. *)
Definition frame0 : Frame := mkFrame (UNNAMED 0) [].

(** The answer: found, the payload variable, the stale flag. *)
Fixpoint read_fetch_loop (fuel : nat) (e : W) (c : Control M) (resp : Frame) (out : Z) (stale : bool)
  : res (bool * Z * bool * W * Control M) :=
  match fuel with
  | O => Err OutOfFuel
  | S fuel' =>
      '(ok, resp, e) ← t_read_frame e resp (-1);
      if negb ok then Ok (false, out, stale, e, c) else
      if bool_decide (ftype resp = EDGE_FETCH_RESP) then
        let b := body resp in
        if (length b <? 9)%nat then Ok (false, out, stale, e, c) else
        let status := status_of_byte (default 0 (b !! 0%nat)) in
        let stale := (9 <? length b)%nat && negb (default 0 (b !! 9%nat) =? 0) in
        Ok (bool_decide (status = OK), get_u64 b 1, stale, e, c)
      else if is_control (ftype resp) then
        c ← apply_edge_control_frame resp c;
        read_fetch_loop fuel' e c resp out stale
      else Ok (false, out, stale, e, c)
  end.

Context (fuel : nat).

Definition read_fetch_response (e : W) (c : Control M) (out : Z) (stale : bool) :=
  read_fetch_loop fuel e c frame0 out stale.

Definition fetch_request (key : double) (predicted_slot : Z) : Frame :=
  mkFrame EDGE_FETCH_REQ (le_bytes 8 (bits_of_double key) ++ le_bytes 4 (u32 predicted_slot)).

Definition edge_fetch (e : W) (c : Control M) (key : double) (predicted_slot out : Z) (stale : bool)
  : res (bool * Z * bool * W * Control M) :=
  '(ok, e) ← t_write_frame e (fetch_request key predicted_slot);
  if negb ok then Ok (false, out, stale, e, c) else read_fetch_response e c out stale.

Definition cross_request (request_id : Z) (key : double) : Frame :=
  mkFrame CROSS_EDGE_REQ (append_u64 [] request_id ++ le_bytes 8 (bits_of_double key)).

(** [next_request_id] is the process's counter. *)
Definition cross_edge_fetch (e : W) (c : Control M) (next_request_id : Z) (key : double) (out : Z)
  : res (bool * Z * W * Control M * Z) :=
  let req := cross_request next_request_id key in
  let next := u64 (next_request_id + 1) in
  '(ok, e) ← t_write_frame e req;
  if negb ok then Ok (false, out, e, c, next) else
  '(ok, out, _, e, c) ← read_fetch_response e c out false;
  Ok (ok, out, e, c, next).

Definition send_end_heartbeat (e : W) (end_id : Z) : res (bool * W) :=
  t_write_frame e (mkFrame HEARTBEAT (append_u32 [] (u32 end_id))).

Definition request_param_push (e : W) (c : Control M) : res (bool * W * Control M) :=
  '(ok, e) ← t_write_frame e (mkFrame PLIN_PARAM_PUSH []);
  if negb ok then Ok (false, e, c) else
  '(ok, resp, e) ← t_read_frame e frame0 (-1);
  if negb ok then Ok (false, e, c) else
  if negb (bool_decide (ftype resp = PLIN_PARAM_PUSH)) then Ok (false, e, c) else
  c ← apply_edge_control_frame resp c;
  '(ok, resp, e) ← t_read_frame e resp 50;
  if negb ok then Ok (true, e, c) else
  c ← apply_edge_control_frame resp c;
  Ok (true, e, c).

(** ** Receivers *)

(** [edge_receiver]: apply every frame until a read fails. *)
Fixpoint edge_receiver (n : nat) (e : W) (c : Control M) (f : Frame) : res (W * Control M) :=
  match n with
  | O => Err OutOfFuel
  | S n' =>
      '(ok, f, e) ← t_read_frame e f (-1);
      if negb ok then Ok (e, c) else
      c ← apply_edge_control_frame f c;
      edge_receiver n' e c f
  end.

(** [before i] is the outcome of the [i]-th comparison of the clock with the
    deadline. *)
Context (before : nat -> bool).

Fixpoint initial_loop (n i : nat) (e : W) (c : Control M) : res (W * Control M) :=
  match n with
  | O => Err OutOfFuel
  | S n' =>
      if negb (loaded (plin_cache c)) && before i then
        '(ok, f, e) ← t_read_frame e frame0 100;
        if negb ok then initial_loop n' (S i) e c else
        c ← apply_edge_control_frame f c;
        initial_loop n' (S i) e c
      else Ok (e, c)
  end.

(** After the wait: frames that are already there, up to the first that is not a
    snapshot descriptor. *)
Fixpoint trailing_loop (n : nat) (e : W) (c : Control M) (f : Frame) : res (W * Control M) :=
  match n with
  | O => Err OutOfFuel
  | S n' =>
      '(ok, f, e) ← t_read_frame e f 25;
      if negb ok then Ok (e, c) else
      c ← apply_edge_control_frame f c;
      if negb (bool_decide (ftype f = RDMA_SNAPSHOT_INFO)) then Ok (e, c)
      else trailing_loop n' e c f
  end.

Definition wait_initial_plin_push (e : W) (c : Control M) : res (bool * W * Control M) :=
  '(e, c) ← initial_loop fuel 0 e c;
  '(e, c) ← trailing_loop fuel e c frame0;
  Ok (loaded (plin_cache c), e, c).

Fixpoint drain_loop (n i : nat) (e : W) (c : Control M) : res (W * Control M) :=
  match n with
  | O => Err OutOfFuel
  | S n' =>
      if before i then
        '(ok, f, e) ← t_read_frame e frame0 100;
        if negb ok then drain_loop n' (S i) e c else
        if is_control (ftype f) then
          c ← apply_edge_control_frame f c;
          drain_loop n' (S i) e c
        else drain_loop n' (S i) e c
      else Ok (e, c)
  end.
Definition drain_edge_control_frames (e : W) (c : Control M) : res (W * Control M) :=
  drain_loop fuel 0 e c.

End Control.

(** ** The node *)

Inductive LookupStage : Type := LOCAL | HOT_CACHE | EDGE_PLIN | CROSS_EDGE.

#[export] Instance LookupStage_eq_dec : EqDecision LookupStage.
Proof. solve_decision. Defined.

Record LookupResult : Type := mkResult { found : bool; payload : Z; stage : LookupStage }.

Record Stats : Type := mkStats { hit_local : Z; hit_hot : Z; hit_edge : Z; miss_cross : Z }.

Definition bump_stats (s : LookupStage) (st : Stats) : Stats :=
  match s with
  | LOCAL => mkStats (hit_local st + 1) (hit_hot st) (hit_edge st) (miss_cross st)
  | HOT_CACHE => mkStats (hit_local st) (hit_hot st + 1) (hit_edge st) (miss_cross st)
  | EDGE_PLIN => mkStats (hit_local st) (hit_hot st) (hit_edge st + 1) (miss_cross st)
  | CROSS_EDGE => mkStats (hit_local st) (hit_hot st) (hit_edge st) (miss_cross st + 1)
  end.

(** [edge_] is null when the End runs without its Edge. *)
Record EndNode (B M W : Type) : Type := mkNode {
  id_ : Z;
  rm_ : RangeMap;
  store_ : LocalStore B;
  edge_ : option W;
  control : Control M;
  stats_ : Stats;
  next_id : Z
}.
Arguments mkNode {B M W} _ _ _ _ _ _ _.
Arguments id_ {B M W} _.
Arguments rm_ {B M W} _.
Arguments store_ {B M W} _.
Arguments edge_ {B M W} _.
Arguments control {B M W} _.
Arguments stats_ {B M W} _.
Arguments next_id {B M W} _.

Section Node.
Context {B M W : Type} `{BtreeMap B} `{CuckooMap M} `{Transport W}.
Context (fuel : nat).

Definition node := EndNode B M W.

Definition count_stage (s : LookupStage) (n : node) : node :=
  mkNode (id_ n) (rm_ n) (store_ n) (edge_ n) (control n) (bump_stats s (stats_ n)) (next_id n).
Definition with_edge_state (n : node) (e : W) (c : Control M) (next : Z) : node :=
  mkNode (id_ n) (rm_ n) (store_ n) (Some e) c (stats_ n) next.

(** Remember a fetched payload. *)
Definition warm (ok : bool) (k : double) (v : Z) (c : Control M) : Control M :=
  if ok then set_hot c (hot_upsert (hot_cache c) k v) else c.

(** Stage 3 over a connected Edge. *)
Definition sibling_fetch (n : node) (e : W) (k : double) : res (LookupResult * node) :=
  let c := control n in
  slot ← cache_predict_pos (plin_cache c) k;
  '(st, v, e) ← rdma_snapshot_lookup e (rdma_snapshot c) k slot 0;
  '(ok, v, stale, e, c) ←
    (if bool_decide (st = HIT) then Ok (true, v, false, e, c)
     else edge_fetch fuel e c k slot v false);
  let c := warm ok k v c in
  '(e, c) ← (if (stale : bool) then '(_, e, c) ← request_param_push e c; Ok (e, c) else Ok (e, c));
  Ok (mkResult ok v EDGE_PLIN, with_edge_state n e c (next_id n)).

(** Stage 4 over a connected Edge. *)
Definition remote_fetch (n : node) (e : W) (k : double) : res (LookupResult * node) :=
  '(ok, v, e, c, next) ← cross_edge_fetch fuel e (control n) (next_id n) k 0;
  Ok (mkResult ok v CROSS_EDGE, with_edge_state n e (warm ok k v c) next).

Definition lookup (n : node) (k : double) : res (LookupResult * node) :=
  own ← locate_end (rm_ n) k;
  if own =? id_ n then
    Ok (match bt_find (btree (store_ n)) k with
        | Some p => mkResult true p LOCAL
        | None => mkResult false 0 LOCAL
        end, count_stage LOCAL n)
  else
  match hot_find (hot_cache (control n)) k with
  | Some v => Ok (mkResult true v HOT_CACHE, count_stage HOT_CACHE n)
  | None =>
      tgt_end ← locate_end (rm_ n) k;
      if (0 <=? tgt_end) && same_edge (rm_ n) tgt_end (id_ n) then
        match edge_ n with
        | Some e => '(r, n) ← sibling_fetch n e k; Ok (r, count_stage EDGE_PLIN n)
        | None => Ok (mkResult false 0 LOCAL, count_stage EDGE_PLIN n)
        end
      else
        match edge_ n with
        | Some e =>
            if 0 <=? tgt_end then
              '(r, n) ← remote_fetch n e k; Ok (r, count_stage CROSS_EDGE n)
            else Ok (mkResult false 0 CROSS_EDGE, count_stage CROSS_EDGE n)
        | None => Ok (mkResult false 0 CROSS_EDGE, count_stage CROSS_EDGE n)
        end
  end.

Definition register_with_edge (n : node) : res (bool * node) :=
  match edge_ n with
  | None => Ok (false, n)
  | Some e =>
      '(ok, e) ← send_end_heartbeat e (id_ n);
      Ok (ok, with_edge_state n e (control n) (next_id n))
  end.

(** ** Replay *)

Record Tally : Type := mkTally { t_found : nat; t_stage : LookupStage -> nat }.
Definition tally0 : Tally := mkTally 0 (fun _ => 0%nat).
Definition tally (r : LookupResult) (t : Tally) : Tally :=
  mkTally (if found r then S (t_found t) else t_found t)
          (fun s => if bool_decide (s = stage r) then S (t_stage t s) else t_stage t s).

Fixpoint run_benchmark (n : node) (keys : list double) (t : Tally) : res (Tally * node) :=
  match keys with
  | [] => Ok (t, n)
  | k :: keys' => '(r, n) ← lookup n k; run_benchmark n keys' (tally r t)
  end.

(** [self_test]: the number of sample keys found locally, and the results of the
    sibling key (looked up twice) and of the remote key. *)
Fixpoint local_hits (n : node) (keys : list double) (hits : nat) : res (nat * node) :=
  match keys with
  | [] => Ok (hits, n)
  | k :: keys' =>
      '(r, n) ← lookup n k;
      local_hits n keys' (if found r && bool_decide (stage r = LOCAL) then S hits else hits)
  end.

Definition sibling_key (rm : RangeMap) (my_id : Z) (data : Rows) : option double :=
  head (omap (fun sid =>
    head (omap (fun e => if end_id e =? sid
                         then find_first_key_in_range data (key_lo e) (key_hi e) else None)
               (rm_ends rm)))
    (siblings_of rm my_id)).
Definition remote_key (rm : RangeMap) (my_id : Z) (data : Rows) : option double :=
  head (omap (fun e => if negb (same_edge rm (end_id e) my_id)
                       then find_first_key_in_range data (key_lo e) (key_hi e) else None)
             (rm_ends rm)).

Definition self_test (n : node) (sample_keys : list double) (rm : RangeMap) (my_id : Z)
    (data : Rows)
  : res (nat * option (LookupResult * LookupResult) * option LookupResult * node) :=
  '(hits, n) ← local_hits n sample_keys 0;
  '(sib, n) ← match sibling_key rm my_id data with
              | Some k => '(r, n) ← lookup n k; '(hot, n) ← lookup n k; Ok (Some (r, hot), n)
              | None => Ok (None, n)
              end;
  '(rem, n) ← match remote_key rm my_id data with
              | Some k => '(r, n) ← lookup n k; Ok (Some r, n)
              | None => Ok (None, n)
              end;
  Ok (hits, sib, rem, n).

End Node.

(** ** Workload positions *)

Definition parse_workload_position (line : str) : option Z :=
  if bool_decide (line = []) || prefixb (s_ "timestamp") line then None else
  match getlines (Ascii.ascii_of_nat 44) line with
  | _ :: _ :: tok :: _ =>
      match stoi tok with
      | Ok p => if 0 <? p then Some p else None
      | Err _ => None
      end
  | _ => None
  end.

Fixpoint positions_loop (lines : list str) (limit : nat) : list Z :=
  match lines, limit with
  | line :: lines', S limit' =>
      match parse_workload_position line with
      | Some p => p :: positions_loop lines' limit'
      | None => positions_loop lines' limit
      end
  | _, _ => []
  end.
Definition load_workload_positions (file : option str) (limit : nat) : list Z :=
  match file with
  | None => []
  | Some text => positions_loop (getlines (Ascii.ascii_of_nat 10) text) limit
  end.

(** Requests sorted by position, with their place in the workload. *)
Definition req_le (a b : Z * nat) : Prop := a.1 <= b.1.
#[export] Instance req_le_dec a b : Decision (req_le a b).
Proof. unfold req_le. apply _. Defined.

Definition requests_of (positions : list Z) : list (Z * nat) :=
  merge_sort req_le (filter (fun r => 0 < r.1) (imap (fun i p => (p, i)) positions)).

(** One row of the data file: requests for it are answered, smaller ones are
    passed over. *)
Fixpoint take_requests (row : Z) (k : double) (reqs : list (Z * nat)) (keys : list (option double))
  : list (Z * nat) * list (option double) :=
  match reqs with
  | r :: reqs' =>
      if r.1 =? row then take_requests row k reqs' (<[r.2 := Some k]> keys) else (reqs, keys)
  | [] => ([], keys)
  end.
Fixpoint skip_requests (row : Z) (reqs : list (Z * nat)) : list (Z * nat) :=
  match reqs with
  | r :: reqs' => if r.1 <? row then skip_requests row reqs' else reqs
  | [] => []
  end.

Fixpoint resolve_loop (rows : list (double * Z)) (row : Z) (reqs : list (Z * nat))
    (keys : list (option double)) : list (option double) :=
  match rows, reqs with
  | (k, _) :: rows', _ :: _ =>
      let row := row + 1 in
      let '(reqs, keys) := take_requests row k (skip_requests row reqs) keys in
      resolve_loop rows' row reqs keys
  | _, _ => keys
  end.

(** [keys] and [resolved] together are a list of options. *)
Definition resolve_positions_to_keys (data : Rows) (positions : list Z) : list double :=
  match data with
  | None => []
  | Some rows =>
      omap id (resolve_loop rows 0 (requests_of positions) (replicate (length positions) None))
  end.

Definition load_benchmark_keys (workload : option str) (data : Rows) (limit : nat) : list double :=
  match load_workload_positions workload limit with
  | [] => []
  | positions => resolve_positions_to_keys data positions
  end.

(** ** Own keys *)

Section Own.
Context {B M W : Type} `{BtreeMapLaws B} `{CuckooMap M} `{Transport W}.

Lemma deq_sym x y : is_key x = true -> is_key y = true -> deq x y = deq y x.
Proof. intros Hx Hy. key_cmp. apply Z.eqb_sym. Qed.

Lemma load_range_find rows lo hi k acc :
  is_key lo = true -> is_key hi = true -> is_key k = true -> within lo hi k = true ->
  Forall (fun r => is_key r.1 = true) rows ->
  bt_find (btree (foldl (fun s r => if within lo hi r.1
     then mkStore (bt_insert (btree s) r.1 r.2) (store_loaded s + 1) else s) acc rows)) k
  = match bt_find (btree acc) k with
    | Some x => Some x
    | None => snd <$> find_first (fun r => deq r.1 k) rows
    end.
Proof.
  intros Hlo Hhi Hk Hin Hrows. revert acc.
  induction Hrows as [|[k1 p] rows Hk1 Hrows IH]; intros acc; cbn [foldl find_first fst].
  { by destruct (bt_find (btree acc) k). }
  rewrite IH. cbn [fst] in Hk1. destruct (within lo hi k1) eqn:Ew.
  - cbn [btree snd]. rewrite bt_find_insert by done.
    destruct (bt_find (btree acc) k); [done|]. by destruct (deq k1 k).
  - assert (Hne : deq k1 k = false).
    { unfold within in *. key_cmp. apply andb_true_iff in Hin as [Hin1 Hin2]. zb.
      apply Z.eqb_neq. intros Heq. rewrite Heq in Ew.
      by destruct (Z.leb_spec (rank lo) (rank k)), (Z.leb_spec (rank k) (rank hi)); try lia. }
    by rewrite Hne.
Qed.

Lemma locate_own rm k e :
  ranges_ok (rm_ends rm) = true -> is_key k = true -> Z.of_nat (length (rm_ends rm)) < 2 ^ 30 ->
  e ∈ rm_ends rm -> in_range k e = true -> locate_end rm k = Ok (end_id e).
Proof.
  intros Hok Hk Hlen He Hin. unfold locate_end.
  apply list_elem_of_lookup in He as [j Hj].
  destruct (locate_loop_spec (rm_ends rm) k Hok Hk Hlen (length (rm_ends rm)) 0
    (Z.of_nat (length (rm_ends rm)) - 1)) as [(i & x & Hi & Hx & ->)|[Hno _]]; [lia..| | |].
  - intros i x Hi _. apply lookup_lt_Some in Hi. lia.
  - pose proof (in_range_unique _ k Hok Hk _ _ _ _ Hi Hj Hx Hin). by simplify_eq.
  - by rewrite (Hno _ _ Hj) in Hin.
Qed.

End Own.

(** A key of the own range. *)
Lemma own_key_find {B M W} `{BtreeMapLaws B} `{CuckooMap M} `{Transport W} (fuel : nat)
    (n : EndNode B M W) (e : EndInfo) (rows : list (double * Z)) (k : double) :
  ranges_ok (rm_ends (rm_ n)) = true -> Z.of_nat (length (rm_ends (rm_ n))) < 2 ^ 30 ->
  e ∈ rm_ends (rm_ n) -> end_id e = id_ n ->
  store_ n = load_range (Some rows) (key_lo e) (key_hi e) ->
  Forall (fun r => is_key r.1 = true) rows -> is_key k = true -> in_range k e = true ->
  lookup fuel n k = Ok (match find_first (fun r => deq r.1 k) rows with
                        | Some r => mkResult true r.2 LOCAL
                        | None => mkResult false 0 LOCAL
                        end, count_stage LOCAL n).
Proof.
  intros Hok Hlen He Hid Hst Hrows Hk Hin. unfold lookup.
  rewrite (locate_own _ k e) by done. mstep. rewrite Hid, Z.eqb_refl, Hst.
  pose proof He as He'. apply list_elem_of_lookup in He' as [j Hj].
  destruct (ranges_ok_lookup _ _ _ Hok Hj) as (Hl & Hh & _).
  unfold load_range. rewrite load_range_find by done. cbn [btree]. rewrite bt_find_empty.
  by destruct (find_first _ rows) as [[k1 p]|].
Qed.

(** A key in an End's own range is answered from its own tree, with the payload
    of the first row of the data file that has the key, or not found when no row
    has it; nothing is sent, and nothing else of the node changes, whatever the hot
    cache, the model and the connection are. *)
Theorem own_key_lookup {B M W} `{BtreeMapLaws B} `{CuckooMap M} `{Transport W} (fuel : nat)
    (n : EndNode B M W) (e : EndInfo) (rows : list (double * Z)) (k : double) :
  ranges_ok (rm_ends (rm_ n)) = true -> Z.of_nat (length (rm_ends (rm_ n))) < 2 ^ 30 ->
  e ∈ rm_ends (rm_ n) -> end_id e = id_ n ->
  store_ n = load_range (Some rows) (key_lo e) (key_hi e) ->
  Forall (fun r => is_key r.1 = true) rows -> is_key k = true -> in_range k e = true ->
  lookup fuel n k = Ok (match find_first (fun r => deq r.1 k) rows with
                        | Some r => mkResult true r.2 LOCAL
                        | None => mkResult false 0 LOCAL
                        end, count_stage LOCAL n).
Proof. apply own_key_find. Qed.

(** ** Hot updates *)

(** The last pair with the key wins. *)
Definition last_value (k : double) (kv : list (double * Z)) : option Z :=
  snd <$> find_first (fun p => deq p.1 k) (rev kv).

Lemma batch_upsert_find {M} `{CuckooMapLaws M} kv : forall (m : M) k,
  Forall (fun p => is_key p.1 = true) kv -> is_key k = true ->
  hot_find (batch_upsert m kv) k =
    match last_value k kv with Some v => Some v | None => hot_find m k end.
Proof.
  unfold hot_find, batch_upsert, last_value.
  induction kv as [|[k1 v1] kv IH]; intros m k Hkv Hk; [done|].
  apply Forall_cons in Hkv as [Hk1 Hkv]. cbn [foldl fst snd rev] in *. rewrite IH by done.
  rewrite find_first_app. destruct (find_first _ (rev kv)); [done|]. cbn [find_first fst].
  rewrite cm_find_assign by done. by destruct (deq k1 k).
Qed.

Lemma field_elem {A} `{Codec A} (l : list A) i x off n :
  l !! i = Some x -> (off + n <= csize A)%nat ->
  field (i * csize A + off) n (enc_list l) = field off n (enc x).
Proof.
  intros Hi Hn. rewrite (list_split_at _ _ _ Hi). unfold enc_list.
  rewrite map_app, concat_app. fold (enc_list (take i l)).
  assert (Hl : length (enc_list (take i l)) = (i * csize A)%nat).
  { rewrite enc_list_length, length_take_le; [done|]. apply lookup_lt_Some in Hi. lia. }
  rewrite field_skip by lia. rewrite Hl, Nat.add_sub'. cbn [map concat].
  unfold field. rewrite drop_app_le by (rewrite enc_length; lia).
  rewrite take_app_le; [done|]. rewrite length_drop, enc_length. lia.
Qed.

(** Decoding the pairs of a body. *)
Lemma hot_pairs_enc rows :
  Forall cwf rows -> hot_pairs (enc_list rows) = map (fun r => (kp_key r, kp_payload r)) rows.
Proof.
  intros Hwf. unfold hot_pairs. rewrite enc_list_length. change (csize KeyPayloadRecord) with 16%nat.
  rewrite Nat.div_mul by lia. apply list_eq. intros i. rewrite !list_lookup_fmap.
  destruct (rows !! i) as [r|] eqn:Hi.
  - rewrite lookup_seq_lt by (by eapply lookup_lt_Some). cbn [fmap option_fmap option_map].
    f_equal. pose proof (proj1 (Forall_lookup _ _) Hwf i r Hi) as Hr.
    pose proof (dec_enc r [] Hr) as Hd. rewrite app_nil_r in Hd. destruct r as [k p].
    unfold get_double, get_u64. cbn [Nat.add].
    rewrite <- (Nat.add_0_r (i * 16)) at 1.
    change 16%nat with (csize KeyPayloadRecord).
    rewrite (field_elem rows i (mkKp k p) 0 8 Hi), (field_elem rows i (mkKp k p) 8 8 Hi)
      by (cbn; lia).
    cbn [kp_key kp_payload]. cbn in Hd. injection Hd as Hd1 Hd2. f_equal; assumption.
  - apply lookup_ge_None_1 in Hi. rewrite lookup_seq_ge by done. done.
Qed.

Definition with_control {B M W} (n : EndNode B M W) (c : Control M) : EndNode B M W :=
  mkNode (id_ n) (rm_ n) (store_ n) (edge_ n) c (stats_ n) (next_id n).

Definition hot_update_frame (rows : list KeyPayloadRecord) : Frame := mkFrame HOT_UPDATE (enc_list rows).

Definition pairs_of (rows : list KeyPayloadRecord) : list (double * Z) :=
  map (fun r => (kp_key r, kp_payload r)) rows.

Lemma apply_hot_update {M} `{CuckooMap M} rows (c : Control M) :
  Forall cwf rows ->
  apply_edge_control_frame (hot_update_frame rows) c =
    Ok (set_hot c (batch_upsert (hot_cache c) (pairs_of rows))).
Proof.
  intros Hwf. unfold apply_edge_control_frame, hot_update_frame. cbn [ftype body].
  rewrite bool_decide_eq_false_2 by done. rewrite bool_decide_eq_true_2 by done.
  by rewrite hot_pairs_enc.
Qed.

(** A HOT_UPDATE is decoded to exactly the pairs that were encoded: the node then
    answers a foreign key of the update from its hot cache with the last payload
    sent for it, and every other key's cache entry is what it was. *)
Theorem hot_update_then_lookup {B M W} `{BtreeMap B} `{CuckooMapLaws M} `{Transport W} (fuel : nat)
    (n : EndNode B M W) (rows : list KeyPayloadRecord) (k : double) (own : Z) :
  Forall cwf rows -> Forall (fun r => is_key (kp_key r) = true) rows -> is_key k = true ->
  locate_end (rm_ n) k = Ok own -> own <> id_ n ->
  exists c, apply_edge_control_frame (hot_update_frame rows) (control n) = Ok c /\
    plin_cache c = plin_cache (control n) /\ rdma_snapshot c = rdma_snapshot (control n) /\
    match last_value k (pairs_of rows) with
    | Some v => lookup fuel (with_control n c) k =
        Ok (mkResult true v HOT_CACHE, count_stage HOT_CACHE (with_control n c))
    | None => hot_find (hot_cache c) k = hot_find (hot_cache (control n)) k
    end.
Proof.
  intros Hwf Hkeys Hk Hown Hne. rewrite apply_hot_update by done.
  eexists. split; [done|]. split; [done|]. split; [done|].
  assert (Hp : Forall (fun p => is_key p.1 = true) (pairs_of rows)).
  { unfold pairs_of. apply Forall_fmap. eapply Forall_impl; [exact Hkeys|]. by intros r. }
  pose proof (batch_upsert_find (pairs_of rows) (hot_cache (control n)) k Hp Hk) as Hf.
  destruct (last_value k (pairs_of rows)) as [v|]; [|exact Hf].
  unfold lookup, with_control. cbn [rm_ id_ control hot_cache set_hot]. rewrite Hown. mstep.
  destruct (Z.eqb_spec own (id_ n)); [done|]. by rewrite Hf.
Qed.

(** ** Fetching from a sibling *)

Section Exchange.
Context {B M W : Type} `{BtreeMap B} `{CuckooMap M} `{Transport W}.

(** The answer of the Edge is read. *)
Lemma fetch_answer fuel (e e' : W) (c : Control M) resp out stale st v :
  t_read_frame e resp (-1) = Ok (true, make_fetch_resp st v, e') -> 0 <= v < 2 ^ 64 ->
  status_of_byte (byte_of_status st) = st ->
  read_fetch_loop (S fuel) e c resp out stale = Ok (bool_decide (st = OK), v, false, e', c).
Proof.
  intros E Hv Hst. cbn [read_fetch_loop]. rewrite E. mstep. cbn [ftype make_fetch_resp].
  rewrite bool_decide_eq_true_2 by done. destruct (make_fetch_resp_body st v Hv) as (Hl & Hb0 & Hb1 & Hb9).
  rewrite Hl, Hb0, Hb9, Hb1. cbn [Nat.ltb Nat.leb from_option id]. by rewrite Hst.
Qed.

(** Stage 3 over a transport without one-sided reads: one request, one answer. *)
Lemma sibling_exchange (fuel : nat) (n : EndNode B M W) (e e1 e2 : W) (k : double) (tgt slot v : Z) (ok : bool)
    (c' : Control M) :
  edge_ n = Some e -> t_supports_remote_read e = false ->
  locate_end (rm_ n) k = Ok tgt -> tgt <> id_ n -> 0 <= tgt ->
  same_edge (rm_ n) tgt (id_ n) = true -> hot_find (hot_cache (control n)) k = None ->
  cache_predict_pos (plin_cache (control n)) k = Ok slot ->
  t_write_frame e (fetch_request k slot) = Ok (true, e1) ->
  read_fetch_response fuel e1 (control n) 0 false = Ok (ok, v, false, e2, c') ->
  lookup fuel n k = Ok (mkResult ok v EDGE_PLIN,
    count_stage EDGE_PLIN (with_edge_state n e2 (warm ok k v c') (next_id n))).
Proof.
  intros He Hsup Hloc Hne Hpos Hsame Hhot Hslot Hw Hr.
  unfold lookup. rewrite Hloc. mstep.
  destruct (Z.eqb_spec tgt (id_ n)); [done|]. rewrite Hhot.
  destruct (Z.leb_spec 0 tgt); [|lia]. rewrite Hsame, He. cbn [andb].
  unfold sibling_fetch. rewrite Hslot. mstep. unfold rdma_snapshot_lookup.
  rewrite Hsup. cbn [negb]. rewrite orb_true_r. mstep.
  rewrite (bool_decide_eq_false_2 (UNAVAILABLE = HIT)) by done. unfold edge_fetch.
  rewrite Hw. mstep. by rewrite Hr.
Qed.
End Exchange.

Section Fetch.
Context {M W : Type} `{CuckooMap M} `{Arrivals W}.

(** Control frames that arrive before the answer are applied, in order. *)
Lemma read_fetch_loop_spec cs : forall fuel (e : W) (c c' : Control M) resp out stale st v rest,
  delivers -> Forall (fun f => is_control (ftype f) = true) cs ->
  foldlM (fun c f => apply_edge_control_frame f c) c cs = Ok c' ->
  arrives e (cs ++ make_fetch_resp st v :: rest) -> 0 <= v < 2 ^ 64 ->
  status_of_byte (byte_of_status st) = st -> (length cs < fuel)%nat ->
  exists e', read_fetch_loop fuel e c resp out stale = Ok (bool_decide (st = OK), v, false, e', c') /\
    arrives e' rest.
Proof.
  induction cs as [|f cs IH]; intros fuel e c c' resp out stale st v rest Hd Hcs Hfold Harr Hv Hst Hf;
    (destruct fuel as [|fuel]; [cbn in Hf; lia|]); cbn [app foldlM] in *.
  - destruct (Hd _ _ _ resp (-1) Harr) as (e' & Er & Harr'). injection Hfold as <-.
    exists e'. split; [by apply fetch_answer|done].
  - cbn [read_fetch_loop]. apply Forall_cons in Hcs as [Hc Hcs]. apply bind_ok in Hfold as (c1 & Hc1 & Hfold).
    destruct (Hd _ _ _ resp (-1) Harr) as (e' & -> & Harr'). mstep.
    assert (ftype f <> EDGE_FETCH_RESP) by (unfold is_control in Hc; intros Heq; by rewrite Heq in Hc).
    rewrite bool_decide_eq_false_2 by done. rewrite Hc, Hc1. mstep.
    eapply IH; try done. cbn in Hf. lia.
Qed.

End Fetch.

Section Sibling.
Context {B M W : Type} `{BtreeMap B} `{CuckooMap M} `{Arrivals W}.

(** The same, after control frames. *)
Lemma sibling_lookup_spec (fuel : nat) (n : EndNode B M W) (e : W) (k : double) (tgt slot : Z)
    (st : Status) (v : Z) (cs rest : list Frame) (c' : Control M) :
  delivers (W := W) -> accepts (W := W) -> edge_ n = Some e -> t_supports_remote_read e = false ->
  locate_end (rm_ n) k = Ok tgt -> tgt <> id_ n -> 0 <= tgt ->
  same_edge (rm_ n) tgt (id_ n) = true -> hot_find (hot_cache (control n)) k = None ->
  cache_predict_pos (plin_cache (control n)) k = Ok slot ->
  Forall (fun f => is_control (ftype f) = true) cs -> (length cs < fuel)%nat ->
  foldlM (fun c f => apply_edge_control_frame f c) (control n) cs = Ok c' ->
  arrives e (cs ++ make_fetch_resp st v :: rest) -> 0 <= v < 2 ^ 64 ->
  status_of_byte (byte_of_status st) = st ->
  exists e', lookup fuel n k =
    Ok (mkResult (bool_decide (st = OK)) v EDGE_PLIN,
        count_stage EDGE_PLIN
          (with_edge_state n e' (warm (bool_decide (st = OK)) k v c') (next_id n))).
Proof.
  intros Hd Ha He Hsup Hloc Hne Hpos Hsame Hhot Hslot Hcs Hf Hfold Harr Hv Hst.
  destruct (Ha e (fetch_request k slot)) as [e1 He1].
  pose proof (write_arrives _ _ _ _ _ He1 Harr) as Harr1.
  destruct (read_fetch_loop_spec cs fuel e1 (control n) c' frame0 0 false st v rest)
    as (e2 & Er & _); try done.
  exists e2. by apply (sibling_exchange fuel n e e1 e2 k tgt slot).
Qed.

End Sibling.

(** C22: a sibling's key that is not cached is fetched from the Edge: whatever control
    frames arrive before the answer are applied first, the answer's payload is
    returned as a stage-3 result, and the same lookup again is answered by the hot
    cache with that payload, without another exchange. *)
Theorem sibling_fetch_replay {B M W} `{BtreeMap B} `{CuckooMapLaws M} `{Arrivals W} (fuel : nat)
    (n : EndNode B M W) (e : W) (k : double) (tgt slot v : Z) (cs rest : list Frame) (c' : Control M) :
  delivers (W := W) -> accepts (W := W) -> edge_ n = Some e -> t_supports_remote_read e = false ->
  is_key k = true -> locate_end (rm_ n) k = Ok tgt -> tgt <> id_ n -> 0 <= tgt ->
  same_edge (rm_ n) tgt (id_ n) = true -> hot_find (hot_cache (control n)) k = None ->
  cache_predict_pos (plin_cache (control n)) k = Ok slot ->
  Forall (fun f => is_control (ftype f) = true) cs -> (length cs < fuel)%nat ->
  foldlM (fun c f => apply_edge_control_frame f c) (control n) cs = Ok c' ->
  arrives e (cs ++ make_fetch_resp OK v :: rest) -> 0 <= v < 2 ^ 64 ->
  exists n', lookup fuel n k = Ok (mkResult true v EDGE_PLIN, n') /\
    plin_cache (control n') = plin_cache c' /\
    lookup fuel n' k = Ok (mkResult true v HOT_CACHE, count_stage HOT_CACHE n').
Proof.
  intros Hd Ha He Hsup Hk Hloc Hne Hpos Hsame Hhot Hslot Hcs Hf Hfold Harr Hv.
  destruct (sibling_lookup_spec fuel n e k tgt slot OK v cs rest c') as (e' & E); try done.
  rewrite E. rewrite bool_decide_eq_true_2 by done.
  eexists. split; [done|]. split; [done|]. unfold lookup.
  cbn [with_edge_state count_stage rm_ id_ edge_ control warm set_hot hot_cache].
  rewrite Hloc. mstep. destruct (Z.eqb_spec tgt (id_ n)); [done|].
  unfold hot_find, hot_upsert. rewrite cm_find_assign, deq_refl by done. done.
Qed.

(** ** Resolving positions *)

Section Resolve.

(** One answered request. *)
Definition answer (rows : list (double * Z)) (row : Z) (keys : list (option double)) (r : Z * nat)
  : list (option double) :=
  match zlookup rows (r.1 - row - 1) with
  | Some x => <[r.2 := Some x.1]> keys
  | None => keys
  end.

Lemma answer_length rows row keys r : length (answer rows row keys r) = length keys.
Proof. unfold answer. destruct (zlookup _ _); [apply length_insert|done]. Qed.

Lemma answers_none rows row reqs keys :
  Forall (fun r : Z * nat => row + Z.of_nat (length rows) < r.1) reqs ->
  foldl (answer rows row) keys reqs = keys.
Proof.
  intros H. revert keys. induction H as [|r reqs Hr Hreqs IH]; intros keys; [done|].
  cbn [foldl]. unfold answer at 2. unfold zlookup.
  destruct (Z.ltb_spec (r.1 - row - 1) 0); [apply IH|].
  rewrite lookup_ge_None_2 by lia. apply IH.
Qed.

(** The requests at the front of a sorted list are those of the current row. *)
Lemma take_requests_spec row k (reqs : list (Z * nat)) : forall keys rows,
  StronglySorted req_le reqs -> Forall (fun r => row <= r.1) reqs ->
  exists reqs' keys', take_requests row k reqs keys = (reqs', keys') /\
    StronglySorted req_le reqs' /\ Forall (fun r => row < r.1) reqs' /\
    foldl (answer rows row) keys' reqs' =
    foldl (answer ((k, 0) :: rows) (row - 1)) keys reqs.
Proof.
  assert (Hans : forall rows keys r, row < r.1 ->
    answer ((k, 0) :: rows) (row - 1) keys r = answer rows row keys r).
  { intros rows keys r Hr. unfold answer, zlookup.
    destruct (Z.ltb_spec (r.1 - (row - 1) - 1) 0), (Z.ltb_spec (r.1 - row - 1) 0); try lia.
    replace (Z.to_nat (r.1 - (row - 1) - 1)) with (S (Z.to_nat (r.1 - row - 1))) by lia. done. }
  induction reqs as [|r reqs IH]; intros keys rows Hs Hge.
  { exists [], keys. done. }
  apply StronglySorted_inv in Hs as [Hs Hall]. apply Forall_cons in Hge as [Hr Hge].
  cbn [take_requests]. destruct (Z.eqb_spec r.1 row) as [Heq|Hne].
  - destruct (IH (<[r.2 := Some k]> keys) rows Hs Hge) as (reqs' & keys' & -> & H1 & H2 & H3).
    exists reqs', keys'. split; [done|]. split; [done|]. split; [done|]. rewrite H3.
    cbn [foldl]. f_equal. unfold answer, zlookup. rewrite Heq.
    destruct (Z.ltb_spec (row - (row - 1) - 1) 0); [lia|].
    by replace (Z.to_nat (row - (row - 1) - 1)) with 0%nat by lia.
  - assert (Hgt : Forall (fun r => row < r.1) (r :: reqs)).
    { constructor; [lia|]. eapply Forall_impl; [exact Hall|]. unfold req_le. intros x Hx. lia. }
    exists (r :: reqs), keys. split; [done|]. split; [by constructor|]. split; [done|].
    clear - Hgt Hans. revert keys. induction Hgt as [|x l Hx Hl IH]; intros keys; [done|].
    cbn [foldl]. by rewrite Hans, IH.
Qed.

Lemma resolve_loop_spec rows : forall row reqs keys,
  StronglySorted req_le reqs -> Forall (fun r => row < r.1) reqs ->
  resolve_loop rows row reqs keys = foldl (answer rows row) keys reqs.
Proof.
  induction rows as [|[k p] rows IH]; intros row reqs keys Hs Hgt; cbn [resolve_loop].
  { symmetry. apply answers_none. eapply Forall_impl; [exact Hgt|]. cbn. intros; lia. }
  destruct reqs as [|r reqs]; [done|]. remember (r :: reqs) as l eqn:El.
  assert (Hskip : skip_requests (row + 1) l = l).
  { subst. apply Forall_cons in Hgt as [Hr _]. cbn. destruct (Z.ltb_spec r.1 (row + 1)); [lia|done]. }
  rewrite Hskip.
  destruct (take_requests_spec (row + 1) k l keys rows Hs) as (reqs' & keys' & -> & H1 & H2 & H3).
  { eapply Forall_impl; [exact Hgt|]. cbn. intros; lia. }
  rewrite IH by done. rewrite H3. replace (row + 1 - 1) with row by lia.
  clear. assert (E : forall keys r, answer ((k, 0) :: rows) row keys r = answer ((k, p) :: rows) row keys r).
  { intros keys0 r. unfold answer, zlookup. destruct (_ <? 0); [done|].
    by destruct (Z.to_nat (r.1 - row - 1)). }
  revert keys. induction l as [|r l IHl]; intros keys; [done|]. cbn [foldl]. by rewrite E, IHl.
Qed.

(** The position a request asks for decides its own key only. *)
Lemma answers_lookup rows reqs : forall keys i,
  NoDup (reqs.*2) ->
  foldl (answer rows 0) keys reqs !! i =
    match find_first (fun r => (r.2 =? i)%nat) reqs with
    | Some r =>
        match zlookup rows (r.1 - 1) with
        | Some x => if (i <? length keys)%nat then Some (Some x.1) else None
        | None => keys !! i
        end
    | None => keys !! i
    end.
Proof.
  induction reqs as [|r reqs IH]; intros keys i Hnd; [done|].
  cbn [fmap list_fmap] in Hnd. apply NoDup_cons in Hnd as [Hni Hnd].
  cbn [foldl find_first]. rewrite IH, answer_length by done.
  destruct (Nat.eqb_spec r.2 i) as [<-|Hne].
  - assert (Hno : find_first (fun x => (x.2 =? r.2)%nat) reqs = None).
    { apply find_first_None, Forall_forall. intros x Hx. apply Nat.eqb_neq. intros Heq.
      apply Hni. rewrite <- Heq. apply list_elem_of_fmap. by exists x. }
    rewrite Hno. unfold answer. replace (r.1 - 0 - 1) with (r.1 - 1) by lia.
    destruct (zlookup rows (r.1 - 1)) as [x|]; [|done].
    destruct (Nat.ltb_spec r.2 (length keys)).
    + by apply list_lookup_insert_eq.
    + apply lookup_ge_None_2. by rewrite length_insert.
  - assert (Hk : answer rows 0 keys r !! i = keys !! i).
    { unfold answer. destruct (zlookup _ _); [by apply list_lookup_insert_ne|done]. }
    rewrite Hk. done.
Qed.

Lemma answers_length rows reqs : forall keys,
  length (foldl (answer rows 0) keys reqs) = length keys.
Proof.
  induction reqs as [|r reqs IH]; intros keys; [done|]. cbn. by rewrite IH, answer_length.
Qed.

End Resolve.

(** The rows that the positions name. *)
Lemma resolve_spec (rows : list (double * Z)) (positions : list Z) :
  resolve_positions_to_keys (Some rows) positions =
    omap (fun p => if 0 <? p then fst <$> zlookup rows (p - 1) else None) positions.
Proof.
  unfold resolve_positions_to_keys.
  set (reqs := requests_of positions).
  assert (Hperm : reqs ≡ₚ filter (fun r : Z * nat => 0 < r.1) (imap (fun i p => (p, i)) positions))
    by apply merge_sort_Permutation.
  assert (Hel : forall p i, (p, i) ∈ reqs <-> 0 < p /\ positions !! i = Some p).
  { intros p i. rewrite Hperm, list_elem_of_filter. cbn [fst]. f_equiv.
    rewrite list_elem_of_lookup. split.
    - intros [j Hj]. rewrite list_lookup_imap in Hj. destruct (positions !! j) eqn:E; [|done].
      cbn in Hj. by simplify_eq.
    - intros Hi. exists i. by rewrite list_lookup_imap, Hi. }
  assert (Hnd : NoDup (reqs.*2)).
  { rewrite Hperm. clear. eapply sublist_NoDup; [|apply fmap_sublist, sublist_filter].
    rewrite fmap_imap, (imap_seq_0 _ id). rewrite list_fmap_id. apply NoDup_seq. }
  assert (Hpos : Forall (fun r : Z * nat => 0 < r.1) reqs).
  { apply Forall_forall. intros [p i] Hr. by apply Hel in Hr as [? _]. }
  assert (Hsorted : StronglySorted req_le reqs).
  { apply StronglySorted_merge_sort.
    - intros a b c. unfold req_le. lia.
    - intros a b. unfold req_le. lia. }
  rewrite (resolve_loop_spec rows 0 reqs _ Hsorted Hpos).
  assert (E : foldl (answer rows 0) (replicate (length positions) None) reqs
    = map (fun p => if 0 <? p then fst <$> zlookup rows (p - 1) else None) positions).
  { apply list_eq. intros i. rewrite answers_lookup, length_replicate, list_lookup_fmap by done.
    destruct (find_first (fun r : Z * nat => (r.2 =? i)%nat) reqs) as [[p j]|] eqn:Ef.
    - apply find_first_Some in Ef as [Hr Hj]. cbn in Hj. apply Nat.eqb_eq in Hj as ->.
      apply Hel in Hr as [Hp Hi]. cbn [fst]. rewrite Hi. cbn [fmap option_fmap option_map].
      pose proof (lookup_lt_Some _ _ _ Hi) as Hlt.
      destruct (Z.ltb_spec 0 p); [|lia]. destruct (Nat.ltb_spec i (length positions)); [|lia].
      destruct (zlookup rows (p - 1)); [done|]. by apply lookup_replicate_2.
    - apply find_first_None in Ef. destruct (positions !! i) as [p|] eqn:Hi; cbn.
      + rewrite lookup_replicate_2 by (by eapply lookup_lt_Some).
        destruct (Z.ltb_spec 0 p); [|done]. exfalso.
        rewrite Forall_forall in Ef. specialize (Ef (p, i) (proj2 (Hel p i) (conj H Hi))).
        cbn in Ef. by rewrite Nat.eqb_refl in Ef.
      + apply lookup_ge_None_2. rewrite length_replicate. by apply lookup_ge_None_1. }
  rewrite E. clear. induction positions as [|p l IH]; [done|].
  cbn [map omap list_omap id]. destruct (if 0 <? p then _ else None); by rewrite <- IH.
Qed.

(** The workload replay asks for exactly the keys that the positions name: the
    result lists, in workload order, the key of row [p] of the data file for every
    positive position [p] up to the number of rows, repeated positions included. *)
Theorem resolve_positions_correct (rows : list (double * Z)) (positions : list Z) :
  resolve_positions_to_keys (Some rows) positions =
    omap (fun p => if 0 <? p then fst <$> zlookup rows (p - 1) else None) positions.
Proof. apply resolve_spec. Qed.

(** ** Examples *)

Module KeyedList.

Definition t : Type := list (double * Z).
Definition find (l : t) (k : double) : option Z := snd <$> find_first (fun p => deq p.1 k) l.

#[global] Instance cuckoo : CuckooMap t := {
  cm_empty := [];
  cm_find := find;
  cm_assign := fun l k v => (k, v) :: l;
  cm_size := fun l => Z.of_nat (length l)
}.

#[global] Instance cuckoo_laws : CuckooMapLaws t.
Proof.
  constructor; [done|]. intros m k v k' _ _. cbn. unfold find. cbn. by destruct (deq k k').
Defined.

#[global] Instance btree : BtreeMap t := {
  bt_empty := [];
  bt_find := find;
  bt_insert := fun l k v => l ++ [(k, v)]
}.

#[global] Instance btree_laws : BtreeMapLaws t.
Proof.
  constructor; [done|]. intros m k v k' _ _. cbn. unfold find. rewrite find_first_app.
  destruct (find_first _ m); [done|]. cbn. by destruct (deq k k').
Defined.

End KeyedList.

#[export] Instance pipe_arrivals : Arrivals Pipe.pipe.
Proof.
  refine {| arrives := fun p fs => exists rest, Pipe.inbox p = fs ++ rest |}.
  - intros w f b w' fs. cbn. intros [= <- <-]. done.
  - intros w a k n r w' fs. cbn. intros [= <- <-]. done.
Defined.

Lemma pipe_delivers : delivers (W := Pipe.pipe).
Proof.
  intros w f fs out t [rest Hr]. cbn. unfold Pipe.read. rewrite Hr. cbn.
  eexists. split; [done|]. by exists rest.
Qed.
Lemma pipe_accepts : accepts (W := Pipe.pipe).
Proof. intros w f. by eexists. Qed.

Abbreviation shipped_rm := shipped_map.
Definition shipped_end (i : nat) : EndInfo := default end0 (rm_ends shipped_rm !! i).

Definition demo_file : list (double * Z) :=
  map (fun z => (double_of_Z z, z + 7)) [-12000000000; -9000000000; -7000000000; 1; 2; 3000000].

(** End 2 with its rows, a model, and a connection on which a hot update and the
    answer to a fetch are waiting. *)
Definition demo_rows : list KeyPayloadRecord :=
  [mkKp (double_of_Z 4000000) 5; mkKp (double_of_Z 77) 6; mkKp (double_of_Z 4000000) 9].
Definition demo_pipe : Pipe.pipe :=
  Pipe.mkPipe [hot_update_frame demo_rows; make_fetch_resp OK 43] [] [] false.
Definition demo_node : EndNode KeyedList.t KeyedList.t Pipe.pipe :=
  mkNode 2 shipped_rm
    (load_range (Some demo_file) (key_lo (shipped_end 1)) (key_hi (shipped_end 1)))
    (Some demo_pipe) (mkControl demo_params [] (mkEndSnap info0 false)) (mkStats 0 0 0 0) 1.

Lemma own_key_lookup_witness :
  lookup 9 demo_node (double_of_Z (-9000000000))
  = Ok (mkResult true (-8999999993) LOCAL, count_stage LOCAL demo_node).
Proof.
  refine (own_key_lookup 9 demo_node (shipped_end 1) demo_file (double_of_Z (-9000000000)) _ _ _ _ _ _ _ _).
  - vm_compute. reflexivity.
  - vm_compute. reflexivity.
  - apply list_elem_of_lookup. exists 1%nat. vm_compute. reflexivity.
  - vm_compute. reflexivity.
  - reflexivity.
  - vm_compute. repeat constructor.
  - vm_compute. reflexivity.
  - vm_compute. reflexivity.
Defined.

Lemma demo_rows_wf : Forall cwf demo_rows.
Proof. repeat constructor; vm_compute; discriminate. Qed.

Lemma hot_update_then_lookup_witness :
  exists c, apply_edge_control_frame (hot_update_frame demo_rows) (control demo_node) = Ok c /\
    lookup 9 (with_control demo_node c) (double_of_Z 4000000)
    = Ok (mkResult true 9 HOT_CACHE, count_stage HOT_CACHE (with_control demo_node c)).
Proof.
  destruct (hot_update_then_lookup 9 demo_node demo_rows (double_of_Z 4000000) 5 demo_rows_wf)
    as (c & E & _ & _ & L).
  - vm_compute. repeat constructor.
  - reflexivity.
  - vm_compute. reflexivity.
  - discriminate.
  - exists c. split; [exact E|exact L].
Defined.

Lemma sibling_fetch_replay_witness :
  exists n', lookup 9 demo_node (double_of_Z 3000000) = Ok (mkResult true 43 EDGE_PLIN, n') /\
    lookup 9 n' (double_of_Z 3000000) = Ok (mkResult true 43 HOT_CACHE, count_stage HOT_CACHE n').
Proof.
  destruct (sibling_fetch_replay 9 demo_node demo_pipe (double_of_Z 3000000) 5 24 43
    [hot_update_frame demo_rows] []
    (set_hot (control demo_node) (batch_upsert [] (pairs_of demo_rows)))) as (n' & E & _ & L).
  - apply pipe_delivers.
  - apply pipe_accepts.
  - reflexivity.
  - reflexivity.
  - reflexivity.
  - vm_compute. reflexivity.
  - discriminate.
  - lia.
  - vm_compute. reflexivity.
  - reflexivity.
  - vm_compute. reflexivity.
  - repeat constructor.
  - cbn. lia.
  - vm_compute. reflexivity.
  - exists []. reflexivity.
  - lia.
  - exists n'. split; [exact E|exact L].
Defined.
