(* ===== verification/EndMain.v ===== *)
(** * The End's main function (end/end_node.cpp, lines 645-803)

    Arguments, start-up, the attempts to connect to the Edge, the self test and the
    replay of a workload, composed from the functions of EndNode.v.  Files are their
    contents, each attempt to connect has its own outcome, and the B+ tree is
    iterated in key order by [items].  What is printed is returned: the results of
    the self test and the counters of the replay.

    The theorems: which exit status each refusal gives, and what an End answers when
    it never reaches its Edge. *)

From S2P Require Import Prelude Doubles Bytes Rpc RangeMap Topology Transport CacheModel Snapshot EndNode.
Open Scope Z_scope.

(** ** Arguments *)

Record EndArgs : Type := mkEndArgs {
  arg_id : Z;
  topology_path : str;
  data_path : str;
  model_path : str;
  bench_workload_path : str;
  bench_queries : Z;
  bench_wait_ms : Z;
  edge_transport_mode : Mode;
  rdma_port_offset : Z
}.

Definition end_args0 : EndArgs :=
  mkEndArgs 0 (s_ "src/common/topology.yaml") (s_ "Data.txt") [] [] 0 0 AUTO 1000.

(** [std::stoull]: the value of a negative number wraps. *)
Definition stoull (s : str) : res Z :=
  let '(neg, s) := sign (skip_blanks s) in
  let '(v, n, _) := digits s 0 0 in
  if (n =? 0)%nat then Err Thrown
  else if v <? 2 ^ 64 then Ok (u64 (if neg then - v else v)) else Err Thrown.

Definition set_arg (k v : str) (a : EndArgs) : res (option EndArgs) :=
  let '(mkEndArgs id t d m w n b e o) := a in
  if bool_decide (k = s_ "--id") then z ← stoi v; Ok (Some (mkEndArgs z t d m w n b e o))
  else if bool_decide (k = s_ "--topology") then Ok (Some (mkEndArgs id v d m w n b e o))
  else if bool_decide (k = s_ "--data") then Ok (Some (mkEndArgs id t v m w n b e o))
  else if bool_decide (k = s_ "--model") then Ok (Some (mkEndArgs id t d v w n b e o))
  else if bool_decide (k = s_ "--bench-workload") then Ok (Some (mkEndArgs id t d m v n b e o))
  else if bool_decide (k = s_ "--bench-queries") then z ← stoull v; Ok (Some (mkEndArgs id t d m w z b e o))
  else if bool_decide (k = s_ "--bench-wait-ms") then z ← stoi v; Ok (Some (mkEndArgs id t d m w n z e o))
  else if bool_decide (k = s_ "--edge-transport") then Ok (Some (mkEndArgs id t d m w n b (parse_mode v) o))
  else if bool_decide (k = s_ "--rdma-port-offset") then z ← stoi v; Ok (Some (mkEndArgs id t d m w n b e z))
  else Ok None.

(** [argv] without the program name: an option takes the word after it, any other word
    is skipped. *)
Fixpoint end_args (argv : list str) (a : EndArgs) : res EndArgs :=
  match argv with
  | k :: argv' =>
      match argv' with
      | v :: rest =>
          r ← set_arg k v a;
          match r with
          | Some a => end_args rest a
          | None => end_args argv' a
          end
      | [] => Ok a
      end
  | [] => Ok a
  end.

(** ** Sample keys *)

(** Every [step]-th key, at most 1000. *)
Fixpoint sample_keys (items : list (double * Z)) (i step : nat) (room : nat) : list double :=
  match items, room with
  | (k, _) :: items', S room' =>
      if (i mod step =? 0)%nat then k :: sample_keys items' (S i) step room'
      else sample_keys items' (S i) step room
  | _, _ => []
  end.

(** Iteration over tlx's tree yields entries that were inserted. *)
Class BtreeItems (B : Type) `{BtreeMap B} := { items : B -> list (double * Z) }.
Class BtreeItemsLaws (B : Type) `{BtreeItems B} := {
  items_empty : items bt_empty = [];
  items_insert : forall b k v x, x ∈ items (bt_insert b k v) -> x = (k, v) \/ x ∈ items b
}.

Section Main.
Context {B M W : Type} `{BtreeItems B} `{CuckooMap M} `{Transport W}.
Context (fuel : nat) (before_params before_drain : nat -> bool).
(** The [i]-th attempt to connect. *)
Context (dial_tcp : nat -> list Ascii.ascii -> Z -> option W) (dial_errno : nat -> str)
        (dial_rdma : nat -> option (list Ascii.ascii -> Z -> W + str)).

Fixpoint connect_edge (n i : nat) (edge : EdgeInfo) (mode : Mode) (offset : Z) : res (option W) :=
  match n with
  | O => Ok None
  | S n' =>
      '(t, _) ← connect_transport (dial_tcp i) (dial_errno i) (dial_rdma i)
                  (edge_host edge) (edge_port edge) mode offset [];
      match t with
      | Some t => Ok (Some t)
      | None => connect_edge n' (S i) edge mode offset
      end
  end.

Definition fresh_control : Control M := mkControl [] cm_empty (mkEndSnap info0 false).

Definition fresh_node (id : Z) (rm : RangeMap) (st : LocalStore B) (e : option W) : EndNode B M W :=
  mkNode id rm st e fresh_control (mkStats 0 0 0 0) 1.

(** The parameters, for five seconds, then the heartbeat that registers the End. *)
Definition join_edge (n : EndNode B M W) : res (EndNode B M W) :=
  match edge_ n with
  | None => Ok n
  | Some e =>
      '(_, e, c) ← wait_initial_plin_push fuel before_params e (control n);
      '(_, n) ← register_with_edge (with_edge_state n e c (next_id n));
      Ok n
  end.

Definition close_edge (n : EndNode B M W) : EndNode B M W :=
  match edge_ n with
  | None => n
  | Some e => with_edge_state n (t_close e) (control n) (next_id n)
  end.

Definition drain (n : EndNode B M W) (wait_ms : Z) : res (EndNode B M W) :=
  match edge_ n with
  | Some e =>
      if 0 <? wait_ms then
        '(e, c) ← drain_edge_control_frames fuel before_drain e (control n);
        Ok (with_edge_state n e c (next_id n))
      else Ok n
  | None => Ok n
  end.

(** The receiver thread, until the Edge disconnects. *)
Definition receive (n : EndNode B M W) : res (EndNode B M W) :=
  match edge_ n with
  | Some e =>
      '(e, c) ← edge_receiver fuel e (control n) frame0;
      Ok (with_edge_state n e c (next_id n))
  | None => Ok n
  end.

Record EndRun : Type := mkRun {
  run_node : EndNode B M W;
  run_self : nat * option (LookupResult * LookupResult) * option LookupResult;
  run_tally : option Tally
}.

(** What [main] decides before it connects: the exit status, or its topology, its own
    entry, the Edge's entry and its rows. *)
Definition configure (a : EndArgs) (topology : option str) (data : Rows)
  : res (Z + RangeMap * EdgeInfo * LocalStore B) :=
  if arg_id a <=? 0 then Ok (inl 1) else
  match topology with
  | None => Ok (inl 1)
  | Some text =>
      rm ← load text;
      match rm with
      | None => Ok (inl 1)
      | Some rm =>
          match find_first (fun e => end_id e =? arg_id a) (rm_ends rm) with
          | None => Ok (inl 1)
          | Some my_info =>
              match find_first (fun e => edge_id e =? end_edge my_info) (rm_edges rm) with
              | None => Ok (inl 1)
              | Some my_edge =>
                  let st := load_range data (key_lo my_info) (key_hi my_info) in
                  if store_loaded st =? 0 then Ok (inl 1) else Ok (inr (rm, my_edge, st))
              end
          end
      end
  end.

Definition samples_of (st : LocalStore B) : list double :=
  let l := items (btree st) in sample_keys l 0 (Nat.max 1 (length l / 1000)) 1000.

(** The replay of a workload and its exit status. *)
Definition bench (a : EndArgs) (workload : option str) (data : Rows) (n : EndNode B M W)
  : res (Z * EndNode B M W * option Tally) :=
  if bench_queries a =? 0 then Ok (2, close_edge n, None) else
  n ← drain n (bench_wait_ms a);
  match load_benchmark_keys workload data (Z.to_nat (bench_queries a)) with
  | [] => Ok (2, close_edge n, None)
  | keys => '(t, n) ← run_benchmark fuel n keys tally0; Ok (0, close_edge n, Some t)
  end.

Definition end_main (a : EndArgs) (topology : option str) (data : Rows) (workload : option str)
  : res (Z * option EndRun) :=
  c ← configure a topology data;
  match c with
  | inl status => Ok (status, None)
  | inr (rm, edge, st) =>
      e ← connect_edge 20 0 edge (edge_transport_mode a) (rdma_port_offset a);
      n ← join_edge (fresh_node (arg_id a) rm st e);
      '(hits, sib, rem, n) ← self_test fuel n (samples_of st) rm (arg_id a) data;
      match bench_workload_path a with
      | [] =>
          n ← receive n;
          Ok (0, Some (mkRun (close_edge n) (hits, sib, rem) None))
      | _ =>
          '(status, n, t) ← bench a workload data n;
          Ok (status, Some (mkRun n (hits, sib, rem) t))
      end
  end.
End Main.

(** ** An End without its Edge *)

Section Offline.
Context {B M W : Type} `{BtreeItemsLaws B} `{!BtreeMapLaws B} `{CuckooMapLaws M} `{Transport W}.
Context (fuel : nat) (before_params before_drain : nat -> bool).
Context (dial_tcp : nat -> list Ascii.ascii -> Z -> option W) (dial_errno : nat -> str)
        (dial_rdma : nat -> option (list Ascii.ascii -> Z -> W + str)).

Lemma connect_edge_fails n i edge mode offset :
  (forall i host port, dial_tcp i host port = None) -> (mode = TCP \/ forall i, dial_rdma i = None) ->
  connect_edge dial_tcp dial_errno dial_rdma n i edge mode offset = Ok None.
Proof.
  intros Ht Hr. revert i. induction n as [|n IH]; intros i; [done|]. cbn [connect_edge].
  unfold connect_transport. destruct (bool_decide_reflect (mode = TCP)) as [->|Hne]; mstep.
  - rewrite bool_decide_eq_false_2 by done. rewrite Ht. mstep. apply IH.
  - destruct Hr as [->|Hr]; [done|]. rewrite Hr. mstep. destruct (bool_decide (mode = RDMA)); mstep; [apply IH|].
    rewrite Ht. mstep. apply IH.
Qed.

(** The End's own entry, its rows, and a node that has only those. *)
Definition offline (rm : RangeMap) (info : EndInfo) (rows : list (double * Z)) (n : EndNode B M W) : Prop :=
  id_ n = end_id info /\ rm_ n = rm /\ store_ n = load_range (Some rows) (key_lo info) (key_hi info) /\
  edge_ n = None /\ control n = fresh_control.

Record setting (rm : RangeMap) (info : EndInfo) (rows : list (double * Z)) : Prop := {
  se_ranges : ranges_ok (rm_ends rm) = true;
  se_length : Z.of_nat (length (rm_ends rm)) < 2 ^ 30;
  se_info : info ∈ rm_ends rm;
  se_pos : 0 < end_id info;
  se_ids : forall e, e ∈ rm_ends rm -> end_id e = end_id info -> e = info;
  se_rows : Forall (fun r => is_key r.1 = true) rows
}.

Lemma offline_counted rm info rows s n : offline rm info rows n -> offline rm info rows (count_stage s n).
Proof. by intros (? & ? & ? & ? & ?). Qed.

(** One lookup: the key's row when the key is in the End's range, nothing otherwise. *)
Lemma offline_lookup rm info rows n k :
  setting rm info rows -> offline rm info rows n -> is_key k = true ->
  exists r n', lookup fuel n k = Ok (r, n') /\ offline rm info rows n' /\
    found r = in_range k info && bool_decide (is_Some (find_first (fun x => deq x.1 k) rows)).
Proof.
  intros [Hr Hlen Hin Hpos Hids Hrows] Hoff Hk. pose proof Hoff as (Eid & Erm & Est & Ee & Ec).
  destruct (in_range k info) eqn:Eir.
  - rewrite (own_key_find fuel n info rows k) by congruence.
    destruct (find_first (fun x => deq x.1 k) rows) as [x|]; eexists _, _; (split; [done|]);
      (split; [by apply offline_counted|done]).
  - unfold lookup. rewrite Erm, (locate_spec rm k) by done. mstep. rewrite Eid, Ee, Ec.
    destruct (Z.eqb_spec (match find_first (in_range k) (rm_ends rm) with Some e => end_id e | None => -1 end)
      (end_id info)) as [E|E].
    { exfalso. destruct (find_first (in_range k) (rm_ends rm)) as [e|] eqn:Ef; [|lia].
      apply find_first_Some in Ef as (He & Hek). rewrite (Hids e He E) in Hek. congruence. }
    unfold hot_find. cbn [hot_cache fresh_control]. rewrite cm_find_empty.
    destruct (_ && _); eexists _, _; (split; [done|]); (split; [by apply offline_counted|done]).
Qed.

Lemma load_range_nonempty rows lo hi :
  Exists (fun r => within lo hi r.1 = true) rows ->
  store_loaded (load_range (B := B) (Some rows) lo hi) <> 0.
Proof.
  intros Hx. assert (G : forall rows acc, 0 <= store_loaded acc ->
    store_loaded acc <= store_loaded (foldl (fun s r => if within lo hi r.1
      then mkStore (bt_insert (btree s) r.1 r.2) (store_loaded s + 1) else s) acc rows)
    /\ (Exists (fun r => within lo hi r.1 = true) rows ->
        store_loaded acc < store_loaded (foldl (fun s r => if within lo hi r.1
          then mkStore (bt_insert (btree s) r.1 r.2) (store_loaded s + 1) else s) acc rows))).
  { clear. induction rows as [|r rows IH]; intros acc Ha; cbn [foldl]; [split; [lia|by intros ?%Exists_nil]|].
    destruct (within lo hi r.1) eqn:E.
    - destruct (IH (mkStore (bt_insert (btree acc) r.1 r.2) (store_loaded acc + 1))) as [H1 _]; cbn in *; [lia|].
      split; [lia|]. intros _. lia.
    - destruct (IH acc Ha) as [H1 H2]. split; [done|]. intros [Hc|Hc]%Exists_cons; [congruence|]. by apply H2. }
  pose proof (proj2 (G rows (mkStore bt_empty 0) ltac:(cbn; lia)) Hx). unfold load_range. cbn in *. lia.
Qed.

(** Keys of the data file. *)
Definition file_key (rows : list (double * Z)) (k : double) : Prop := k ∈ rows.*1.

Lemma file_key_is_key rows k : Forall (fun r => is_key r.1 = true) rows -> file_key rows k -> is_key k = true.
Proof. intros Hr (r & -> & Hin)%list_elem_of_fmap. by apply (proj1 (Forall_forall _ _) Hr). Qed.

Lemma first_in_range_key rows lo hi k : first_in_range rows lo hi = Some k -> file_key rows k.
Proof.
  unfold file_key. induction rows as [|r rows IH]; cbn; [done|]. destruct (within lo hi r.1).
  - intros [= ->]. by apply elem_of_cons; left.
  - destruct (dlt hi r.1); [done|]. intros Hk. apply elem_of_cons. right. by apply IH.
Qed.

Lemma head_omap_some {A C} (f : A -> option C) l x : head (omap f l) = Some x -> exists a, a ∈ l /\ f a = Some x.
Proof.
  induction l as [|a l IH]; cbn; [done|]. destruct (f a) as [y|] eqn:E; cbn.
  - intros [= ->]. exists a. split; [by apply elem_of_cons; left|done].
  - intros Hh. destruct (IH Hh) as (b & Hb & Eb). exists b. split; [by apply elem_of_cons; right|done].
Qed.

Lemma sibling_key_file rm id rows k : sibling_key rm id (Some rows) = Some k -> file_key rows k.
Proof.
  intros (sid & _ & (e & _ & E)%head_omap_some)%head_omap_some. destruct (end_id e =? sid); [|done].
  by eapply first_in_range_key.
Qed.
Lemma remote_key_file rm id rows k : remote_key rm id (Some rows) = Some k -> file_key rows k.
Proof.
  intros (e & _ & E)%head_omap_some. destruct (negb _); [|done]. by eapply first_in_range_key.
Qed.

Lemma benchmark_keys_file workload rows limit :
  Forall (file_key rows) (load_benchmark_keys workload (Some rows) limit).
Proof.
  apply Forall_forall. intros k Hk. unfold load_benchmark_keys in Hk.
  assert (Hk' : exists ps, k ∈ resolve_positions_to_keys (Some rows) ps).
  { destruct (load_workload_positions workload limit); [by apply elem_of_nil in Hk|by eexists]. }
  destruct Hk' as [ps Hps]. rewrite resolve_spec in Hps.
  apply list_elem_of_omap in Hps as (p & _ & Hp). destruct (0 <? p); [|done].
  unfold zlookup in Hp. destruct (_ <? 0); [done|]. unfold file_key.
  destruct (rows !! Z.to_nat (p - 1)) as [r|] eqn:Er; [|done]. injection Hp as <-.
  apply list_elem_of_fmap. exists r. split; [done|]. by eapply list_elem_of_lookup_2.
Qed.

Lemma load_range_items rows lo hi x : x ∈ items (btree (load_range (B := B) (Some rows) lo hi)) -> x ∈ rows.
Proof.
  unfold load_range. assert (G : forall acc, x ∈ items (btree (foldl (fun s r =>
        if within lo hi r.1
        then mkStore (bt_insert (btree s) r.1 r.2) (store_loaded s + 1) else s) acc rows)) ->
    x ∈ items (btree acc) \/ x ∈ rows).
  { induction rows as [|r rows IH]; intros acc; cbn; [by left|]. intros Hx%IH. rewrite elem_of_cons.
    destruct Hx as [Hx|Hx]; [|by auto]. destruct (within lo hi r.1); [|by auto].
    cbn in Hx. apply items_insert in Hx as [->|Hx]; [|by auto]. right; left. by destruct r. }
  intros [Hx|Hx]%G; [|done]. cbn in Hx. rewrite items_empty in Hx. by apply elem_of_nil in Hx.
Qed.

Lemma sample_keys_file rows step l i room :
  (forall x, x ∈ l -> x ∈ rows) -> Forall (file_key rows) (sample_keys l i step room).
Proof.
  revert i room. induction l as [|[k v] l IH]; intros i [|room] Hl; cbn; try done.
  assert (Hl' : forall x, x ∈ l -> x ∈ rows) by (intros x Hx; apply Hl; by apply elem_of_cons; right).
  destruct (_ =? _)%nat; [constructor|]; [|by apply IH..].
  apply list_elem_of_fmap. exists (k, v). split; [done|]. apply Hl. by apply elem_of_cons; left.
Qed.

(** The key of a row is found, offline, exactly when it is in the End's range. *)
Lemma offline_file_key rm info rows n k :
  setting rm info rows -> offline rm info rows n -> file_key rows k ->
  exists r n', lookup fuel n k = Ok (r, n') /\ offline rm info rows n' /\ found r = in_range k info.
Proof.
  intros Hs Hn Hk. pose proof (file_key_is_key rows k (se_rows _ _ _ Hs) Hk) as Hkey.
  destruct (offline_lookup rm info rows n k Hs Hn Hkey) as (r & n' & E & Hn' & Hf). exists r, n'.
  split; [done|]. split; [done|]. rewrite Hf, bool_decide_eq_true_2; [by rewrite andb_true_r|].
  destruct (find_first _ rows) as [x|] eqn:Ef; [done|]. exfalso.
  apply list_elem_of_fmap in Hk as (x & -> & Hx).
  pose proof (proj1 (Forall_forall _ _) (proj1 (find_first_None _ _) Ef) x Hx) as Hd. cbn in Hd.
  rewrite deq_rank in Hd by done. lia.
Qed.

Lemma offline_hits rm info rows n keys hits :
  setting rm info rows -> offline rm info rows n -> Forall (file_key rows) keys ->
  exists h n', local_hits fuel n keys hits = Ok (h, n') /\ offline rm info rows n'.
Proof.
  intros Hs Hn Hk. revert n hits Hn. induction Hk as [|k keys Hk _ IH]; intros n hits Hn; [by eexists _, _|].
  cbn [local_hits]. destruct (offline_file_key rm info rows n k Hs Hn Hk) as (r & n' & -> & Hn' & _). mstep.
  by apply IH.
Qed.

Lemma offline_run rm info rows n keys t :
  setting rm info rows -> offline rm info rows n -> Forall (file_key rows) keys ->
  exists t' n', run_benchmark fuel n keys t = Ok (t', n') /\ offline rm info rows n' /\
    t_found t' = (t_found t + length (filter (fun k => in_range k info = true) keys))%nat.
Proof.
  intros Hs Hn Hk. revert n t Hn. induction Hk as [|k keys Hk _ IH]; intros n t Hn.
  { eexists _, _. split; [done|]. split; [done|]. cbn. lia. }
  cbn [run_benchmark]. destruct (offline_file_key rm info rows n k Hs Hn Hk) as (r & n1 & -> & Hn1 & Hf). mstep.
  destruct (IH n1 (tally r t) Hn1) as (t' & n' & -> & Hn' & Ht). exists t', n'. split; [done|]. split; [done|].
  rewrite Ht. unfold tally. cbn [t_found]. rewrite Hf, filter_cons. destruct (in_range k info) eqn:E.
  - rewrite decide_True by done. cbn [length]. lia.
  - rewrite decide_False by done. lia.
Qed.

Lemma offline_self_test rm info rows n ks :
  setting rm info rows -> offline rm info rows n -> Forall (file_key rows) ks ->
  exists h s r n', self_test fuel n ks rm (end_id info) (Some rows) = Ok (h, s, r, n') /\ offline rm info rows n'.
Proof.
  intros Hs Hn Hk. unfold self_test. destruct (offline_hits rm info rows n ks 0 Hs Hn Hk) as (h & n1 & -> & Hn1). mstep.
  destruct (sibling_key _ _ _) as [k|] eqn:E; mstep;
    [apply sibling_key_file in E;
     destruct (offline_file_key rm info rows n1 k Hs Hn1 E) as (r1 & n2 & -> & Hn2 & _); mstep;
     destruct (offline_file_key rm info rows n2 k Hs Hn2 E) as (r2 & n3 & -> & Hn3 & _); mstep
    |rename n1 into n3, Hn1 into Hn3].
  all: destruct (remote_key _ _ _) as [k'|] eqn:E'; [|by eexists _, _, _, _]; apply remote_key_file in E';
    destruct (offline_file_key rm info rows n3 k' Hs Hn3 E') as (r & n' & -> & Hn' & _); mstep; by eexists _, _, _, _.
Qed.

End Offline.

(** C33: an End that never reaches its Edge still starts, tests itself and replays the
    workload to the end with status 0: it finds exactly the keys of its own range and
    answers every other request "not found", without a fault. *)
Theorem offline_end_serves_its_range {B M W} `{BtreeItemsLaws B} `{!BtreeMapLaws B} `{CuckooMapLaws M}
    `{Transport W} (fuel : nat) (before_params before_drain : nat -> bool)
    (dial_tcp : nat -> list Ascii.ascii -> Z -> option W) (dial_errno : nat -> str)
    (dial_rdma : nat -> option (list Ascii.ascii -> Z -> W + str))
    (a : EndArgs) (topology : str) (rows : list (double * Z)) (workload : str)
    (rm : RangeMap) (info : EndInfo) (edge : EdgeInfo) :
  (forall i host port, dial_tcp i host port = None) ->
  (edge_transport_mode a = TCP \/ forall i, dial_rdma i = None) ->
  load topology = Ok (Some rm) -> setting rm info rows -> arg_id a = end_id info ->
  find_first (fun e => edge_id e =? end_edge info) (rm_edges rm) = Some edge ->
  Exists (fun r => within (key_lo info) (key_hi info) r.1 = true) rows ->
  bench_workload_path a <> [] -> 0 < bench_queries a ->
  load_benchmark_keys (Some workload) (Some rows) (Z.to_nat (bench_queries a)) <> [] ->
  exists run t,
    end_main (B := B) (M := M) fuel before_params before_drain dial_tcp dial_errno dial_rdma a
      (Some topology) (Some rows) (Some workload) = Ok (0, Some run) /\
    run_tally run = Some t /\
    t_found t = length (filter (fun k => in_range k info = true)
      (load_benchmark_keys (Some workload) (Some rows) (Z.to_nat (bench_queries a)))).
Proof.
  intros Ht Hr Hload Hs Hid Hedge Hrows Hpath Hq Hkeys.
  assert (Hinfo : find_first (fun e => end_id e =? arg_id a) (rm_ends rm) = Some info).
  { destruct (find_first (fun e => end_id e =? arg_id a) (rm_ends rm)) as [e|] eqn:E.
    - apply find_first_Some in E as (He & Hide). zb. f_equal. apply (se_ids _ _ _ Hs); [done|lia].
    - apply find_first_None in E. pose proof (proj1 (Forall_forall _ _) E info (se_info _ _ _ Hs)) as Hf.
      cbn in Hf. rewrite Hid, Z.eqb_refl in Hf. done. }
  pose proof (se_pos _ _ _ Hs) as Hpos.
  assert (Hcfg : configure (B := B) a (Some topology) (Some rows) =
    Ok (inr (rm, edge, load_range (Some rows) (key_lo info) (key_hi info)))).
  { unfold configure. rewrite (proj2 (Z.leb_gt _ _)) by lia. rewrite Hload. mstep. rewrite Hinfo, Hedge.
    pose proof (load_range_nonempty (B := B) rows (key_lo info) (key_hi info) Hrows) as Hne%Z.eqb_neq. by rewrite Hne. }
  unfold end_main. rewrite Hcfg. mstep. rewrite connect_edge_fails by done. mstep.
  unfold join_edge. cbn [edge_ fresh_node]. mstep.
  assert (Hoff : offline (B := B) (M := M) (W := W) rm info rows
    (fresh_node (arg_id a) rm (load_range (Some rows) (key_lo info) (key_hi info)) None)).
  { unfold offline, fresh_node. cbn. by rewrite Hid. }
  rewrite Hid in *.
  destruct (offline_self_test fuel rm info rows _ (samples_of (load_range (B := B) (Some rows) (key_lo info) (key_hi info)))
    Hs Hoff) as (h & s & r & n1 & -> & Hn1).
  { apply sample_keys_file. intros x. apply load_range_items. }
  mstep. destruct (bench_workload_path a) as [|c path]; [done|]. unfold bench.
  rewrite (proj2 (Z.eqb_neq _ _)) by lia. unfold drain.
  assert (Ee : edge_ n1 = None) by (by destruct Hn1 as (_ & _ & _ & E & _)). rewrite Ee. mstep.
  pose proof (benchmark_keys_file (Some workload) rows (Z.to_nat (bench_queries a))) as Hfk.
  destruct (load_benchmark_keys (Some workload) (Some rows) (Z.to_nat (bench_queries a))) as [|k ks] eqn:Ek; [done|].
  destruct (offline_run fuel rm info rows n1 (k :: ks) tally0 Hs Hn1 Hfk) as (t & n2 & -> & _ & Htf). mstep.
  eexists _, t. split; [done|]. split; [done|]. exact Htf.
Qed.

(** ** A run *)

#[export] Instance keyed_items : BtreeItems KeyedList.t := { items := fun l => l }.
#[export] Instance keyed_items_laws : BtreeItemsLaws KeyedList.t.
Proof.
  split; [done|]. intros b k v x. cbn. rewrite elem_of_app, list_elem_of_singleton. tauto.
Defined.

(** End 2 with a file of six rows replays five requests, one of them past the file. *)
Definition demo_end_args : EndArgs :=
  mkEndArgs 2 (s_ "t.yaml") (s_ "d.txt") [] (s_ "w.csv") 9 0 TCP 1000.
Definition nl : Ascii.ascii := Ascii.ascii_of_nat 10.
Definition demo_workload : str :=
  s_ "timestamp,device_id,key,operation" ++ nl :: s_ "0.5,2,2,find" ++ nl :: s_ "0.75,1,1,find" ++
  nl :: s_ "0.8,2,2,find" ++ nl :: s_ "1.5,2,40,find" ++ nl :: s_ "2.5,2,3,find" ++ [nl].
Definition no_dial (i : nat) (host : list Ascii.ascii) (port : Z) : option Pipe.pipe := None.

Lemma demo_setting : setting shipped_map (shipped_end 1) demo_file.
Proof.
  split.
  - vm_compute. reflexivity.
  - vm_compute. reflexivity.
  - apply list_elem_of_lookup. exists 1%nat. vm_compute. reflexivity.
  - vm_compute. reflexivity.
  - intros e [i Hi]%list_elem_of_lookup He.
    assert (Hn : (i < 10)%nat) by (apply lookup_lt_Some in Hi; exact Hi).
    do 10 (destruct i as [|i]; [vm_compute in Hi; injection Hi as <-; vm_compute in He; first [discriminate He | vm_compute; reflexivity]|]).
    lia.
  - vm_compute. repeat constructor.
Qed.

Lemma offline_end_serves_its_range_witness :
  exists run t, end_main (B := KeyedList.t) (M := KeyedList.t) 9 (fun _ => true) (fun _ => true) no_dial (fun _ => [])
      (fun _ => None) demo_end_args (Some (s_ topology_yaml)) (Some demo_file) (Some demo_workload) = Ok (0, Some run) /\
    run_tally run = Some t /\ t_found t = 3%nat.
Proof.
  destruct (offline_end_serves_its_range (B := KeyedList.t) (M := KeyedList.t) 9 (fun _ => true) (fun _ => true)
    no_dial (fun _ => []) (fun _ => None) demo_end_args (s_ topology_yaml) demo_file demo_workload shipped_map
    (shipped_end 1) (default (mkEdge 0 [] 0 []) (rm_edges shipped_map !! 0%nat))) as (run & t & H1 & H2 & H3).
  - reflexivity.
  - left. reflexivity.
  - vm_compute. reflexivity.
  - apply demo_setting.
  - vm_compute. reflexivity.
  - vm_compute. reflexivity.
  - apply Exists_exists. exists (double_of_Z (-9000000000), -8999999993).
    split; [apply list_elem_of_lookup; exists 1%nat|]; vm_compute; reflexivity.
  - discriminate.
  - vm_compute. reflexivity.
  - vm_compute. discriminate.
  - exists run, t. split; [exact H1|]. split; [exact H2|]. rewrite H3. vm_compute. reflexivity.
Defined.
