(* ===== verification/Segmentation.v ===== *)
(** * Piecewise linear segmentation (core/index/piecewise_linear_model.h)

    [OptimalPiecewiseLinearModel] keeps the two convex hulls and the rectangle of
    extreme points of the points seen so far; [make_segmentation] feeds it the
    keys and closes a segment each time a point does not fit.  The slopes are
    [long double] times [__int128]: every product and comparison goes through the
    arithmetic of the class [Arith], whose instance [x87] is the program's.  The
    theorems hold for any arithmetic: rounding can make a segment shorter or
    longer, and never loses a key.  [__int128] values are exact: positions and
    the error bound are below [2 ^ 64]. *)

From S2P Require Import Prelude Doubles.
From Stdlib Require Import SpecFloat.

(** ** Arithmetic of slopes *)

Class Arith (T : Type) := {
  ar_key : double -> T;
  ar_int : Z -> T;
  ar_add : T -> T -> T;
  ar_sub : T -> T -> T;
  ar_mul : T -> T -> T;
  ar_div : T -> T -> T;
  ar_lt : T -> T -> bool;
  ar_eq : T -> T -> bool
}.

(** x87 extended precision: 64 bits of mantissa. *)
#[export] Instance x87 : Arith long_double := {|
  ar_key := refloat 64 16384;
  ar_int z := binary_normalize 64 16384 z 0 false;
  ar_add := SFadd 64 16384;
  ar_sub := SFsub 64 16384;
  ar_mul := SFmul 64 16384;
  ar_div := SFdiv 64 16384;
  ar_lt := SFltb;
  ar_eq := SFeqb
|}.

Definition double_of_long_double (x : long_double) : double := refloat 53 1024 x.

Section Model.
Context {T : Type} `{Arith T}.

Record Slope : Type := mkSlope { dx : T; dy : Z }.
Record StoredPoint : Type := mkStored { sx : double; sy : Z }.
Record Point : Type := mkPoint { px : double; py : Z }.

Definition slope_lt (s p : Slope) : bool :=
  ar_lt (ar_mul (ar_int (dy s)) (dx p)) (ar_mul (dx s) (ar_int (dy p))).
Definition slope_gt (s p : Slope) : bool :=
  ar_lt (ar_mul (dx s) (ar_int (dy p))) (ar_mul (ar_int (dy s)) (dx p)).
Definition slope_eq (s p : Slope) : bool :=
  ar_eq (ar_mul (ar_int (dy s)) (dx p)) (ar_mul (dx s) (ar_int (dy p))).
Definition slope_value (s : Slope) : T := ar_div (ar_int (dy s)) (dx s).

(** [Point::operator-] *)
Definition point_sub (q p : Point) : Slope :=
  mkSlope (ar_sub (ar_key (px q)) (ar_key (px p))) (py q - py p).

(** [Hull::operator[]]: [shift] is [epsilon] for the upper hull, [-epsilon] for
    the lower one. *)
Definition hull_at (shift : Z) (h : list StoredPoint) (i : nat) : res Point :=
  p ← of_opt UB (h !! i); Ok (mkPoint (sx p) (sy p + shift)).

Record Opl : Type := mkOpl {
  epsilon : Z;
  lower : list StoredPoint;
  upper : list StoredPoint;
  first_x : double;
  last_x : double;
  lower_start : nat;
  upper_start : nat;
  points_in_hull : nat;
  r0 : Point; r1 : Point; r2 : Point; r3 : Point
}.

(** [OptimalPiecewiseLinearModel(epsilon)]: [Y] is unsigned, the constructor
    cannot throw. *)
Definition new_opl (eps : Z) : Opl :=
  let z := mkPoint (double_of_Z 0) 0 in
  mkOpl eps [] [] (double_of_Z 0) (double_of_Z 0) 0 0 0 z z z z.

Definition cross (O A B : Point) : T :=
  let OA := point_sub A O in
  let OB := point_sub B O in
  ar_sub (ar_mul (dx OA) (ar_int (dy OB))) (ar_mul (ar_int (dy OA)) (dx OB)).

(** The scan for the extreme slope: [worse val best] ends it. *)
Fixpoint extreme (n : nat) (worse : Slope -> Slope -> bool) (shift : Z)
    (h : list StoredPoint) (p : Point) (i best_i : nat) (best : Slope) : res nat :=
  match n with
  | O => Ok best_i
  | S n' =>
      q ← hull_at shift h i;
      let val := point_sub q p in
      if worse val best then Ok best_i
      else extreme n' worse shift h p (S i) i val
  end.

Definition extreme_slope (worse : Slope -> Slope -> bool) (shift : Z)
    (h : list StoredPoint) (start : nat) (p : Point) : res nat :=
  q ← hull_at shift h start;
  extreme (length h - S start) worse shift h p (S start) start (point_sub q p).

(** The loop that pops the hull while the last turn is not strict: [drop_last c]
    tests the cross product; the result is the new size [end]. *)
Fixpoint hull_end (drop_last : T -> bool) (shift : Z) (h : list StoredPoint)
    (start : nat) (p : Point) (e : nat) : res nat :=
  if (e <? start + 2)%nat then Ok e
  else
    match e with
    | O => Ok e
    | S e' =>
        a ← hull_at shift h (e - 2);
        b ← hull_at shift h (e - 1);
        if drop_last (cross a b p) then hull_end drop_last shift h start p e' else Ok e
    end.

Definition le0 (c : T) : bool := ar_lt c (ar_int 0) || ar_eq c (ar_int 0).
Definition ge0 (c : T) : bool := ar_lt (ar_int 0) c || ar_eq c (ar_int 0).

(** [if (p1 - rectangle[1] < slope2) { ... }] *)
Definition update_upper (m : Opl) (x : double) (y : Z) (p1 : Point) (slope2 : Slope) : res Opl :=
  if slope_lt (point_sub p1 (r1 m)) slope2 then
    min_i ← extreme_slope slope_gt (- epsilon m) (lower m) (lower_start m) p1;
    q ← hull_at (- epsilon m) (lower m) min_i;
    e ← hull_end le0 (epsilon m) (upper m) (upper_start m) p1 (length (upper m));
    Ok (mkOpl (epsilon m) (lower m) (take e (upper m) ++ [mkStored x y])
          (first_x m) (last_x m) min_i (upper_start m) (points_in_hull m)
          (r0 m) q (r2 m) p1)
  else Ok m.

(** [if (p2 - rectangle[0] > slope1) { ... }] *)
Definition update_lower (m : Opl) (x : double) (y : Z) (p2 : Point) (slope1 : Slope) : res Opl :=
  if slope_gt (point_sub p2 (r0 m)) slope1 then
    max_i ← extreme_slope slope_lt (epsilon m) (upper m) (upper_start m) p2;
    q ← hull_at (epsilon m) (upper m) max_i;
    e ← hull_end ge0 (- epsilon m) (lower m) (lower_start m) p2 (length (lower m));
    Ok (mkOpl (epsilon m) (take e (lower m) ++ [mkStored x y]) (upper m)
          (first_x m) (last_x m) (lower_start m) max_i (points_in_hull m)
          q (r1 m) p2 (r3 m))
  else Ok m.

Definition set_last (m : Opl) (x : double) : Opl :=
  mkOpl (epsilon m) (lower m) (upper m) (first_x m) x (lower_start m) (upper_start m)
    (points_in_hull m) (r0 m) (r1 m) (r2 m) (r3 m).
Definition set_points (m : Opl) (n : nat) : Opl :=
  mkOpl (epsilon m) (lower m) (upper m) (first_x m) (last_x m) (lower_start m)
    (upper_start m) n (r0 m) (r1 m) (r2 m) (r3 m).

Definition add_point (m : Opl) (x : double) (y : Z) : res (bool * Opl) :=
  if (0 <? points_in_hull m)%nat && dle x (last_x m) then Err Thrown
  else
    let m := set_last m x in
    let p1 := mkPoint x (y + epsilon m) in
    let p2 := mkPoint x (y - epsilon m) in
    match points_in_hull m with
    | 0%nat =>
        Ok (true, mkOpl (epsilon m) [mkStored x y] [mkStored x y] x x 0 0 1
                    p1 p2 (r2 m) (r3 m))
    | 1%nat =>
        Ok (true, mkOpl (epsilon m) (lower m ++ [mkStored x y]) (upper m ++ [mkStored x y])
                    (first_x m) x (lower_start m) (upper_start m) 2 (r0 m) (r1 m) p2 p1)
    | n =>
        let slope1 := point_sub (r2 m) (r0 m) in
        let slope2 := point_sub (r3 m) (r1 m) in
        let outside_line1 := slope_lt (point_sub p1 (r2 m)) slope1 in
        let outside_line2 := slope_gt (point_sub p2 (r3 m)) slope2 in
        if outside_line1 || outside_line2 then Ok (false, set_points m 0)
        else
          m ← update_upper m x y p1 slope2;
          m ← update_lower m x y p2 slope1;
          Ok (true, set_points m (S n))
    end.

(** ** CanonicalSegment *)

Record CanonicalSegment : Type := mkSeg {
  c0 : Point; c1 : Point; c2 : Point; c3 : Point;
  first : double;
  number : Z
}.

Definition get_segment (m : Opl) (n : Z) : CanonicalSegment :=
  if (points_in_hull m =? 1)%nat then mkSeg (r0 m) (r1 m) (r0 m) (r1 m) (first_x m) 1
  else mkSeg (r0 m) (r1 m) (r2 m) (r3 m) (first_x m) n.

Definition one_point (c : CanonicalSegment) : bool :=
  deq (px (c0 c)) (px (c2 c)) && (py (c0 c) =? py (c2 c)) &&
  deq (px (c1 c)) (px (c3 c)) && (py (c1 c) =? py (c3 c)).

Definition get_slope_range (c : CanonicalSegment) : T * T :=
  if one_point c then (ar_int 0, ar_int 1)
  else (slope_value (point_sub (c2 c) (c0 c)), slope_value (point_sub (c3 c) (c1 c))).

Definition get_intersection (c : CanonicalSegment) : T * T :=
  let slope1 := point_sub (c2 c) (c0 c) in
  let slope2 := point_sub (c3 c) (c1 c) in
  if one_point c || slope_eq slope1 slope2 then (ar_key (px (c0 c)), ar_int (py (c0 c)))
  else
    let p0p1 := point_sub (c1 c) (c0 c) in
    let a := ar_sub (ar_mul (dx slope1) (ar_int (dy slope2)))
                    (ar_mul (ar_int (dy slope1)) (dx slope2)) in
    let b := ar_div (ar_sub (ar_mul (dx p0p1) (ar_int (dy slope2)))
                            (ar_mul (ar_int (dy p0p1)) (dx slope2))) a in
    (ar_add (ar_key (px (c0 c))) (ar_mul b (dx slope1)),
     ar_add (ar_int (py (c0 c))) (ar_mul b (ar_int (dy slope1)))).

Definition get_floating_point_segment (c : CanonicalSegment) (origin : double) : T * T :=
  if one_point c then (ar_int 0, ar_int (cdiv (py (c0 c) + py (c1 c)) 2))
  else
    let '(i_x, i_y) := get_intersection c in
    let '(min_slope, max_slope) := get_slope_range c in
    let slope := ar_div (ar_add min_slope max_slope) (ar_int 2) in
    (slope, ar_sub i_y (ar_mul (ar_sub i_x (ar_key origin)) slope)).

(** ** make_segmentation *)

Section Loop.
(** [in] *)
Variable input : nat -> res (double * Z).

(** The state of the loop: [i], [start], [p.first], the model and the segments
    pushed so far (their number is [c]). *)
Fixpoint segment_loop (fuel n i start : nat) (p : double) (m : Opl)
    (out : list CanonicalSegment) : res (list CanonicalSegment) :=
  match fuel with
  | O => Err OutOfFuel
  | S fuel' =>
      if (i <? n)%nat then
        next_p ← input i;
        if negb (i =? start)%nat && deq (next_p.1) p
        then segment_loop fuel' n (S i) start p m out
        else
          '(fits, m) ← add_point m next_p.1 next_p.2;
          if (fits : bool) then segment_loop fuel' n (S i) start next_p.1 m out
          else segment_loop fuel' n i i next_p.1 m
                 (out ++ [get_segment m (Z.of_nat (i - start))])
      else Ok (out ++ [get_segment m (Z.of_nat (n - start))])
  end.

(** Returns the count of segments and the segments passed to [out].  A point
    is offered at most twice, so [2 n] iterations are enough. *)
Definition make_segmentation (n : nat) (eps : Z) : res (nat * list CanonicalSegment) :=
  match n with
  | O => Ok (0%nat, [])
  | _ =>
      p ← input 0;
      '(_, m) ← add_point (new_opl eps) p.1 p.2;
      segs ← segment_loop (S (2 * n)) n 1 0 p.1 m [];
      Ok (length segs, segs)
  end.
End Loop.
End Model.
Arguments Opl : clear implicits.

(** The input of every caller: the keys with their positions. *)
Definition in_fun (keys : list double) (i : nat) : res (double * Z) :=
  k ← of_opt UB (keys !! i); Ok (k, Z.of_nat i).

Lemma in_fun_lookup keys i k : keys !! i = Some k -> in_fun keys i = Ok (k, Z.of_nat i).
Proof. intros H. unfold in_fun. by rewrite H. Qed.

(** ** The model never leaves its hulls *)

Section Safety.
Context {T : Type} `{Arith T}.

Definition opl_ok (m : Opl) : Prop :=
  points_in_hull m = 0%nat \/
  (points_in_hull m = 1%nat /\ length (lower m) = 1%nat /\ length (upper m) = 1%nat /\
   lower_start m = 0%nat /\ upper_start m = 0%nat) \/
  ((2 <= points_in_hull m)%nat /\ (lower_start m < length (lower m))%nat /\
   (upper_start m < length (upper m))%nat).

Lemma hull_at_ok shift h i : (i < length h)%nat -> exists q, hull_at shift h i = Ok q.
Proof.
  intros Hi. unfold hull_at. destruct (lookup_lt_is_Some_2 h i Hi) as [q ->]. cbn. eauto.
Qed.

Lemma extreme_ok n worse shift h p i bi best :
  (i + n <= length h)%nat -> (bi < length h)%nat ->
  exists k, extreme n worse shift h p i bi best = Ok k /\ (k < length h)%nat.
Proof.
  revert i bi best; induction n as [|n IH]; intros i bi best Hi Hb; cbn [extreme]; [eauto|].
  destruct (hull_at_ok shift h i ltac:(lia)) as [q ->]. mstep.
  destruct (worse _ _); [eauto|]. apply IH; lia.
Qed.

Lemma extreme_slope_ok worse shift h start p :
  (start < length h)%nat ->
  exists k, extreme_slope worse shift h start p = Ok k /\ (k < length h)%nat.
Proof.
  intros Hs. unfold extreme_slope. destruct (hull_at_ok shift h start Hs) as [q ->]. mstep.
  apply extreme_ok; lia.
Qed.

Lemma hull_end_ok drop shift h start p e :
  (start < e <= length h)%nat ->
  exists e', hull_end drop shift h start p e = Ok e' /\ (start < e' <= length h)%nat.
Proof.
  induction e as [|e IH]; intros He; cbn [hull_end].
  { lia. }
  destruct (Nat.ltb_spec (S e) (start + 2)); [eauto|].
  destruct (hull_at_ok shift h (S e - 2) ltac:(lia)) as [a ->]. mstep.
  destruct (hull_at_ok shift h (S e - 1) ltac:(lia)) as [b ->]. mstep.
  destruct (drop _); [apply IH; lia|eauto].
Qed.

Lemma update_upper_ok m x y p1 s2 :
  (lower_start m < length (lower m))%nat -> (upper_start m < length (upper m))%nat ->
  exists m', update_upper m x y p1 s2 = Ok m' /\
    (lower_start m' < length (lower m'))%nat /\ (upper_start m' < length (upper m'))%nat /\
    first_x m' = first_x m /\ last_x m' = last_x m /\ epsilon m' = epsilon m.
Proof.
  intros Hl Hu. unfold update_upper. destruct (slope_lt _ _); [|eauto 10].
  destruct (extreme_slope_ok slope_gt (- epsilon m) (lower m) (lower_start m) p1 Hl)
    as (k & -> & Hk). mstep.
  destruct (hull_at_ok (- epsilon m) (lower m) k Hk) as [q ->]. mstep.
  destruct (hull_end_ok le0 (epsilon m) (upper m) (upper_start m) p1 (length (upper m)))
    as (e & -> & He); [lia|]. mstep.
  eexists; split; [done|]. cbn. rewrite length_app, length_take. cbn. split_and!; (done || lia).
Qed.

Lemma update_lower_ok m x y p2 s1 :
  (lower_start m < length (lower m))%nat -> (upper_start m < length (upper m))%nat ->
  exists m', update_lower m x y p2 s1 = Ok m' /\
    (lower_start m' < length (lower m'))%nat /\ (upper_start m' < length (upper m'))%nat /\
    first_x m' = first_x m /\ last_x m' = last_x m /\ epsilon m' = epsilon m.
Proof.
  intros Hl Hu. unfold update_lower. destruct (slope_gt _ _); [|eauto 10].
  destruct (extreme_slope_ok slope_lt (epsilon m) (upper m) (upper_start m) p2 Hu)
    as (k & -> & Hk). mstep.
  destruct (hull_at_ok (epsilon m) (upper m) k Hk) as [q ->]. mstep.
  destruct (hull_end_ok ge0 (- epsilon m) (lower m) (lower_start m) p2 (length (lower m)))
    as (e & -> & He); [lia|]. mstep.
  eexists; split; [done|]. cbn. rewrite length_app, length_take. cbn. split_and!; (done || lia).
Qed.

(** What a point that is not refused does to the model. *)
Lemma add_point_ok m x y :
  opl_ok m -> points_in_hull m = 0%nat \/ dle x (last_x m) = false ->
  exists b m', add_point m x y = Ok (b, m') /\ opl_ok m' /\ last_x m' = x /\
    epsilon m' = epsilon m /\
    (b = false -> points_in_hull m' = 0%nat /\ (2 <= points_in_hull m)%nat /\
                  first_x m' = first_x m) /\
    (b = true -> points_in_hull m' = S (points_in_hull m) /\
                 first_x m' = if (points_in_hull m =? 0)%nat then x else first_x m).
Proof.
  intros Hok Hx. unfold add_point.
  assert ((0 <? points_in_hull m)%nat && dle x (last_x m) = false) as ->.
  { destruct Hx as [-> | ->]; [done|by destruct (0 <? _)%nat]. }
  cbn [points_in_hull set_last].
  destruct (points_in_hull m) as [|[|k]] eqn:E.
  - eexists _, _; split; [done|]. cbn. split_and!; try done. right; left. done.
  - destruct Hok as [?|[(_ & H1 & H2 & H3 & H4)|(?&?)]]; [congruence| |lia].
    eexists _, _; split; [done|]. cbn. split_and!; try done. right; right. cbn.
    rewrite !length_app. cbn. lia.
  - destruct Hok as [?|[(?&_)|(_ & Hl & Hu)]]; [congruence|congruence|].
    destruct (slope_lt _ _ || slope_gt _ _).
    + eexists _, _; split; [done|]. cbn. split_and!; try done; [by left|].
      intros _. split_and!; (done || lia).
    + pose (m1 := set_last m x). fold m1.
      destruct (update_upper_ok m1 x y (mkPoint x (y + epsilon m1)) (point_sub (r3 m1) (r1 m1)))
        as (m2 & -> & Hl2 & Hu2 & F2 & L2 & E2); [done..|]. mstep.
      destruct (update_lower_ok m2 x y (mkPoint x (y - epsilon m1)) (point_sub (r2 m1) (r0 m1)))
        as (m3 & -> & Hl3 & Hu3 & F3 & L3 & E3); [done..|]. mstep.
      eexists _, _; split; [done|]. cbn. split_and!.
      * right; right. cbn. lia.
      * by rewrite L3, L2.
      * by rewrite E3, E2.
      * done.
      * intros _. split; [done|]. by rewrite F3, F2.
Qed.
End Safety.

(** ** The segments tile the keys *)

Section Tiling.
Context {T : Type} `{Arith T}.
Variable keys : list double.

(** Consecutive segments from position [s] to position [e]: each is not empty
    and starts with the key at its position. *)
Fixpoint tiles (s e : nat) (segs : list CanonicalSegment) : Prop :=
  match segs with
  | [] => s = e
  | c :: cs => 0 < number c /\ keys !! s = Some (first c) /\
               tiles (s + Z.to_nat (number c)) e cs
  end.

Lemma tiles_app s e e' segs c :
  tiles s e segs -> keys !! e = Some (first c) -> 0 < number c ->
  e' = (e + Z.to_nat (number c))%nat -> tiles s e' (segs ++ [c]).
Proof.
  revert s; induction segs as [|d segs IH]; intros s Ht Hk Hn ->; cbn in *.
  - subst. auto.
  - destruct Ht as (? & ? & ?). split_and!; try done. by apply IH.
Qed.

Definition nondecreasing : Prop :=
  Forall (fun k => is_key k = true) keys /\
  forall i k k', keys !! i = Some k -> keys !! S i = Some k' -> rank k <= rank k'.

Definition increasing : Prop :=
  Forall (fun k => is_key k = true) keys /\
  forall i k k', keys !! i = Some k -> keys !! S i = Some k' -> rank k < rank k'.

(** The keys of positions [s, e) are all equal. *)
Definition constant_run (s e : nat) : Prop :=
  forall i k k', (s <= i < e)%nat -> keys !! s = Some k -> keys !! i = Some k' -> rank k' = rank k.

(** The loop: [Restart] after a point was refused, [Inside] a segment. *)
Inductive loop_inv (i start : nat) (p : double) (m : Opl) : Prop :=
| Restart : i = start -> points_in_hull m = 0%nat -> loop_inv i start p m
| Inside q : (start < i)%nat -> (1 <= points_in_hull m)%nat ->
    keys !! start = Some (first_x m) -> last_x m = p ->
    keys !! (i - 1)%nat = Some q -> rank p = rank q -> is_key p = true ->
    (points_in_hull m = 1%nat -> constant_run start i) -> loop_inv i start p m.

Definition loop_measure (n i : nat) (m : Opl) : nat :=
  (2 * (n - i) + if (points_in_hull m =? 0)%nat then 0 else 1)%nat.

Definition tiling (n : nat) (segs : list CanonicalSegment) : Prop :=
  segs <> [] /\
  (tiles 0 n segs \/
   exists s, tiles 0 (S s) segs /\ (S s < n)%nat /\ constant_run s n).

Lemma close_segment n start m out :
  (start < n)%nat -> tiles 0 start out -> opl_ok m -> (1 <= points_in_hull m)%nat ->
  keys !! start = Some (first_x m) ->
  (points_in_hull m = 1%nat -> constant_run start n) ->
  tiling n (out ++ [get_segment m (Z.of_nat (n - start))]).
Proof.
  intros Hs Ht Hok Hp Hk Hrun. split; [by destruct out|].
  unfold get_segment. destruct (Nat.eqb_spec (points_in_hull m) 1) as [E|E].
  - destruct (decide (S start = n)) as [<-|Hne].
    + left. eapply tiles_app; try done; cbn; lia.
    + right. exists start. split_and!; [|lia|by apply Hrun].
      eapply tiles_app; try done; cbn; lia.
  - left. eapply tiles_app; try done; cbn; lia.
Qed.

Lemma segment_loop_spec fuel n i start p m out :
  nondecreasing -> n = length keys -> (start <= i <= n)%nat -> (start < n)%nat ->
  tiles 0 start out -> opl_ok m -> loop_inv i start p m ->
  (loop_measure n i m < fuel)%nat ->
  exists segs, segment_loop (in_fun keys) fuel n i start p m out = Ok segs /\ tiling n segs.
Proof.
  intros [Hkey Hmono] Hn. revert i start p m out.
  induction fuel as [|fuel IH]; intros i start p m out Hi Hs Ht Hok Hinv Hf; [lia|].
  cbn [segment_loop]. destruct (Nat.ltb_spec i n) as [Hin|Hin].
  2:{ eexists; split; [done|]. destruct Hinv as [-> ?|q Hlt Hp Hk Hl Hq E Hpk Hrun]; [lia|].
      apply close_segment; try done. replace n with i by lia. done. }
  destruct (lookup_lt_is_Some_2 keys i ltac:(lia)) as [k Hk].
  assert (Kk : is_key k = true) by exact (proj1 (Forall_lookup _ _) Hkey i k Hk).
  rewrite (in_fun_lookup _ _ _ Hk). mstep. cbn [fst snd].
  destruct Hinv as [-> Hp0|q Hlt Hp Hkf Hl Hq E Hpk Hrun].
  - rewrite Nat.eqb_refl. cbn [negb andb].
    destruct (add_point_ok m k (Z.of_nat start) Hok) as (b & m' & -> & Hok' & Hl' & _ & Hb0 & Hb1);
      [by left|]. mstep.
    destruct b; [|destruct Hb0 as (_ & ? & _); [done|lia]].
    destruct (Hb1 eq_refl) as [Hp1 Hf1]. rewrite Hp0 in Hp1, Hf1. cbn in Hf1.
    apply IH; try done; [lia| |].
    + apply (Inside _ _ _ _ k); try done; try lia.
      * by rewrite Hf1.
      * by replace (S start - 1)%nat with start by lia.
      * intros _ j k1 k2 Hj H1 H2. replace j with start in H2 by lia. congruence.
    + unfold loop_measure in *. rewrite Hp0 in Hf. rewrite Hp1. cbn in *. lia.
  - destruct (Nat.eqb_spec i start) as [|_]; [lia|]. cbn [negb andb].
    assert (Hqk : rank q <= rank k).
    { apply (Hmono (i - 1)%nat); [done|]. by replace (S (i - 1)) with i by lia. }
    rewrite deq_rank by done. destruct (Z.eqb_spec (rank k) (rank p)) as [Eq|Ne].
    + apply IH; try done; [lia| |].
      * apply (Inside _ _ _ _ k); try done; try lia.
        { by replace (S i - 1)%nat with i by lia. }
        intros H1 j k1 k2 Hj Hk1 Hk2. destruct (decide (j = i)) as [->|].
        { rewrite Hk in Hk2. injection Hk2 as <-. rewrite Eq, E.
          apply (Hrun H1 (i - 1)%nat); (done || lia). }
        apply (Hrun H1 j); (done || lia).
      * unfold loop_measure in *. lia.
    + destruct (add_point_ok m k (Z.of_nat i) Hok) as (b & m' & -> & Hok' & Hl' & _ & Hb0 & Hb1).
      { right. rewrite Hl, dle_rank by done. apply Z.leb_gt. lia. }
      mstep. destruct b.
      * destruct (Hb1 eq_refl) as [Hp1 Hf1].
        destruct (Nat.eqb_spec (points_in_hull m) 0); [lia|].
        apply IH; try done; [lia| |].
        { apply (Inside _ _ _ _ k); try done; try lia; try congruence.
          by replace (S i - 1)%nat with i by lia. }
        unfold loop_measure in *. rewrite Hp1. cbn. lia.
      * destruct (Hb0 eq_refl) as (Hp1 & Hp2 & Hf1).
        apply IH; try done; try lia.
        { eapply tiles_app; [done| | |]; unfold get_segment; rewrite Hp1; cbn; try lia.
          by rewrite Hf1. }
        { by apply Restart. }
        unfold loop_measure in *. rewrite Hp1. cbn.
        destruct (Nat.eqb_spec (points_in_hull m) 0); lia.
Qed.

Lemma make_segmentation_spec eps :
  nondecreasing -> keys <> [] ->
  exists segs, make_segmentation (in_fun keys) (length keys) eps = Ok (length segs, segs) /\
    tiling (length keys) segs.
Proof.
  intros Hnd Hne. destruct keys as [|k ks] eqn:Ek; [done|]. rewrite <- Ek in *.
  unfold make_segmentation.
  destruct (length keys) as [|n0] eqn:El; [rewrite Ek in El; done|]. rewrite <- El.
  rewrite (in_fun_lookup keys 0 k) by (by rewrite Ek). mstep. cbn [fst snd].
  destruct (add_point_ok (new_opl eps) k 0) as (b & m & Em & Hok & Hl & _ & Hb0 & Hb1);
    [by left|by left|].
  change (Z.of_nat 0) with 0. rewrite Em. mstep.
  destruct b; [|destruct Hb0 as (_ & Hc & _); [done|cbn in Hc; lia]].
  destruct (Hb1 eq_refl) as [Hp Hf]. cbn in Hp, Hf.
  assert (Kk : is_key k = true).
  { destruct Hnd as [Hk _]. rewrite Ek in Hk. by inversion Hk. }
  destruct (segment_loop_spec (S (2 * length keys)) (length keys) 1 0 k m [])
    as (segs & -> & Htl); try done; try (rewrite Ek; cbn; lia).
  - apply (Inside _ _ _ _ k); try done; try lia.
    + by rewrite Ek, Hf.
    + by rewrite Ek.
    + intros _ j k1 k2 Hj H1 H2. replace j with 0%nat in H2 by lia. congruence.
  - unfold loop_measure. rewrite Hp, Ek. cbn. lia.
  - mstep. eauto.
Qed.

Lemma increasing_tiling segs :
  increasing -> tiling (length keys) segs -> tiles 0 (length keys) segs.
Proof.
  intros [Hk Hinc] [_ [?|(s & _ & Hs & Hrun)]]; [done|].
  destruct (lookup_lt_is_Some_2 keys s ltac:(lia)) as [k Hk1].
  destruct (lookup_lt_is_Some_2 keys (S s) ltac:(lia)) as [k' Hk2].
  pose proof (Hinc _ _ _ Hk1 Hk2). pose proof (Hrun (S s) k k' ltac:(lia) Hk1 Hk2). lia.
Qed.
End Tiling.

(** C11: on any non-decreasing keys the segmentation terminates without leaving
    its hulls and returns the number of segments it passed out; the segments
    are consecutive, none is empty, each starts with the key at its position,
    and they end at the last key, except that when the last segment holds one
    distinct key its repetitions are not counted.  On increasing keys the
    segments hold every key. *)
Theorem make_segmentation_tiles (keys : list double) (eps : Z) :
  nondecreasing keys -> keys <> [] ->
  exists segs : list CanonicalSegment,
    make_segmentation (T := long_double) (in_fun keys) (length keys) eps
      = Ok (length segs, segs) /\
    tiling keys (length keys) segs /\
    (increasing keys -> tiles keys 0 (length keys) segs).
Proof.
  intros Hnd Hne. destruct (make_segmentation_spec keys eps Hnd Hne) as (segs & E & Ht).
  exists segs. split_and!; try done. intros Hinc. by apply increasing_tiling.
Qed.

Definition zkeys (l : list Z) : list double := map double_of_Z l.

Lemma demo_keys_nondecreasing : nondecreasing (zkeys [10; 20; 20; 31; 400]).
Proof.
  split; [repeat constructor|].
  intros i k k'. do 4 (destruct i as [|i]; [intros [= <-] [= <-]; vm_compute; discriminate|]).
  intros H1 H2%lookup_lt_Some. cbn in H2. lia.
Qed.

Lemma make_segmentation_tiles_witness :
  exists segs : list CanonicalSegment,
    make_segmentation (T := long_double) (in_fun (zkeys [10; 20; 20; 31; 400])) 5 1
      = Ok (length segs, segs).
Proof.
  refine (match make_segmentation_tiles (zkeys [10; 20; 20; 31; 400]) 1 demo_keys_nondecreasing _ with
          | ex_intro _ segs (conj E _) => ex_intro _ segs E end). discriminate.
Defined.

(** Three equal keys yield one segment that reports one key: the two
    repetitions are left out of the counts the nodes are sized and filled by. *)
Theorem repeated_key_not_counted :
  exists c : CanonicalSegment,
    make_segmentation (T := long_double) (in_fun (zkeys [5; 5; 5])) 3 EPSILON_LEAF_NODE
      = Ok (1%nat, [c]) /\ number c = 1.
Proof. eexists. split; vm_compute; reflexivity. Qed.
