(* ===== verification/BPage.v ===== *)
(** * Pages of the B+ tree (core/index/b_plus.h: Record, header, page)

    A page is a header and an array of [cardinality] records.  The operations are
    the member functions of [page] that touch one page; those that touch its
    neighbours and children are in BPlus.v.  A value is a [char *]: a child
    pointer or a payload cast to a pointer, so the payload 0 is the null pointer.
    Record indices are C++ [int]s: an access outside the array is [UB].  [assert]
    is modelled as written; with NDEBUG the stores behind it are [UB] as well. *)

From S2P Require Import Prelude Doubles.

Definition BTREE_PLUS_PAGESIZE : Z := 256.

Record Record_ : Type := mkRec { key : double; val : Z }.

(** [is_root] and [unused] are never read or written. *)
Record header : Type := mkHdr {
  is_leaf : bool;
  next_leaf : Z;
  prev_leaf : Z;
  parent : Z;
  level : Z;
  record_num : Z;
  is_deleted : bool
}.

Record page : Type := mkPage { hdr : header; records : list Record_ }.

#[export] Instance Record_eq_dec : EqDecision Record_.
Proof. solve_decision. Defined.

(** [sizeof(header)] is 48 and [sizeof(Record)] 16. *)
Definition sizeof_header : Z := 48.
Definition sizeof_Record : Z := 16.
Definition cardinality : Z := cdiv (BTREE_PLUS_PAGESIZE - sizeof_header) sizeof_Record.

Definition nullptr : Z := 0.
Definition INT64_MAX : Z := 2 ^ 63 - 1.

Definition new_header (l : Z) : header := mkHdr false nullptr nullptr nullptr l 0 false.

(** [page(level)] *)
Definition new_page (l : Z) : page :=
  mkPage (new_header l) (replicate (Z.to_nat cardinality) (mkRec FREE_FLAG nullptr)).

(** Field updates. *)
Definition set_hdr (p : page) (h : header) : page := mkPage h (records p).
Definition set_records (p : page) (r : list Record_) : page := mkPage (hdr p) r.
Definition set_is_leaf (p : page) (b : bool) : page :=
  let h := hdr p in
  set_hdr p (mkHdr b (next_leaf h) (prev_leaf h) (parent h) (level h) (record_num h) (is_deleted h)).
Definition set_next_leaf (p : page) (q : Z) : page :=
  let h := hdr p in
  set_hdr p (mkHdr (is_leaf h) q (prev_leaf h) (parent h) (level h) (record_num h) (is_deleted h)).
Definition set_prev_leaf (p : page) (q : Z) : page :=
  let h := hdr p in
  set_hdr p (mkHdr (is_leaf h) (next_leaf h) q (parent h) (level h) (record_num h) (is_deleted h)).
Definition set_parent (p : page) (q : Z) : page :=
  let h := hdr p in
  set_hdr p (mkHdr (is_leaf h) (next_leaf h) (prev_leaf h) q (level h) (record_num h) (is_deleted h)).
Definition set_record_num (p : page) (n : Z) : page :=
  let h := hdr p in
  set_hdr p (mkHdr (is_leaf h) (next_leaf h) (prev_leaf h) (parent h) (level h) n (is_deleted h)).
Definition set_is_deleted (p : page) (b : bool) : page :=
  let h := hdr p in
  set_hdr p (mkHdr (is_leaf h) (next_leaf h) (prev_leaf h) (parent h) (level h) (record_num h) b).

Definition rec_num (p : page) : Z := record_num (hdr p).

(** [count]: the records whose value is not null. *)
Definition is_val (r : Record_) : bool := negb (val r =? nullptr).
Definition count (p : page) : Z := Z.of_nat (length (filter (fun r => is_val r = true) (records p))).

(** The records that the loops over [hdr.record_num] visit. *)
Definition active (p : page) : list Record_ := take (Z.to_nat (rec_num p)) (records p).

(** A page whose header disagrees with its non-null records ends the process. *)
Definition lower_bound (p : page) (target_key : double) : res Z :=
  if rec_num p =? count p
  then Ok (Z.of_nat (prefix_len (fun r => negb (dle target_key (key r))) (active p)))
  else Err ExitCalled.

Definition upper_bound (p : page) (target_key : double) : res Z :=
  if rec_num p =? count p
  then Ok (1 + Z.of_nat (prefix_len (fun r => negb (dlt target_key (key r))) (drop 1 (active p))))
  else Err ExitCalled.

Definition leaf_lookup (p : page) (target_key : double) : res (option Z) :=
  id ← lower_bound p target_key;
  if id =? count p then Ok None
  else
    r ← zload (records p) id;
    Ok (if deq (key r) target_key then Some (val r) else None).

Definition inner_lookup (p : page) (target_key : double) : res Z :=
  ub ← upper_bound p target_key;
  r ← zload (records p) (ub - 1);
  Ok (val r).

(** [for (pos = from; pos >= id; pos--) records[pos + 1] = records[pos];] with
    [n] the number of iterations. *)
Fixpoint shift_right (n : nat) (from : Z) (rs : list Record_) : res (list Record_) :=
  match n with
  | O => Ok rs
  | S n' =>
      r ← zload rs from;
      rs ← zstore rs (from + 1) r;
      shift_right n' (from - 1) rs
  end.

(** The common part of [insert_in_node] and [insert_pair]. *)
Definition insert_at (p : page) (id : Z) (r : Record_) : res page :=
  _ ← assert_ (rec_num p <? cardinality);
  rs ← shift_right (Z.to_nat (rec_num p - id)) (rec_num p - 1) (records p);
  rs ← zstore rs id r;
  Ok (set_record_num (set_records p rs) (rec_num p + 1)).

(** Returns the page, the payload argument (by reference) and the result. *)
Definition insert_in_node (p : page) (k : double) (payload : Z) : res (page * Z * Z) :=
  id ← lower_bound p k;
  r ← zload (records p) id;
  if deq (key r) k && is_val r then
    rs ← zstore (records p) id (mkRec (key r) payload);
    Ok (set_records p rs, INT64_MAX, rec_num p)
  else if (id <? 0) || (rec_num p <? id) then Ok (p, payload, rec_num p)
  else
    p' ← insert_at p id (mkRec k payload);
    Ok (p', payload, rec_num p').

Definition insert_pair (p : page) (id : Z) (k : double) (v : Z) : res (page * Z) :=
  if (id <? 0) || (rec_num p <? id) then Ok (p, rec_num p)
  else
    p' ← insert_at p id (mkRec k v);
    Ok (p', rec_num p').

Definition find_child_rank (p : page) (child : Z) : Z :=
  let k := prefix_len (fun r => negb (val r =? child)) (active p) in
  if (k <? length (active p))%nat then Z.of_nat k else -1.

(** [for (pos = idx; pos < record_num - 1; pos++) records[pos] = records[pos + 1];] *)
Fixpoint shift_left (n : nat) (pos : Z) (rs : list Record_) : res (list Record_) :=
  match n with
  | O => Ok rs
  | S n' =>
      r ← zload rs (pos + 1);
      rs ← zstore rs pos r;
      shift_left n' (pos + 1) rs
  end.

Definition erase_pair (p : page) (idx : Z) : res page :=
  rs ← shift_left (Z.to_nat (rec_num p - 1 - idx)) idx (records p);
  rs ← zstore rs (rec_num p - 1) (mkRec FREE_FLAG nullptr);
  Ok (set_record_num (set_records p rs) (rec_num p - 1)).

(** The last branch of [remove] has no [return]. *)
Definition remove (p : page) (k : double) : res (page * Z) :=
  idx ← lower_bound p k;
  if (idx <? 0) || (rec_num p <=? idx) then Ok (p, rec_num p)
  else
    r ← zload (records p) idx;
    if deq (key r) k && is_val r then
      p' ← erase_pair p idx;
      Ok (p', rec_num p')
    else Err UB.

(** ** Well-formed pages *)

(** [live r]: the record holds a value. *)
Definition live (r : Record_) : Prop := val r <> nullptr.

(** The header counts exactly the non-null records, which come first. *)
Record page_ok (p : page) : Prop := {
  ok_size : length (records p) = Z.to_nat cardinality;
  ok_num : 0 <= rec_num p <= cardinality;
  ok_live : Forall live (active p);
  ok_dead : Forall (fun r => val r = nullptr) (drop (Z.to_nat (rec_num p)) (records p))
}.

Lemma cardinality_13 : cardinality = 13.
Proof. reflexivity. Qed.

Lemma active_length p : page_ok p -> length (active p) = Z.to_nat (rec_num p).
Proof. intros [H1 H2 _ _]. unfold active. rewrite length_take, H1. lia. Qed.

Lemma active_lookup p i : (i < Z.to_nat (rec_num p))%nat -> active p !! i = records p !! i.
Proof. intros H. unfold active. by rewrite lookup_take_lt by done. Qed.


Lemma is_val_live r : is_val r = true <-> live r.
Proof. unfold is_val, live. rewrite negb_true_iff, Z.eqb_neq. done. Qed.

Lemma count_ok p : page_ok p -> count p = rec_num p.
Proof.
  intros Hok. pose proof (active_length p Hok) as Hl. destruct Hok as [H1 H2 H3 H4].
  unfold count. rewrite <- (take_drop (Z.to_nat (rec_num p)) (records p)).
  fold (active p). rewrite filter_app, (filter_all _ (active p)), filter_none.
  - rewrite app_nil_r, Hl. lia.
  - eapply Forall_impl; [exact H4|]. cbn. intros r Hr Hv%is_val_live. by apply Hv.
  - eapply Forall_impl; [exact H3|]. intros r. by rewrite is_val_live.
Qed.

(** The keys of a page in order. *)
Definition keys_ok (l : list Record_) : Prop := Forall (fun r => is_key (key r) = true) l.

Inductive sorted_recs : list Record_ -> Prop :=
| sorted_nil : sorted_recs []
| sorted_cons r l : Forall (fun r' => rank (key r) < rank (key r')) l ->
    sorted_recs l -> sorted_recs (r :: l).

Lemma sorted_app_inv l1 l2 :
  sorted_recs (l1 ++ l2) <->
  sorted_recs l1 /\ sorted_recs l2 /\
  forall a b, a ∈ l1 -> b ∈ l2 -> rank (key a) < rank (key b).
Proof.
  induction l1 as [|r l1 IH]; cbn.
  - split; [intros; split_and!; [constructor|done|]|by intros (?&?&?)].
    intros a b Ha. by apply elem_of_nil in Ha.
  - split.
    + inversion 1 as [|? ? Hf Hs]; subst. apply IH in Hs as (H1 & H2 & H3).
      apply Forall_app in Hf as [Hf1 Hf2]. split_and!; [by constructor|done|].
      intros a b [->|Ha]%elem_of_cons Hb; [|by apply H3].
      rewrite Forall_forall in Hf2. by apply Hf2.
    + intros (H1 & H2 & H3). inversion H1 as [|? ? Hf Hs]; subst. constructor.
      * apply Forall_app; split; [done|]. rewrite Forall_forall. intros b Hb.
        apply H3; [apply list_elem_of_here|done].
      * apply IH. split_and!; try done. intros a b Ha. apply H3. by apply list_elem_of_further.
Qed.

Lemma keys_ok_lookup l i r : keys_ok l -> l !! i = Some r -> is_key (key r) = true.
Proof. intros H Hi. exact (proj1 (Forall_lookup _ _) H i r Hi). Qed.

Lemma keys_ok_elem l r : keys_ok l -> r ∈ l -> is_key (key r) = true.
Proof. intros H [i Hi]%list_elem_of_lookup. by eapply keys_ok_lookup. Qed.

(** ** Moving records *)

Lemma shift_right_spec n i rs :
  (i + n < length rs)%nat ->
  exists rs', shift_right n (Z.of_nat (i + n) - 1) rs = Ok rs' /\ length rs' = length rs /\
    forall j, rs' !! j = if decide (i < j <= i + n)%nat then rs !! (j - 1)%nat else rs !! j.
Proof.
  revert rs. induction n as [|n IH]; intros rs Hlen; cbn [shift_right].
  - eexists; split_and!; try done. intros j. destruct (decide _); [lia|done].
  - replace (Z.of_nat (i + S n) - 1) with (Z.of_nat (i + n)) by lia.
    destruct (lookup_lt_is_Some_2 rs (i + n)) as [r Hr]; [lia|].
    rewrite (zload_nat _ _ _ Hr). mstep.
    replace (Z.of_nat (i + n) + 1) with (Z.of_nat (S (i + n))) by lia.
    rewrite zstore_nat by lia. mstep.
    destruct (IH (<[S (i + n) := r]> rs)) as (rs' & E & Hl & Hj); [rewrite length_insert; lia|].
    exists rs'. split; [done|]. rewrite Hl, length_insert. split; [done|].
    intros j. rewrite Hj.
    destruct (decide (j = S (i + n))) as [->|Hne].
    + rewrite decide_False by lia. rewrite decide_True by lia.
      rewrite list_lookup_insert_eq by lia. rewrite <- Hr. f_equal. lia.
    + destruct (decide (i < j <= i + n)%nat), (decide (i < j <= i + S n)%nat); try lia;
        rewrite list_lookup_insert_ne by lia; done.
Qed.

Lemma shift_left_spec n i rs :
  (i + n < length rs)%nat ->
  exists rs', shift_left n (Z.of_nat i) rs = Ok rs' /\ length rs' = length rs /\
    forall j, rs' !! j = if decide (i <= j < i + n)%nat then rs !! (S j) else rs !! j.
Proof.
  revert i rs. induction n as [|n IH]; intros i rs Hlen; cbn [shift_left].
  - eexists; split_and!; try done. intros j. destruct (decide _); [lia|done].
  - replace (Z.of_nat i + 1) with (Z.of_nat (S i)) by lia.
    destruct (lookup_lt_is_Some_2 rs (S i)) as [r Hr]; [lia|].
    rewrite (zload_nat _ _ _ Hr). mstep. rewrite zstore_nat by lia. mstep.
    destruct (IH (S i) (<[i := r]> rs)) as (rs' & E & Hl & Hj); [rewrite length_insert; lia|].
    exists rs'. split; [done|]. rewrite Hl, length_insert. split; [done|].
    intros j. rewrite Hj.
    destruct (decide (j = i)) as [->|Hne].
    + rewrite decide_False by lia. rewrite decide_True by lia.
      rewrite list_lookup_insert_eq by lia. done.
    + destruct (decide (S i <= j < S i + n)%nat), (decide (i <= j < i + S n)%nat); try lia;
        rewrite list_lookup_insert_ne by lia; done.
Qed.

Lemma rec_num_set p rs n : rec_num (set_record_num (set_records p rs) n) = n.
Proof. done. Qed.

(** Insertion of a record at an index of a page that is not full. *)
Lemma insert_at_spec p i r :
  page_ok p -> (i <= length (active p))%nat -> rec_num p < cardinality -> live r ->
  exists p', insert_at p (Z.of_nat i) r = Ok p' /\ page_ok p' /\
    active p' = take i (active p) ++ r :: drop i (active p) /\
    rec_num p' = rec_num p + 1 /\
    hdr p' = hdr (set_record_num p (rec_num p + 1)).
Proof.
  intros Hok Hi Hn Hr. pose proof (active_length p Hok) as Hl. pose proof Hok as [H1 H2 H3 H4].
  unfold insert_at. destruct (Z.ltb_spec (rec_num p) cardinality); [|lia]. mstep.
  set (n := Z.to_nat (rec_num p)) in *.
  destruct (shift_right_spec (n - i) i (records p)) as (rs & E & Hlen & Hrs); [lia|].
  replace (Z.to_nat (rec_num p - Z.of_nat i)) with (n - i)%nat by lia.
  replace (rec_num p - 1) with (Z.of_nat (i + (n - i)) - 1) by lia.
  rewrite E. mstep. rewrite zstore_nat by lia. mstep. eexists; split; [done|].
  assert (EA : take (S n) (<[i := r]> rs) = take i (active p) ++ r :: drop i (active p)).
  { apply list_eq. intros j. destruct (decide (j < S n)%nat) as [Hj|Hj].
    2:{ rewrite !(lookup_ge_None_2 _ j); [done| |].
        - rewrite length_app, length_take; cbn; rewrite length_drop; lia.
        - rewrite length_take, length_insert; lia. }
    rewrite lookup_take_lt by lia. destruct (decide (j = i)) as [->|Hne].
    { rewrite list_lookup_insert_eq by lia. rewrite lookup_app_r; rewrite length_take; [|lia].
      by replace (i - i `min` length (active p))%nat with 0%nat by lia. }
    rewrite list_lookup_insert_ne by lia. rewrite Hrs. destruct (decide _) as [Hd|Hd].
    - rewrite lookup_app_r; rewrite length_take; [|lia].
      replace (j - i `min` length (active p))%nat with (S (j - S i)) by lia.
      change ((r :: drop i (active p)) !! S (j - S i)) with (drop i (active p) !! (j - S i)%nat).
      rewrite lookup_drop, active_lookup by lia. f_equal. lia.
    - rewrite lookup_app_l by (rewrite length_take; lia).
      rewrite lookup_take_lt, active_lookup by lia. done. }
  assert (EN : Z.to_nat (rec_num p + 1) = S n) by lia.
  split; [|split; [|split; done]].
  2:{ unfold active at 1. rewrite rec_num_set, EN. exact EA. }
  split; rewrite ?rec_num_set; cbn [records set_record_num set_records set_hdr].
  - rewrite length_insert. lia.
  - lia.
  - unfold active. rewrite rec_num_set, EN. cbn [records set_record_num set_records set_hdr].
    rewrite EA, <- (take_drop i (active p)) in *. rewrite take_drop in *.
    rewrite <- (take_drop i (active p)) in H3. apply Forall_app in H3 as [Ha Hb].
    apply Forall_app. split; [done|]. by constructor.
  - rewrite EN. apply Forall_lookup. intros j x Hx. rewrite lookup_drop in Hx.
    rewrite list_lookup_insert_ne in Hx by lia. rewrite Hrs in Hx.
    rewrite decide_False in Hx by lia. rewrite Forall_lookup in H4. apply (H4 (S j)).
    rewrite lookup_drop. rewrite <- Hx. f_equal. lia.
Qed.

(** Removal of the record at an index. *)
Lemma erase_pair_spec p i :
  page_ok p -> (i < length (active p))%nat ->
  exists p', erase_pair p (Z.of_nat i) = Ok p' /\ page_ok p' /\
    active p' = take i (active p) ++ drop (S i) (active p) /\
    rec_num p' = rec_num p - 1 /\
    hdr p' = hdr (set_record_num p (rec_num p - 1)).
Proof.
  intros Hok Hi. pose proof (active_length p Hok) as Hl. pose proof Hok as [H1 H2 H3 H4].
  unfold erase_pair. set (n := Z.to_nat (rec_num p)) in *.
  destruct (shift_left_spec (n - 1 - i) i (records p)) as (rs & E & Hlen & Hrs); [lia|].
  replace (Z.to_nat (rec_num p - 1 - Z.of_nat i)) with (n - 1 - i)%nat by lia.
  rewrite E. mstep. replace (rec_num p - 1) with (Z.of_nat (n - 1)) by lia.
  rewrite zstore_nat by lia. mstep. eexists; split; [done|].
  set (z := mkRec FREE_FLAG nullptr).
  assert (EA : take (n - 1) (<[(n - 1)%nat := z]> rs) = take i (active p) ++ drop (S i) (active p)).
  { apply list_eq. intros j. destruct (decide (j < n - 1)%nat) as [Hj|Hj].
    2:{ rewrite !(lookup_ge_None_2 _ j); [done| |].
        - rewrite length_app, length_take, length_drop; lia.
        - rewrite length_take, length_insert; lia. }
    rewrite lookup_take_lt by lia. rewrite list_lookup_insert_ne by lia. rewrite Hrs.
    destruct (decide _) as [Hd|Hd].
    - rewrite lookup_app_r; rewrite length_take; [|lia].
      rewrite lookup_drop, active_lookup by lia. f_equal. lia.
    - rewrite lookup_app_l by (rewrite length_take; lia).
      rewrite lookup_take_lt, active_lookup by lia. done. }
  split; [|split; [|split; done]].
  2:{ unfold active at 1. rewrite rec_num_set, Nat2Z.id. exact EA. }
  split; rewrite ?rec_num_set; cbn [records set_record_num set_records set_hdr].
  - rewrite length_insert. lia.
  - lia.
  - unfold active. rewrite rec_num_set, Nat2Z.id. cbn [records set_record_num set_records set_hdr].
    rewrite EA. rewrite <- (take_drop i (active p)) in H3. apply Forall_app in H3 as [Ha Hb].
    apply Forall_app. split; [done|].
    replace (S i) with (i + 1)%nat by lia. rewrite <- drop_drop. by apply Forall_drop.
  - rewrite Nat2Z.id. apply Forall_lookup. intros j x Hx. rewrite lookup_drop in Hx.
    destruct (decide (j = 0%nat)) as [->|Hne].
    { rewrite Nat.add_0_r, list_lookup_insert_eq in Hx by lia. by injection Hx as <-. }
    rewrite list_lookup_insert_ne in Hx by lia. rewrite Hrs, decide_False in Hx by lia.
    rewrite Forall_lookup in H4. apply (H4 (j - 1)%nat).
    rewrite lookup_drop. rewrite <- Hx. f_equal. lia.
Qed.

(** ** Searching *)

(** The number of active records below a key. *)
Definition rank_below (k : double) (l : list Record_) : nat :=
  prefix_len (fun r => negb (dle k (key r))) l.

Lemma rank_below_spec k l :
  is_key k = true -> keys_ok l -> sorted_recs l ->
  (forall i r, l !! i = Some r -> (i < rank_below k l)%nat <-> rank (key r) < rank k).
Proof.
  intros Hk Hks Hs i r Hi.
  assert (Kr : is_key (key r) = true) by (by eapply keys_ok_lookup).
  split; intros H.
  - pose proof (prefix_len_before _ _ _ _ H Hi) as Hb. cbn in Hb.
    rewrite dle_rank in Hb by done. zb. lia.
  - destruct (Nat.lt_ge_cases i (rank_below k l)) as [|Hge]; [done|exfalso].
    destruct (lookup_lt_is_Some_2 l (rank_below k l)) as [q Hq].
    { apply lookup_lt_Some in Hi. lia. }
    pose proof (prefix_len_at _ _ _ Hq) as Hq2. cbn in Hq2.
    assert (Kq : is_key (key q) = true) by (by eapply keys_ok_lookup).
    rewrite dle_rank in Hq2 by done. zb.
    destruct (decide (i = rank_below k l)) as [->|Hne].
    { assert (q = r) by congruence. subst. lia. }
    rewrite (list_split_at _ _ _ Hq) in Hs. apply sorted_app_inv in Hs as (_ & Hs & _).
    inversion Hs as [|? ? Hf _]; subst. rewrite Forall_forall in Hf.
    assert (r ∈ drop (S (rank_below k l)) l) as Hr.
    { apply list_elem_of_lookup. exists (i - S (rank_below k l))%nat.
      rewrite lookup_drop. rewrite <- Hi. f_equal. lia. }
    specialize (Hf _ Hr). lia.
Qed.

Lemma lower_bound_ok p k :
  page_ok p -> lower_bound p k = Ok (Z.of_nat (rank_below k (active p))).
Proof. intros Hok. unfold lower_bound. rewrite count_ok, Z.eqb_refl by done. done. Qed.

(** The key of a record found by its index. *)
Definition find_key (k : double) (l : list Record_) : option Record_ :=
  find_first (fun r => deq (key r) k) l.

Lemma find_key_below k l :
  is_key k = true -> keys_ok l -> sorted_recs l ->
  find_key k l = match l !! rank_below k l with
                 | Some r => if deq (key r) k then Some r else None
                 | None => None
                 end.
Proof.
  intros Hk Hks Hs. unfold find_key. revert Hks Hs.
  induction l as [|r l IH]; intros Hks Hs; [done|]. inversion Hks; inversion Hs; subst.
  unfold rank_below. cbn. rewrite deq_rank, dle_rank by done.
  destruct (Z.leb_spec (rank k) (rank (key r))) as [Hle|Hgt].
  - cbn. rewrite deq_rank by done. destruct (Z.eqb_spec (rank (key r)) (rank k)); [done|].
    apply find_first_None. apply Forall_forall. intros q Hq.
    match goal with H : Forall (fun r' => rank (key r) < _) l |- _ => rewrite Forall_forall in H; specialize (H _ Hq) end.
    match goal with H : Forall _ l |- _ => rewrite Forall_forall in H; specialize (H _ Hq); cbn in H end.
    rewrite deq_rank by done. apply Z.eqb_neq. lia.
  - cbn. destruct (Z.eqb_spec (rank (key r)) (rank k)); [lia|]. by apply IH.
Qed.

Lemma leaf_lookup_spec p k :
  page_ok p -> is_key k = true -> keys_ok (active p) -> sorted_recs (active p) ->
  leaf_lookup p k = Ok (val <$> find_key k (active p)).
Proof.
  intros Hok Hk Hks Hs. unfold leaf_lookup. rewrite lower_bound_ok by done. mstep.
  rewrite count_ok by done. rewrite find_key_below by done.
  pose proof (active_length p Hok) as Hl. pose proof (ok_num p Hok).
  pose proof (prefix_len_le (fun r => negb (dle k (key r))) (active p)) as Hle.
  fold (rank_below k (active p)) in Hle.
  destruct (Z.eqb_spec (Z.of_nat (rank_below k (active p))) (rec_num p)) as [E|E].
  - rewrite lookup_ge_None_2 by lia. done.
  - destruct (lookup_lt_is_Some_2 (active p) (rank_below k (active p))) as [r Hr]; [lia|].
    rewrite Hr. rewrite active_lookup in Hr by lia. rewrite (zload_nat _ _ _ Hr). mstep.
    by destruct (deq (key r) k).
Qed.

(** The active records after an upsert. *)
Definition recs_upsert (k : double) (v : Z) (l : list Record_) : list Record_ :=
  match l !! rank_below k l with
  | Some r => if deq (key r) k then <[rank_below k l := mkRec (key r) v]> l
              else take (rank_below k l) l ++ mkRec k v :: drop (rank_below k l) l
  | None => l ++ [mkRec k v]
  end.

Lemma active_set_records p i r :
  page_ok p -> (i < length (active p))%nat ->
  active (set_records p (<[i := r]> (records p))) = <[i := r]> (active p).
Proof.
  intros Hok Hi. rewrite active_length in Hi by done. unfold active at 1.
  change (rec_num (set_records p (<[i := r]> (records p)))) with (rec_num p). cbn [records set_records].
  apply list_eq. intros j. unfold active.
  destruct (decide (j = i)) as [->|Hne].
  - rewrite lookup_take_lt by lia. rewrite !list_lookup_insert_eq; [done| |].
    + rewrite length_take, (ok_size _ Hok). pose proof (ok_num _ Hok). lia.
    + rewrite (ok_size _ Hok). pose proof (ok_num _ Hok). lia.
  - rewrite list_lookup_insert_ne by done. rewrite !lookup_take.
    rewrite list_lookup_insert_ne by done. done.
Qed.

Lemma page_ok_set_record p i r :
  page_ok p -> (i < length (active p))%nat -> live r ->
  page_ok (set_records p (<[i := r]> (records p))).
Proof.
  intros Hok Hi Hr. pose proof (active_set_records p i r Hok Hi) as EA.
  rewrite active_length in Hi by done. destruct Hok as [H1 H2 H3 H4]. split.
  - cbn. by rewrite length_insert.
  - done.
  - rewrite EA. by apply Forall_insert.
  - cbn [records set_records]. rewrite drop_insert_lt; [exact H4|].
    change (rec_num (set_records p (<[i := r]> (records p)))) with (rec_num p). lia.
Qed.

Lemma rank_below_le k l : (rank_below k l <= length l)%nat.
Proof. apply prefix_len_le. Qed.

(** Records before the search position are below the key, those from it are not. *)
Lemma rank_below_split k l :
  is_key k = true -> keys_ok l -> sorted_recs l ->
  Forall (fun r => rank (key r) < rank k) (take (rank_below k l) l) /\
  Forall (fun r => rank k <= rank (key r)) (drop (rank_below k l) l).
Proof.
  intros Hk Hks Hs. split; apply Forall_lookup; intros i r Hi.
  - apply lookup_take_Some in Hi as [Hi Hlt].
    apply (rank_below_spec k l Hk Hks Hs _ _ Hi). done.
  - rewrite lookup_drop in Hi.
    destruct (Z.le_gt_cases (rank k) (rank (key r))) as [|Hgt]; [done|exfalso].
    apply (rank_below_spec k l Hk Hks Hs _ _ Hi) in Hgt. lia.
Qed.

Lemma sorted_insert l1 l2 r :
  sorted_recs (l1 ++ l2) -> Forall (fun q => rank (key q) < rank (key r)) l1 ->
  Forall (fun q => rank (key r) < rank (key q)) l2 -> sorted_recs (l1 ++ r :: l2).
Proof.
  intros (H1 & H2 & H3)%sorted_app_inv F1 F2. apply sorted_app_inv.
  split_and!; [done|by constructor|].
  intros a b Ha [->|Hb]%elem_of_cons; [|by apply H3].
  rewrite Forall_forall in F1. by apply F1.
Qed.

Lemma find_key_app k l1 l2 :
  find_key k (l1 ++ l2) = match find_key k l1 with Some r => Some r | None => find_key k l2 end.
Proof. apply find_first_app. Qed.

Lemma find_key_None k l :
  is_key k = true -> keys_ok l ->
  (find_key k l = None <-> Forall (fun r => rank (key r) <> rank k) l).
Proof.
  intros Hk Hks. unfold find_key. rewrite find_first_None, !Forall_forall.
  split; intros H r Hr; specialize (H r Hr); cbn in *;
    pose proof (keys_ok_elem _ _ Hks Hr) as Kr; rewrite deq_rank in * by done;
    apply Z.eqb_neq; done.
Qed.

(** The three shapes of an upsert: the key is there or it is not. *)
Lemma recs_upsert_cases k v l :
  is_key k = true -> keys_ok l -> sorted_recs l ->
  (exists l1 r l2, l = l1 ++ r :: l2 /\ rank (key r) = rank k /\ length l1 = rank_below k l /\
     recs_upsert k v l = l1 ++ mkRec (key r) v :: l2 /\ find_key k l = Some r) \/
  (find_key k l = None /\
   recs_upsert k v l = take (rank_below k l) l ++ mkRec k v :: drop (rank_below k l) l /\
   Forall (fun q => rank (key q) < rank k) (take (rank_below k l) l) /\
   Forall (fun q => rank k < rank (key q)) (drop (rank_below k l) l)).
Proof.
  intros Hk Hks Hs. destruct (rank_below_split k l Hk Hks Hs) as [Hb Ha].
  pose proof (rank_below_le k l) as Hle.
  assert (Hnone : Forall (fun r => rank (key r) <> rank k) l ->
    Forall (fun q => rank k < rank (key q)) (drop (rank_below k l) l)).
  { intros H%(Forall_drop _ (rank_below k l)). rewrite !Forall_forall in *.
    intros r Hr. specialize (H r Hr). specialize (Ha r Hr). cbn in *. lia. }
  unfold recs_upsert. rewrite find_key_below by done.
  destruct (l !! rank_below k l) as [r|] eqn:Er.
  - pose proof (keys_ok_lookup _ _ _ Hks Er) as Kr. rewrite deq_rank by done.
    destruct (Z.eqb_spec (rank (key r)) (rank k)) as [E|E].
    + left. exists (take (rank_below k l) l), r, (drop (S (rank_below k l)) l).
      split_and!; try done; [by apply list_split_at|rewrite length_take; lia|].
      apply insert_take_drop. by eapply lookup_lt_Some.
    + right. split_and!; try done. apply Hnone.
      apply (find_key_None k l Hk Hks). rewrite find_key_below by done. rewrite Er.
      rewrite deq_rank by done. by destruct (Z.eqb_spec (rank (key r)) (rank k)).
  - right. apply lookup_ge_None in Er. rewrite take_ge in Hb by lia.
    rewrite drop_ge, take_ge by lia. split_and!; done.
Qed.

Lemma keys_ok_app l1 l2 : keys_ok (l1 ++ l2) <-> keys_ok l1 /\ keys_ok l2.
Proof. apply Forall_app. Qed.
Lemma keys_ok_cons r l : keys_ok (r :: l) <-> is_key (key r) = true /\ keys_ok l.
Proof. unfold keys_ok. by rewrite Forall_cons. Qed.

Lemma recs_upsert_keys k v l :
  is_key k = true -> keys_ok l -> sorted_recs l ->
  keys_ok (recs_upsert k v l) /\ sorted_recs (recs_upsert k v l).
Proof.
  intros Hk Hks Hs.
  destruct (recs_upsert_cases k v l Hk Hks Hs)
    as [(l1 & r & l2 & -> & E & _ & -> & _)|(_ & -> & F1 & F2)].
  - rewrite !keys_ok_app, !keys_ok_cons in *. split; [naive_solver|].
    apply sorted_app_inv in Hs as (H1 & H2 & H3). inversion H2; subst.
    apply sorted_app_inv. split_and!; [done|by constructor|].
    intros a b Ha [->|Hb]%elem_of_cons; cbn; apply (H3 a); try done;
      [apply list_elem_of_here|by apply list_elem_of_further].
  - rewrite <- (take_drop (rank_below k l) l) in Hks, Hs.
    rewrite keys_ok_app in Hks. rewrite keys_ok_app, keys_ok_cons. split; [naive_solver|].
    by apply sorted_insert.
Qed.

(** A lookup after an upsert. *)
Lemma find_key_upsert k v l q :
  is_key k = true -> is_key q = true -> keys_ok l -> sorted_recs l ->
  val <$> find_key q (recs_upsert k v l) =
  if rank q =? rank k then Some v else val <$> find_key q l.
Proof.
  intros Hk Hq Hks Hs.
  destruct (recs_upsert_cases k v l Hk Hks Hs)
    as [(l1 & r & l2 & -> & E & _ & -> & Hf)|(Hf & -> & F1 & F2)].
  - rewrite keys_ok_app, keys_ok_cons in Hks. destruct Hks as (K1 & Kr & K2).
    apply sorted_app_inv in Hs as (_ & _ & H3).
    rewrite !find_key_app. cbn. rewrite !(deq_rank (key r)) by done. rewrite E.
    rewrite (Z.eqb_sym (rank k)). destruct (Z.eqb_spec (rank q) (rank k)) as [Eq|Eq].
    + assert (find_key q l1 = None) as ->; [|done].
      apply find_key_None; [done..|]. apply Forall_forall. intros a Ha.
      specialize (H3 a r Ha (list_elem_of_here _ _)). lia.
    + by destruct (find_key q l1).
  - assert (El : find_key q l = match find_key q (take (rank_below k l) l) with
                                | Some r => Some r | None => find_key q (drop (rank_below k l) l) end)
      by (by rewrite <- find_key_app, take_drop).
    rewrite El, find_key_app. rewrite <- (take_drop (rank_below k l) l) in Hks.
    rewrite keys_ok_app in Hks. destruct Hks as (K1 & K2). cbn. rewrite (deq_rank k) by done.
    rewrite (Z.eqb_sym (rank k)). destruct (Z.eqb_spec (rank q) (rank k)) as [Eq|Eq].
    + assert (find_key q (take (rank_below k l) l) = None) as ->; [|done].
      apply find_key_None; [done..|]. eapply Forall_impl; [exact F1|]. cbn. intros; lia.
    + by destruct (find_key q (take _ l)).
Qed.

(** ** The member functions *)

Lemma insert_in_node_spec p k v :
  page_ok p -> is_key k = true -> keys_ok (active p) -> sorted_recs (active p) ->
  v <> nullptr -> rec_num p < cardinality ->
  exists p' pay n, insert_in_node p k v = Ok (p', pay, n) /\ page_ok p' /\
    active p' = recs_upsert k v (active p) /\ n = rec_num p' /\
    hdr p' = hdr (set_record_num p n) /\
    match find_key k (active p) with
    | Some _ => pay = INT64_MAX /\ n = rec_num p
    | None => pay = v /\ n = rec_num p + 1
    end.
Proof.
  intros Hok Hk Hks Hs Hv Hn. unfold insert_in_node. rewrite lower_bound_ok by done. mstep.
  pose proof (rank_below_le k (active p)) as Hle. pose proof (active_length p Hok) as Hl.
  pose proof (ok_num p Hok) as Hnum. pose proof (ok_size p Hok) as Hsz.
  set (i := rank_below k (active p)) in *.
  destruct (lookup_lt_is_Some_2 (records p) i) as [r Hr]; [rewrite cardinality_13 in *; lia|].
  rewrite (zload_nat _ _ _ Hr). mstep.
  assert (Hc : deq (key r) k && is_val r = true <-> find_key k (active p) = Some r /\ (i < length (active p))%nat).
  { rewrite find_key_below by done. fold i. destruct (decide (i < length (active p))%nat) as [Hi|Hi].
    - rewrite active_lookup by lia. rewrite Hr. destruct (deq (key r) k); [|naive_solver].
      assert (is_val r = true) as ->; [|naive_solver]. apply is_val_live.
      apply (proj1 (Forall_lookup _ _) (ok_live p Hok) i). rewrite active_lookup by lia. done.
    - assert (is_val r = false) as ->; [|rewrite andb_false_r; naive_solver].
      pose proof (proj1 (Forall_lookup _ _) (ok_dead p Hok) (i - Z.to_nat (rec_num p))%nat r) as Hd.
      rewrite lookup_drop in Hd. replace (Z.to_nat (rec_num p) + (i - Z.to_nat (rec_num p)))%nat with i in Hd by lia.
      unfold is_val. rewrite (Hd Hr). done. }
  destruct (deq (key r) k && is_val r) eqn:Eb.
  - destruct Hc as [[Hf Hi] _]; [done|]. rewrite zstore_nat by lia. mstep.
    eexists _, _, _; split; [done|]. rewrite Hf. split_and!; try done.
    + by apply page_ok_set_record.
    + rewrite active_set_records by done. unfold recs_upsert. fold i.
      rewrite find_key_below in Hf by done. fold i in Hf.
      rewrite active_lookup in * by lia. rewrite Hr in *. by destruct (deq (key r) k).
    + destruct p as [[]]; done.
  - assert ((Z.of_nat i <? 0) || (rec_num p <? Z.of_nat i) = false) as ->.
    { apply orb_false_iff. split; apply Z.ltb_ge; lia. }
    destruct (insert_at_spec p i (mkRec k v)) as (p' & -> & Hok' & EA & En & Eh); try done.
    mstep. eexists _, _, _; split; [done|].
    assert (Hnone : find_key k (active p) = None).
    { destruct (find_key k (active p)) as [r'|] eqn:E; [|done]. exfalso.
      rewrite find_key_below in E by done. fold i in E.
      destruct (active p !! i) as [r''|] eqn:Ei; [|done].
      apply lookup_lt_Some in Ei as Hi. rewrite active_lookup in Ei by lia.
      assert (r'' = r) by congruence. subst.
      assert (false = true); [|done]. apply Hc. split; [|done]. by destruct (deq (key r) k). }
    rewrite Hnone. split_and!; try done; [|by rewrite Eh, En].
    rewrite EA. unfold recs_upsert. fold i.
    rewrite find_key_below in Hnone by done. fold i in Hnone.
    destruct (active p !! i) as [r'|] eqn:Ei; [by destruct (deq (key r') k)|].
    apply lookup_ge_None in Ei. rewrite take_ge, drop_ge by lia. done.
Qed.

(** The active records after a removal. *)
Definition recs_remove (k : double) (l : list Record_) : list Record_ :=
  take (rank_below k l) l ++ drop (S (rank_below k l)) l.

Lemma remove_spec p k :
  page_ok p -> is_key k = true -> keys_ok (active p) -> sorted_recs (active p) ->
  match find_key k (active p) with
  | Some _ => exists p', remove p k = Ok (p', rec_num p - 1) /\ page_ok p' /\
      active p' = recs_remove k (active p) /\ hdr p' = hdr (set_record_num p (rec_num p - 1))
  | None => remove p k = if (rank_below k (active p) =? length (active p))%nat
                         then Ok (p, rec_num p) else Err UB
  end.
Proof.
  intros Hok Hk Hks Hs. unfold remove. rewrite lower_bound_ok by done. mstep.
  rewrite find_key_below by done.
  pose proof (rank_below_le k (active p)) as Hle. pose proof (active_length p Hok) as Hl.
  pose proof (ok_num p Hok) as Hnum.
  set (i := rank_below k (active p)) in *.
  destruct (Z.ltb_spec (Z.of_nat i) 0); [lia|]. cbn [orb].
  destruct (decide (i < length (active p))%nat) as [Hi|Hi].
  - destruct (Z.leb_spec (rec_num p) (Z.of_nat i)); [lia|].
    destruct (lookup_lt_is_Some_2 _ _ Hi) as [r Hr]. rewrite Hr.
    pose proof Hr as Hr'. rewrite active_lookup in Hr' by lia.
    rewrite (zload_nat _ _ _ Hr'). mstep.
    assert (is_val r = true) as ->.
    { apply is_val_live. by apply (proj1 (Forall_lookup _ _) (ok_live p Hok) i). }
    destruct (deq (key r) k); cbn [andb].
    + destruct (erase_pair_spec p i Hok Hi) as (p' & -> & Hok' & EA & En & Eh). mstep.
      exists p'. rewrite En. split_and!; done.
    + destruct (Nat.eqb_spec i (length (active p))); [lia|done].
  - rewrite lookup_ge_None_2 by lia. destruct (Z.leb_spec (rec_num p) (Z.of_nat i)); [|lia].
    destruct (Nat.eqb_spec i (length (active p))); [done|lia].
Qed.

Lemma recs_remove_spec k l r :
  is_key k = true -> keys_ok l -> sorted_recs l -> find_key k l = Some r ->
  keys_ok (recs_remove k l) /\ sorted_recs (recs_remove k l) /\
  forall q, is_key q = true ->
    find_key q (recs_remove k l) = if rank q =? rank k then None else find_key q l.
Proof.
  intros Hk Hks Hs Hf. unfold recs_remove.
  destruct (rank_below_split k l Hk Hks Hs) as [Hb Ha].
  rewrite find_key_below in Hf by done. destruct (l !! rank_below k l) as [r'|] eqn:Er; [|done].
  pose proof (keys_ok_lookup _ _ _ Hks Er) as Kr. rewrite deq_rank in Hf by done.
  destruct (Z.eqb_spec (rank (key r')) (rank k)) as [E|]; [|done]. injection Hf as ->.
  pose proof (list_split_at _ _ _ Er) as El. set (i := rank_below k l) in *.
  rewrite El in Hks, Hs. rewrite keys_ok_app, keys_ok_cons in Hks. destruct Hks as (K1 & _ & K2).
  apply sorted_app_inv in Hs as (S1 & S2 & S3). inversion S2 as [|? ? F2 S4]; subst.
  split_and!.
  - by apply keys_ok_app.
  - apply sorted_app_inv. split_and!; try done. intros a b Hx Hy. apply S3; [done|].
    by apply list_elem_of_further.
  - intros q Hq. rewrite El at 3. rewrite !find_key_app. cbn.
    rewrite (deq_rank (key r)) by done. rewrite E, (Z.eqb_sym (rank k)).
    destruct (Z.eqb_spec (rank q) (rank k)) as [Eq|Eq]; [|done].
    assert (find_key q (take i l) = None) as ->.
    { apply find_key_None; [done..|]. eapply Forall_impl; [exact Hb|]. cbn. intros; lia. }
    apply find_key_None; [done..|]. eapply Forall_impl; [exact F2|]. cbn. intros; lia.
Qed.

(** On a page in order that is not full, [insert_in_node] is a finite-map
    update: it keeps the page in order, reports whether the key was there, and
    a lookup of any key finds the new payload or what it found before. *)
Theorem insert_in_node_update (p : page) (k q : double) (v : Z) :
  page_ok p -> is_key k = true -> is_key q = true -> keys_ok (active p) ->
  sorted_recs (active p) -> v <> nullptr -> rec_num p < cardinality ->
  exists p' pay n, insert_in_node p k v = Ok (p', pay, n) /\
    page_ok p' /\ keys_ok (active p') /\ sorted_recs (active p') /\
    leaf_lookup p' q = (if rank q =? rank k then Ok (Some v) else leaf_lookup p q) /\
    (n = rec_num p <-> exists u, leaf_lookup p k = Ok (Some u)).
Proof.
  intros Hok Hk Hq Hks Hs Hv Hn.
  destruct (insert_in_node_spec p k v) as (p' & pay & n & E & Hok' & EA & -> & _ & Hf); try done.
  destruct (recs_upsert_keys k v (active p)) as [Hks' Hs']; try done.
  exists p', pay, (rec_num p'). rewrite EA. rewrite !leaf_lookup_spec by (rewrite ?EA; done).
  rewrite EA, find_key_upsert by done. split_and!; try done.
  - by destruct (rank q =? rank k).
  - destruct (find_key k (active p)); destruct Hf as [_ ->]; cbn; naive_solver lia.
Qed.

Definition demo_page : page :=
  set_record_num (set_records (new_page 0)
    ([mkRec (double_of_Z 10) 7; mkRec (double_of_Z 20) 8] ++ replicate 11 (mkRec FREE_FLAG nullptr))) 2.

Lemma demo_page_ok : page_ok demo_page /\ keys_ok (active demo_page) /\ sorted_recs (active demo_page).
Proof.
  split_and!.
  - split; [reflexivity|cbn; rewrite cardinality_13; lia|repeat constructor; discriminate|repeat constructor].
  - repeat constructor.
  - repeat constructor; vm_compute; reflexivity.
Qed.

Lemma insert_in_node_update_witness :
  exists p' pay n, insert_in_node demo_page (double_of_Z 15) 9 = Ok (p', pay, n) /\ page_ok p'.
Proof.
  destruct demo_page_ok as (H1 & H2 & H3).
  destruct (insert_in_node_update demo_page (double_of_Z 15) (double_of_Z 10) 9 H1)
    as (p' & pay & n & E & Hok & _); try done. by exists p', pay, n.
Defined.

(** C35: [remove] of a key that is in the page removes exactly that key; of a
    key above all others it changes nothing; of any other absent key it reaches
    the end of the function without a [return]. *)
Theorem remove_cases (p : page) (k q : double) :
  page_ok p -> is_key k = true -> is_key q = true -> keys_ok (active p) ->
  sorted_recs (active p) ->
  match leaf_lookup p k with
  | Ok (Some _) => exists p', remove p k = Ok (p', rec_num p - 1) /\
      page_ok p' /\ keys_ok (active p') /\ sorted_recs (active p') /\
      leaf_lookup p' q = if rank q =? rank k then Ok None else leaf_lookup p q
  | _ => remove p k = if decide (Forall (fun r => rank (key r) < rank k) (active p))
                      then Ok (p, rec_num p) else Err UB
  end.
Proof.
  intros Hok Hk Hq Hks Hs. rewrite leaf_lookup_spec by done.
  pose proof (remove_spec p k Hok Hk Hks Hs) as Hr.
  destruct (find_key k (active p)) as [r|] eqn:Ef; cbn.
  - destruct Hr as (p' & E & Hok' & EA & _). exists p'.
    destruct (recs_remove_spec k (active p) r) as (K' & S' & L'); try done.
    rewrite EA, !leaf_lookup_spec by (rewrite ?EA; done). rewrite EA, L' by done.
    split_and!; try done. by destruct (rank q =? rank k).
  - rewrite Hr. destruct (rank_below_split k (active p) Hk Hks Hs) as [Hb Ha].
    destruct (Nat.eqb_spec (rank_below k (active p)) (length (active p))) as [E|E].
    + rewrite decide_True; [done|]. by rewrite E, take_ge in Hb by lia.
    + rewrite decide_False; [done|]. intros F. pose proof (rank_below_le k (active p)).
      destruct (lookup_lt_is_Some_2 (active p) (rank_below k (active p))) as [r Er]; [lia|].
      pose proof (proj1 (Forall_lookup _ _) F _ _ Er) as Hlt. cbn in Hlt.
      apply (rank_below_spec k _ Hk Hks Hs _ _ Er) in Hlt. lia.
Qed.

Lemma remove_cases_witness :
  exists p', remove demo_page (double_of_Z 10) = Ok (p', 1) /\ page_ok p'.
Proof.
  destruct demo_page_ok as (H1 & H2 & H3).
  destruct (remove_cases demo_page (double_of_Z 10) (double_of_Z 20) H1) as (p' & E & Hok & _);
    try done. by exists p'.
Defined.
