(* ===== verification/BPlus.v ===== *)
(** * The B+ tree (core/index/b_plus.h: btree_plus)

    A tree owns its pages: the state is the map from addresses to pages, the root
    and the next address [malloc] hands out ([*addr], the owner's copy of the root,
    always equals it).  Pages refer to each other by address exactly as the code's
    pointers do (children, parent, leaf chain), and the operations are the member
    functions in the state-and-error monad: reading a freed or null page is [UB].
    Loops that follow pointers get one unit of fuel per page. *)

From S2P Require Import Prelude Doubles BPage.

Record btree_plus : Type := mkTree {
  root : Z;
  pages : gmap Z page;
  fresh : Z
}.

Definition T (A : Type) : Type := ST btree_plus A.

#[export] Instance T_ret : MRet T := fun A a h => Ok (a, h).
#[export] Instance T_bind : MBind T := fun A B f m h =>
  match m h with Ok (a, h') => f a h' | Err e => Err e end.

(** ** Memory *)

Definition ld (a : Z) : T page := fun t => p ← of_opt UB (pages t !! a); Ok (p, t).
Definition sd (a : Z) (p : page) : T unit := fun t =>
  Ok (tt, mkTree (root t) (<[a := p]> (pages t)) (fresh t)).
Definition lift {A} (m : res A) : T A := fun t => a ← m; Ok (a, t).
Definition get_root : T Z := fun t => Ok (root t, t).
Definition modify (a : Z) (f : page -> page) : T unit := p ← ld a; sd a (f p).

(** [new page(level)] *)
Definition alloc (p : page) : T Z := fun t =>
  Ok (fresh t, mkTree (root t) (<[fresh t := p]> (pages t)) (fresh t + 1)).
(** [delete node] *)
Definition free (a : Z) : T unit := fun t =>
  _ ← of_opt UB (pages t !! a);
  Ok (tt, mkTree (root t) (delete a (pages t)) (fresh t)).

(** One unit of fuel per page. *)
Definition page_fuel (t : btree_plus) : nat := S (size (pages t)).

Definition get_fuel : T nat := fun t => Ok (page_fuel t, t).

Definition set_new_root (new_root : Z) : T unit := fun t =>
  Ok (tt, mkTree new_root (pages t) (fresh t)).

(** [btree_plus(addr, true)] *)
Definition new_tree : btree_plus :=
  mkTree 1 {[ 1 := set_is_leaf (new_page 0) true ]} 2.

(** ** Search *)

Fixpoint descend (fuel : nat) (a : Z) (key : double) : T Z :=
  match fuel with
  | O => fun _ => Err OutOfFuel
  | S fuel' =>
      p ← ld a;
      if is_leaf (hdr p) then mret a
      else
        c ← lift (inner_lookup p key);
        descend fuel' c key
  end.

Definition find_leaf_page (key : double) : T Z := fun t =>
  descend (page_fuel t) (root t) key t.

Definition find (key : double) : T (option Z) :=
  leaf ← find_leaf_page key;
  p ← ld leaf;
  lift (leaf_lookup p key).

(** ** Insertion *)

Definition maintain_child (node : Z) (child_idx : Z) : T unit :=
  p ← ld node;
  if is_leaf (hdr p) then mret tt
  else
    r ← lift (zload (records p) child_idx);
    modify (val r) (fun c => set_parent c node).

Fixpoint maintain_children (n : nat) (node : Z) (i : Z) : T unit :=
  match n with
  | O => mret tt
  | S n' => _ ← maintain_child node i; maintain_children n' node (i + 1)
  end.

(** The loop of [split]: the upper half of [node]'s records moves to [sibling]. *)
Fixpoint move_records (n : nat) (k left : Z) (node sibling : page) : res (page * page) :=
  match n with
  | O => Ok (node, sibling)
  | S n' =>
      r ← zload (records node) (k + left);
      srs ← zstore (records sibling) k r;
      nrs ← zstore (records node) (k + left) (mkRec (key r) nullptr);
      move_records n' (k + 1) left
        (set_record_num (set_records node nrs) (rec_num node - 1))
        (set_record_num (set_records sibling srs) (rec_num sibling + 1))
  end.

Definition split (node : Z) : T Z :=
  n ← ld node;
  sibling ← alloc (set_is_leaf (new_page (level (hdr n))) (is_leaf (hdr n)));
  _ ← (if is_leaf (hdr n) then
         let next_node := next_leaf (hdr n) in
         if next_node =? nullptr then
           _ ← modify node (fun p => set_next_leaf p sibling);
           _ ← modify sibling (fun p => set_prev_leaf p node);
           modify sibling (fun p => set_next_leaf p nullptr)
         else
           _ ← modify sibling (fun p => set_prev_leaf p node);
           _ ← modify node (fun p => set_next_leaf p sibling);
           _ ← modify next_node (fun p => set_prev_leaf p sibling);
           modify sibling (fun p => set_next_leaf p next_node)
       else mret tt);
  n ← ld node;
  s ← ld sibling;
  let right := cdiv (rec_num n) 2 in
  let left := rec_num n - right in
  '(n, s) ← lift (move_records (Z.to_nat right) 0 left n s);
  _ ← sd node n;
  _ ← sd sibling s;
  _ ← (if is_leaf (hdr n) then mret tt
       else maintain_children (Z.to_nat (rec_num s)) sibling 0);
  mret sibling.

Definition first_record_key (a : Z) : T double :=
  p ← ld a; r ← lift (zload (records p) 0); mret (key r).

Fixpoint insert_into_parent (fuel : nat) (old_node : Z) (k : double) (new_node : Z) : T unit :=
  match fuel with
  | O => fun _ => Err OutOfFuel
  | S fuel' =>
      rt ← get_root;
      if old_node =? rt then
        k0 ← first_record_key old_node;
        let np := new_page 0 in
        new_root ← alloc (set_record_num (set_records np
          (mkRec k0 old_node :: mkRec k new_node :: drop 2 (records np))) 2);
        _ ← modify old_node (fun p => set_parent p new_root);
        _ ← modify new_node (fun p => set_parent p new_root);
        set_new_root new_root
      else
        o ← ld old_node;
        let father := parent (hdr o) in
        f ← ld father;
        let child_idx := find_child_rank f old_node in
        _ ← modify new_node (fun p => set_parent p father);
        f ← ld father;
        '(f, _) ← lift (insert_pair f (child_idx + 1) k new_node);
        _ ← sd father f;
        if cardinality <=? rec_num f then
          father_sibling ← split father;
          k' ← first_record_key father_sibling;
          insert_into_parent fuel' father k' father_sibling
        else modify new_node (fun p => set_parent p father)
  end.

Definition insert_up (old_node : Z) (k : double) (new_node : Z) : T unit := fun t =>
  insert_into_parent (page_fuel t) old_node k new_node t.

(** [upsert]; [insert] has the same body. *)
Definition upsert (k : double) (payload : Z) : T Z :=
  leaf ← find_leaf_page k;
  p ← ld leaf;
  let num := rec_num p in
  '(p, payload, n) ← lift (insert_in_node p k payload);
  _ ← sd leaf p;
  if n =? num then mret (if payload =? INT64_MAX then 3 else 0)
  else if cardinality <=? rec_num p then
    sibling ← split leaf;
    k' ← first_record_key sibling;
    _ ← insert_up leaf k' sibling;
    mret 4
  else mret 4.

Definition insert (k : double) (payload : Z) : T Z := upsert k payload.

(** ** Deletion *)

Definition erase_node (node : Z) : T unit :=
  n ← ld node;
  if is_leaf (hdr n) then
    let prev := prev_leaf (hdr n) in
    let next := next_leaf (hdr n) in
    _ ← (if next =? nullptr then modify prev (fun p => set_next_leaf p nullptr)
         else
           _ ← modify prev (fun p => set_next_leaf p next);
           modify next (fun p => set_prev_leaf p prev));
    free node
  else free node.

Definition adjust_root (old_root_node : Z) : T bool :=
  p ← ld old_root_node;
  if is_leaf (hdr p) && (rec_num p =? 0) then
    _ ← modify old_root_node (fun p => set_is_deleted p true);
    mret false
  else if negb (is_leaf (hdr p)) && (rec_num p =? 1) then
    r ← lift (zload (records p) 0);
    let new_root := val r in
    _ ← modify new_root (fun c => set_parent c nullptr);
    _ ← set_new_root new_root;
    mret true
  else mret false.

(** The loop of [coalesce]: [node]'s records are appended to [neighbor]'s. *)
Fixpoint append_records (n : nat) (k size : Z) (neighbor node : Z) : T unit :=
  match n with
  | O => mret tt
  | S n' =>
      src ← ld node;
      r ← lift (zload (records src) k);
      dst ← ld neighbor;
      '(dst, _) ← lift (insert_pair dst (size + k) (key r) (val r));
      _ ← sd neighbor dst;
      _ ← maintain_child neighbor (size + k);
      append_records n' (k + 1) size neighbor node
  end.

Definition redistribute (neighbor_node node parent : Z) (index : Z) : T unit :=
  nb ← ld neighbor_node;
  nd ← ld node;
  if index =? 0 then
    r ← lift (zload (records nb) 0);
    let insert_pos := rec_num nd in
    '(nd, _) ← lift (insert_pair nd insert_pos (key r) (val r));
    _ ← sd node nd;
    _ ← maintain_child node insert_pos;
    nb ← ld neighbor_node;
    '(nb, _) ← lift (remove nb (key r));
    _ ← sd neighbor_node nb;
    k0 ← first_record_key neighbor_node;
    pp ← ld parent;
    old ← lift (zload (records pp) (index + 1));
    rs ← lift (zstore (records pp) (index + 1) (mkRec k0 (val old)));
    sd parent (set_records pp rs)
  else
    r ← lift (zload (records nb) (rec_num nb - 1));
    '(nd, _) ← lift (insert_pair nd 0 (key r) (val r));
    _ ← sd node nd;
    _ ← maintain_child node 0;
    nb ← ld neighbor_node;
    '(nb, _) ← lift (remove nb (key r));
    _ ← sd neighbor_node nb;
    pp ← ld parent;
    old ← lift (zload (records pp) index);
    rs ← lift (zstore (records pp) index (mkRec (key r) (val old)));
    sd parent (set_records pp rs).

(** [coalesce_or_redistribute], with [coalesce] inlined at its only call. *)
Fixpoint coalesce_or_redistribute (fuel : nat) (node : Z) : T bool :=
  match fuel with
  | O => fun _ => Err OutOfFuel
  | S fuel' =>
      rt ← get_root;
      if node =? rt then adjust_root node
      else
        n ← ld node;
        if cdiv (cardinality + 1) 2 <=? rec_num n then mret false
        else
          let father := parent (hdr n) in
          f ← ld father;
          let index := find_child_rank f node in
          r ← lift (zload (records f) (if index =? 0 then 1 else index - 1));
          let neighbor := val r in
          nb ← ld neighbor;
          if cardinality + 1 <=? rec_num n + rec_num nb then
            _ ← redistribute neighbor node father index;
            mret false
          else
            (* coalesce: with index 0 the two nodes change roles *)
            let '(dst, src, idx) :=
              if index =? 0 then (node, neighbor, 1) else (neighbor, node, index) in
            d ← ld dst;
            s ← ld src;
            _ ← append_records (Z.to_nat (rec_num s)) 0 (rec_num d) dst src;
            _ ← erase_node src;
            f ← ld father;
            f ← lift (erase_pair f idx);
            _ ← sd father f;
            _ ← coalesce_or_redistribute fuel' father;
            mret true
  end.

(** [maintain_parent] assigns only to its locals: what remains is the reads. *)
Fixpoint maintain_parent (fuel : nat) (curr : Z) : T unit :=
  match fuel with
  | O => fun _ => Err OutOfFuel
  | S fuel' =>
      c ← ld curr;
      if parent (hdr c) =? nullptr then mret tt
      else
        p ← ld (parent (hdr c));
        let rank := find_child_rank p curr in
        pr ← lift (zload (records p) rank);
        cr ← lift (zload (records c) 0);
        if deq (key pr) (key cr) then mret tt
        else maintain_parent fuel' (parent (hdr c))
  end.

Definition delete_entry (k : double) : T bool :=
  leaf ← find_leaf_page k;
  p ← ld leaf;
  let old_num := rec_num p in
  '(p, new_num) ← lift (remove p k);
  _ ← sd leaf p;
  fuel ← get_fuel;
  _ ← maintain_parent fuel leaf;
  if old_num =? new_num then mret false
  else
    _ ← coalesce_or_redistribute fuel leaf;
    mret true.

(** ** Scans *)

Fixpoint leftmost (fuel : nat) (curr : Z) : T Z :=
  match fuel with
  | O => fun _ => Err OutOfFuel
  | S fuel' =>
      p ← ld curr;
      if is_leaf (hdr p) then mret curr
      else
        r ← lift (zload (records p) 0);
        leftmost fuel' (val r)
  end.

(** The records along the leaf chain from a page. *)
Fixpoint chain (fuel : nat) (curr : Z) : T (list Record_) :=
  match fuel with
  | O => fun _ => Err OutOfFuel
  | S fuel' =>
      if curr =? nullptr then mret []
      else
        p ← ld curr;
        rest ← chain fuel' (next_leaf (hdr p));
        mret (active p ++ rest)
  end.

Definition get_data : T (list (double * Z)) := fun t =>
  (l ← leftmost (page_fuel t) (root t);
   rs ← chain (page_fuel t) l;
   mret (map (fun r => (key r, val r)) rs)) t.

Definition in_bounds (lower_bound upper_bound : double) (r : Record_) : bool :=
  dle lower_bound (key r) && dle (key r) upper_bound && is_val r.

Definition range_query (lower_bound upper_bound : double) : T (list (double * Z)) := fun t =>
  (l ← find_leaf_page lower_bound;
   rs ← chain (page_fuel t) l;
   mret (map (fun r => (key r, val r)) (filter (fun r => in_bounds lower_bound upper_bound r = true) rs))) t.

(** A sequence of operations, for concrete runs. *)
Inductive op : Type :=
| Upsert (k : double) (v : Z)
| Delete (k : double).

Definition run_op (t : btree_plus) (o : op) : res btree_plus :=
  match o with
  | Upsert k v => '(_, t) ← upsert k v t; Ok t
  | Delete k => '(_, t) ← delete_entry k t; Ok t
  end.
Definition run (t : btree_plus) (os : list op) : res btree_plus := foldlM run_op t os.

(** ** Concrete runs *)

Definition z_ops (l : list Z) : list op := map (fun i => Upsert (double_of_Z i) (i + 1)) l.

Definition run_find (os : list op) (k : Z) : res (option Z) :=
  t ← run new_tree os; '(v, _) ← find (double_of_Z k) t; Ok v.
Definition deletes (l : list Z) : list op := map (fun i => Delete (double_of_Z i)) l.

(** Payloads are stored as pointers, so a payload 0 is a null pointer: one
    upsert of payload 0 and the next search that reaches its page ends the
    process with [exit(0)]. *)
Theorem zero_payload_exits :
  run_find (z_ops [1; 2; 3]) 2 = Ok (Some 3) /\
  run_find (z_ops [1; 2; 3] ++ [Upsert (double_of_Z 4) 0]) 2 = Err ExitCalled.
Proof. split; vm_compute; reflexivity. Qed.

(** Separators below the first key of an inner page are kept after it, so
    that its keys are out of order; [redistribute] looks the moved separator up
    by value and does not find it.  After the keys 92 to 1 are inserted in
    descending order, deleting 92, which is present, runs off the end of
    [remove]. *)
Theorem descending_then_delete_undefined :
  run_find (z_ops (rev (seqZ 1 92))) 92 = Ok (Some 93) /\
  run_find (z_ops (rev (seqZ 1 92)) ++ deletes [92]) 1 = Err UB.
Proof. split; vm_compute; reflexivity. Qed.

(** Two leaves of 6 and 7 records merge into one of 13, which is the
    capacity and which an insertion splits only after it has made room: the next
    key above all others is read from past the record array. *)
Theorem merge_fills_leaf_undefined :
  run_find (z_ops (seqZ 1 14) ++ deletes [14]) 13 = Ok (Some 14) /\
  run_find (z_ops (seqZ 1 14) ++ deletes [14] ++ z_ops [15]) 13 = Err UB.
Proof. split; vm_compute; reflexivity. Qed.
