(* ===== verification/Slots.v ===== *)
(** * Inner slots (core/index/utils.h)

    An [InnerSlot] is the accelerator of a node: its first key, its address, its
    model and one 32-bit word [info] with two lock bits (31 write, 30 read), the
    type bit (29) and the block number (28..0).  The member functions are
    modelled on the word, bit by bit.  The spinning [get_lock] is a step that is
    enabled when the write bit is clear; Locks.v runs it against other threads. *)

From S2P Require Import Prelude Doubles.

Record InnerSlot : Type := mkSlot {
  min_key : double;
  ptr : Z;
  slope : double;
  intercept : float;
  info : Z
}.

Definition set_info (s : InnerSlot) (w : Z) : InnerSlot :=
  mkSlot (min_key s) (ptr s) (slope s) (intercept s) w.

Definition not32 (w : Z) : Z := Z.lxor w (2 ^ 32 - 1).

(** ** The info word *)

Definition block_number_of (w : Z) : Z := Z.land w 0x1fffffff.
Definition type_of (w : Z) : Z := Z.shiftr (Z.land w 0x3fffffff) 29.
Definition with_block_number (w bn : Z) : Z :=
  Z.lor (Z.land w 0xe0000000) (Z.land bn 0x1fffffff).
Definition with_type (w t : Z) : Z :=
  Z.lor (Z.land w (not32 (Z.shiftl 1 29))) (u32 (Z.shiftl t 29)).
Definition unlocked (w : Z) : Z := Z.land w (not32 (u32 (Z.shiftl 3 30))).

Definition block_number (s : InnerSlot) : Z := block_number_of (info s).
Definition type (s : InnerSlot) : Z := type_of (info s).

Definition set_block_number (s : InnerSlot) (bn : Z) : res InnerSlot :=
  _ ← assert_ (bn <? 2 ^ 29);
  Ok (set_info s (with_block_number (info s) bn)).
Definition set_type (s : InnerSlot) (t : Z) : InnerSlot := set_info s (with_type (info s) t).
Definition init_lock (s : InnerSlot) : InnerSlot := set_info s (unlocked (info s)).

(** [get_lock]: [None] while another thread has the write bit. *)
Definition get_lock (s : InnerSlot) : option InnerSlot :=
  if Z.land (info s) lockSet =? 0 then Some (set_info s (Z.lor (info s) lockSet)) else None.
Definition get_write_lock (s : InnerSlot) : InnerSlot := set_info s (Z.lor (info s) lockSet).
Definition get_read_lock (s : InnerSlot) : InnerSlot :=
  set_info s (Z.lor (info s) second_bit_lockSet).
Definition check_write_lock (s : InnerSlot) : bool := Z.land (info s) lockSet =? 0.
Definition check_read_lock (s : InnerSlot) : bool := Z.land (info s) second_bit_lockSet =? 0.
Definition release_lock (s : InnerSlot) : InnerSlot :=
  set_info s (Z.land (info s) double_bit_lockMask).

(** ** model_correction *)

(** The three cases test [min_pos] and [max_pos] in [double]; [size - 1] is an
    unsigned subtraction and the intercept is rounded to [float]. *)
Definition model_correction (slope : double) (intercept : float) (size : Z)
    (min_key max_key : double) : double * float :=
  let d := double_of_Z in
  let min_pos := dadd (dmul min_key slope) (double_of_float intercept) in
  let max_pos := dadd (dadd (dmul max_key slope) (double_of_float intercept)) (d 1) in
  let width := dsub max_key min_key in
  if dlt (d 0) min_pos && dlt max_pos (d (u64 (size - 1))) then
    let slope := ddiv (d (u64 (size - 1))) width in
    (slope, float_of_double (dsub (d 0) (dmul slope min_key)))
  else if dlt (d 0) min_pos then
    let slope := ddiv max_pos width in
    (slope, float_of_double (dsub (d 0) (dmul slope min_key)))
  else if dlt max_pos (d size) then
    let slope := ddiv (dsub (dsub (d size) min_pos) (d 1)) width in
    (slope, float_of_double (dsub (d (u64 (size - 1))) (dmul slope max_key)))
  else (slope, intercept).

(** ** The fields of the word do not overlap *)

Lemma testbit_high w n i : 0 <= w < 2 ^ n -> 0 <= n -> n <= i -> Z.testbit w i = false.
Proof.
  intros Hw Hn Hi. destruct (Z.eq_dec w 0) as [->|]; [apply Z.bits_0|].
  apply Z.bits_above_log2; [lia|]. assert (Z.log2 w < n) by (apply Z.log2_lt_pow2; lia). lia.
Qed.

Ltac bit_specs :=
  repeat rewrite ?Z.shiftr_spec, ?Z.land_spec, ?Z.lor_spec by lia.

Lemma block_number_set w bn :
  0 <= bn < 2 ^ 29 -> block_number_of (with_block_number w bn) = bn.
Proof.
  intros Hbn. unfold block_number_of, with_block_number.
  apply Z.bits_inj'. intros i Hi. bit_specs.
  change 0xe0000000 with (Z.shiftl 7 29). change 0x1fffffff with (Z.ones 29).
  rewrite Z.testbit_ones by lia. destruct (Z.ltb_spec i 29) as [H|H].
  - rewrite Z.shiftl_spec, (Z.testbit_neg_r 7) by lia. destruct (Z.leb_spec 0 i); [|lia].
    by rewrite andb_false_r, !andb_true_r, orb_false_l.
  - rewrite !andb_false_r. symmetry. apply (testbit_high bn 29); lia.
Qed.

Lemma type_set_block_number w bn :
  type_of (with_block_number w bn) = type_of w.
Proof.
  unfold type_of, with_block_number. apply Z.bits_inj'. intros i Hi. bit_specs.
  change 0xe0000000 with (Z.shiftl 7 29). change 0x1fffffff with (Z.ones 29).
  change 0x3fffffff with (Z.ones 30). rewrite !Z.testbit_ones, Z.shiftl_spec by lia.
  destruct (Z.ltb_spec (i + 29) 29); [lia|]. rewrite !andb_false_r, orb_false_r.
  destruct (Z.ltb_spec (i + 29) 30); [|by rewrite !andb_false_r].
  replace (i + 29 - 29) with 0 by lia. replace (i + 29) with 29 by lia.
  by rewrite !andb_true_r.
Qed.

Lemma fields_set_type w t :
  0 <= t < 2 ->
  block_number_of (with_type w t) = block_number_of w /\ type_of (with_type w t) = t.
Proof.
  intros Ht. assert (t = 0 \/ t = 1) as Htb by lia.
  unfold block_number_of, type_of, with_type.
  replace (u32 (Z.shiftl t 29)) with (Z.shiftl t 29) by (by destruct Htb as [-> | ->]).
  change (not32 (Z.shiftl 1 29)) with (Z.lor (Z.ones 29) (Z.shiftl 3 30)).
  change 0x3fffffff with (Z.ones 30). change 0x1fffffff with (Z.ones 29).
  split; apply Z.bits_inj'; intros i Hi; bit_specs; rewrite ?Z.testbit_ones, ?Z.shiftl_spec by lia.
  - destruct (Z.ltb_spec i 29); [|by rewrite !andb_false_r].
    rewrite (Z.testbit_neg_r t) by lia. destruct (Z.leb_spec 0 i); [|lia].
    by rewrite orb_false_r, !andb_true_r.
  - destruct (Z.ltb_spec (i + 29) 29); [lia|]. destruct (Z.leb_spec 0 (i + 29)); [|lia].
    replace (i + 29 - 29) with i by lia. destruct (Z.ltb_spec (i + 29) 30).
    + replace (i + 29 - 30) with (-1) by lia. by rewrite (Z.testbit_neg_r 3), andb_false_r, andb_true_r.
    + rewrite andb_false_r. symmetry. apply (testbit_high t 1); lia.
Qed.

(** The lock bits are not part of the type. *)
Lemma type_locks s : type (get_write_lock s) = type s /\ type (get_read_lock s) = type s.
Proof.
  unfold type, type_of, get_write_lock, get_read_lock, set_info. cbn [info]. rewrite !Z.land_lor_distr_l.
  change (Z.land lockSet 0x3fffffff) with 0. change (Z.land second_bit_lockSet 0x3fffffff) with 0. by rewrite !Z.lor_0_r.
Qed.

Lemma fields_unlocked w :
  block_number_of (unlocked w) = block_number_of w /\ type_of (unlocked w) = type_of w.
Proof.
  unfold block_number_of, type_of, unlocked.
  change (not32 (u32 (Z.shiftl 3 30))) with (Z.ones 30).
  change 0x3fffffff with (Z.ones 30). change 0x1fffffff with (Z.ones 29).
  split; apply Z.bits_inj'; intros i Hi; bit_specs; rewrite ?Z.testbit_ones by lia.
  - destruct (Z.ltb_spec i 29); [|by rewrite !andb_false_r].
    destruct (Z.leb_spec 0 i), (Z.ltb_spec i 30); try lia. by rewrite !andb_true_r.
  - destruct ((0 <=? i + 29) && (i + 29 <? 30)); by rewrite ?andb_true_r, ?andb_false_r.
Qed.

(** ** All fields of a slot *)

(** What the member functions read: the four plain members, the two fields and the two lock
    bits of the word. *)
Definition fields (s : InnerSlot) : double * Z * double * float * Z * Z * bool * bool :=
  (min_key s, ptr s, slope s, intercept s, block_number s, type s, check_write_lock s, check_read_lock s).

Lemma bit_clear w b : 0 <= b -> (Z.land w (2 ^ b) =? 0) = negb (Z.testbit w b).
Proof.
  intros Hb. destruct (Z.testbit w b) eqn:E; cbn.
  - apply Z.eqb_neq. intros H. assert (K : Z.testbit (Z.land w (2 ^ b)) b = false) by (by rewrite H, Z.bits_0).
    rewrite Z.land_spec, E, Z.pow2_bits_true in K by done. done.
  - apply Z.eqb_eq. apply Z.bits_inj'. intros i Hi. rewrite Z.land_spec, Z.bits_0.
    rewrite Z.pow2_bits_eqb by done. destruct (Z.eqb_spec b i) as [<-|]; [by rewrite E|]. apply andb_false_r.
Qed.

Lemma write_lock_bit s : check_write_lock s = negb (Z.testbit (info s) 31).
Proof. by apply (bit_clear (info s) 31). Qed.
Lemma read_lock_bit s : check_read_lock s = negb (Z.testbit (info s) 30).
Proof. by apply (bit_clear (info s) 30). Qed.

Lemma block_number_bit w i : 0 <= i < 29 -> Z.testbit (block_number_of w) i = Z.testbit w i.
Proof.
  intros Hi. unfold block_number_of. change 0x1fffffff with (Z.ones 29).
  rewrite Z.land_spec, Z.testbit_ones, (proj2 (Z.leb_le _ _)), (proj2 (Z.ltb_lt _ _)) by lia. apply andb_true_r.
Qed.
Lemma type_bit w : Z.testbit (type_of w) 0 = Z.testbit w 29.
Proof.
  unfold type_of. change 0x3fffffff with (Z.ones 30). rewrite Z.shiftr_spec, Z.land_spec, Z.testbit_ones by lia.
  apply andb_true_r.
Qed.

Lemma block_number_ext w w' :
  (forall i, 0 <= i < 29 -> Z.testbit w' i = Z.testbit w i) -> block_number_of w' = block_number_of w.
Proof.
  intros Hb. unfold block_number_of. change 0x1fffffff with (Z.ones 29). apply Z.bits_inj'. intros i Hi.
  rewrite !Z.land_spec, Z.testbit_ones by lia. destruct (Z.ltb_spec i 29); [by rewrite Hb by lia|by rewrite !andb_false_r].
Qed.
Lemma type_ext w w' : Z.testbit w' 29 = Z.testbit w 29 -> type_of w' = type_of w.
Proof.
  intros Hb. apply Z.bits_inj'. intros i Hi. destruct (Z.eq_dec i 0) as [->|]; [by rewrite !type_bit|].
  unfold type_of. change 0x3fffffff with (Z.ones 30). rewrite !Z.shiftr_spec, !Z.land_spec, !Z.testbit_ones by lia.
  rewrite (proj2 (Z.ltb_ge (i + 29) 30)) by lia. by rewrite !andb_false_r.
Qed.

(** The bits of the words that the member functions store. *)
Lemma with_block_number_high w bn i : 29 <= i < 32 -> Z.testbit (with_block_number w bn) i = Z.testbit w i.
Proof.
  intros Hi. unfold with_block_number. change 0xe0000000 with (Z.shiftl (Z.ones 3) 29). change 0x1fffffff with (Z.ones 29).
  rewrite Z.lor_spec, !Z.land_spec, Z.shiftl_spec, !Z.testbit_ones by lia.
  rewrite (proj2 (Z.leb_le 0 (i - 29))), (proj2 (Z.ltb_lt (i - 29) 3)), (proj2 (Z.ltb_ge i 29)) by lia.
  by rewrite !andb_false_r, andb_true_r, orb_false_r.
Qed.
Lemma with_type_high w t i : 0 <= t < 2 -> 29 < i < 32 -> Z.testbit (with_type w t) i = Z.testbit w i.
Proof.
  intros Ht Hi. unfold with_type.
  assert (E : u32 (Z.shiftl t 29) = Z.shiftl t 29) by (assert (t = 0 \/ t = 1) as [-> | ->] by lia; done).
  rewrite E. change (not32 (Z.shiftl 1 29)) with (Z.lor (Z.ones 29) (Z.shiftl (Z.ones 2) 30)).
  rewrite Z.lor_spec, Z.land_spec, Z.lor_spec, !Z.shiftl_spec, !Z.testbit_ones by lia.
  rewrite (testbit_high t 1 (i - 29)) by lia.
  rewrite (proj2 (Z.leb_le 0 (i - 30))), (proj2 (Z.ltb_lt (i - 30) 2)) by lia.
  by rewrite orb_true_r, andb_true_r, orb_false_r.
Qed.
Lemma low_bits w i : 0 <= i -> Z.testbit (Z.land w (Z.ones 30)) i = Z.testbit w i && (i <? 30).
Proof. intros Hi. rewrite Z.land_spec, Z.testbit_ones by lia. by rewrite (proj2 (Z.leb_le 0 i)) by lia. Qed.
Lemma set_bit w b i : 0 <= b -> Z.testbit (Z.lor w (2 ^ b)) i = Z.testbit w i || (b =? i).
Proof. intros Hb. by rewrite Z.lor_spec, Z.pow2_bits_eqb. Qed.

(** Releasing keeps bits 0 to 29. *)
Lemma fields_low s :
  fields (set_info s (Z.land (info s) (Z.ones 30))) =
    (min_key s, ptr s, slope s, intercept s, block_number s, type s, true, true).
Proof.
  unfold fields. rewrite write_lock_bit, read_lock_bit. unfold block_number, type. cbn [min_key ptr slope intercept info set_info].
  assert (K : forall i, 0 <= i < 30 -> Z.testbit (Z.land (info s) (Z.ones 30)) i = Z.testbit (info s) i).
  { intros i Hi. rewrite low_bits, (proj2 (Z.ltb_lt i 30)) by lia. apply andb_true_r. }
  rewrite (block_number_ext (info s)) by (intros i Hi; apply K; lia). rewrite (type_ext (info s)) by (apply K; lia).
  rewrite !low_bits by lia. by rewrite !andb_false_r.
Qed.

(** The fields determine a 32-bit word. *)
Lemma fields_inj s s' :
  0 <= info s < 2 ^ 32 -> 0 <= info s' < 2 ^ 32 -> fields s' = fields s -> s' = s.
Proof.
  intros Hs Hs' E. unfold fields in E. rewrite !pair_equal_spec in E. destruct E as (((((((E1 & E2) & E3) & E4) & E5) & E6) & E7) & E8).
  rewrite !write_lock_bit in E7. rewrite !read_lock_bit in E8.
  apply (f_equal negb) in E7, E8. rewrite !negb_involutive in E7, E8.
  unfold block_number, type in E5, E6. assert (Ei : info s' = info s); [|destruct s, s'; cbn in *; congruence].
  apply Z.bits_inj'. intros i Hi.
  destruct (Z.lt_ge_cases i 29); [rewrite <- (block_number_bit (info s') i), <- (block_number_bit (info s) i) by lia; by rewrite E5|].
  destruct (Z.eq_dec i 29) as [->|]; [rewrite <- (type_bit (info s')), <- (type_bit (info s)); by rewrite E6|].
  destruct (Z.eq_dec i 30) as [->|]; [done|].
  destruct (Z.eq_dec i 31) as [->|]; [done|].
  rewrite !(testbit_high _ 32) by lia. done.
Qed.

(** C40: the packed word keeps its fields apart.  Each member function changes exactly its
    field of the slot: [set_block_number] of a number below 2^29 the block number, [set_type]
    of 0 or 1 the type, [get_write_lock] and [get_read_lock] one lock each, [init_lock] and
    [release_lock] both locks; all the other fields and members are as they were, and the
    fields determine the word.  A block number from 2^29 on fails its assertion. *)
Theorem info_word_fields (s : InnerSlot) (bn t : Z) :
  0 <= bn -> 0 <= t < 2 ->
  let other b ty w r := (min_key s, ptr s, slope s, intercept s, b, ty, w, r) in
  fields <$> set_block_number s bn =
    (if bn <? 2 ^ 29 then Ok (other bn (type s) (check_write_lock s) (check_read_lock s)) else Err AssertFailed) /\
  fields (set_type s t) = other (block_number s) t (check_write_lock s) (check_read_lock s) /\
  fields (get_write_lock s) = other (block_number s) (type s) false (check_read_lock s) /\
  fields (get_read_lock s) = other (block_number s) (type s) (check_write_lock s) false /\
  fields (init_lock s) = other (block_number s) (type s) true true /\
  fields (release_lock s) = other (block_number s) (type s) true true /\
  (forall s1 s2, 0 <= info s1 < 2 ^ 32 -> 0 <= info s2 < 2 ^ 32 -> fields s1 = fields s2 -> s1 = s2).
Proof.
  intros Hbn Ht other. split_and!.
  - unfold set_block_number. destruct (Z.ltb_spec bn (2 ^ 29)); [|done]. mstep. f_equal.
    unfold fields. rewrite !write_lock_bit, !read_lock_bit. unfold block_number, type.
    cbn [min_key ptr slope intercept info set_info].
    by rewrite block_number_set, type_set_block_number, !with_block_number_high by lia.
  - destruct (fields_set_type (info s) t Ht) as [F1 F2].
    unfold fields. rewrite !write_lock_bit, !read_lock_bit. unfold block_number, type, set_type.
    cbn [min_key ptr slope intercept info set_info]. by rewrite F1, F2, !with_type_high by lia.
  - unfold fields. rewrite !write_lock_bit, !read_lock_bit, (proj1 (type_locks s)). unfold block_number, get_write_lock.
    cbn [min_key ptr slope intercept info set_info]. change lockSet with (2 ^ 31).
    rewrite (block_number_ext (info s)) by (intros i Hi; rewrite set_bit, (proj2 (Z.eqb_neq 31 i)) by lia; apply orb_false_r).
    rewrite !set_bit by lia. by rewrite orb_true_r, orb_false_r.
  - unfold fields. rewrite !write_lock_bit, !read_lock_bit, (proj2 (type_locks s)). unfold block_number, get_read_lock.
    cbn [min_key ptr slope intercept info set_info]. change second_bit_lockSet with (2 ^ 30).
    rewrite (block_number_ext (info s)) by (intros i Hi; rewrite set_bit, (proj2 (Z.eqb_neq 30 i)) by lia; apply orb_false_r).
    rewrite !set_bit by lia. by rewrite orb_true_r, orb_false_r.
  - apply (fields_low s).
  - apply (fields_low s).
  - intros s1 s2 H1 H2 E. by apply fields_inj.
Qed.

Lemma info_word_fields_witness :
  fields (set_type (mkSlot FREE_FLAG 0 FREE_FLAG FREE_FLAG (3 * 2 ^ 30 + 77)) 1) =
    (FREE_FLAG, 0, FREE_FLAG, FREE_FLAG, 77, 1, false, false).
Proof.
  refine (eq_trans (proj1 (proj2 (info_word_fields (mkSlot FREE_FLAG 0 FREE_FLAG FREE_FLAG (3 * 2 ^ 30 + 77)) 5 1 _ _))) _);
    [lia|lia|vm_compute; reflexivity].
Defined.
