(* ===== verification/Interleave.v ===== *)
(** * Threads that interleave at atomic steps

    A system is a shared memory and one control point per thread.  A protocol
    says which atomic steps a thread can take from its control point; a step of
    the system is a step of any one thread (sequential consistency: the program's
    acquire and release operations are on one word at a time).  [run] executes a
    schedule, so that a concrete interleaving can be evaluated. *)

From S2P Require Import Prelude.
From stdpp Require Export relations.

Section Interleave.
Context {PC M : Type} (next : PC -> M -> list (PC * M)).

Definition sys : Type := M * list PC.

Inductive step : sys -> sys -> Prop :=
| step_thread m ts i p p' m' :
    ts !! i = Some p -> (p', m') ∈ next p m -> step (m, ts) (m', <[i := p']> ts).

(** A schedule names the thread that moves and which of its steps it takes. *)
Fixpoint run (schedule : list (nat * nat)) (s : sys) : option sys :=
  match schedule with
  | [] => Some s
  | (i, c) :: rest =>
      p ← s.2 !! i; pm ← next p s.1 !! c;
      run rest (pm.2, <[i := pm.1]> s.2)
  end.

Lemma run_steps schedule : forall s s', run schedule s = Some s' -> rtc step s s'.
Proof.
  induction schedule as [|[i c] rest IH]; intros [m ts] s' H; cbn in H.
  - by simplify_eq.
  - destruct (ts !! i) as [p|] eqn:Ep; [|done]. cbn in H.
    destruct (next p m !! c) as [[p' m']|] eqn:Ec; [|done]. cbn in H.
    eapply rtc_l; [|by apply IH]. econstructor; [done|]. by eapply list_elem_of_lookup_2.
Qed.

(** The invariant rule. *)
Lemma invariant (I : sys -> Prop) s s' :
  (forall m ts i p p' m', I (m, ts) -> ts !! i = Some p -> (p', m') ∈ next p m ->
     I (m', <[i := p']> ts)) ->
  I s -> rtc step s s' -> I s'.
Proof.
  intros HI Hs H. induction H as [|x y z Hxy _ IH]; [done|]. apply IH.
  destruct Hxy. by eapply HI.
Qed.

(** Progress to a goal: a measure that some step always decreases. *)
Lemma reaches (I G : sys -> Prop) (measure : sys -> nat) :
  (forall s, I s -> G s \/ exists s', step s s' /\ I s' /\ (measure s' < measure s)%nat) ->
  forall s, I s -> exists s', rtc step s s' /\ G s'.
Proof.
  intros HP s. remember (measure s) as n eqn:En. revert s En.
  induction n as [n IH] using lt_wf_ind; intros s -> Hs.
  destruct (HP s Hs) as [HG|(s1 & H1 & HI & Hlt)]; [by exists s|].
  destruct (IH (measure s1) Hlt s1 eq_refl HI) as (s' & H & HG).
  exists s'. split; [by eapply rtc_l|done].
Qed.

(** Whether some thread can move is decidable. *)
#[export] Instance step_red_dec s : Decision (red step s).
Proof.
  destruct s as [m ts].
  destruct (decide (Exists (fun p => next p m <> []) ts)) as [H|H]; [left|right].
  - apply Exists_exists in H as (p & [i Hi]%list_elem_of_lookup & Hp).
    destruct (next p m) as [|[p' m'] l] eqn:E; [done|]. exists (m', <[i := p']> ts).
    econstructor; [done|]. rewrite E. apply list_elem_of_here.
  - intros [s' Hs]. apply H. inversion Hs as [? ? i p p' m' Hi Hn]; subst. apply Exists_exists.
    exists p. split; [by eapply list_elem_of_lookup_2|]. intros E. rewrite E in Hn. by apply elem_of_nil in Hn.
Qed.

(** No infinite run: a measure that every step decreases. *)
Lemma measure_sn (I : sys -> Prop) (measure : sys -> nat) s :
  (forall x y, I x -> step x y -> I y) -> I s ->
  (forall x y, I x -> step x y -> (measure y < measure x)%nat) -> sn step s.
Proof.
  intros HI Hs Hm. remember (measure s) as k eqn:Ek. revert s Ek Hs.
  induction k as [k IH] using lt_wf_ind; intros s -> Hs. constructor. intros y Hy.
  apply (IH (measure y)); [by apply Hm|done|by eapply HI].
Qed.
End Interleave.

(** One thread has moved. *)
Lemma lookup_moved {A} (ts : list A) i j (p q : A) :
  <[i := p]> ts !! j = Some q -> (i = j /\ q = p) \/ (i <> j /\ ts !! j = Some q).
Proof.
  destruct (decide (i = j)) as [->|Hne].
  - intros Hj. pose proof (lookup_lt_Some _ _ _ Hj) as Hlt. rewrite length_insert in Hlt.
    rewrite list_lookup_insert_eq in Hj by done. left. split; congruence.
  - rewrite list_lookup_insert_ne by done. auto.
Qed.

(** ** Counting threads *)

Definition count {A} (f : A -> bool) (l : list A) : nat := length (filter (fun x => f x = true) l).

Lemma count_nil {A} (f : A -> bool) : count f [] = 0%nat.
Proof. done. Qed.
Lemma count_cons {A} (f : A -> bool) x l : count f (x :: l) = ((if f x then 1 else 0) + count f l)%nat.
Proof.
  unfold count. destruct (f x) eqn:E; [by rewrite filter_cons_True|by rewrite filter_cons_False by congruence].
Qed.
Lemma count_app {A} (f : A -> bool) l1 l2 : count f (l1 ++ l2) = (count f l1 + count f l2)%nat.
Proof. unfold count. by rewrite filter_app, length_app. Qed.

(** One thread moves. *)
Lemma count_insert {A} (f : A -> bool) l i x y :
  l !! i = Some x ->
  (count f (<[i := y]> l) + (if f x then 1 else 0) = count f l + (if f y then 1 else 0))%nat.
Proof.
  intros Hi. pose proof (lookup_lt_Some _ _ _ Hi) as Hlt.
  rewrite (list_split_at l i x Hi) at 2. rewrite (insert_take_drop l i y Hlt).
  rewrite !count_app, !count_cons. lia.
Qed.

Lemma count_replicate {A} (f : A -> bool) n x : f x = false -> count f (replicate n x) = 0%nat.
Proof. intros E. induction n as [|n IH]; [done|]. cbn [replicate]. by rewrite count_cons, E, IH. Qed.

Lemma count_replicate_true {A} (f : A -> bool) n x : f x = true -> count f (replicate n x) = n.
Proof. intros E. induction n as [|n IH]; [done|]. cbn [replicate]. by rewrite count_cons, E, IH. Qed.

Lemma count_le_length {A} (f : A -> bool) l : (count f l <= length l)%nat.
Proof. induction l as [|x l IH]; cbn [length]; [done|]. rewrite count_cons. destruct (f x); lia. Qed.

Lemma count_zero {A} (f : A -> bool) l : count f l = 0%nat <-> forall i x, l !! i = Some x -> f x = false.
Proof.
  induction l as [|y l IH]; [split; [by intros _ i x|done]|]. rewrite count_cons. split.
  - intros H [|i] x Hx; cbn in Hx.
    + simplify_eq. by destruct (f x).
    + apply (proj1 IH) with i; [destruct (f y); lia|done].
  - intros H. rewrite (H 0%nat y eq_refl). apply IH. intros i x Hx. by apply (H (S i)).
Qed.

Lemma count_pos {A} (f : A -> bool) l i x : l !! i = Some x -> f x = true -> (0 < count f l)%nat.
Proof.
  intros Hi Hx. destruct (count f l) eqn:E; [|lia].
  apply (proj1 (count_zero f l)) with (i := i) (x := x) in E; congruence.
Qed.

Lemma count_some {A} (f : A -> bool) l :
  (0 < count f l)%nat -> exists i x, l !! i = Some x /\ f x = true.
Proof.
  induction l as [|y l IH]; [by rewrite count_nil; lia|]. rewrite count_cons. intros H.
  destruct (f y) eqn:E; [by exists 0%nat, y|].
  destruct IH as (i & x & Hi & Hx); [lia|]. by exists (S i), x.
Qed.

(** Two different threads count twice. *)
Lemma count_two {A} (f : A -> bool) l i j x y :
  l !! i = Some x -> l !! j = Some y -> i <> j -> f x = true -> f y = true -> (2 <= count f l)%nat.
Proof.
  intros Hi Hj Hij Hx Hy.
  assert (H : (<[i := x]> l) !! j = Some y) by (by rewrite list_lookup_insert_ne).
  revert i j Hi Hj Hij H. induction l as [|z l IH]; intros [|i] [|j] Hi Hj Hij _; try done; cbn in Hi, Hj.
  - simplify_eq. rewrite count_cons, Hx. pose proof (count_pos f l j y Hj Hy). lia.
  - simplify_eq. rewrite count_cons, Hy. pose proof (count_pos f l i x Hi Hx). lia.
  - rewrite count_cons. specialize (IH i j Hi Hj ltac:(lia) ltac:(by rewrite list_lookup_insert_ne by lia)). lia.
Qed.

Lemma count_ext {A} (f g : A -> bool) l :
  (forall i x, l !! i = Some x -> f x = g x) -> count f l = count g l.
Proof.
  induction l as [|x l IH]; intros H; [done|]. rewrite !count_cons, (H 0%nat x eq_refl), IH; [done|].
  intros i y Hi. by apply (H (S i)).
Qed.

Lemma count_mono {A} (f g : A -> bool) l :
  (forall x, f x = true -> g x = true) -> (count f l <= count g l)%nat.
Proof.
  intros Hfg. induction l as [|x l IH]; [done|]. rewrite !count_cons. specialize (Hfg x).
  destruct (f x); [rewrite Hfg by done|]; lia.
Qed.

Lemma sum_insert {A} (f : A -> nat) ts i x y :
  ts !! i = Some x ->
  (sum_nat (map f (<[i := y]> ts)) + f x = sum_nat (map f ts) + f y)%nat.
Proof.
  intros Hi. pose proof (lookup_lt_Some _ _ _ Hi) as Hl.
  rewrite (list_split_at ts i x Hi) at 2. rewrite (insert_take_drop ts i y Hl).
  rewrite !map_app, !sum_nat_app. cbn. lia.
Qed.

(** The work the threads still have, when one of them does a part of its own. *)
Lemma sum_moved {A} (f : A -> nat) ts i x y :
  ts !! i = Some x -> (f y < f x)%nat -> (sum_nat (map f (<[i := y]> ts)) < sum_nat (map f ts))%nat.
Proof.
  intros Hi Hlt. pose proof (lookup_lt_Some _ _ _ Hi) as Hl.
  rewrite (list_split_at ts i x Hi) at 2. rewrite (insert_take_drop ts i y Hl).
  rewrite !map_app, !sum_nat_app. cbn. lia.
Qed.
