(* ===== verification/Locks.v ===== *)
(** * Lock words under interleaving (core/index/utils.h, leaf_node.h,
    plin_index.h, spinlock.h)

    Every lock of the index is one machine word that threads change with a load
    and a compare-and-swap, and release with a store.  The section [BitLock] is the
    protocol they share; its instances are the slot lock, the block lock (of calls
    given the block's own global version; BlockLock.v has the rest of it), the split
    lock of a leaf and the lock of a split log.  [Smo] is the readers-writer lock of
    the metadata record and [Spin] the exchange lock of spinlock.h.  A word is a [Z]
    below [2 ^ 32]. *)

From S2P Require Import Prelude Doubles Interleave.
Open Scope Z_scope.

(** ** One-bit locks *)

(** [is_set]: the test of the acquiring loop; [acquired]: the value it swaps in;
    [released]: the value the release stores, from the one it loaded, if it loads. *)
Record lock_word : Type := mkLock {
  is_set : Z -> bool;
  acquired : Z -> Z;
  loads : bool;
  released : Z -> Z
}.

Class LockLaws (k : lock_word) := {
  set_acquired v : 0 <= v < 2 ^ 32 -> is_set k v = false -> is_set k (acquired k v) = true;
  free_released v : is_set k (released k v) = false;
  acquired_range v : 0 <= v < 2 ^ 32 -> 0 <= acquired k v < 2 ^ 32;
  released_range v : 0 <= v < 2 ^ 32 -> 0 <= released k v < 2 ^ 32
}.

(** [InnerSlot::get_lock] and [release_lock]. *)
Definition slot_lock : lock_word := {|
  is_set w := negb (Z.land w lockSet =? 0);
  acquired w := Z.lor w lockSet;
  loads := true;
  released w := Z.land w double_bit_lockMask
|}.

(** [BlockHeader::get_lock] and [release_lock]: the release counts a version. *)
Definition block_lock : lock_word := {|
  is_set w := negb (Z.land w lockSet =? 0);
  acquired w := Z.lor w lockSet;
  loads := true;
  released w := Z.land (u32 (w + 1)) lockMask
|}.

(** [LeafNode::try_get_split_lock] and [release_lock]; [split_log] has the same. *)
Definition split_lock : lock_word := {|
  is_set w := negb (Z.land w 1 =? 0);
  acquired w := Z.lor w 1;
  loads := false;
  released _ := 0
|}.

(** A word below [2 ^ 32] has bit 31 exactly when it is at least [2 ^ 31]. *)
Lemma bit31 w : 0 <= w < 2 ^ 32 -> negb (Z.land w lockSet =? 0) = (2 ^ 31 <=? w).
Proof.
  intros Hw. unfold lockSet.
  assert (E : Z.land w (2 ^ 31) = if Z.testbit w 31 then 2 ^ 31 else 0).
  { apply Z.bits_inj'. intros i Hi. rewrite Z.land_spec, Z.pow2_bits_eqb by lia.
    destruct (Z.eqb_spec 31 i) as [<-|Hne].
    - destruct (Z.testbit w 31); [by rewrite Z.pow2_bits_true|by rewrite Z.bits_0].
    - rewrite andb_false_r. destruct (Z.testbit w 31); [|by rewrite Z.bits_0].
      by rewrite Z.pow2_bits_false by lia. }
  rewrite E, Z.testbit_eqb by lia. destruct (Z.leb_spec (2 ^ 31) w) as [H|H].
  - replace (w / 2 ^ 31) with 1 by (apply (Z.div_unique _ _ _ (w - 2 ^ 31)); lia). done.
  - rewrite Z.div_small by lia. done.
Qed.

Lemma lor_bit31 w : 0 <= w < 2 ^ 31 -> Z.lor w lockSet = w + 2 ^ 31.
Proof.
  intros Hw. rewrite <- Z.lxor_lor, <- Z.add_nocarry_lxor; [done| |].
  all: unfold lockSet; apply Z.bits_inj'; intros i Hi;
    rewrite Z.land_spec, Z.pow2_bits_eqb, Z.bits_0 by lia;
    destruct (Z.eqb_spec 31 i) as [<-|]; [|apply andb_false_r];
    rewrite andb_true_r; destruct (Z.eq_dec w 0) as [->|]; [apply Z.bits_0|];
    apply Z.bits_above_log2; [lia|]; apply Z.log2_lt_pow2; lia.
Qed.

Lemma land_mask w n : 0 <= n -> Z.land w (2 ^ n - 1) = w mod 2 ^ n.
Proof.
  intros Hn. change (2 ^ n - 1) with (Z.pred (2 ^ n)).
  rewrite <- Z.ones_equiv. by apply Z.land_ones.
Qed.

#[export] Instance slot_lock_laws : LockLaws slot_lock.
Proof.
  split; cbn [is_set acquired released slot_lock].
  - intros v Hv Hs. rewrite bit31 in Hs by done. zb. rewrite lor_bit31 by lia.
    rewrite bit31 by lia. apply Z.leb_le. lia.
  - intros v. unfold double_bit_lockMask. rewrite land_mask by lia.
    pose proof (Z.mod_pos_bound v (2 ^ 30)). rewrite bit31 by lia. apply Z.leb_gt. lia.
  - intros v Hv. destruct (Z.lt_ge_cases v (2 ^ 31)); [rewrite lor_bit31; lia|].
    split; [apply Z.lor_nonneg; split; [lia|done]|].
    unfold lockSet. apply Z.log2_lt_cancel. rewrite Z.log2_lor by (lia || done).
    assert (Z.log2 v < 32) by (apply Z.log2_lt_pow2; lia).
    change (Z.log2 (2 ^ 31)) with 31. change (Z.log2 (2 ^ 32)) with 32. lia.
  - intros v Hv. unfold double_bit_lockMask. rewrite land_mask by lia.
    pose proof (Z.mod_pos_bound v (2 ^ 30)). lia.
Qed.

Lemma acquired_bit31 v :
  0 <= v < 2 ^ 32 -> negb (Z.land v lockSet =? 0) = false ->
  Z.lor v lockSet = v + 2 ^ 31 /\ v < 2 ^ 31.
Proof. intros Hv Hs. rewrite bit31 in Hs by done. zb. split; [apply lor_bit31|]; lia. Qed.

#[export] Instance block_lock_laws : LockLaws block_lock.
Proof.
  split; cbn [is_set acquired released block_lock].
  - intros v Hv Hs. apply (set_acquired (k := slot_lock) v Hv Hs).
  - intros v. unfold lockMask. rewrite land_mask by lia.
    pose proof (Z.mod_pos_bound (u32 (v + 1)) (2 ^ 31)). rewrite bit31 by lia. apply Z.leb_gt. lia.
  - intros v Hv. apply (acquired_range (k := slot_lock) v Hv).
  - intros v Hv. unfold lockMask. rewrite land_mask by lia.
    pose proof (Z.mod_pos_bound (u32 (v + 1)) (2 ^ 31)). lia.
Qed.

Lemma land1 w : Z.land w 1 = w mod 2.
Proof. change 1 with (2 ^ 1 - 1) at 1. by rewrite land_mask. Qed.

#[export] Instance split_lock_laws : LockLaws split_lock.
Proof.
  split; cbn [is_set acquired released split_lock]; intros v; try done.
  - intros Hv Hs. assert (Z.land v 1 = 0) as H0 by (by zb).
    rewrite Z.land_lor_distr_l, H0. done.
  - intros Hv. split; [apply Z.lor_nonneg; lia|].
    apply Z.log2_lt_cancel. rewrite Z.log2_lor by (lia || done).
    assert (Z.log2 v < 32) by (destruct (Z.eq_dec v 0) as [->|]; [done|apply Z.log2_lt_pow2; lia]).
    change (Z.log2 1) with 0. change (Z.log2 (2 ^ 32)) with 32. pose proof (Z.log2_nonneg v). lia.
Qed.

(** Where a thread is.  A thread that was refused, or lost the swap, is idle
    again: whether it tries once more is the caller's choice. *)
Inductive lpc : Type :=
| Idle
| Loaded (v : Z)
| Held
| Storing (v : Z).

#[export] Instance lpc_eq_dec : EqDecision lpc.
Proof. solve_decision. Defined.

Definition lock_next (k : lock_word) (p : lpc) (w : Z) : list (lpc * Z) :=
  match p with
  | Idle => [(if is_set k w then Idle else Loaded w, w)]
  | Loaded v => [if w =? v then (Held, acquired k v) else (Idle, w)]
  | Held => [if loads k then (Storing w, w) else (Idle, released k w)]
  | Storing v => [(Idle, released k v)]
  end.

Definition holds (p : lpc) : bool := match p with Held | Storing _ => true | _ => false end.

Section BitLock.
Context (k : lock_word) `{LockLaws k}.

(** The lock is set exactly while one thread holds it. *)
Record lock_inv (s : sys (PC := lpc) (M := Z)) : Prop := {
  li_range : 0 <= s.1 < 2 ^ 32;
  li_count : count holds s.2 = if is_set k s.1 then 1%nat else 0%nat;
  li_loaded i v : s.2 !! i = Some (Loaded v) -> is_set k v = false /\ 0 <= v < 2 ^ 32;
  li_storing i v : s.2 !! i = Some (Storing v) -> v = s.1
}.

Lemma lock_inv_initial n w : 0 <= w < 2 ^ 32 -> is_set k w = false -> lock_inv (w, replicate n Idle).
Proof.
  intros Hw Hs. split; cbn [fst snd]; [done|by rewrite Hs, count_replicate| |].
  all: intros i v [E _]%lookup_replicate; done.
Qed.

Lemma lock_inv_step w ts i p p' w' :
  lock_inv (w, ts) -> ts !! i = Some p -> (p', w') ∈ lock_next k p w ->
  lock_inv (w', <[i := p']> ts).
Proof.
  intros [H1 H2 H3 H4] Hi Hn. cbn [fst snd] in *. pose proof (count_insert holds ts i p p' Hi) as Hc.
  assert (Hno : is_set k w = false -> forall j v, ts !! j = Some (Storing v) -> False).
  { intros Hs j v Hj. rewrite Hs in H2. by apply (proj1 (count_zero holds ts) H2) in Hj. }
  destruct p; cbn in Hn; apply list_elem_of_singleton in Hn.
  - (* the load *)
    injection Hn as -> ->.
    assert (Hh : holds (if is_set k w then Idle else Loaded w) = false) by (by destruct (is_set k w)).
    rewrite Hh in Hc. cbn [holds] in Hc. split; cbn [fst snd]; [done|lia| |].
    + intros j v [[-> Hv]|[_ Hj]]%lookup_moved; [|by eapply H3].
      destruct (is_set k w) eqn:Es; [done|]. by injection Hv as ->.
    + intros j v [[-> Hv]|[_ Hj]]%lookup_moved; [|by eapply H4]. by destruct (is_set k w).
  - (* the compare-and-swap *)
    destruct (H3 i v Hi) as [Hv Hr]. destruct (Z.eqb_spec w v) as [->|Hne]; injection Hn as -> ->.
    + rewrite Hv in H2. cbn [holds] in Hc. split; cbn [fst snd].
      * by apply acquired_range.
      * rewrite set_acquired by done. lia.
      * intros j u [[-> Hu]|[_ Hj]]%lookup_moved; [done|by eapply H3].
      * intros j u [[-> Hu]|[_ Hj]]%lookup_moved; [done|by apply Hno in Hj].
    + cbn [holds] in Hc. split; cbn [fst snd]; [done|lia| |].
      * intros j u [[-> Hu]|[_ Hj]]%lookup_moved; [done|by eapply H3].
      * intros j u [[-> Hu]|[_ Hj]]%lookup_moved; [done|by eapply H4].
  - (* the release, or its load *)
    assert (Es : is_set k w = true).
    { destruct (is_set k w); [done|]. pose proof (count_pos holds ts i Held Hi eq_refl). lia. }
    rewrite Es in H2. destruct (loads k); injection Hn as -> ->; cbn [holds] in Hc; split; cbn [fst snd].
    + done.
    + rewrite Es. lia.
    + intros j u [[-> Hu]|[_ Hj]]%lookup_moved; [done|by eapply H3].
    + intros j u [[-> Hu]|[_ Hj]]%lookup_moved; [congruence|by eapply H4].
    + by apply released_range.
    + rewrite free_released. lia.
    + intros j u [[-> Hu]|[_ Hj]]%lookup_moved; [done|by eapply H3].
    + intros j u [[-> Hu]|[Hij Hj]]%lookup_moved; [done|].
      pose proof (count_two holds ts i j Held (Storing u) Hi Hj Hij eq_refl eq_refl). lia.
  - (* the store of the release *)
    injection Hn as -> ->.
    pose proof (H4 i v Hi) as ->.
    assert (Es : is_set k w = true).
    { destruct (is_set k w) eqn:E; [done|]. exfalso. by apply (Hno eq_refl i w). }
    rewrite Es in H2. cbn [holds] in Hc. split; cbn [fst snd].
    + by apply released_range.
    + rewrite free_released. lia.
    + intros j u [[-> Hu]|[_ Hj]]%lookup_moved; [done|by eapply H3].
    + intros j u [[-> Hu]|[Hij Hj]]%lookup_moved; [done|].
      pose proof (count_two holds ts i j (Storing w) (Storing u) Hi Hj Hij eq_refl eq_refl). lia.
Qed.

Lemma lock_inv_reachable n w s :
  0 <= w < 2 ^ 32 -> is_set k w = false -> rtc (step (lock_next k)) (w, replicate n Idle) s ->
  lock_inv s.
Proof.
  intros Hw Hs Hr. eapply invariant; [|by apply lock_inv_initial|exact Hr].
  intros. by eapply lock_inv_step.
Qed.

(** Steps that a thread still owes before it is idle again. *)
Definition owed (p : lpc) : nat :=
  match p with Idle => 0 | Loaded _ => 3 | Held => 2 | Storing _ => 1 end.

(** From any state of the protocol all threads can leave it. *)
Lemma lock_drains s :
  lock_inv s -> exists s', rtc (step (lock_next k)) s s' /\ lock_inv s' /\ length s'.2 = length s.2 /\
    Forall (fun p => p = Idle) s'.2.
Proof.
  intros Hs.
  destruct (reaches (lock_next k) (fun x => lock_inv x /\ length x.2 = length s.2)
    (fun x => lock_inv x /\ length x.2 = length s.2 /\ Forall (fun p => p = Idle) x.2) (fun x => sum_nat (map owed x.2)))
    with (s := s) as (s' & H1 & H2 & H3 & H4); [|done|by exists s'].
  intros [w ts] [HI Hlen].
  destruct (decide (Forall (fun p => p = Idle) ts)) as [HF|HF]; [left; done|right].
  apply not_Forall_Exists in HF; [|apply _]. apply Exists_exists in HF as (p & Hp & Hne).
  apply list_elem_of_lookup in Hp as [i Hi].
  assert (exists p' w', (p', w') ∈ lock_next k p w /\ (owed p' < owed p)%nat) as (p' & w' & Hn & Ho).
  { destruct p; [by destruct Hne| | |]; cbn [lock_next].
    - destruct (w =? v); eexists _, _; (split; [apply list_elem_of_here|cbn; lia]).
    - destruct (loads k); eexists _, _; (split; [apply list_elem_of_here|cbn; lia]).
    - eexists _, _. split; [apply list_elem_of_here|cbn; lia]. }
  exists (w', <[i := p']> ts). split; [by econstructor|]. split; [split|].
  - by eapply lock_inv_step.
  - cbn. by rewrite length_insert.
  - by apply (sum_moved owed ts i p).
Qed.
End BitLock.

(** C14: at most one thread is between the acquisition of a one-bit lock and the store
    that releases it, whatever the interleaving and however many threads there are,
    and the bit of the word is set exactly while there is one. *)
Theorem lock_mutual_exclusion (k : lock_word) `{LockLaws k} (n : nat) (w : Z)
    (s : sys (PC := lpc) (M := Z)) :
  0 <= w < 2 ^ 32 -> is_set k w = false ->
  rtc (step (lock_next k)) (w, replicate n Idle) s ->
  (forall i j p q, s.2 !! i = Some p -> s.2 !! j = Some q ->
     holds p = true -> holds q = true -> i = j) /\
  (is_set k s.1 = true <-> exists i p, s.2 !! i = Some p /\ holds p = true).
Proof.
  intros Hw Hs Hr. destruct (lock_inv_reachable k n w s Hw Hs Hr) as [_ Hc _ _]. split.
  - intros i j p q Hi Hj Hp Hq. destruct (decide (i = j)) as [|Hij]; [done|].
    pose proof (count_two holds s.2 i j p q Hi Hj Hij Hp Hq). destruct (is_set k s.1); lia.
  - split.
    + intros E. rewrite E in Hc. apply count_some. lia.
    + intros (i & p & Hi & Hp). pose proof (count_pos holds s.2 i p Hi Hp).
      destruct (is_set k s.1); [done|lia].
Qed.

(** C34: no deadlock: from every reachable state of a one-bit lock, every thread can
    still come to hold it. *)
Theorem lock_available (k : lock_word) `{LockLaws k} (n i : nat) (w : Z)
    (s : sys (PC := lpc) (M := Z)) :
  0 <= w < 2 ^ 32 -> is_set k w = false -> (i < n)%nat ->
  rtc (step (lock_next k)) (w, replicate n Idle) s ->
  exists s', rtc (step (lock_next k)) s s' /\ s'.2 !! i = Some Held.
Proof.
  intros Hw Hs Hi Hr.
  assert (Hlen : length s.2 = n).
  { refine (invariant _ (fun x => length x.2 = n) _ _ _ _ Hr); [|cbn; apply length_replicate].
    intros m ts j p p' m' Hl _ _. cbn in *. by rewrite length_insert. }
  destruct (lock_drains k s (lock_inv_reachable k n w s Hw Hs Hr)) as ([w' ts] & H1 & [R C _ _] & Hl & HF).
  cbn [fst snd] in *. rewrite Hlen in Hl. destruct (lookup_lt_is_Some_2 ts i) as [p Hp]; [lia|].
  pose proof (proj1 (Forall_lookup _ _) HF i p Hp) as ->.
  assert (Hfree : is_set k w' = false).
  { destruct (is_set k w'); [|done]. exfalso.
    assert (count holds ts = 0%nat); [|lia]. apply count_zero. intros j q Hq.
    by rewrite (proj1 (Forall_lookup _ _) HF j q Hq). }
  exists (acquired k w', <[i := Held]> (<[i := Loaded w']> ts)). split.
  - etransitivity; [exact H1|]. eapply rtc_l; [|eapply rtc_once].
    + apply (step_thread _ w' ts i Idle (Loaded w') w'); [done|]. cbn. rewrite Hfree. apply list_elem_of_here.
    + apply (step_thread _ w' _ i (Loaded w')).
      * apply list_lookup_insert_eq. lia.
      * cbn. rewrite Z.eqb_refl. apply list_elem_of_here.
  - cbn. apply list_lookup_insert_eq. rewrite length_insert. lia.
Qed.

(** Three threads and the block lock: the second is refused while the first is in,
    the third loses the swap. *)
Definition demo_schedule : list (nat * nat) :=
  [(0, 0); (2, 0); (0, 0); (1, 0); (2, 0); (0, 0)]%nat.
Definition demo_state : sys (PC := lpc) (M := Z) :=
  default (0, []) (run (lock_next block_lock) demo_schedule (5, replicate 3 Idle)).

Lemma demo_reachable : rtc (step (lock_next block_lock)) (5, replicate 3 Idle) demo_state.
Proof. apply (run_steps _ demo_schedule). vm_compute. reflexivity. Qed.

Lemma lock_mutual_exclusion_witness :
  demo_state = (5 + 2 ^ 31, [Storing (5 + 2 ^ 31); Idle; Idle]) /\
  is_set block_lock demo_state.1 = true.
Proof.
  split; [vm_compute; reflexivity|].
  apply (lock_mutual_exclusion block_lock 3 5 demo_state ltac:(lia) eq_refl demo_reachable).
  exists 0%nat, (Storing (5 + 2 ^ 31)). split; vm_compute; reflexivity.
Defined.

Lemma lock_available_witness :
  exists s', rtc (step (lock_next block_lock)) demo_state s' /\ s'.2 !! 1%nat = Some Held.
Proof. apply (lock_available block_lock 3 1 5 demo_state); [lia|reflexivity|lia|apply demo_reachable]. Defined.

(** ** The readers-writer lock of the metadata record *)

Module Smo.

(** [RTry] and [WTry] are the heads of the two retry loops; [WWait] has set the
    write bit and waits for the readers to leave. *)
Inductive spc : Type :=
| Out
| RTry
| RLoaded (v : Z)
| Reading
| WTry
| WLoaded (v : Z)
| WWait
| Writing.

#[export] Instance spc_eq_dec : EqDecision spc.
Proof. solve_decision. Defined.

(** [try_get_read_lock], [get_write_lock] and the two releases; a thread that is
    out may start either. *)
Definition smo_next (p : spc) (w : Z) : list (spc * Z) :=
  match p with
  | Out => [(RTry, w); (WTry, w)]
  | RTry => [(if negb (Z.land w lockSet =? 0) then Out else RLoaded w, w)]
  | RLoaded v => [if w =? v then (Reading, u32 (v + 1)) else (RTry, w)]
  | Reading => [(Out, u32 (w - 1))]
  | WTry => [(if negb (Z.land w lockSet =? 0) then Out else WLoaded w, w)]
  | WLoaded v => [if w =? v then (WWait, Z.lor v lockSet) else (WTry, w)]
  | WWait => [(if negb (Z.land w lockMask =? 0) then WWait else Writing, w)]
  | Writing => [(Out, 0)]
  end.

Definition reading (p : spc) : bool := match p with Reading => true | _ => false end.
Definition marked (p : spc) : bool := match p with WWait | Writing => true | _ => false end.

Notation readers ts := (Z.of_nat (count reading ts)).
Notation writers ts := (Z.of_nat (count marked ts)).

(** The word is the write bit over the number of readers. *)
Record smo_inv (s : sys (PC := spc) (M := Z)) : Prop := {
  si_size : Z.of_nat (length s.2) < 2 ^ 31;
  si_word : s.1 = 2 ^ 31 * writers s.2 + readers s.2;
  si_one : writers s.2 <= 1;
  si_alone i : s.2 !! i = Some Writing -> readers s.2 = 0;
  si_loaded i v : s.2 !! i = Some (RLoaded v) \/ s.2 !! i = Some (WLoaded v) -> 0 <= v < 2 ^ 31
}.

Lemma readers_bound ts : Z.of_nat (length ts) < 2 ^ 31 -> 0 <= readers ts < 2 ^ 31.
Proof. intros H. pose proof (count_le_length reading ts). lia. Qed.

Lemma smo_bit w r k : w = 2 ^ 31 * k + r -> 0 <= r < 2 ^ 31 -> 0 <= k <= 1 ->
  negb (Z.land w lockSet =? 0) = (k =? 1) /\ Z.land w lockMask = r.
Proof.
  intros -> Hr Hk. split.
  - rewrite bit31 by lia. destruct (Z.eqb_spec k 1), (Z.leb_spec (2 ^ 31) (2 ^ 31 * k + r)); lia.
  - unfold lockMask. rewrite land_mask by lia. rewrite Z.add_comm, Z.mul_comm, Z.mod_add by lia.
    by apply Z.mod_small.
Qed.

Lemma smo_initial n : Z.of_nat n < 2 ^ 31 -> smo_inv (0, replicate n Out).
Proof.
  intros Hn. split; cbn [fst snd]; rewrite ?length_replicate, ?count_replicate by done; try lia.
  intros i v [[E _]%lookup_replicate|[E _]%lookup_replicate]; done.
Qed.

(** The cases of a step, with the tests of the word read as arithmetic. *)
Ltac smo_cases :=
  match goal with
  | Hn : _ ∈ smo_next ?p _, Eset : negb _ = _, Emask : Z.land _ lockMask = _ |- _ =>
      destruct p; cbn in Hn; rewrite ?elem_of_cons, ?elem_of_nil in Hn;
      rewrite ?Eset, ?Emask in Hn; destruct_or?; try done; repeat case_match; zb; simplify_eq;
      cbn [reading marked] in *; try lia
  end.

Lemma smo_inv_step w ts i p p' w' :
  smo_inv (w, ts) -> ts !! i = Some p -> (p', w') ∈ smo_next p w -> smo_inv (w', <[i := p']> ts).
Proof.
  intros [H1 H2 H3 H4 H5] Hi Hn. cbn [fst snd] in *.
  pose proof (count_insert reading ts i p p' Hi) as Hr. pose proof (count_insert marked ts i p p' Hi) as Hw.
  pose proof (readers_bound ts H1) as Hb.
  destruct (smo_bit w _ _ H2 Hb ltac:(lia)) as [Eset Emask].
  assert (Hw1 : p' = Writing -> readers ts = 0).
  { intros ->. smo_cases. }
  assert (Hsafe : forall j, j <> i -> ts !! j = Some Writing -> readers (<[i := p']> ts) = 0).
  { intros j Hji Hj. pose proof (H4 j Hj) as H0. pose proof (count_pos marked ts j Writing Hj eq_refl) as Hpos.
    smo_cases. exfalso. destruct (H5 i _ (or_introl Hi)). lia. }
  assert (Hl : forall j v, <[i := p']> ts !! j = Some (RLoaded v) \/ <[i := p']> ts !! j = Some (WLoaded v) ->
    0 <= v < 2 ^ 31).
  { intros j v Hj.
    assert (p' = RLoaded v \/ p' = WLoaded v \/ ts !! j = Some (RLoaded v) \/ ts !! j = Some (WLoaded v)) as Hc.
    { destruct Hj as [[[-> Hv]|[_ Hv]]%lookup_moved|[[-> Hv]|[_ Hv]]%lookup_moved]; auto. }
    destruct Hc as [->|[->|Hc]]; [| |by eapply H5].
    all: smo_cases. }
  split; cbn [fst snd]; [by rewrite length_insert| | | |done].
  - smo_cases.
    + destruct (H5 i _ (or_introl Hi)).
      pose proof (count_le_length reading (<[i:=Reading]> ts)). rewrite length_insert in *.
      rewrite u32_small by lia. lia.
    + pose proof (count_pos reading ts i Reading Hi eq_refl).
      rewrite u32_small by lia. lia.
    + destruct (H5 i _ (or_intror Hi)). rewrite lor_bit31 by lia. lia.
    + pose proof (H4 i Hi). lia.
  - smo_cases.
    destruct (H5 i _ (or_intror Hi)). lia.
  - intros j [[-> Hv]|[Hij Hj]]%lookup_moved; [|by eapply Hsafe].
    subst p'. cbn [reading] in Hr. pose proof (Hw1 eq_refl). destruct (reading p); lia.
Qed.

Lemma smo_reachable n s :
  Z.of_nat n < 2 ^ 31 -> rtc (step smo_next) (0, replicate n Out) s -> smo_inv s /\ length s.2 = n.
Proof.
  intros Hn Hr. refine (invariant _ (fun x => smo_inv x /\ length x.2 = n) _ _ _ _ Hr).
  - intros m ts j p p' m' [HI Hl] Hj Hp. cbn in *. rewrite length_insert. split; [|done]. by eapply smo_inv_step.
  - cbn. rewrite length_replicate. by split; [apply smo_initial|].
Qed.

(** What a thread still has to do, once nobody is in. *)
Definition owed (p : spc) : nat :=
  match p with
  | Out => 0
  | Reading | Writing => 1
  | WWait => 2
  | RTry | WTry => 4
  | RLoaded v | WLoaded v => if v =? 0 then 3 else 5
  end.

(** Some thread can always move towards leaving. *)
Lemma smo_progress w ts :
  smo_inv (w, ts) ->
  Forall (fun p => p = Out) ts \/
  exists i p p' w', ts !! i = Some p /\ (p', w') ∈ smo_next p w /\ (owed p' < owed p)%nat.
Proof.
  intros [H1 H2 H3 H4 H5]. cbn [fst snd] in *. pose proof (readers_bound ts H1) as Hb.
  destruct (smo_bit w _ _ H2 Hb ltac:(lia)) as [Eset Emask].
  destruct (Nat.eq_dec (count reading ts) 0%nat) as [Er|Hne].
  2:{ right. destruct (count_some reading ts) as (i & p & Hi & Hp); [lia|]. destruct p; try done.
      exists i, Reading, Out, (u32 (w - 1)).
      split; [done|]. split; [apply list_elem_of_here|cbn; lia]. }
  destruct (Nat.eq_dec (count marked ts) 0%nat) as [Em|Hne].
  2:{ right. destruct (count_some marked ts) as (i & p & Hi & Hp); [lia|]. destruct p; try done.
      - exists i, WWait, Writing, w. split; [done|]. cbn [smo_next]. rewrite Emask, Er.
        split; [apply list_elem_of_here|cbn; lia].
      - exists i, Writing, Out, 0. split; [done|]. split; [apply list_elem_of_here|cbn; lia]. }
  assert (w = 0) as -> by lia.
  destruct (decide (Forall (fun p => p = Out) ts)) as [|HF]; [by left|right].
  apply not_Forall_Exists in HF; [|apply _]. apply Exists_exists in HF as (p & Hp & Hne).
  apply list_elem_of_lookup in Hp as [i Hi].
  pose proof (proj1 (count_zero _ _) Er i p Hi). pose proof (proj1 (count_zero _ _) Em i p Hi).
  exists i, p. destruct p; try done; [by destruct Hne|..]; cbn [smo_next].
  all: try (destruct (Z.eqb_spec 0 v) as [<-|]).
  all: eexists _, _; split; [done|]; split; [apply list_elem_of_here|].
  all: cbn; repeat case_match; zb; cbn; lia.
Qed.

Lemma smo_drains s :
  smo_inv s -> exists s', rtc (step smo_next) s s' /\ smo_inv s' /\ length s'.2 = length s.2 /\
    Forall (fun p => p = Out) s'.2.
Proof.
  intros Hs.
  destruct (reaches smo_next (fun x => smo_inv x /\ length x.2 = length s.2)
    (fun x => smo_inv x /\ length x.2 = length s.2 /\ Forall (fun p => p = Out) x.2)
    (fun x => sum_nat (map owed x.2)))
    with (s := s) as (s' & H1 & H2 & H3 & H4); [|done|by exists s'].
  intros [w ts] [HI Hlen].
  destruct (smo_progress w ts HI) as [|(i & p & p' & w' & Hi & Hn & Ho)]; [by left|right].
  exists (w', <[i := p']> ts). split; [by econstructor|]. split; [split|].
  - by eapply smo_inv_step.
  - cbn. by rewrite length_insert.
  - by apply (sum_moved owed ts i p).
Qed.

(** C15: the metadata lock: while a thread rebuilds no thread splits a leaf and no other
    thread rebuilds, and the 31-bit count of readers below the write bit is exact as
    long as there are fewer than [2 ^ 31] threads. *)
Theorem smo_writer_excludes (n : nat) (s : sys (PC := spc) (M := Z)) :
  Z.of_nat n < 2 ^ 31 -> rtc (step smo_next) (0, replicate n Out) s ->
  Z.land s.1 lockMask = Z.of_nat (count reading s.2) /\
  forall i j q, s.2 !! i = Some Writing -> s.2 !! j = Some q -> i <> j -> q <> Reading /\ q <> Writing.
Proof.
  intros Hn Hr. destruct (smo_reachable n s Hn Hr) as [[H1 H2 H3 H4 H5] _]. split.
  - apply (smo_bit s.1 _ _ H2); [by apply readers_bound|lia].
  - intros i j q Hi Hj Hij. split; intros ->.
    + pose proof (H4 i Hi). pose proof (count_pos reading s.2 j _ Hj eq_refl). lia.
    + pose proof (count_two marked s.2 i j _ _ Hi Hj Hij eq_refl eq_refl). lia.
Qed.

(** From every reachable state of the metadata lock, every thread can still come to
    rebuild. *)
Theorem smo_write_available (n i : nat) (s : sys (PC := spc) (M := Z)) :
  Z.of_nat n < 2 ^ 31 -> (i < n)%nat -> rtc (step smo_next) (0, replicate n Out) s ->
  exists s', rtc (step smo_next) s s' /\ s'.2 !! i = Some Writing.
Proof.
  intros Hn Hi Hr. destruct (smo_reachable n s Hn Hr) as [HI Hlen].
  destruct (smo_drains s HI) as ([w ts] & H1 & [_ Hw _ _ _] & Hl & HF). cbn [fst snd] in *.
  destruct (lookup_lt_is_Some_2 ts i) as [p Hp]; [lia|].
  pose proof (proj1 (Forall_lookup _ _) HF) as HO. rewrite (HO i p Hp) in Hp.
  assert (E1 : count reading ts = 0%nat) by (apply count_zero; intros j q Hq; by rewrite (HO j q Hq)).
  assert (E2 : count marked ts = 0%nat) by (apply count_zero; intros j q Hq; by rewrite (HO j q Hq)).
  rewrite E1, E2 in Hw. subst w.
  exists (Z.lor 0 lockSet, <[i := Writing]> (<[i := WWait]> (<[i := WLoaded 0]> (<[i := WTry]> ts)))).
  split; [|cbn; apply list_lookup_insert_eq; rewrite !length_insert; lia].
  etransitivity; [exact H1|].
  eapply rtc_l; [apply (step_thread _ 0 ts i Out WTry 0 Hp); by apply elem_of_cons; right; apply list_elem_of_here|].
  eapply rtc_l; [|eapply rtc_l; [|eapply rtc_once]].
  - apply (step_thread _ 0 _ i WTry (WLoaded 0) 0); [apply list_lookup_insert_eq; lia|apply list_elem_of_here].
  - apply (step_thread _ 0 _ i (WLoaded 0) WWait (Z.lor 0 lockSet)); [|apply list_elem_of_here].
    apply list_lookup_insert_eq. rewrite length_insert. lia.
  - apply (step_thread _ _ _ i WWait Writing); [|apply list_elem_of_here].
    apply list_lookup_insert_eq. rewrite !length_insert. lia.
Qed.

(** Two splits are under way when a rebuild asks for the lock; a third split is
    refused; the rebuild starts after both have left. *)
Definition rebuild_schedule : list (nat * nat) :=
  [(0, 0); (0, 0); (0, 0); (1, 0); (1, 0); (1, 0); (2, 1); (2, 0); (2, 0); (2, 0); (3, 0); (3, 0);
   (1, 0); (2, 0); (0, 0); (2, 0)]%nat.
Definition demo_rebuild : sys (PC := spc) (M := Z) :=
  default (0, []) (run smo_next rebuild_schedule (0, replicate 4 Out)).

Lemma demo_rebuild_reachable : rtc (step smo_next) (0, replicate 4 Out) demo_rebuild.
Proof. apply (run_steps _ rebuild_schedule). vm_compute. reflexivity. Qed.

Lemma smo_writer_excludes_witness :
  demo_rebuild = (2 ^ 31, [Out; Out; Writing; Out]) /\ count reading demo_rebuild.2 = 0%nat.
Proof.
  split; [vm_compute; reflexivity|]. apply Nat2Z.inj.
  rewrite <- (proj1 (smo_writer_excludes 4 demo_rebuild ltac:(lia) demo_rebuild_reachable)).
  vm_compute. reflexivity.
Defined.

Lemma smo_write_available_witness :
  exists s', rtc (step smo_next) demo_rebuild s' /\ s'.2 !! 3%nat = Some Writing.
Proof. apply (smo_write_available 4 3); [lia|lia|apply demo_rebuild_reachable]. Defined.
End Smo.

(** ** The exchange lock of spinlock.h *)

Module Spin.

Inductive xpc : Type :=
| Free
| Exchange
| Watch
| Owner.

#[export] Instance xpc_eq_dec : EqDecision xpc.
Proof. solve_decision. Defined.

(** [lock] exchanges until it reads 0 and, after each failure, watches the word until
    it is 0; a free thread starts [lock], or does [trylock]; the owner does [unlock]. *)
Definition spin_next (p : xpc) (w : Z) : list (xpc * Z) :=
  match p with
  | Free => [(Exchange, w); (if w =? 0 then Owner else Free, 1)]
  | Exchange => [(if w =? 1 then Watch else Owner, 1)]
  | Watch => [(if w =? 0 then Exchange else Watch, w)]
  | Owner => [(Free, 0)]
  end.

Definition owner (p : xpc) : bool := match p with Owner => true | _ => false end.

Definition spin_inv (s : sys (PC := xpc) (M := Z)) : Prop :=
  s.1 = Z.of_nat (count owner s.2) /\ s.1 <= 1.

Lemma spin_inv_step w ts i p p' w' :
  spin_inv (w, ts) -> ts !! i = Some p -> (p', w') ∈ spin_next p w -> spin_inv (w', <[i := p']> ts).
Proof.
  unfold spin_inv. cbn [fst snd]. intros [H1 H2] Hi Hn. pose proof (count_insert owner ts i p p' Hi) as Hc.
  pose proof (count_pos owner ts i p Hi) as Hpos.
  destruct p; cbn [spin_next] in Hn; rewrite ?elem_of_cons, ?elem_of_nil in Hn; destruct_or?; try done;
    repeat case_match; zb; simplify_eq; cbn [owner] in *; try lia.
Qed.

Lemma spin_reachable n s : rtc (step spin_next) (0, replicate n Free) s -> spin_inv s.
Proof.
  intros Hr. refine (invariant _ _ _ _ _ _ Hr); [intros; by eapply spin_inv_step|].
  split; cbn [fst snd]; [by rewrite count_replicate|lia].
Qed.

(** The spin lock has at most one owner, its word is 1 exactly while there is one,
    and a thread that unlocks it lets any waiting thread in. *)
Theorem spin_lock_correct (n i j : nat) (p q : xpc) (s : sys (PC := xpc) (M := Z)) :
  rtc (step spin_next) (0, replicate n Free) s -> s.2 !! i = Some p -> s.2 !! j = Some q -> i <> j ->
  p = Owner ->
  q <> Owner /\ s.1 = 1 /\
  (q = Watch -> exists s', rtc (step spin_next) s s' /\ s'.2 !! j = Some Owner).
Proof.
  intros Hr Hi Hj Hij ->. pose proof (spin_reachable n s Hr) as [H1 H2].
  pose proof (count_pos owner s.2 i Owner Hi eq_refl). split_and!; [|lia|].
  - intros ->. pose proof (count_two owner s.2 i j Owner Owner Hi Hj Hij eq_refl eq_refl). lia.
  - intros ->. destruct s as [w ts]. cbn [fst snd] in *. pose proof (lookup_lt_Some _ _ _ Hj).
    exists (1, <[j := Owner]> (<[j := Exchange]> (<[i := Free]> ts))). split.
    + eapply rtc_l; [apply (step_thread _ w ts i Owner Free 0 Hi); apply list_elem_of_here|].
      eapply rtc_l; [|eapply rtc_once].
      * apply (step_thread _ 0 _ j Watch Exchange 0); [by rewrite list_lookup_insert_ne|apply list_elem_of_here].
      * apply (step_thread _ 0 _ j Exchange Owner 1); [|apply list_elem_of_here].
        apply list_lookup_insert_eq. by rewrite length_insert.
    + cbn. apply list_lookup_insert_eq. by rewrite !length_insert.
Qed.
End Spin.
