(* ===== verification/BlockLock.v ===== *)
(** * A leaf block under concurrent calls (core/index/leaf_node.h)

    The memory is the lock word and the version of one block and one of its data
    slots; the calls are [find], [upsert] and [remove] of that block, and the
    refused writer of lines 397-399 and 498-500, each a sequence of single loads,
    stores and compare-and-swaps that interleave freely.  The first part proves
    what the version counter is for: without a change of the global version and
    without refused writers, a validated optimistic read returns the key and the
    payload the slot holds, and writers exclude each other.  The second part runs
    the two cases the protocol leaves out.

    The slot stands for any of the 15 slots of the block: a call that works on
    another slot reads or writes nothing here between taking and releasing the
    lock. *)

From S2P Require Import Prelude Doubles Interleave Locks.
Open Scope Z_scope.

(** ** Memory and calls *)

(** [releases] is a history variable: how many times [release_lock] has stored. *)
Record mem : Type := mkMem {
  locked : Z;
  local_version : Z;
  slot_key : double;
  slot_payload : Z;
  releases : nat
}.

Inductive op : Type :=
| Find (key : double)
| Put (key : double) (payload : Z)
| Remove (key flag : double)
| Elsewhere (same : bool)
| Refused.

(** The control points of [check_global_version] ([Enter], [Reset], [SetVersion]),
    [get_lock] ([Acquire], [Swap]), the critical section ([Inside], [PutKey]), the
    two releases and the optimistic read. *)
Inductive at_ : Type :=
| Enter
| Reset
| SetVersion
| Acquire
| Swap (v : Z)
| Inside
| PutKey
| Release
| StoreNext (v : Z)
| ReleaseSame
| StoreSame (v : Z)
| CheckLock
| GetVersion
| ReadKey (v : Z)
| ReadPayload (v : Z)
| Validate (v payload : Z)
| Drop
| StoreDrop (v : Z)
| Back (found : option Z).

(** A call runs one operation with the global version it was given. *)
Record call : Type := mkCall { c_op : op; c_global : Z; c_at : at_ }.

Definition start (o : op) (g : Z) : call :=
  mkCall o g (match o with Refused => Drop | _ => Enter end).

Definition after_version (o : op) : at_ :=
  match o with Find _ => CheckLock | _ => Acquire end.

Definition set_word (m : mem) (w : Z) : mem :=
  mkMem w (local_version m) (slot_key m) (slot_payload m) (releases m).
Definition set_version (m : mem) (g : Z) : mem :=
  mkMem (locked m) g (slot_key m) (slot_payload m) (releases m).
Definition set_key (m : mem) (k : double) : mem :=
  mkMem (locked m) (local_version m) k (slot_payload m) (releases m).
Definition set_payload (m : mem) (p : Z) : mem :=
  mkMem (locked m) (local_version m) (slot_key m) p (releases m).
Definition count_release (m : mem) : mem :=
  mkMem (locked m) (local_version m) (slot_key m) (slot_payload m) (S (releases m)).

Definition bit_of (w : Z) : bool := negb (Z.land w lockSet =? 0).

(** The writes of a critical section to this slot: an update stores the payload, an
    insertion the payload and then the key, a removal the key. *)
Definition inside (o : op) (m : mem) : at_ * mem :=
  match o with
  | Put k p =>
      if deq (slot_key m) k then (Release, set_payload m p)
      else if deq (slot_key m) FREE_FLAG then (PutKey, set_payload m p) else (Release, m)
  | Remove k flag => if deq (slot_key m) k then (Release, set_key m flag) else (ReleaseSame, m)
  | Elsewhere same => (if same then ReleaseSame else Release, m)
  | Find _ | Refused => (Release, m)
  end.

Definition put_key (o : op) (m : mem) : mem :=
  match o with Put k _ => set_key m k | _ => m end.

Definition wanted (o : op) (m : mem) : bool :=
  match o with Find k => deq k (slot_key m) | _ => false end.

Definition call_step (c : call) (m : mem) : list (at_ * mem) :=
  match c_at c with
  | Enter => [(if c_global c =? local_version m then after_version (c_op c) else Reset, m)]
  | Reset => [(SetVersion, set_word m 0)]
  | SetVersion => [(after_version (c_op c), set_version m (c_global c))]
  | Acquire => [(if bit_of (locked m) then Acquire else Swap (locked m), m)]
  | Swap v => [if locked m =? v then (Inside, set_word m (Z.lor v lockSet)) else (Acquire, m)]
  | Inside => [inside (c_op c) m]
  | PutKey => [(Release, put_key (c_op c) m)]
  | Release => [(StoreNext (locked m), m)]
  | StoreNext v => [(Back None, count_release (set_word m (Z.land (u32 (v + 1)) lockMask)))]
  | ReleaseSame => [(StoreSame (locked m), m)]
  | StoreSame v => [(Back None, set_word m (Z.land v lockMask))]
  | CheckLock => [(if bit_of (locked m) then Enter else GetVersion, m)]
  | GetVersion => [(if bit_of (locked m) then GetVersion else ReadKey (locked m), m)]
  | ReadKey v => [(if wanted (c_op c) m then ReadPayload v else Back None, m)]
  | ReadPayload v => [(Validate v (slot_payload m), m)]
  | Validate v p => [(if locked m =? v then Back (Some p) else Enter, m)]
  | Drop => [(StoreDrop (locked m), m)]
  | StoreDrop v => [(Back None, set_word m (Z.land v lockMask))]
  | Back _ => []
  end.

Definition call_next (c : call) (m : mem) : list (call * mem) :=
  map (fun am => (mkCall (c_op c) (c_global c) am.1, am.2)) (call_step c m).

Lemma call_next_step c m c' m' :
  (c', m') ∈ call_next c m ->
  c_op c' = c_op c /\ c_global c' = c_global c /\ (c_at c', m') ∈ call_step c m.
Proof. unfold call_next. intros ([a m1] & [= -> ->] & H)%list_elem_of_fmap. done. Qed.

Notation state := (sys (PC := call) (M := mem)).

Definition initial (w g : Z) (k : double) (p : Z) (calls : list (op * Z)) : state :=
  (mkMem w g k p 0, map (fun og => start og.1 og.2) calls).

(** ** One global version *)

(** In the critical section; having written there; outside the proved protocol. *)
Definition is_inside (c : call) : bool :=
  match c_at c with
  | Inside | PutKey | Release | StoreNext _ | ReleaseSame | StoreSame _ => true
  | _ => false
  end.
Definition dirty (c : call) : bool :=
  match c_at c with PutKey | Release | StoreNext _ => true | _ => false end.
Definition outlaw (c : call) : bool :=
  match c_at c with Reset | SetVersion | Drop | StoreDrop _ => true | _ => false end.

(** What an optimistic reader has seen is still so if nothing was released since it
    read the version and no writer has begun to write. *)
Definition seen (c : call) (m : mem) : Prop :=
  match c_at c with
  | ReadPayload _ => wanted (c_op c) m = true
  | Validate _ p => wanted (c_op c) m = true /\ slot_payload m = p
  | _ => True
  end.
Definition version_of (c : call) : option Z :=
  match c_at c with ReadKey v | ReadPayload v | Validate v _ => Some v | _ => None end.

Record block_inv (w0 : Z) (s : state) : Prop := {
  bi_w0 : 0 <= w0 < 2 ^ 31;
  bi_range : 0 <= locked s.1 < 2 ^ 32;
  bi_count : count is_inside s.2 = if bit_of (locked s.1) then 1%nat else 0%nat;
  bi_version : locked s.1 mod 2 ^ 31 = (w0 + Z.of_nat (releases s.1)) mod 2 ^ 31;
  bi_law i c : s.2 !! i = Some c -> outlaw c = false /\ c_global c = local_version s.1;
  bi_swap i c v : s.2 !! i = Some c -> c_at c = Swap v -> 0 <= v < 2 ^ 31;
  bi_store i c v : s.2 !! i = Some c -> c_at c = StoreNext v \/ c_at c = StoreSame v -> v = locked s.1;
  bi_read i c v : s.2 !! i = Some c -> version_of c = Some v ->
    exists n, (n <= releases s.1)%nat /\ v = (w0 + Z.of_nat n) mod 2 ^ 31 /\
      (n = releases s.1 -> count dirty s.2 = 0%nat -> seen c s.1)
}.

(** What a step of a law-abiding call does to the slot and to what others saw. *)
Lemma step_effect c m c' m' :
  (c', m') ∈ call_next c m -> outlaw c = false -> c_global c = local_version m ->
  outlaw c' = false /\ c_global c' = local_version m' /\ local_version m' = local_version m /\
  (releases m <= releases m')%nat /\
  (releases m' = releases m -> dirty c' = false ->
     dirty c = false /\ slot_key m' = slot_key m /\ slot_payload m' = slot_payload m).
Proof.
  intros (Eo & Eg & Hs)%call_next_step Hl Hg.
  destruct c as [o g a], c' as [o' g' a']. unfold outlaw, dirty in *. cbn [c_op c_global c_at] in *. subst o' g'.
  destruct a; try done; cbn in Hs; try apply list_elem_of_singleton in Hs; try (by apply elem_of_nil in Hs).
  all: try (rewrite Hg, Z.eqb_refl in Hs).
  all: unfold after_version, put_key, inside in Hs; repeat case_match; simplify_eq; cbn; try (repeat split; (done || lia)).
Qed.

Lemma step_reads c m c' m' v :
  (c', m') ∈ call_next c m -> version_of c' = Some v ->
  m' = m /\ ((version_of c = Some v /\ (seen c m -> seen c' m)) \/
             (v = locked m /\ bit_of v = false /\ seen c' m)).
Proof.
  intros (Eo & Eg & Hs)%call_next_step Hv.
  destruct c as [o g a], c' as [o' g' a']. unfold version_of, seen in *. cbn [c_op c_global c_at] in *. subst o' g'.
  destruct a; cbn in Hs; try apply list_elem_of_singleton in Hs; try (by apply elem_of_nil in Hs).
  all: unfold after_version, put_key, inside in Hs; repeat case_match; simplify_eq; cbn in *; simplify_eq; auto 10.
Qed.

(** What a step does to the word. *)
Inductive word_effect (m : mem) (c c' : call) (w' : Z) (r' : nat) : Prop :=
| WordSame : is_inside c' = is_inside c -> w' = locked m -> r' = releases m ->
    (forall v, c_at c' = Swap v -> v = locked m /\ bit_of v = false) ->
    (forall v, c_at c' = StoreNext v \/ c_at c' = StoreSame v -> v = locked m) -> word_effect m c c' w' r'
| WordTaken v : c_at c = Swap v -> v = locked m -> c_at c' = Inside -> w' = Z.lor v lockSet ->
    r' = releases m -> word_effect m c c' w' r'
| WordNext v : c_at c = StoreNext v -> c_at c' = Back None -> w' = Z.land (u32 (v + 1)) lockMask ->
    r' = S (releases m) -> word_effect m c c' w' r'
| WordKept v : c_at c = StoreSame v -> c_at c' = Back None -> w' = Z.land v lockMask ->
    r' = releases m -> word_effect m c c' w' r'.

Lemma step_word c m c' m' :
  (c', m') ∈ call_next c m -> outlaw c = false -> word_effect m c c' (locked m') (releases m').
Proof.
  intros (Eo & Eg & Hs)%call_next_step Hl.
  destruct c as [o g a], c' as [o' g' a']. unfold outlaw in *. cbn [c_op c_global c_at] in *. subst o' g'.
  destruct a; try done; cbn in Hs; try apply list_elem_of_singleton in Hs; try (by apply elem_of_nil in Hs).
  all: unfold after_version, put_key, inside in Hs; repeat case_match; zb; simplify_eq; cbn;
    try (by eapply WordTaken); try (by eapply WordNext); try (by eapply WordKept).
  all: apply WordSame; cbn; try done; naive_solver.
Qed.

Lemma bit_of_spec w : 0 <= w < 2 ^ 32 -> bit_of w = (2 ^ 31 <=? w).
Proof. apply bit31. Qed.

Lemma mask31 w : Z.land w lockMask = w mod 2 ^ 31.
Proof. unfold lockMask. by rewrite land_mask. Qed.

Lemma next_version w : 0 <= w < 2 ^ 32 -> u32 (w + 1) mod 2 ^ 31 = (w mod 2 ^ 31 + 1) mod 2 ^ 31.
Proof.
  intros Hw. unfold u32. rewrite Z.mod_mod_divide by (by exists 2).
  by rewrite Zplus_mod_idemp_l.
Qed.

Lemma inside_at c a : c_at c = a -> is_inside c = is_inside (mkCall (c_op c) 0 a).
Proof. by intros <-. Qed.

(** The word after a step: the clauses of the invariant that speak of it. *)
Lemma word_step w0 m ts i c c' m' :
  block_inv w0 (m, ts) -> ts !! i = Some c -> word_effect m c c' (locked m') (releases m') ->
  0 <= locked m' < 2 ^ 32 /\
  count is_inside (<[i := c']> ts) = (if bit_of (locked m') then 1%nat else 0%nat) /\
  locked m' mod 2 ^ 31 = (w0 + Z.of_nat (releases m')) mod 2 ^ 31 /\
  (forall v, c_at c' = Swap v -> 0 <= v < 2 ^ 31) /\
  (forall v, c_at c' = StoreNext v \/ c_at c' = StoreSame v -> v = locked m') /\
  (locked m' = locked m \/ is_inside c' = true /\ bit_of (locked m) = false \/ is_inside c = true).
Proof.
  intros [H0 H1 H2 H3 H4 H5 H6 _] Hi He. cbn [fst snd] in *.
  pose proof (count_insert is_inside ts i c c' Hi) as Hc.
  pose proof (Z.mod_pos_bound (locked m) (2 ^ 31) ltac:(lia)) as Hb.
  assert (Hset : is_inside c = true -> bit_of (locked m) = true).
  { intros E. destruct (bit_of (locked m)); [done|]. pose proof (count_pos is_inside ts i c Hi E). lia. }
  destruct He as [E Ew Er Es Et|v Ea -> Ea' Ew Er|v Ea Ea' Ew Er|v Ea Ea' Ew Er].
  - rewrite Ew, Er, E in *. split_and!; try done; try lia; auto.
    intros v Hv. destruct (Es v Hv) as [-> Hbit]. rewrite bit_of_spec in Hbit by done. zb. lia.
  - pose proof (H5 i c (locked m) Hi Ea) as Hv. rewrite Ew, Er in *. rewrite lor_bit31 by done.
    assert (Eb : bit_of (locked m) = false) by (rewrite bit_of_spec by lia; apply Z.leb_gt; lia).
    rewrite (inside_at c _ Ea), (inside_at c' _ Ea') in *. cbn in Hc. rewrite Eb in H2.
    rewrite bit_of_spec, (proj2 (Z.leb_le _ _)) by lia.
    split_and!; try lia; try (by intros v; rewrite Ea'; naive_solver).
    + rewrite <- H3. replace (locked m + 2 ^ 31) with (locked m + 1 * 2 ^ 31) by lia. by rewrite Z.mod_add.
    + auto.
  - pose proof (H6 i c v Hi (or_introl Ea)) as ->.
    rewrite (inside_at c _ Ea), (inside_at c' _ Ea') in *. cbn in Hc, Hset. rewrite (Hset eq_refl) in H2.
    rewrite Ew, Er, mask31, next_version by done.
    pose proof (Z.mod_pos_bound (locked m mod 2 ^ 31 + 1) (2 ^ 31) ltac:(lia)).
    rewrite bit_of_spec, (proj2 (Z.leb_gt _ _)) by lia.
    split_and!; try lia; try (by intros u; rewrite Ea'; naive_solver); auto.
    rewrite Z.mod_mod, H3, Zplus_mod_idemp_l by lia. f_equal. lia.
  - pose proof (H6 i c v Hi (or_intror Ea)) as ->.
    rewrite (inside_at c _ Ea), (inside_at c' _ Ea') in *. cbn in Hc, Hset. rewrite (Hset eq_refl) in H2.
    rewrite Ew, Er, mask31. rewrite bit_of_spec, (proj2 (Z.leb_gt _ _)) by lia.
    split_and!; try lia; try (by intros u; rewrite Ea'; naive_solver); auto.
    by rewrite Z.mod_mod by lia.
Qed.

Lemma block_inv_step w0 m ts i c c' m' :
  block_inv w0 (m, ts) -> ts !! i = Some c -> (c', m') ∈ call_next c m ->
  block_inv w0 (m', <[i := c']> ts).
Proof.
  intros HI Hi Hn. pose proof HI as [H0 H1 H2 H3 H4 H5 H6 H7]. cbn [fst snd] in *.
  destruct (H4 i c Hi) as [Hlaw Hg].
  destruct (step_effect c m c' m' Hn Hlaw Hg) as (L1 & L2 & L3 & L4 & L5).
  destruct (word_step w0 m ts i c c' m' HI Hi (step_word c m c' m' Hn Hlaw)) as (W1 & W2 & W3 & W4 & W5 & W6).
  pose proof (count_insert dirty ts i c c' Hi) as Hd.
  split; cbn [fst snd]; try done.
  - intros j d [[<- ->]|[_ Hj]]%lookup_moved; [done|]. rewrite L3. by apply (H4 j).
  - intros j d v [[<- ->]|[_ Hj]]%lookup_moved Hv; [by apply W4|by apply (H5 j d)].
  - intros j d v [[<- ->]|[Hij Hj]]%lookup_moved Hv; [by apply W5|].
    pose proof (H6 j d v Hj Hv) as ->.
    assert (Hin : is_inside d = true) by (unfold is_inside; destruct Hv as [-> | ->]; done).
    pose proof (count_pos is_inside ts j d Hj Hin).
    destruct W6 as [|[[_ Eb]|Hc]]; [done|rewrite Eb in H2; lia|].
    pose proof (count_two is_inside ts i j c d Hi Hj Hij Hc Hin). destruct (bit_of (locked m)); lia.
  - intros j d v [[<- ->]|[Hij Hj]]%lookup_moved Hv.
    + destruct (step_reads c m c' m' v Hn Hv) as [-> [[Hv' Hs]|(-> & Hb & Hs)]].
      * destruct (H7 i c v Hi Hv') as (n & Hn1 & Hn2 & Hn3). exists n. split; [done|]. split; [done|].
        intros En E0. apply Hs, Hn3; [done|].
        assert (dirty c' = false) as Ed by (unfold version_of in Hv; unfold dirty; by destruct (c_at c')).
        destruct (L5 eq_refl Ed) as [Ed' _]. rewrite Ed, Ed' in Hd. lia.
      * exists (releases m). split; [done|]. split; [|done].
        rewrite bit_of_spec in Hb by done. zb. rewrite <- H3. symmetry. apply Z.mod_small. lia.
    + destruct (H7 j d v Hj Hv) as (n & Hn1 & Hn2 & Hn3). exists n. split; [lia|]. split; [done|].
      intros En E0. assert (Er : releases m' = releases m) by lia.
      destruct (dirty c') eqn:Ed.
      { exfalso. pose proof (count_pos dirty (<[i := c']> ts) i c'). rewrite list_lookup_insert_eq in *
          by (by eapply lookup_lt_Some). specialize (H eq_refl Ed). lia. }
      destruct (L5 Er eq_refl) as (Ed' & Ek & Ep). rewrite Ed' in Hd.
      unfold seen, wanted in *. rewrite Ek, Ep. apply Hn3; lia.
Qed.

(** Calls that are given the block's own global version, and no refused writer. *)
Definition lawful (g : Z) (calls : list (op * Z)) : Prop :=
  Forall (fun og => og.1 <> Refused /\ og.2 = g) calls.

Lemma block_inv_initial w g k p calls :
  0 <= w < 2 ^ 31 -> lawful g calls -> block_inv w (initial w g k p calls).
Proof.
  intros Hw Hl. unfold initial.
  assert (HE : forall i c, map (fun og => start og.1 og.2) calls !! i = Some c ->
    c_at c = Enter /\ c_global c = g).
  { intros i c Hi. apply list_lookup_fmap_Some in Hi as ([o g'] & -> & Ho). cbn.
    destruct (proj1 (Forall_lookup _ _) Hl i _ Ho) as [Hr Hg].
    cbn in Hr, Hg. subst g'. by destruct o. }
  split; cbn [fst snd locked local_version releases]; [lia|lia| | | | | |].
  - rewrite bit_of_spec, (proj2 (Z.leb_gt _ _)) by lia. apply count_zero. intros i c Hi.
    unfold is_inside. by rewrite (proj1 (HE i c Hi)).
  - f_equal. cbn. lia.
  - intros i c Hi. destruct (HE i c Hi) as [E1 E2]. unfold outlaw. by rewrite E1.
  - intros i c v Hi. by rewrite (proj1 (HE i c Hi)).
  - intros i c v Hi. rewrite (proj1 (HE i c Hi)). by intros [|].
  - intros i c v Hi. unfold version_of. by rewrite (proj1 (HE i c Hi)).
Qed.

Lemma block_reachable w g k p calls s :
  0 <= w < 2 ^ 31 -> lawful g calls -> rtc (step call_next) (initial w g k p calls) s -> block_inv w s.
Proof.
  intros Hw Hl Hr. refine (invariant _ _ _ _ _ _ Hr); [|by apply block_inv_initial].
  intros. by eapply block_inv_step.
Qed.

(** ** What the version counter is for *)

(** C8: a reader of a block that validates returns what the slot holds at that moment: the
    key it looked for, with its payload, while no writer is in the block.  The calls are
    given the block's global version, none is a refused writer, and the counter has not
    wrapped ([2 ^ 31] releases). *)
Theorem validated_read_is_current (w g p0 : Z) (k0 : double) (calls : list (op * Z))
    (s : state) (i : nat) (c : call) (v p : Z) :
  0 <= w < 2 ^ 31 -> lawful g calls -> rtc (step call_next) (initial w g k0 p0 calls) s ->
  Z.of_nat (releases s.1) < 2 ^ 31 ->
  s.2 !! i = Some c -> c_at c = Validate v p -> (mkCall (c_op c) g (Back (Some p)), s.1) ∈ call_next c s.1 ->
  wanted (c_op c) s.1 = true /\ slot_payload s.1 = p /\
  (forall j d, s.2 !! j = Some d -> is_inside d = false).
Proof.
  intros Hw Hl Hr Hlt Hi Hc Hn. pose proof (block_reachable _ _ _ _ _ _ Hw Hl Hr) as [H0 H1 H2 H3 H4 H5 H6 H7].
  apply call_next_step in Hn as (_ & _ & Hs). unfold call_step in Hs. rewrite Hc in Hs. cbn in Hs.
  apply list_elem_of_singleton in Hs. destruct (Z.eqb_spec (locked s.1) v) as [Ev|]; [|done].
  assert (Hver : version_of c = Some v) by (unfold version_of; by rewrite Hc).
  destruct (H7 i c v Hi Hver) as (n & Hn1 & Hn2 & Hn3).
  pose proof (Z.mod_pos_bound (w + Z.of_nat n) (2 ^ 31) ltac:(lia)).
  assert (En : n = releases s.1).
  { rewrite Z.mod_small in H3 by lia.
    assert (Hd : (2 ^ 31 | (w + Z.of_nat (releases s.1)) - (w + Z.of_nat n))).
    { apply Z.mod_divide; [lia|]. rewrite Zminus_mod, <- H3, <- Hn2, Ev, Z.sub_diag. done. }
    destruct Hd as [q Hq]. destruct (Z.eq_dec q 0) as [->|]; [lia|]. nia. }
  assert (Hno : forall j d, s.2 !! j = Some d -> is_inside d = false).
  { apply count_zero. rewrite H2, bit_of_spec, (proj2 (Z.leb_gt _ _)) by lia. done. }
  assert (Hd : count dirty s.2 = 0%nat).
  { apply count_zero. intros j d Hj. specialize (Hno j d Hj). unfold is_inside, dirty in *. by destruct (c_at d). }
  specialize (Hn3 En Hd). unfold seen in Hn3. rewrite Hc in Hn3. by destruct Hn3.
Qed.

(** Under the same conditions at most one call is in the block. *)
Theorem block_writers_exclude (w g p0 : Z) (k0 : double) (calls : list (op * Z)) (s : state)
    (i j : nat) (c d : call) :
  0 <= w < 2 ^ 31 -> lawful g calls -> rtc (step call_next) (initial w g k0 p0 calls) s ->
  s.2 !! i = Some c -> s.2 !! j = Some d -> is_inside c = true -> is_inside d = true -> i = j.
Proof.
  intros Hw Hl Hr Hi Hj Hc Hd. destruct (decide (i = j)) as [|Hij]; [done|].
  pose proof (block_reachable _ _ _ _ _ _ Hw Hl Hr) as [_ _ H2 _ _ _ _ _].
  pose proof (count_two is_inside s.2 i j c d Hi Hj Hij Hc Hd). destruct (bit_of (locked s.1)); lia.
Qed.

(** One step of each named call in turn. *)
Definition each (l : list nat) : list (nat * nat) := map (fun i => (i, 0%nat)) l.

(** A writer, a second writer and a reader of key 3: the reader reads the payload
    before the writer stores it, fails to validate, and reads again. *)
Definition k3 : double := double_of_Z 3.
Definition race_calls : list (op * Z) := [(Put k3 70, 1); (Elsewhere true, 1); (Find k3, 1)].
Definition race_schedule : list (nat * nat) :=
  each [2; 2; 2; 2; 0; 0; 0; 1; 2; 0; 0; 0; 2; 2; 2; 2; 1; 1; 1; 1; 1; 2; 2]%nat.
Definition race_state : state :=
  default (mkMem 0 0 FREE_FLAG 0 0, [])
    (run call_next race_schedule (initial 9 1 k3 60 race_calls)).

Lemma race_reachable : rtc (step call_next) (initial 9 1 k3 60 race_calls) race_state.
Proof. apply (run_steps _ race_schedule). vm_compute. reflexivity. Qed.

Lemma validated_read_is_current_witness :
  race_state.2 !! 2%nat = Some (mkCall (Find k3) 1 (Validate 10 70)) /\ slot_payload race_state.1 = 70.
Proof.
  split; [vm_compute; reflexivity|].
  apply (validated_read_is_current 9 1 60 k3 race_calls race_state 2
    (mkCall (Find k3) 1 (Validate 10 70)) 10 70 ltac:(lia)).
  - unfold lawful, race_calls. repeat constructor; done.
  - apply race_reachable.
  - vm_compute. reflexivity.
  - vm_compute. reflexivity.
  - reflexivity.
  - vm_compute. apply list_elem_of_here.
Defined.

(** ** What the protocol leaves out *)

Definition k4 : double := double_of_Z 4.
Definition returned (c : call) : bool := match c_at c with Back _ => true | _ => false end.
(** Two insertions into one free slot have both returned, and the slot holds the
    key of the first with the payload of the second. *)
Definition torn (s : state) : Prop :=
  forallb returned s.2 = true /\ slot_key s.1 = k3 /\ slot_payload s.1 = 80.

(** The first two calls after a change of the global version both find the block's
    version stale, and the second one's reset frees the lock the first one holds. *)
Definition stale_calls : list (op * Z) := [(Put k3 70, 2); (Put k4 80, 2)].
Definition stale_schedule : list (nat * nat) :=
  each [0; 1; 0; 0; 0; 0; 1; 1; 1; 1; 0; 1; 1; 0; 0; 0; 1; 1]%nat.

Theorem version_change_tears_a_pair :
  exists s, rtc (step call_next) (initial 9 1 FREE_FLAG 0 stale_calls) s /\ torn s.
Proof.
  exists (default (mkMem 0 0 FREE_FLAG 0 0, [])
    (run call_next stale_schedule (initial 9 1 FREE_FLAG 0 stale_calls))). split.
  - apply (run_steps _ stale_schedule). vm_compute. reflexivity.
  - unfold torn. vm_compute. done.
Qed.

(** A writer that is refused by the split of the leaf releases a lock it does not
    hold, and the next writer enters beside the one that does. *)
Definition refused_calls : list (op * Z) := [(Put k3 70, 1); (Refused, 1); (Put k4 80, 1)].
Definition refused_schedule : list (nat * nat) :=
  each [0; 0; 0; 1; 1; 2; 2; 2; 0; 2; 2; 0; 0; 0; 2; 2]%nat.

Theorem refused_writer_tears_a_pair :
  exists s, rtc (step call_next) (initial 9 1 FREE_FLAG 0 refused_calls) s /\ torn s.
Proof.
  exists (default (mkMem 0 0 FREE_FLAG 0 0, [])
    (run call_next refused_schedule (initial 9 1 FREE_FLAG 0 refused_calls))). split.
  - apply (run_steps _ refused_schedule). vm_compute. reflexivity.
  - unfold torn. vm_compute. done.
Qed.
