(* ===== verification/ThreadPool.v ===== *)
(** * The thread pool (core/index/thread_pool.h)

    A pool of [n] workers, any number of threads that enqueue, and the thread that
    runs the destructor.  A critical section of [queueMutex] is one step; waiting on
    the condition variable is two control points: a worker whose test failed is
    [Asleep] until a notification is left for it.  Wake-ups without a notification
    are not modelled: such a worker would only test again.

    The theorems: no task is lost or run twice, tasks start in the order they were
    accepted, every run of the pool ends, and when it ends the destructor has
    returned and every accepted task has been run. *)

From S2P Require Import Prelude Interleave.

Section ThreadPool.
Context {task : Type} (n : nat).

(** [queue] and [stop] are the members of the class; [sleeping] and [tokens] are the
    state of [condition], [exited] that of the joined threads; [accepted], [started]
    and [finished] record what happened. *)
Record pool : Type := mkPool {
  queue : list task;
  stop : bool;
  sleeping : nat;
  tokens : nat;
  exited : nat;
  accepted : list task;
  started : list task;
  finished : list task
}.

Inductive thread : Type :=
| Ready
| Asleep
| Running (t : task)
| Exited
| Enqueue (ts : list task)
| NotifyOne (ts : list task)
| Refused (ts : list task)
| Destroy
| NotifyAll
| Join
| Destroyed.

(** The body of a worker: wait until [stop] or a task, return or take the front. *)
Definition take (p : pool) : thread * pool :=
  match queue p with
  | t :: q => (Running t, mkPool q (stop p) (sleeping p) (tokens p) (exited p)
                            (accepted p) (started p ++ [t]) (finished p))
  | [] =>
      if stop p
      then (Exited, mkPool [] true (sleeping p) (tokens p) (S (exited p))
                      (accepted p) (started p) (finished p))
      else (Asleep, mkPool [] false (S (sleeping p)) (tokens p) (exited p)
                      (accepted p) (started p) (finished p))
  end.

Definition wake (p : pool) : list (thread * pool) :=
  match tokens p, sleeping p with
  | S k, S m => [(Ready, mkPool (queue p) (stop p) m k (exited p)
                           (accepted p) (started p) (finished p))]
  | _, _ => []
  end.

Definition finish (t : task) (p : pool) : pool :=
  mkPool (queue p) (stop p) (sleeping p) (tokens p) (exited p)
    (accepted p) (started p) (finished p ++ [t]).

(** [enqueue]: throws on a stopped pool. *)
Definition push (t : task) (ts : list task) (p : pool) : thread * pool :=
  if stop p then (Refused (t :: ts), p)
  else (NotifyOne ts, mkPool (queue p ++ [t]) (stop p) (sleeping p) (tokens p) (exited p)
                        (accepted p ++ [t]) (started p) (finished p)).

Definition set_tokens (k : nat) (p : pool) : pool :=
  mkPool (queue p) (stop p) (sleeping p) k (exited p) (accepted p) (started p) (finished p).
Definition notify_one (p : pool) : pool :=
  if (tokens p <? sleeping p)%nat then set_tokens (S (tokens p)) p else p.
Definition set_stop (p : pool) : pool :=
  mkPool (queue p) true (sleeping p) (tokens p) (exited p) (accepted p) (started p) (finished p).

Definition pool_next (th : thread) (p : pool) : list (thread * pool) :=
  match th with
  | Ready => [take p]
  | Asleep => wake p
  | Running t => [(Ready, finish t p)]
  | Exited => []
  | Enqueue [] => []
  | Enqueue (t :: ts) => [push t ts p]
  | NotifyOne ts => [(Enqueue ts, notify_one p)]
  | Refused _ => []
  | Destroy => [(NotifyAll, set_stop p)]
  | NotifyAll => [(Join, set_tokens (sleeping p) p)]
  | Join => if (exited p =? n)%nat then [(Destroyed, p)] else []
  | Destroyed => []
  end.

Definition fresh_pool : pool := mkPool [] false 0 0 0 [] [] [].

(** [n] workers, the threads that enqueue their tasks, and the destructor. *)
Definition pool_start (work : list (list task)) : sys (PC := thread) (M := pool) :=
  (fresh_pool, replicate n Ready ++ map Enqueue work ++ [Destroy]).

(** ** Every run ends *)

Definition cost (th : thread) : nat :=
  match th with
  | Ready => 2
  | Asleep => 1
  | Running _ => 3
  | Exited | Refused _ | Destroyed => 0
  | Enqueue ts => 6 * length ts
  | NotifyOne ts => 3 + 6 * length ts
  | Destroy => 3 + 2 * n
  | NotifyAll => 2 + 2 * n
  | Join => 1
  end.

Definition pool_measure (s : sys (PC := thread) (M := pool)) : nat :=
  2 * length (queue s.1) + 2 * tokens s.1 + sum_nat (map cost s.2).

Definition worker (th : thread) : bool :=
  match th with Ready | Asleep | Running _ | Exited => true | _ => false end.
Definition is_asleep (th : thread) : bool := match th with Asleep => true | _ => false end.
Definition is_exited (th : thread) : bool := match th with Exited => true | _ => false end.
Definition destroyer (th : thread) : bool :=
  match th with Destroy | NotifyAll | Join | Destroyed => true | _ => false end.
Definition running (th : thread) : list task := match th with Running t => [t] | _ => [] end.

(** What a thread has not handed to the pool: still to do, or refused. *)
Definition pending (th : thread) : list task :=
  match th with Enqueue ts | NotifyOne ts | Refused ts => ts | _ => [] end.

Record pool_inv (work : list (list task)) (s : sys (PC := thread) (M := pool)) : Prop := {
  pi_workers : count worker s.2 = n;
  pi_destroyer : count destroyer s.2 = 1%nat;
  pi_asleep : count is_asleep s.2 = sleeping s.1;
  pi_exited : count is_exited s.2 = exited s.1;
  pi_tokens : (tokens s.1 <= sleeping s.1)%nat;
  pi_work : accepted s.1 ++ concat (map pending s.2) ≡ₚ concat work;
  pi_accepted : accepted s.1 = started s.1 ++ queue s.1;
  pi_started : started s.1 ≡ₚ finished s.1 ++ concat (map running s.2);
  pi_stopped : (0 < exited s.1)%nat -> stop s.1 = true /\ queue s.1 = [];
  pi_stop i : s.2 !! i = Some NotifyAll \/ s.2 !! i = Some Join -> stop s.1 = true;
  pi_all_woken i : s.2 !! i = Some Join -> tokens s.1 = sleeping s.1;
  pi_joined i : s.2 !! i = Some Destroyed -> exited s.1 = n
}.

(** The tasks of the threads when one thread moves. *)
Lemma tasks_insert (f : thread -> list task) ts i th th' :
  ts !! i = Some th ->
  concat (map f (<[i := th']> ts)) ++ f th ≡ₚ concat (map f ts) ++ f th'.
Proof.
  intros Hi. pose proof (lookup_lt_Some _ _ _ Hi) as Hl.
  rewrite (list_split_at ts i th Hi) at 2. rewrite (insert_take_drop ts i th' Hl).
  rewrite !map_app, !concat_app. cbn. solve_Permutation.
Qed.

(** The steps, case by case. *)
Inductive moves (p : pool) : thread -> thread -> pool -> Prop :=
| MTake t q : queue p = t :: q ->
    moves p Ready (Running t) (mkPool q (stop p) (sleeping p) (tokens p) (exited p)
      (accepted p) (started p ++ [t]) (finished p))
| MExit : queue p = [] -> stop p = true ->
    moves p Ready Exited (mkPool [] true (sleeping p) (tokens p) (S (exited p))
      (accepted p) (started p) (finished p))
| MSleep : queue p = [] -> stop p = false ->
    moves p Ready Asleep (mkPool [] false (S (sleeping p)) (tokens p) (exited p)
      (accepted p) (started p) (finished p))
| MWake m k : sleeping p = S m -> tokens p = S k ->
    moves p Asleep Ready (mkPool (queue p) (stop p) m k (exited p)
      (accepted p) (started p) (finished p))
| MFinish t : moves p (Running t) Ready (finish t p)
| MThrow t ts : stop p = true -> moves p (Enqueue (t :: ts)) (Refused (t :: ts)) p
| MPush t ts : stop p = false ->
    moves p (Enqueue (t :: ts)) (NotifyOne ts) (mkPool (queue p ++ [t]) false (sleeping p) (tokens p)
      (exited p) (accepted p ++ [t]) (started p) (finished p))
| MNotify ts : (tokens p < sleeping p)%nat ->
    moves p (NotifyOne ts) (Enqueue ts) (set_tokens (S (tokens p)) p)
| MNotifyNone ts : (sleeping p <= tokens p)%nat -> moves p (NotifyOne ts) (Enqueue ts) p
| MStop : moves p Destroy NotifyAll (set_stop p)
| MNotifyAll : moves p NotifyAll Join (set_tokens (sleeping p) p)
| MJoin : exited p = n -> moves p Join Destroyed p.

Lemma pool_next_moves th p th' p' : (th', p') ∈ pool_next th p -> moves p th th' p'.
Proof.
  destruct th as [| |t| |[|t ts]|ts|ts| | | |]; cbn [pool_next]; unfold take, wake, push, notify_one;
    repeat case_match; rewrite ?elem_of_cons, ?elem_of_nil; intros; destruct_or?; try done; simplify_eq;
    try (constructor; done).
  - constructor. by apply Nat.ltb_lt.
  - constructor. by apply Nat.ltb_ge.
  - constructor. by apply Nat.eqb_eq.
Qed.

(** Each step costs something: no run of the pool is infinite. *)
Lemma pool_step_measure work s s' :
  pool_inv work s -> step pool_next s s' -> (pool_measure s' < pool_measure s)%nat.
Proof.
  intros HI Hs. destruct Hs as [p ts i th th' p' Hi Hn]. pose proof (pi_tokens _ _ HI) as Ht.
  pose proof (pi_asleep _ _ HI) as Ha. pose proof (pi_workers _ _ HI) as Hw. cbn [fst snd] in *.
  assert (Hle : (count is_asleep ts <= count worker ts)%nat).
  { apply count_mono. by intros []. }
  unfold pool_measure. cbn [fst snd]. pose proof (sum_insert cost ts i th th' Hi) as Hc.
  apply pool_next_moves in Hn. destruct Hn; cbn in *; rewrite ?length_app; cbn; try rewrite H in *; cbn in *; lia.
Qed.

Lemma pool_inv_start work : pool_inv work (pool_start work).
Proof.
  assert (Hq : forall f, (forall ts, f (Enqueue ts) = false) -> count f (map Enqueue work) = 0%nat).
  { intros f Hf. apply count_zero. intros i th (ts & -> & _)%list_lookup_fmap_Some. apply Hf. }
  assert (E : forall k (f : thread -> list task), f Ready = [] -> concat (map f (replicate k Ready)) = []).
  { intros k f Ef. induction k as [|k IH]; [done|]. cbn. by rewrite Ef, IH. }
  assert (Hin : forall i th, (pool_start work).2 !! i = Some th ->
    th = Ready \/ (exists ts, th = Enqueue ts) \/ th = Destroy).
  { intros i th. cbn. rewrite !lookup_app_Some, lookup_replicate. intros [[-> _]|[_ [Hm|[_ Hd]]]]; [auto| |].
    - apply list_lookup_fmap_Some in Hm as (ts & -> & _). eauto.
    - destruct (i - length (replicate n Ready) - length (map Enqueue work))%nat; cbn in Hd; [|done].
      simplify_eq. auto. }
  split; unfold pool_start in *; cbn [fst snd] in *; cbn; try done.
  - rewrite !count_app, Hq by done. rewrite count_cons, count_nil. cbn. rewrite !Nat.add_0_r. apply count_replicate_true. done.
  - rewrite !count_app, Hq, count_replicate by done. done.
  - rewrite !count_app, Hq, count_replicate by done. done.
  - rewrite !count_app, Hq, count_replicate by done. done.
  - rewrite !map_app, !concat_app, E by done. cbn. rewrite app_nil_r, map_map, map_id. done.
  - rewrite !map_app, !concat_app. cbn. rewrite app_nil_r.
    rewrite E by done. clear. induction work as [|ts w IH]; [done|exact IH].
  - lia.
  - intros i [H|H]; destruct (Hin i _ H) as [|[[? ?]|]]; done.
  - intros i H. destruct (Hin i _ H) as [|[[? ?]|]]; done.
Qed.

Lemma pool_inv_step work p ts i th th' p' :
  pool_inv work (p, ts) -> ts !! i = Some th -> (th', p') ∈ pool_next th p -> pool_inv work (p', <[i := th']> ts).
Proof.
  intros [I1 I2 I3 I4 I5 I0 I6 I7 I8 I9 I10 I11] Hi Hn%pool_next_moves. cbn [fst snd] in *.
  pose proof (count_insert worker ts i th th' Hi) as C1.
  pose proof (count_insert destroyer ts i th th' Hi) as C2.
  pose proof (count_insert is_asleep ts i th th' Hi) as C3.
  pose proof (count_insert is_exited ts i th th' Hi) as C4.
  pose proof (tasks_insert running ts i th th' Hi) as C5.
  pose proof (tasks_insert pending ts i th th' Hi) as C7.
  pose proof (count_mono is_exited worker (<[i := th']> ts) ltac:(by intros [])) as C6.
  assert (Hone : forall j q, ts !! j = Some q -> destroyer q = true -> destroyer th = true -> j = i).
  { intros j q Hj Hq Hth. destruct (decide (j = i)) as [|Hij]; [done|].
    pose proof (count_two destroyer ts j i q th Hj Hi Hij Hq Hth). lia. }
  assert (Hmv : forall j q, <[i := th']> ts !! j = Some q -> q = th' \/ (j <> i /\ ts !! j = Some q)).
  { intros j q [[-> ->]|[Hij Hj]]%lookup_moved; auto. }
  split; cbn [fst snd].
  1-5: destruct Hn; cbn [worker destroyer is_asleep is_exited] in *; cbn; lia.
  - rewrite <- I0. revert C7. destruct Hn; cbn; rewrite ?app_nil_r; intros C7; rewrite ?C7; try done;
      rewrite <- ?app_assoc; f_equiv; try (by apply Permutation_app_inv_r in C7).
    apply (Permutation_app_inv_r ts0). rewrite <- C7. solve_Permutation.
  - destruct Hn; cbn; rewrite I6; rewrite ?H; rewrite <- ?app_assoc; done.
  - revert C5. destruct Hn; cbn; rewrite ?app_nil_r; intros C5; rewrite ?C5, I7; rewrite <- ?app_assoc; try done.
    rewrite <- C5. f_equiv. apply Permutation_app_comm.
  - destruct Hn; cbn; intros HE; try done; destruct (I8 ltac:(lia)); try done; split; congruence.
  - intros j Hj. assert (Hc : th' = NotifyAll \/ th' = Join \/ stop p = true).
    { destruct Hj as [Hj|Hj]; destruct (Hmv _ _ Hj) as [|[_ Hj']]; eauto. }
    destruct Hn; cbn; destruct_or?; try done; try congruence; by eapply I9; eauto.
  - intros j Hj. destruct (Hmv _ _ Hj) as [Ht|[Hij Hj']].
    + destruct Hn; done.
    + pose proof (I10 j Hj'). pose proof (I9 j (or_intror Hj')). destruct Hn; cbn; try lia; congruence.
  - intros j Hj. destruct (Hmv _ _ Hj) as [Ht|[Hij Hj']].
    + destruct Hn; done.
    + pose proof (I11 j Hj'). destruct Hn; cbn in *; lia.
Qed.
Lemma pool_reachable work s : rtc (step pool_next) (pool_start work) s -> pool_inv work s.
Proof.
  intros Hr. refine (invariant _ _ _ _ _ _ Hr); [|apply pool_inv_start].
  intros. by eapply pool_inv_step.
Qed.

(** A pool in which no thread can move has been destroyed and has run everything. *)
Lemma pool_stuck work s :
  pool_inv work s -> (0 < n)%nat -> (forall s', ~ step pool_next s s') ->
  (exists i, s.2 !! i = Some Destroyed) /\ queue s.1 = [] /\ finished s.1 ≡ₚ accepted s.1.
Proof.
  destruct s as [p ts]. intros [I1 I2 I3 I4 I5 I0 I6 I7 I8 I9 I10 I11] Hn Hst. cbn [fst snd] in *.
  assert (Hno : forall i th, ts !! i = Some th -> pool_next th p = []).
  { intros i th Hi. destruct (pool_next th p) as [|[th' p'] l] eqn:E; [done|]. exfalso.
    apply (Hst (p', <[i := th']> ts)). econstructor; [done|]. rewrite E. apply list_elem_of_here. }
  destruct (count_some destroyer ts) as (d & th & Hd & Hth); [lia|].
  assert (Hcase : th = Destroyed \/ (th = Join /\ exited p <> n)).
  { pose proof (Hno d th Hd) as E. destruct th; try done; [|by left]. right. split; [done|].
    cbn in E. by destruct (Nat.eqb_spec (exited p) n). }
  assert (Hx : exited p = n).
  { destruct Hcase as [->|[-> Hne]]; [by eapply I11|]. exfalso. apply Hne.
    rewrite <- I1, <- I4. apply count_ext. intros i q Hi.
    pose proof (Hno i q Hi) as E. destruct q; try done. cbn in E. unfold wake in E.
    pose proof (I10 d Hd) as Et. pose proof (count_pos is_asleep ts i Asleep Hi eq_refl).
    rewrite Et in E. destruct (sleeping p); [lia|done]. }
  destruct Hcase as [->|[_ Hne]]; [|done].
  destruct (I8 ltac:(lia)) as [_ Eq]. split; [by exists d|]. split; [done|].
  rewrite I6, Eq, app_nil_r, I7.
  assert (E : concat (map running ts) = []); [|by rewrite E, app_nil_r].
  assert (Hr : forall i q, ts !! i = Some q -> running q = []).
  { intros i q Hi. pose proof (Hno i q Hi). by destruct q. }
  clear -Hr. induction ts as [|q ts IH]; [done|]. cbn. rewrite (Hr 0%nat q eq_refl). cbn.
  apply IH. intros i x Hi. by apply (Hr (S i)).
Qed.
(** C16: whatever the schedule, a task handed to the pool is in exactly one place (still
    with its thread, queued, running or finished) and tasks start in the order they
    were accepted; no run is infinite; and where a run ends the destructor has
    returned and every task was run once or refused by a throw of [enqueue]. *)
Theorem pool_runs_every_task (work : list (list task)) (s : sys (PC := thread) (M := pool)) :
  (0 < n)%nat -> rtc (step pool_next) (pool_start work) s ->
  (finished s.1 ++ concat (map running s.2) ++ queue s.1 ++ concat (map pending s.2) ≡ₚ concat work /\
   started s.1 `prefix_of` accepted s.1) /\
  sn (step pool_next) s /\
  (exists s', rtc (step pool_next) s s' /\ nf (step pool_next) s') /\
  (forall s', rtc (step pool_next) s s' -> nf (step pool_next) s' ->
    (exists i, s'.2 !! i = Some Destroyed) /\
    finished s'.1 ++ concat (map pending s'.2) ≡ₚ concat work).
Proof.
  intros Hn Hr. pose proof (pool_reachable work s Hr) as HI.
  assert (Hsn : sn (step pool_next) s).
  { apply (measure_sn pool_next (pool_inv work) pool_measure); [|done|by intros x y Hx; apply (pool_step_measure work)].
    intros x y Hx Hxy. destruct Hxy. by eapply pool_inv_step. }
  split; [|split; [done|]].
  - destruct HI as [_ _ _ _ _ I0 I6 I7 _ _ _ _]. split; [|rewrite I6; by exists (queue s.1)].
    by rewrite <- I0, I6, I7, <- !app_assoc.
  - split; [destruct (sn_wn _ Hsn) as (s' & H1 & H2); by exists s'|].
    intros s' H' Hnf. pose proof (pool_reachable work s' (ltac:(by etransitivity))) as HI'.
      destruct (pool_stuck work s' HI' Hn) as (H1 & H2 & H3); [intros t Ht; apply Hnf; by exists t|].
      split; [done|]. destruct HI' as [_ _ _ _ _ I0 _ _ _ _ _ _]. by rewrite H3, I0.
Qed.
End ThreadPool.

(** Two workers, two threads with two and one tasks; the destructor runs before the
    second thread enqueues, which is refused. *)
Definition demo_work : list (list nat) := [[11; 12]; [21]]%nat.
Definition demo_pool_schedule : list (nat * nat) :=
  map (fun i => (i, 0%nat)) [0; 1; 2; 2; 0; 2; 2; 4; 3; 0; 4; 1; 1; 0; 1; 0; 1; 4]%nat.
Definition demo_pool : sys (PC := thread) (M := pool) :=
  default (fresh_pool, []) (run (pool_next 2) demo_pool_schedule (pool_start 2 demo_work)).

Lemma pool_runs_every_task_witness :
  (finished demo_pool.1, concat (map pending demo_pool.2)) = ([11; 12], [21])%nat /\
  sn (step (pool_next 2)) demo_pool.
Proof.
  split; [vm_compute; reflexivity|].
  apply (pool_runs_every_task 2 demo_work demo_pool); [lia|].
  apply (run_steps _ demo_pool_schedule). vm_compute. reflexivity.
Defined.
