(* ===== verification/LeafNode.v ===== *)
(** * Leaf nodes (core/index/leaf_node.h)

    A leaf is a header, and [block_number] blocks of sixteen 16-byte slots: slot 0
    is the block's header (lock and version word, global version, overflow tree),
    the other fifteen hold a key and a payload or are free.  A key belongs to the
    block its model predicts.  The overflow tree of a block is used through the
    class [OverflowTree], which the B+ tree implements.

    Each member function runs alone here: a loop that waits for another thread to
    release a lock is [OutOfFuel], and the version test of [find] succeeds.  The
    interleavings are in Locks.v and BlockLock.v.  Flushes have no effect on the state.  A slot
    index [block * 16 + i] of the code is slot [i - 1] of [blocks !! block]. *)

From S2P Require Import Prelude Doubles Slots.

(** ** What a leaf needs from an overflow tree *)

Class OverflowTree (T : Type) := {
  ot_new : T;
  ot_upsert : double -> Z -> T -> res (Z * T);
  ot_insert : double -> Z -> T -> res (Z * T);
  ot_delete : double -> T -> res (bool * T);
  ot_find : double -> T -> res (option Z);
  ot_range : double -> double -> T -> res (list (double * Z));
  ot_data : T -> res (list (double * Z))
}.

Definition LeafSlotsPerBlock : Z := 16.
Definition LeafRealSlotsPerBlock : Z := 15.

Record DataSlot : Type := mkData { skey : double; spayload : Z }.

Section LeafNode.
Context {T : Type} `{OverflowTree T}.

Record BlockHeader : Type := mkHeader {
  locked : Z;
  local_version : Z;
  overflow_tree : option T
}.

Record Block : Type := mkBlock { header : BlockHeader; slots : list DataSlot }.

Record Leaf : Type := mkLeaf {
  lf_slope : double;
  lf_intercept : float;
  lf_block_number : Z;
  lf_prev : Z;
  lf_next : Z;
  lf_first_key : double;
  lf_overflow_number : Z;
  lf_number_to_split : Z;
  lf_locked : Z;
  lf_abandoned : bool;
  blocks : list Block
}.

(** ** Block headers *)

Definition check_global_version (gv : Z) (h : BlockHeader) : BlockHeader :=
  if gv =? local_version h then h else mkHeader 0 gv (overflow_tree h).
Definition block_locked (h : BlockHeader) : bool := negb (Z.land (locked h) lockSet =? 0).
Definition check_lock (gv : Z) (h : BlockHeader) : bool * BlockHeader :=
  let h := check_global_version gv h in (negb (block_locked h), h).
(** [get_lock] spins while the lock bit is set. *)
Definition block_get_lock (gv : Z) (h : BlockHeader) : res BlockHeader :=
  let h := check_global_version gv h in
  if block_locked h then Err OutOfFuel
  else Ok (mkHeader (Z.lor (locked h) lockSet) (local_version h) (overflow_tree h)).
Definition block_release_lock (h : BlockHeader) : BlockHeader :=
  mkHeader (Z.land (u32 (locked h + 1)) lockMask) (local_version h) (overflow_tree h).
Definition release_lock_without_change (h : BlockHeader) : BlockHeader :=
  mkHeader (Z.land (locked h) lockMask) (local_version h) (overflow_tree h).
Definition set_tree (h : BlockHeader) (t : option T) : BlockHeader :=
  mkHeader (locked h) (local_version h) t.

(** ** The leaf's own lock word: bit 0 split, 1 write, 2 read *)

Definition set_locked (l : Leaf) (w : Z) : Leaf :=
  mkLeaf (lf_slope l) (lf_intercept l) (lf_block_number l) (lf_prev l) (lf_next l)
    (lf_first_key l) (lf_overflow_number l) (lf_number_to_split l) w (lf_abandoned l) (blocks l).
Definition try_get_split_lock (l : Leaf) : bool * Leaf :=
  if Z.testbit (lf_locked l) 0 then (false, l) else (true, set_locked l (Z.lor (lf_locked l) 1)).
Definition check_split_lock (l : Leaf) : bool := negb (Z.testbit (lf_locked l) 0).
Definition leaf_get_write_lock (l : Leaf) : Leaf := set_locked l (u32 (lf_locked l + 2)).
Definition leaf_get_read_lock (l : Leaf) : Leaf := set_locked l (u32 (lf_locked l + 4)).
Definition leaf_check_write_lock (l : Leaf) (acc : option InnerSlot) : bool :=
  match acc with
  | Some s => check_write_lock s
  | None => negb (Z.testbit (lf_locked l) 1)
  end.
Definition leaf_check_read_lock (l : Leaf) (acc : option InnerSlot) : bool :=
  match acc with
  | Some s => check_read_lock s
  | None => negb (Z.testbit (lf_locked l) 2)
  end.
Definition leaf_release_lock (l : Leaf) : Leaf := set_locked l 0.

Definition set_blocks (l : Leaf) (bs : list Block) : Leaf :=
  mkLeaf (lf_slope l) (lf_intercept l) (lf_block_number l) (lf_prev l) (lf_next l)
    (lf_first_key l) (lf_overflow_number l) (lf_number_to_split l) (lf_locked l)
    (lf_abandoned l) bs.
Definition set_overflow_number (l : Leaf) (n : Z) : Leaf :=
  mkLeaf (lf_slope l) (lf_intercept l) (lf_block_number l) (lf_prev l) (lf_next l)
    (lf_first_key l) n (lf_number_to_split l) (lf_locked l) (lf_abandoned l) (blocks l).
Definition set_abandoned (l : Leaf) : Leaf :=
  mkLeaf (lf_slope l) (lf_intercept l) (lf_block_number l) (lf_prev l) (lf_next l)
    (lf_first_key l) (lf_overflow_number l) (lf_number_to_split l) (lf_locked l) true (blocks l).
Definition with_prev (l : Leaf) (p : Z) : Leaf :=
  mkLeaf (lf_slope l) (lf_intercept l) (lf_block_number l) p (lf_next l)
    (lf_first_key l) (lf_overflow_number l) (lf_number_to_split l) (lf_locked l)
    (lf_abandoned l) (blocks l).
Definition with_next (l : Leaf) (n : Z) : Leaf :=
  mkLeaf (lf_slope l) (lf_intercept l) (lf_block_number l) (lf_prev l) n
    (lf_first_key l) (lf_overflow_number l) (lf_number_to_split l) (lf_locked l)
    (lf_abandoned l) (blocks l).
(** A null argument leaves the link as it was. *)
Definition set_prev (l : Leaf) (p : Z) : Leaf := if p =? 0 then l else with_prev l p.
Definition set_next (l : Leaf) (n : Z) : Leaf := if n =? 0 then l else with_next l n.

(** ** Prediction *)

(** The comparison [predicted_block > block_number - 3] is made after a 32-bit
    unsigned subtraction. *)
Definition predict_block (key slope : double) (intercept : float) (bn : Z) : res Z :=
  pb ← to_int64 (ddiv (linear key slope intercept) (double_of_Z LeafSlotsPerBlock));
  if pb <? 0 then Ok 0
  else if u32 (bn - 3) <? pb then Ok (u32 (bn - 1))
  else Ok (u32 (pb + 1)).

(** The model a search uses: the accelerator's copy or the leaf's own. *)
Definition model_of (l : Leaf) (acc : option InnerSlot) : double * float * Z :=
  match acc with
  | Some s => (slope s, intercept s, block_number s)
  | None => (lf_slope l, lf_intercept l, lf_block_number l)
  end.

(** ** Slots of a block *)

Definition is_free (s : DataSlot) : bool := deq (skey s) FREE_FLAG.
Definition has_key (key : double) (s : DataSlot) : bool := deq key (skey s).

(** Index of the first slot that satisfies a test. *)
Definition find_slot (p : DataSlot -> bool) (ss : list DataSlot) : option nat :=
  let i := prefix_len (fun s => negb (p s)) ss in
  if (i <? length ss)%nat then Some i else None.

(** [deleted_slot]: 0, or the last slot [i >= 1] before the first free one whose
    key is [DELETE_FLAG]. *)
Fixpoint deleted_slot (i last : Z) (ss : list DataSlot) : Z :=
  match ss with
  | [] => last
  | s :: ss' =>
      if is_free s then last
      else deleted_slot (i + 1) (if deq (skey s) DELETE_FLAG then i else last) ss'
  end.

(** [data_placement] *)
Definition data_placement (l : Leaf) (key : double) (payload : Z) : res Leaf :=
  block ← predict_block key (lf_slope l) (lf_intercept l) (lf_block_number l);
  b ← zload (blocks l) block;
  match find_slot is_free (slots b) with
  | Some i =>
      bs ← zstore (blocks l) block (mkBlock (header b) (<[i := mkData key payload]> (slots b)));
      Ok (set_blocks l bs)
  | None =>
      '(_, t) ← ot_insert key payload (default ot_new (overflow_tree (header b)));
      bs ← zstore (blocks l) block (mkBlock (set_tree (header b) (Some t)) (slots b));
      Ok (set_overflow_number (set_blocks l bs) (u64 (lf_overflow_number l + 1)))
  end.

Definition empty_block (gv : Z) : Block :=
  mkBlock (mkHeader 0 gv None) (replicate (Z.to_nat LeafRealSlotsPerBlock) (mkData FREE_FLAG 0)).

(** Fill ratio times real slots: [LEAF_NODE_INIT_RATIO * LeafRealSlotsPerBlock]. *)
Definition leaf_fill : double := dmul LEAF_NODE_INIT_RATIO (double_of_Z LeafRealSlotsPerBlock).

(** Copy of the model in an [InnerSlot] ([get_info] and the end of the
    constructor); [this] is the leaf's address. *)
Definition get_info (this : Z) (l : Leaf) (acc : InnerSlot) : res InnerSlot :=
  s ← set_block_number (mkSlot (lf_first_key l) this (lf_slope l) (lf_intercept l) (info acc))
        (lf_block_number l);
  Ok (init_lock (set_type s 0)).

(** [LeafNode(accelerator, block_number, keys, payloads, number, start_pos, slope,
    intercept, global_version, prev, next)]: the leaf before any placement. *)
Definition leaf_header (bn : Z) (key0 keyn : double) (start_pos : Z)
    (slope intercept : double) (gv prev next : Z) : res Leaf :=
  let d := double_of_Z in
  let scale x := ddiv (dmul x (d LeafSlotsPerBlock)) leaf_fill in
  let sl := scale slope in
  let ic := float_of_double (scale (dsub (dsub intercept (d start_pos)) (dmul key0 slope))) in
  to_split ← to_uint 64 (dmul (d (u64 (bn * LeafRealSlotsPerBlock))) MAX_OVERFLOW_RATIO);
  let '(sl, ic) :=
    model_correction sl ic (u64 (u32 (u32 bn - 2) * LeafSlotsPerBlock)) key0 keyn in
  Ok (mkLeaf sl ic (u32 bn) prev next key0 0 to_split 0 false
        (replicate (Z.to_nat (u32 bn)) (empty_block gv))).

Definition place (l : Leaf) (kv : double * Z) : res Leaf := data_placement l kv.1 kv.2.

Definition new_leaf (this : Z) (acc : InnerSlot) (bn : Z) (data : list (double * Z))
    (number start_pos : nat) (slope intercept : double) (gv prev next : Z)
    : res (Leaf * InnerSlot) :=
  kv0 ← of_opt UB (data !! start_pos);
  kvn ← zload data (Z.of_nat start_pos + Z.of_nat number - 1);
  l ← leaf_header bn kv0.1 kvn.1 (Z.of_nat start_pos) slope intercept gv prev next;
  l ← foldlM place l (take number (drop start_pos data));
  acc ← get_info this l acc;
  Ok (l, acc).
End LeafNode.
Arguments BlockHeader : clear implicits.
Arguments Block : clear implicits.
Arguments Leaf : clear implicits.

(** ** Operations on the chain of leaves *)

Section Operations.
Context {T : Type} `{OverflowTree T}.

Definition L (A : Type) : Type := gmap Z (Leaf T) -> res (A * gmap Z (Leaf T)).

#[export] Instance L_ret : MRet L := fun A a h => Ok (a, h).
#[export] Instance L_bind : MBind L := fun A B f m h =>
  match m h with Ok (a, h') => f a h' | Err e => Err e end.

Definition ldl (a : Z) : L (Leaf T) := fun h => l ← of_opt UB (h !! a); Ok (l, h).
Definition sdl (a : Z) (l : Leaf T) : L unit := fun h => Ok (tt, <[a := l]> h).
Definition liftl {A} (m : res A) : L A := fun h => a ← m; Ok (a, h).

(** A wait that no other thread ends. *)
Definition spin {A} : L A := fun _ => Err OutOfFuel.

Definition put_block (a block : Z) (b : Block T) : L unit :=
  l ← ldl a;
  bs ← liftl (zstore (blocks l) block b);
  sdl a (set_blocks l bs).

(** The block of a key, and whether the search moves on to the next leaf:
    [block >= block_number - 2 && next && next->min_key <= key]. *)
Definition locate (l : Leaf T) (acc : option InnerSlot) (key : double) : L (Z * bool) :=
  let '(sl, ic, bn) := model_of l acc in
  block ← liftl (predict_block key sl ic bn);
  if (u32 (bn - 2) <=? block) && negb (lf_next l =? 0) then
    n ← ldl (lf_next l);
    mret (block, dle (lf_first_key n) key)
  else mret (block, false).

(** 0: absent, 1: found, 2: retry. *)
Fixpoint find (fuel : nat) (a : Z) (key : double) (gv : Z) (acc : option InnerSlot)
    : L (Z * option Z) :=
  match fuel with
  | O => spin
  | S fuel' =>
      l ← ldl a;
      if negb (leaf_check_read_lock l acc) then mret (2, None)
      else
        '(block, next) ← locate l acc key;
        if (next : bool) then find fuel' (lf_next l) key gv None
        else
          b ← liftl (zload (blocks l) block);
          let '(free, h) := check_lock gv (header b) in
          if negb free then spin
          else
            _ ← put_block a block (mkBlock h (slots b));
            match find_slot (has_key key) (slots b) with
            | Some i =>
                s ← liftl (of_opt UB (slots b !! i));
                mret (1, Some (spayload s))
            | None =>
                match overflow_tree h with
                | Some t =>
                    r ← liftl (ot_find key t);
                    mret (match r with Some v => (1, Some v) | None => (0, None) end)
                | None => mret (0, None)
                end
            end
  end.

(** The update and insert part of [upsert], once the block is locked (header
    [h]): the code, the leaf to split if any. *)
Definition upsert_block (a : Z) (l : Leaf T) (block : Z) (b : Block T) (h : BlockHeader T)
    (key : double) (payload : Z) (acc : option InnerSlot) : L (Z * option Z) :=
  let done_in ss code :=
    _ ← put_block a block (mkBlock (block_release_lock h) ss);
    mret (if lf_abandoned l then 7 else code, None) in
  match find_slot (has_key key) (slots b) with
  | Some i =>
      s ← liftl (of_opt UB (slots b !! i));
      done_in (<[i := mkData (skey s) payload]> (slots b)) 1
  | None =>
      match find_slot is_free (slots b) with
      | Some i => done_in (<[i := mkData key payload]> (slots b)) 2
      | None =>
          '(flag, t) ← liftl (ot_upsert key payload (default ot_new (overflow_tree h)));
          let h := set_tree h (Some t) in
          if flag =? 2 then
            (* a store into slot 0 would overwrite the header *)
            ss ← liftl (zstore (slots b) (deleted_slot 1 0 (slots b) - 1) (mkData key payload));
            done_in ss 2
          else
            _ ← put_block a block (mkBlock (block_release_lock h) (slots b));
            if flag =? 4 then
              l ← ldl a;
              let n := u64 (lf_overflow_number l + 1) in
              _ ← sdl a (set_overflow_number l n);
              let full := lf_number_to_split l <? n in
              let flag := if full then (match acc with Some _ => 5 | None => 6 end) else flag in
              mret (if lf_abandoned l then 7 else flag, if full then Some a else None)
            else mret (if lf_abandoned l then 7 else flag, None)
      end
  end.

(** 1: updated in a slot, 2: inserted in a slot, 3: updated in the overflow tree,
    4: inserted in it, 5: and split the leaf, 6: and split an orphan, 7: retry. *)
Fixpoint upsert (fuel : nat) (a : Z) (key : double) (payload gv : Z) (acc : option InnerSlot)
    : L (Z * option Z) :=
  match fuel with
  | O => spin
  | S fuel' =>
      l ← ldl a;
      if negb (leaf_check_read_lock l acc) then mret (7, None)
      else
        '(block, next) ← locate l acc key;
        if (next : bool) then upsert fuel' (lf_next l) key payload gv None
        else
          b ← liftl (zload (blocks l) block);
          if negb (leaf_check_write_lock l acc) then
            _ ← put_block a block (mkBlock (release_lock_without_change (header b)) (slots b));
            mret (7, None)
          else
            h ← liftl (block_get_lock gv (header b));
            upsert_block a l block b h key payload acc
  end.

(** 0: absent, 1: removed from a slot, 2: from the overflow tree, 3: retry. *)
Fixpoint remove (fuel : nat) (a : Z) (key : double) (gv : Z) (acc : option InnerSlot) : L Z :=
  match fuel with
  | O => spin
  | S fuel' =>
      l ← ldl a;
      if negb (leaf_check_read_lock l acc) then mret 3
      else
        '(block, next) ← locate l acc key;
        if (next : bool) then remove fuel' (lf_next l) key gv None
        else
          b ← liftl (zload (blocks l) block);
          if negb (leaf_check_write_lock l acc) then
            _ ← put_block a block (mkBlock (release_lock_without_change (header b)) (slots b));
            mret 3
          else
            h ← liftl (block_get_lock gv (header b));
            match find_slot (has_key key) (slots b) with
            | Some i =>
                s ← liftl (of_opt UB (slots b !! i));
                let flag := match overflow_tree h with Some _ => DELETE_FLAG | None => FREE_FLAG end in
                _ ← put_block a block (mkBlock (block_release_lock h)
                      (<[i := mkData flag (spayload s)]> (slots b)));
                mret 1
            | None =>
                match overflow_tree h with
                | Some t =>
                    '(gone, t) ← liftl (ot_delete key t);
                    if (gone : bool) then
                      _ ← put_block a block (mkBlock (block_release_lock (set_tree h (Some t))) (slots b));
                      l ← ldl a;
                      _ ← sdl a (set_overflow_number l (u64 (lf_overflow_number l - 1)));
                      mret 2
                    else
                      _ ← put_block a block
                            (mkBlock (release_lock_without_change (set_tree h (Some t))) (slots b));
                      mret 0
                | None =>
                    _ ← put_block a block (mkBlock (release_lock_without_change h) (slots b));
                    mret 0
                end
            end
  end.

(** ** Scans *)

Definition in_range (lo hi : double) (s : DataSlot) : bool :=
  dle lo (skey s) && dle (skey s) hi.
Definition past (lo hi : double) (s : DataSlot) : bool :=
  negb (in_range lo hi s) && dlt hi (skey s) &&
  negb (deq (skey s) FREE_FLAG) && negb (deq (skey s) DELETE_FLAG).

(** One block of the scan: the answers and whether it met a key past the range. *)
Definition scan_block (lo hi : double) (b : Block T) : res (list (double * Z) * bool) :=
  let hits := map (fun s => (skey s, spayload s)) (filter (fun s => in_range lo hi s = true) (slots b)) in
  more ← match overflow_tree (header b) with
         | Some t => ot_range lo hi t
         | None => Ok []
         end;
  Ok (hits ++ more, existsb (past lo hi) (slots b)).

(** [while (block < block_number && rq_flag == 1)]: the flag that stops the scan
    is set in the loop body, after which the block is finished. *)
Fixpoint scan_blocks (n : nat) (block : Z) (lo hi : double) (l : Leaf T)
    : res (list (double * Z) * bool) :=
  match n with
  | O => Ok ([], false)
  | S n' =>
      b ← zload (blocks l) block;
      '(hits, stop) ← scan_block lo hi b;
      if (stop : bool) then Ok (hits, true)
      else
        '(rest, stop) ← scan_blocks n' (block + 1) lo hi l;
        Ok (hits ++ rest, stop)
  end.

Fixpoint range_query (fuel : nat) (a : Z) (lo hi : double) (start : bool)
    (acc : option InnerSlot) : L (list (double * Z)) :=
  match fuel with
  | O => spin
  | S fuel' =>
      l ← ldl a;
      '(block, next) ← (if start then locate l acc lo else mret (0, false));
      if (next : bool) then range_query fuel' (lf_next l) lo hi true None
      else
        let bn := if start then (model_of l acc).2 else lf_block_number l in
        '(hits, stop) ← liftl (scan_blocks (Z.to_nat (bn - block)) block lo hi l);
        if negb stop && negb (lf_next l =? 0) then
          rest ← range_query fuel' (lf_next l) lo hi false None;
          mret (hits ++ rest)
        else mret hits
  end.

(** ** Merging the data of a leaf *)

Definition flagged (s : DataSlot) : bool :=
  deq (skey s) DELETE_FLAG || deq (skey s) FREE_FLAG.

(** When a flagged slot follows, the slots are done. *)
Definition rest_of (ss : list DataSlot) : list DataSlot :=
  match ss with s :: _ => if flagged s then [] else ss | [] => [] end.

Fixpoint drop_flagged (ss : list DataSlot) : list DataSlot :=
  match ss with s :: ss' => if flagged s then drop_flagged ss' else ss | [] => [] end.

(** The merge loop: [n] bounds the number of elements. *)
Fixpoint merge (n : nat) (ss : list DataSlot) (os : list (double * Z)) : list (double * Z) :=
  match n with
  | O => []
  | S n' =>
      match ss, os with
      | [], [] => []
      | [], o :: os' => o :: merge n' [] os'
      | s :: ss', [] => (skey s, spayload s) :: merge n' (rest_of ss') []
      | s :: ss', o :: os' =>
          if dlt o.1 (skey s) then o :: merge n' ss os'
          else (skey s, spayload s) :: merge n' (rest_of ss') os
      end
  end.

(** One block of [get_data]: its slots are sorted in place. *)
Definition block_data (gv : Z) (b : Block T) : res (list (double * Z) * Block T) :=
  let h := check_global_version gv (header b) in
  let ss := sort_by skey (slots b) in
  data ← match overflow_tree h with
         | Some t =>
             os ← ot_data t;
             Ok (merge (length ss + length os) (drop_flagged ss) os)
         | None => Ok (map (fun s => (skey s, spayload s)) (filter (fun s => flagged s = false) ss))
         end;
  Ok (data, mkBlock h ss).

Fixpoint blocks_data (gv : Z) (bs : list (Block T)) : res (list (double * Z) * list (Block T)) :=
  match bs with
  | [] => Ok ([], [])
  | b :: bs' =>
      '(d, b) ← block_data gv b;
      '(ds, bs) ← blocks_data gv bs';
      Ok (d ++ ds, b :: bs)
  end.

(** The keys and payloads of a leaf, sorted, without free slots. *)
Definition get_data (a : Z) (gv : Z) : L (list (double * Z)) :=
  l ← ldl a;
  '(ds, bs) ← liftl (blocks_data gv (blocks l));
  _ ← sdl a (set_blocks l bs);
  mret (filter (fun kv => deq kv.1 FREE_FLAG = false) (sort_by fst ds)).
End Operations.

(** ** What the overflow tree promises *)

(** [ot_rep t m]: the tree holds the payload [m !! rank k] for the key [k].
    Deletion is not among the promises. *)
Class OverflowTreeLaws (T : Type) `{OverflowTree T} := {
  ot_rep : T -> gmap Z Z -> Prop;
  ot_rep_new : ot_rep ot_new ∅;
  ot_upsert_ok t m k v : ot_rep t m -> is_key k = true -> v <> 0 ->
    exists t', ot_upsert k v t = Ok (if decide (is_Some (m !! rank k)) then 3 else 4, t') /\
               ot_rep t' (<[rank k := v]> m);
  ot_insert_ok t m k v : ot_rep t m -> is_key k = true -> v <> 0 ->
    exists c t', ot_insert k v t = Ok (c, t') /\ ot_rep t' (<[rank k := v]> m);
  ot_find_ok t m k : ot_rep t m -> is_key k = true -> ot_find k t = Ok (m !! rank k)
}.

(** ** Slots *)

Lemma find_slot_Some p ss i :
  find_slot p ss = Some i ->
  exists s, ss !! i = Some s /\ p s = true /\ find_first p ss = Some s /\
    forall j q, (j < i)%nat -> ss !! j = Some q -> p q = false.
Proof.
  unfold find_slot. destruct (Nat.ltb_spec (prefix_len (fun s => negb (p s)) ss) (length ss))
    as [Hlt|]; [|done]. intros [= <-].
  destruct (lookup_lt_is_Some_2 _ _ Hlt) as [s Hs]. exists s.
  pose proof (prefix_len_at _ _ _ Hs) as Hp. cbn in Hp. apply negb_false_iff in Hp.
  split_and!; try done.
  - clear Hlt. revert Hs. induction ss as [|x ss IH]; [done|]. cbn.
    destruct (p x) eqn:E; cbn; [intros [= ->]; done|apply IH].
  - intros j q Hj Hq. pose proof (prefix_len_before _ _ _ _ Hj Hq) as Hb. cbn in Hb.
    by apply negb_true_iff in Hb.
Qed.

Lemma find_slot_None p ss :
  find_slot p ss = None -> find_first p ss = None.
Proof.
  unfold find_slot. destruct (Nat.ltb_spec (prefix_len (fun s => negb (p s)) ss) (length ss))
    as [|Hge]; [done|]. intros _. apply find_first_None, Forall_lookup. intros i s Hi.
  assert (Hlt : (i < length ss)%nat) by (by eapply lookup_lt_Some).
  assert (Hb : negb (p s) = true) by (apply (prefix_len_before (fun s => negb (p s)) ss i s); [lia|done]).
  by apply negb_true_iff in Hb.
Qed.

Definition slot_keys_ok (ss : list DataSlot) : Prop := Forall (fun s => is_key (skey s) = true) ss.

Lemma find_first_insert_ne ss i s s' q :
  ss !! i = Some s -> has_key q s = false -> has_key q s' = false ->
  find_first (has_key q) (<[i := s']> ss) = find_first (has_key q) ss.
Proof.
  revert i; induction ss as [|x ss IH]; intros i Hi H1 H2; [done|].
  destruct i as [|i].
  - injection Hi as ->. cbn. by rewrite H1, H2.
  - change (<[S i := s']> (x :: ss)) with (x :: <[i := s']> ss). cbn [find_first].
    by rewrite (IH i).
Qed.

Lemma find_first_insert_eq ss i s' q :
  (i < length ss)%nat -> has_key q s' = true ->
  (forall j x, (j < i)%nat -> ss !! j = Some x -> has_key q x = false) ->
  find_first (has_key q) (<[i := s']> ss) = Some s'.
Proof.
  revert i; induction ss as [|x ss IH]; intros i Hi H1 H2; [cbn in Hi; lia|].
  destruct i as [|i]; [cbn; by rewrite H1|].
  change (<[S i := s']> (x :: ss)) with (x :: <[i := s']> ss). cbn [find_first].
  rewrite (H2 0%nat x) by (lia || done). apply IH; [cbn in Hi; lia|done|].
  intros j y Hj Hy. apply (H2 (S j)); [lia|done].
Qed.

Lemma find_first_ext {A} (p q : A -> bool) l :
  (forall x, x ∈ l -> p x = q x) -> find_first p l = find_first q l.
Proof.
  induction l as [|x l IH]; intros Hpq; [done|]. cbn.
  rewrite (Hpq x) by apply list_elem_of_here. rewrite IH; [done|].
  intros y Hy. apply Hpq. by apply list_elem_of_further.
Qed.

(** A key the leaf can hold: a number other than the free mark. *)
Definition storable (k : double) : Prop := is_key k = true /\ rank k <> rank FREE_FLAG.

(** No key is in two slots, or in a slot and in the overflow map [mo]. *)
Definition distinct (ss : list DataSlot) (mo : gmap Z Z) : Prop :=
  forall i s, ss !! i = Some s -> is_free s = false ->
    mo !! rank (skey s) = None /\
    forall j s', ss !! j = Some s' -> is_free s' = false -> rank (skey s') = rank (skey s) -> j = i.

(** The keys in use of a list of slots. *)
Definition used_keys (ss : list DataSlot) : list Z :=
  map (fun s => rank (skey s)) (List.filter (fun s => negb (is_free s)) ss).

Lemma used_key ss i s : ss !! i = Some s -> is_free s = false -> rank (skey s) ∈ used_keys ss.
Proof.
  intros Hi Hf. apply list_elem_of_fmap. exists s. split; [done|]. apply list_elem_of_In, filter_In.
  split; [apply list_elem_of_In; by eapply list_elem_of_lookup_2|by rewrite Hf].
Qed.

Lemma used_keys_cons s ss :
  used_keys (s :: ss) = if is_free s then used_keys ss else rank (skey s) :: used_keys ss.
Proof. unfold used_keys. cbn. by destruct (is_free s). Qed.

Lemma distinct_empty ss : NoDup (used_keys ss) -> distinct ss ∅.
Proof.
  intros Hnd i s Hi Hf. split; [apply lookup_empty|]. intros j s' Hj Hf' E. revert i j Hi Hj Hnd.
  induction ss as [|x ss IH]; intros [|i] [|j] Hi Hj Hnd; try done; rewrite used_keys_cons in Hnd; cbn in Hi, Hj.
  - injection Hi as ->. rewrite Hf in Hnd. apply NoDup_cons in Hnd as [Hni _]. exfalso. apply Hni. rewrite <- E.
    by apply (used_key ss j).
  - injection Hj as ->. rewrite Hf' in Hnd. apply NoDup_cons in Hnd as [Hni _]. exfalso. apply Hni. rewrite E.
    by apply (used_key ss i).
  - f_equal. apply (IH i j Hi Hj). destruct (is_free x); [done|]. by apply NoDup_cons in Hnd as [_ ?].
Qed.

Lemma distinct_nodup ss mo : distinct ss mo -> NoDup (used_keys ss).
Proof.
  induction ss as [|x ss IH]; intros Hd; [constructor|].
  assert (Hd' : distinct ss mo).
  { intros i s Hi Hf. destruct (Hd (S i) s Hi Hf) as [H1 H2]. split; [done|].
    intros j s' Hj Hf' E. pose proof (H2 (S j) s' Hj Hf' E). lia. }
  rewrite used_keys_cons. destruct (is_free x) eqn:Ex; [by apply IH|]. apply NoDup_cons. split; [|by apply IH].
  intros (s & E & Hs)%list_elem_of_fmap. apply list_elem_of_In, filter_In in Hs as [Hs Hf].
  apply list_elem_of_In, list_elem_of_lookup in Hs as [j Hj]. apply negb_true_iff in Hf.
  pose proof (proj2 (Hd 0%nat x eq_refl Ex) (S j) s Hj Hf (eq_sym E)). done.
Qed.

Lemma distinct_update ss mo i s v :
  distinct ss mo -> ss !! i = Some s -> distinct (<[i := mkData (skey s) v]> ss) mo.
Proof.
  intros Hd Hi. assert (K : forall j s', <[i := mkData (skey s) v]> ss !! j = Some s' ->
    exists s0, ss !! j = Some s0 /\ skey s0 = skey s').
  { intros j s' Hj. destruct (decide (j = i)) as [->|Hne].
    - rewrite list_lookup_insert_eq in Hj by (by eapply lookup_lt_Some). injection Hj as <-. by exists s.
    - rewrite list_lookup_insert_ne in Hj by done. by exists s'. }
  intros j s' Hj Hf. destruct (K j s' Hj) as (s0 & H0 & E0).
  destruct (Hd j s0 H0) as [H1 H2]; [unfold is_free in *; by rewrite E0|]. rewrite <- E0. split; [done|].
  intros l x Hl Hx Er. destruct (K l x Hl) as (x0 & Hx0 & Ex0). rewrite <- Ex0 in Er.
  apply (H2 l x0 Hx0); [unfold is_free in *; by rewrite Ex0|done].
Qed.

Lemma no_slot_key k ss s :
  is_key k = true -> slot_keys_ok ss -> find_slot (has_key k) ss = None -> s ∈ ss -> rank (skey s) <> rank k.
Proof.
  intros Kk Hkeys Hf Hs E. apply find_slot_None in Hf. rewrite find_first_None, Forall_forall in Hf.
  specialize (Hf s Hs). pose proof (proj1 (Forall_forall _ _) Hkeys s Hs) as Ks. cbn in Hf, Ks.
  unfold has_key in Hf. rewrite deq_rank in Hf by done. apply Z.eqb_neq in Hf. congruence.
Qed.

Lemma distinct_insert ss mo i k v :
  distinct ss mo -> slot_keys_ok ss -> is_key k = true -> find_slot (has_key k) ss = None ->
  (i < length ss)%nat -> mo !! rank k = None -> distinct (<[i := mkData k v]> ss) mo.
Proof.
  intros Hd Hkeys Kk Hf Hi Hm j s Hj Hfree. destruct (decide (j = i)) as [->|Hne].
  - rewrite list_lookup_insert_eq in Hj by done. injection Hj as <-. split; [done|]. intros l x Hl Hx Er.
    destruct (decide (l = i)) as [|Hne]; [done|]. rewrite list_lookup_insert_ne in Hl by done.
    by destruct (no_slot_key k ss x Kk Hkeys Hf (list_elem_of_lookup_2 _ _ _ Hl)).
  - rewrite list_lookup_insert_ne in Hj by done. destruct (Hd j s Hj Hfree) as [H1 H2]. split; [done|].
    intros l x Hl Hx Er. destruct (decide (l = i)) as [->|Hne'].
    + rewrite list_lookup_insert_eq in Hl by done. injection Hl as <-. cbn in Er.
      by destruct (no_slot_key k ss s Kk Hkeys Hf (list_elem_of_lookup_2 _ _ _ Hj)).
    + rewrite list_lookup_insert_ne in Hl by done. by apply (H2 l x).
Qed.

Lemma distinct_overflow ss mo k v :
  distinct ss mo -> slot_keys_ok ss -> is_key k = true -> find_slot (has_key k) ss = None ->
  distinct ss (<[rank k := v]> mo).
Proof.
  intros Hd Hkeys Kk Hf j s Hj Hfree. destruct (Hd j s Hj Hfree) as [H1 H2]. split; [|done].
  rewrite lookup_insert_ne; [done|]. intros E.
  by apply (no_slot_key k ss s Kk Hkeys Hf (list_elem_of_lookup_2 _ _ _ Hj)).
Qed.

Section BlockRep.
Context {T : Type} `{OverflowTreeLaws T}.

(** The block holds the payload [m !! rank k] for the key [k], in one place: the slots
    come first, and the overflow tree exists only behind a block with no free slot. *)
Definition block_rep (b : Block T) (m : gmap Z Z) : Prop :=
  length (slots b) = Z.to_nat LeafRealSlotsPerBlock /\
  slot_keys_ok (slots b) /\
  block_locked (header b) = false /\
  exists mo,
    match overflow_tree (header b) with
    | None => mo = ∅
    | Some t => ot_rep t mo /\ find_slot is_free (slots b) = None
    end /\
    distinct (slots b) mo /\
    forall k, storable k ->
      m !! rank k = match find_first (has_key k) (slots b) with
                    | Some s => Some (spayload s)
                    | None => mo !! rank k
                    end.

Lemma locked_release (h : BlockHeader T) : block_locked (block_release_lock h) = false.
Proof.
  unfold block_locked, block_release_lock. cbn [locked].
  assert (Z.land (Z.land (u32 (locked h + 1)) lockMask) lockSet = 0) as ->; [|done].
  rewrite <- Z.land_assoc. change (Z.land lockMask lockSet) with 0. apply Z.land_0_r.
Qed.

Lemma block_rep_header b m h :
  block_rep b m -> overflow_tree h = overflow_tree (header b) -> block_locked h = false ->
  block_rep (mkBlock h (slots b)) m.
Proof. intros (H1 & H2 & H3 & H4) Ht Hl. split_and!; try done. cbn. by rewrite Ht. Qed.

Lemma check_global_version_tree gv (h : BlockHeader T) :
  overflow_tree (check_global_version gv h) = overflow_tree h.
Proof. unfold check_global_version. by destruct (gv =? local_version h). Qed.

Lemma check_global_version_free gv (h : BlockHeader T) :
  block_locked h = false -> block_locked (check_global_version gv h) = false.
Proof. unfold check_global_version. by destruct (gv =? local_version h). Qed.

(** Overwriting the payload of a slot that has the key. *)
Lemma block_rep_update b m h i s k v :
  block_rep b m -> storable k -> find_slot (has_key k) (slots b) = Some i ->
  slots b !! i = Some s -> overflow_tree h = overflow_tree (header b) -> block_locked h = false ->
  block_rep (mkBlock h (<[i := mkData (skey s) v]> (slots b))) (<[rank k := v]> m).
Proof.
  intros (Hlen & Hkeys & _ & mo & Ht & Hd & Hm) [Kk Nk] Hf Hs Eh Hl.
  destruct (find_slot_Some _ _ _ Hf) as (s' & Hs' & Hhas & _ & Hbefore).
  assert (s' = s) by congruence. subst s'.
  pose proof (proj1 (Forall_lookup _ _) Hkeys _ _ Hs) as Ks. cbn in Ks.
  unfold has_key in Hhas. rewrite deq_rank in Hhas by done. apply Z.eqb_eq in Hhas.
  split_and!; cbn [slots header].
  - by rewrite length_insert.
  - apply Forall_insert; done.
  - done.
  - exists mo. split.
    { rewrite Eh. destruct (overflow_tree (header b)) as [t|]; [|done].
      destruct Ht as [Ht Hfree]. split; [done|].
      unfold find_slot in *. rewrite length_insert.
      assert (E : forall l j, l !! j = Some s ->
        prefix_len (fun x => negb (is_free x)) (<[j := mkData (skey s) v]> l)
        = prefix_len (fun x => negb (is_free x)) l).
      { induction l as [|x l IH]; intros [|j] Hj; try done.
        - injection Hj as ->. done.
        - change (<[S j := mkData (skey s) v]> (x :: l)) with (x :: <[j := mkData (skey s) v]> l).
          cbn [prefix_len]. by rewrite IH. }
      by rewrite E. }
    split; [by apply distinct_update|]. intros q [Kq Nq]. destruct (Z.eq_dec (rank q) (rank k)) as [E|E].
    + rewrite E, lookup_insert_eq. rewrite find_first_insert_eq; [done| | |].
      * by eapply lookup_lt_Some.
      * unfold has_key. cbn. rewrite deq_rank by done. apply Z.eqb_eq. congruence.
      * intros j x Hj Hx. pose proof (proj1 (Forall_lookup _ _) Hkeys _ _ Hx) as Kx. cbn in Kx.
        specialize (Hbefore j x Hj Hx). unfold has_key in *.
        rewrite deq_rank in Hbefore |- * by done. by rewrite E.
    + rewrite lookup_insert_ne by done. rewrite (Hm q) by done.
      rewrite (find_first_insert_ne _ _ s); [done|done| |]; unfold has_key; cbn;
        rewrite deq_rank by done; apply Z.eqb_neq; congruence.
Qed.
Lemma has_key_other k q v :
  storable q -> is_key k = true -> rank q <> rank k -> has_key q (mkData k v) = false.
Proof.
  intros [Kq _] Kk E. unfold has_key. cbn. rewrite deq_rank by done. by apply Z.eqb_neq.
Qed.

Lemma FREE_key : is_key FREE_FLAG = true.
Proof. reflexivity. Qed.

(** Filling the first free slot with a key that no slot has. *)
Lemma block_rep_insert b m h i k v :
  block_rep b m -> storable k -> find_slot (has_key k) (slots b) = None ->
  find_slot is_free (slots b) = Some i ->
  overflow_tree h = overflow_tree (header b) -> block_locked h = false ->
  block_rep (mkBlock h (<[i := mkData k v]> (slots b))) (<[rank k := v]> m).
Proof.
  intros (Hlen & Hkeys & _ & mo & Ht & Hd & Hm) Hk Hf Hfree Eh Hl.
  destruct (find_slot_Some _ _ _ Hfree) as (s & Hs & Hisfree & _ & _).
  pose proof (find_slot_None _ _ Hf) as Hnone. destruct Hk as [Kk Nk].
  pose proof (proj1 (Forall_lookup _ _) Hkeys _ _ Hs) as Ks. cbn in Ks.
  unfold is_free in Hisfree. rewrite deq_rank in Hisfree by done. apply Z.eqb_eq in Hisfree.
  destruct (overflow_tree (header b)) as [t|] eqn:Et; [destruct Ht as [_ Ht]; congruence|].
  subst mo. split_and!; cbn [slots header].
  - by rewrite length_insert.
  - apply Forall_insert; done.
  - done.
  - exists ∅. rewrite Eh. split; [done|].
    split; [apply distinct_insert; try done; by eapply lookup_lt_Some|]. intros q [Kq Nq].
    destruct (Z.eq_dec (rank q) (rank k)) as [E|E].
    + rewrite E, lookup_insert_eq. rewrite find_first_insert_eq; [done| | |].
      * by eapply lookup_lt_Some.
      * unfold has_key. cbn. rewrite deq_rank by done. by apply Z.eqb_eq.
      * intros j x Hj Hx. rewrite find_first_None, Forall_lookup in Hnone.
        pose proof (proj1 (Forall_lookup _ _) Hkeys _ _ Hx) as Kx. cbn in Kx.
        specialize (Hnone j x Hx). cbn in Hnone. unfold has_key in *.
        rewrite deq_rank in Hnone |- * by done. by rewrite E.
    + rewrite lookup_insert_ne by done. rewrite (Hm q) by done.
      rewrite (find_first_insert_ne _ _ s); [done|done| |by apply has_key_other].
      unfold has_key. rewrite deq_rank by done. apply Z.eqb_neq. congruence.
Qed.

(** Putting the key into the overflow tree of a block with no free slot. *)
Lemma block_rep_overflow b m k v :
  block_rep b m -> storable k -> find_slot (has_key k) (slots b) = None ->
  find_slot is_free (slots b) = None ->
  exists mo, ot_rep (default ot_new (overflow_tree (header b))) mo /\
    mo !! rank k = m !! rank k /\
    forall t h, ot_rep t (<[rank k := v]> mo) -> overflow_tree h = Some t ->
      block_locked h = false -> block_rep (mkBlock h (slots b)) (<[rank k := v]> m).
Proof.
  intros (Hlen & Hkeys & _ & mo & Ht & Hd & Hm) Hk Hf Hfree.
  exists mo. split.
  { destruct (overflow_tree (header b)) as [t0|]; cbn; [by destruct Ht|].
    subst. apply ot_rep_new. }
  pose proof (find_slot_None _ _ Hf) as Hnone.
  split; [by rewrite (Hm k Hk), Hnone|]. intros t h Hrep Eh Hl.
  split_and!; try done. cbn [slots header]. exists (<[rank k := v]> mo).
  rewrite Eh. split; [done|]. split; [apply distinct_overflow; by destruct Hk|]. intros q [Kq Nq].
  destruct (Z.eq_dec (rank q) (rank k)) as [E|E].
  - assert (find_first (has_key q) (slots b) = None) as ->.
    { rewrite <- Hnone. apply find_first_ext. intros x Hx.
      pose proof (proj1 (Forall_forall _ _) Hkeys x Hx) as Kx. cbn in Kx. destruct Hk.
      unfold has_key. rewrite !deq_rank by done. by rewrite E. }
    rewrite E. by rewrite !lookup_insert_eq.
  - rewrite !lookup_insert_ne by done. by apply Hm.
Qed.

(** The value of a key in a block. *)
Lemma block_rep_find b m k :
  block_rep b m -> storable k ->
  match find_slot (has_key k) (slots b) with
  | Some i => exists s, slots b !! i = Some s /\ m !! rank k = Some (spayload s)
  | None => match overflow_tree (header b) with
            | Some t => ot_find k t = Ok (m !! rank k)
            | None => m !! rank k = None
            end
  end.
Proof.
  intros (_ & _ & _ & mo & Ht & _ & Hm) Hk. specialize (Hm k Hk).
  destruct (find_slot (has_key k) (slots b)) as [i|] eqn:E.
  - destruct (find_slot_Some _ _ _ E) as (s & Hs & _ & Hf & _). rewrite Hf in Hm. eauto.
  - rewrite (find_slot_None _ _ E) in Hm. rewrite Hm.
    destruct (overflow_tree (header b)) as [t|]; [|by subst].
    destruct Ht as [Ht _]. apply ot_find_ok; [done|by destruct Hk].
Qed.
End BlockRep.

(** ** A leaf as a map *)

Section LeafRep.
Context {T : Type} `{OverflowTreeLaws T}.

Definition predicts (l : Leaf T) (k : double) (block : Z) : Prop :=
  predict_block k (lf_slope l) (lf_intercept l) (lf_block_number l) = Ok block.

(** The keys of a block's map are predicted to be in the block. *)
Definition placed_in (l : Leaf T) (block : Z) (m : gmap Z Z) : Prop :=
  forall k v, storable k -> m !! rank k = Some v ->
    exists k', is_key k' = true /\ rank k' = rank k /\ predicts l k' block.

(** Each block represents its map; the leaf is not locked and not abandoned. *)
Record leaf_ok (l : Leaf T) (ms : list (gmap Z Z)) : Prop := {
  lo_number : 3 <= lf_block_number l < 2 ^ 29;
  lo_length : length (blocks l) = Z.to_nat (lf_block_number l);
  lo_blocks : Forall2 block_rep (blocks l) ms;
  lo_unlocked : lf_locked l = 0;
  lo_alive : lf_abandoned l = false;
  lo_placed : forall i m, ms !! i = Some m -> placed_in l (Z.of_nat i) m
}.

Lemma placed_in_insert l block m k v :
  placed_in l block m -> is_key k = true -> predicts l k block -> placed_in l block (<[rank k := v]> m).
Proof.
  intros Hm Kk Hp q w Hq Hw. destruct (decide (rank q = rank k)) as [E|E].
  - by exists k.
  - rewrite lookup_insert_ne in Hw by done. by apply (Hm q w).
Qed.

(** An accelerator that agrees with the leaf and is not locked. *)
Definition agrees (l : Leaf T) (acc : option InnerSlot) : Prop :=
  model_of l acc = (lf_slope l, lf_intercept l, lf_block_number l) /\
  leaf_check_read_lock l acc = true /\ leaf_check_write_lock l acc = true.

(** The key lies before the next leaf's first key. *)
Definition owns (h : gmap Z (Leaf T)) (l : Leaf T) (k : double) : Prop :=
  lf_next l = 0 \/ exists n, h !! lf_next l = Some n /\ dle (lf_first_key n) k = false.

Lemma predict_block_range k sl ic bn block :
  3 <= bn < 2 ^ 32 -> predict_block k sl ic bn = Ok block -> 0 <= block < bn.
Proof.
  unfold predict_block. intros Hbn Hp. apply bind_ok in Hp as (pb & _ & Hp).
  rewrite (u32_small (bn - 3)), (u32_small (bn - 1)) in Hp by lia.
  destruct (Z.ltb_spec pb 0); [injection Hp as <-; lia|].
  destruct (Z.ltb_spec (bn - 3) pb); [injection Hp as <-; lia|].
  rewrite u32_small in Hp by lia. injection Hp as <-. lia.
Qed.

Lemma locate_here h l acc k block :
  agrees l acc -> owns h l k -> predicts l k block -> locate l acc k h = Ok ((block, false), h).
Proof.
  intros (Em & _) Ho Hp. unfold locate, predicts in *. rewrite Em.
  unfold mbind, L_bind, liftl. rewrite Hp. mstep.
  destruct (_ && negb (lf_next l =? 0)) eqn:E; [|done].
  apply andb_true_iff in E as [_ E]. destruct Ho as [Ho|(n & Hn & Hk)].
  { by rewrite Ho in E. }
  unfold ldl. rewrite Hn. mstep. unfold mret, L_ret. by rewrite Hk.
Qed.

(** The block a key is in. *)
Lemma leaf_block l ms k block :
  leaf_ok l ms -> predicts l k block ->
  exists b m, 0 <= block /\ zload (blocks l) block = Ok b /\ blocks l !! Z.to_nat block = Some b /\
    ms !! Z.to_nat block = Some m /\ block_rep b m.
Proof.
  intros [Hn Hlen Hb _ _ _] Hp. assert (Hr : 0 <= block < lf_block_number l) by (eapply predict_block_range; [|exact Hp]; lia).
  destruct (lookup_lt_is_Some_2 (blocks l) (Z.to_nat block)) as [b Hbk]; [lia|].
  destruct (Forall2_lookup_l _ _ _ _ _ Hb Hbk) as (m & Hm & Hrep).
  exists b, m. split_and!; try done; [lia|].
  rewrite <- (Z2Nat.id block) by lia. by apply zload_nat.
Qed.

Lemma put_block_eq (h : gmap Z (Leaf T)) a l block b :
  h !! a = Some l -> 0 <= block < Z.of_nat (length (blocks l)) ->
  put_block a block b h =
    Ok (tt, <[a := set_blocks l (<[Z.to_nat block := b]> (blocks l))]> h).
Proof.
  intros Ha Hb. unfold put_block, mbind, L_bind, ldl, liftl, sdl. rewrite Ha. mstep.
  rewrite <- (Z2Nat.id block) at 1 by lia. rewrite zstore_nat by lia. done.
Qed.

Lemma leaf_ok_put l ms i b m :
  leaf_ok l ms -> block_rep b m -> placed_in l (Z.of_nat i) m ->
  leaf_ok (set_blocks l (<[i := b]> (blocks l))) (<[i := m]> ms).
Proof.
  intros [H1 H2 H3 H4 H5 H6] Hrep Hpl. split; cbn; try done; [by rewrite length_insert| |].
  - by apply Forall2_insert.
  - intros j m' Hj. apply list_lookup_insert_Some in Hj as [(<- & -> & _)|(_ & Hj)]; [exact Hpl|by apply (H6 j)].
Qed.

(** The block of a key gets a payload for it. *)
Lemma leaf_ok_insert l ms block b m k v :
  leaf_ok l ms -> ms !! Z.to_nat block = Some m -> 0 <= block -> is_key k = true -> predicts l k block ->
  block_rep b (<[rank k := v]> m) ->
  leaf_ok (set_blocks l (<[Z.to_nat block := b]> (blocks l))) (<[Z.to_nat block := <[rank k := v]> m]> ms).
Proof.
  intros Hok Hm Hb Kk Hp Hrep. apply leaf_ok_put; [done|done|]. rewrite Z2Nat.id by done.
  apply placed_in_insert; [|done|done]. pose proof (lo_placed _ _ Hok _ _ Hm) as H1. by rewrite Z2Nat.id in H1.
Qed.
(** The payload the leaf's maps give to a key of a block. *)
Definition value_in (ms : list (gmap Z Z)) (block : Z) (k : double) : option Z :=
  ms !! Z.to_nat block ≫= (fun m => m !! rank k).

Definition found (r : option Z) : Z * option Z :=
  match r with Some v => (1, Some v) | None => (0, None) end.

(** What an upsert leaves alone. *)
Definition same_frame (l l' : Leaf T) : Prop :=
  lf_slope l' = lf_slope l /\ lf_intercept l' = lf_intercept l /\
  lf_block_number l' = lf_block_number l /\ lf_next l' = lf_next l /\
  lf_prev l' = lf_prev l /\ lf_first_key l' = lf_first_key l /\ lf_locked l' = lf_locked l.

(** No key was added to the overflow trees. *)
Definition same_count (l l' : Leaf T) : Prop :=
  lf_number_to_split l' = lf_number_to_split l /\ lf_overflow_number l' = lf_overflow_number l.

(** At most one key was added to the overflow trees. *)
Definition same_budget (l l' : Leaf T) : Prop :=
  lf_number_to_split l' = lf_number_to_split l /\
  (lf_overflow_number l' = lf_overflow_number l \/
   lf_overflow_number l' = u64 (lf_overflow_number l + 1)).

(** A search puts the block's header back, of the current version. *)
Lemma find_spec f h a l ms k gv acc block :
  leaf_ok l ms -> h !! a = Some l -> agrees l acc -> owns h l k -> predicts l k block ->
  storable k ->
  exists l', find (S f) a k gv acc h = Ok (found (value_in ms block k), <[a := l']> h) /\
    same_frame l l' /\ leaf_ok l' ms /\ same_count l l'.
Proof.
  intros Hok Ha Hag Ho Hp Hk.
  destruct (leaf_block l ms k block Hok Hp) as (b & m & Hb0 & Hz & Hl & Hm & Hrep).
  assert (value_in ms block k = m !! rank k) as -> by (unfold value_in; by rewrite Hm).
  cbn [find]. unfold mbind, L_bind, ldl. rewrite Ha. mstep.
  destruct Hag as (Em & Hrl & Hwl) eqn:Eag. rewrite Hrl. cbn [negb].
  rewrite (locate_here h l acc k block (conj Em (conj Hrl Hwl)) Ho Hp).
  unfold liftl. rewrite Hz. mstep. unfold check_lock.
  pose proof Hrep as (_ & _ & Hfree & _).
  rewrite (check_global_version_free gv _ Hfree). cbn [negb].
  rewrite (put_block_eq h a l) by (try done; apply lookup_lt_Some in Hl; lia).
  set (l' := set_blocks l _). exists l'.
  assert (Hok' : leaf_ok l' ms).
  { rewrite <- (list_insert_id ms (Z.to_nat block) m Hm). apply leaf_ok_put; [done| |by apply (lo_placed _ _ Hok)].
    apply block_rep_header; [done|apply check_global_version_tree|by apply check_global_version_free]. }
  split; [|split; [done|split; [exact Hok'|done]]].
  pose proof (block_rep_find b m k Hrep Hk) as Hf.
  destruct (find_slot (has_key k) (slots b)) as [i|].
  - destruct Hf as (s & -> & ->). done.
  - rewrite check_global_version_tree. destruct (overflow_tree (header b)) as [t|].
    + rewrite Hf. mstep. by destruct (m !! rank k).
    + by rewrite Hf.
Qed.

(** The code and the address of a leaf that the new key fills up. *)
Definition fills (a : Z) (l : Leaf T) (acc : option InnerSlot) (code : Z) (sp : option Z) : Prop :=
  lf_number_to_split l < u64 (lf_overflow_number l + 1) /\ sp = Some a /\
  code = match acc with Some _ => 5 | None => 6 end.

Lemma upsert_block_spec h a l ms k v acc block b hd m :
  leaf_ok l ms -> h !! a = Some l -> 0 <= block -> blocks l !! Z.to_nat block = Some b ->
  ms !! Z.to_nat block = Some m -> predicts l k block -> block_rep b m -> storable k -> v <> 0 -> overflow_tree hd = overflow_tree (header b) ->
  exists code sp l', upsert_block a l block b hd k v acc h = Ok ((code, sp), <[a := l']> h) /\
    1 <= code <= 6 /\ (4 < code -> fills a l acc code sp) /\
    same_frame l l' /\ leaf_ok l' (<[Z.to_nat block := <[rank k := v]> m]> ms) /\ same_budget l l'.
Proof.
  intros Hok Ha Hb0 Hl Hm Hp Hrep Hk Hv Eh.
  assert (Hput : forall b', put_block a block b' h =
    Ok (tt, <[a := set_blocks l (<[Z.to_nat block := b']> (blocks l))]> h)).
  { intros b'. apply put_block_eq; [done|]. apply lookup_lt_Some in Hl. lia. }
  pose proof (lo_alive _ _ Hok) as Halive.
  unfold upsert_block, mbind, L_bind, liftl.
  destruct (find_slot (has_key k) (slots b)) as [i|] eqn:Ef.
  - destruct (find_slot_Some _ _ _ Ef) as (s & Hs & _). rewrite Hs. mstep.
    rewrite Hput. rewrite Halive. eexists 1, _, _. split; [done|].
    split; [lia|]. split; [lia|]. split; [done|].
    split; [|by split; [|left]]. apply leaf_ok_insert; try done; [by destruct Hk|].
    eapply block_rep_update; try done. apply locked_release.
  - destruct (find_slot is_free (slots b)) as [i|] eqn:Efree.
    + rewrite Hput. rewrite Halive. eexists 2, _, _. split; [done|].
      split; [lia|]. split; [lia|]. split; [done|].
      split; [|by split; [|left]]. apply leaf_ok_insert; try done; [by destruct Hk|].
      eapply block_rep_insert; try done. apply locked_release.
    + destruct (block_rep_overflow b m k v Hrep Hk Ef Efree) as (mo & Hmo & Eq & Hnew).
      destruct (ot_upsert_ok _ mo k v Hmo) as (t & Eu & Ht); [by destruct Hk|done|].
      rewrite Eh, Eu. mstep.
      assert (Hrep' : block_rep (mkBlock (block_release_lock (set_tree hd (Some t))) (slots b))
                (<[rank k := v]> m)) by (eapply Hnew; [done|done|apply locked_release]).
      destruct (decide (is_Some (mo !! rank k))); cbn [Z.eqb Pos.eqb]; rewrite Hput.
      * rewrite Halive. eexists 3, _, _. split; [done|]. split; [lia|]. split; [lia|].
        split; [done|]. split; [apply leaf_ok_insert; try done; by destruct Hk|by split; [|left]].
      * unfold ldl. rewrite lookup_insert_eq. mstep. unfold sdl. rewrite insert_insert_eq.
        cbn [lf_abandoned set_blocks lf_overflow_number lf_number_to_split]. rewrite Halive.
        eexists _, _, _. split; [done|]. split_and!; try done.
        { destruct (_ <? _); [destruct acc|]; lia. }
        { destruct (_ <? _); [destruct acc|]; lia. }
        { unfold fills. destruct (Z.ltb_spec (lf_number_to_split l) (u64 (lf_overflow_number l + 1))); [done|intros Hc; cbn in Hc; lia]. }
        { destruct (leaf_ok_insert l ms block _ m k v Hok Hm Hb0 (proj1 Hk) Hp Hrep'). by split. }
        by split; [|right].
Qed.

Lemma upsert_spec f h a l ms k v gv acc block :
  leaf_ok l ms -> h !! a = Some l -> agrees l acc -> owns h l k -> predicts l k block ->
  storable k -> v <> 0 ->
  exists code sp l' m, upsert (S f) a k v gv acc h = Ok ((code, sp), <[a := l']> h) /\
    1 <= code <= 6 /\ (4 < code -> fills a l acc code sp) /\
    same_frame l l' /\ ms !! Z.to_nat block = Some m /\
    leaf_ok l' (<[Z.to_nat block := <[rank k := v]> m]> ms) /\ same_budget l l'.
Proof.
  intros Hok Ha Hag Ho Hp Hk Hv.
  destruct (leaf_block l ms k block Hok Hp) as (b & m & Hb0 & Hz & Hl & Hm & Hrep).
  cbn [upsert]. unfold mbind, L_bind, ldl. rewrite Ha. mstep.
  pose proof Hag as (Em & Hrl & Hwl). rewrite Hrl. cbn [negb].
  rewrite (locate_here h l acc k block Hag Ho Hp).
  unfold liftl. rewrite Hz. mstep. rewrite Hwl. cbn [negb].
  unfold block_get_lock. pose proof Hrep as (_ & _ & Hfree & _).
  rewrite (check_global_version_free gv _ Hfree). mstep.
  destruct (upsert_block_spec h a l ms k v acc block b
    (mkHeader (Z.lor (locked (check_global_version gv (header b))) lockSet)
       (local_version (check_global_version gv (header b)))
       (overflow_tree (check_global_version gv (header b)))) m)
    as (code & sp & l' & -> & Hc & Hc4 & Hs & Hok' & Hb'); try done; [apply check_global_version_tree|].
  exists code, sp, l', m. by repeat (split; [done|]).
Qed.

Lemma agrees_frame l l' acc : same_frame l l' -> agrees l acc -> agrees l' acc.
Proof.
  intros (E1 & E2 & E3 & _ & _ & _ & E7) (Hm & Hr & Hw). unfold agrees, model_of,
    leaf_check_read_lock, leaf_check_write_lock in *.
  rewrite E1, E2, E3, E7. destruct acc; split_and!; done.
Qed.

Lemma owns_frame h a l l' k :
  h !! a = Some l -> same_frame l l' -> lf_next l <> a -> owns h l k -> owns (<[a := l']> h) l' k.
Proof.
  intros Ha (_ & _ & _ & E & _) Hne [Ho|(n & Hn & Hk)]; [left; congruence|].
  right. exists n. rewrite E, lookup_insert_ne by congruence. done.
Qed.
End LeafRep.

(** ** An overflow tree to run the model with *)

(** An association list, newest binding first; the program's tree is in
    BPlusMap.v. *)
Module Assoc.
Definition t : Type := list (double * Z).
Definition is_at (k : double) (p : double * Z) : bool := deq p.1 k.
Definition lookup (k : double) (l : t) : option Z := snd <$> find_first (is_at k) l.

#[global] Instance ops : OverflowTree t := {|
  ot_new := [];
  ot_upsert k v l := Ok (match lookup k l with Some _ => 3 | None => 4 end, (k, v) :: l);
  ot_insert k v l := Ok (match lookup k l with Some _ => 3 | None => 4 end, (k, v) :: l);
  ot_delete k l := Ok (match lookup k l with Some _ => true | None => false end,
                       filter (fun p => is_at k p = false) l);
  ot_find k l := Ok (lookup k l);
  ot_range lo hi l := Ok (filter (fun p => dle lo p.1 && dle p.1 hi = true) l);
  ot_data l := Ok (sort_by fst l)
|}.

Definition rep (l : t) (m : gmap Z Z) : Prop :=
  Forall (fun p => is_key p.1 = true) l /\
  forall k, is_key k = true -> lookup k l = m !! rank k.

Lemma rep_cons l m k v : rep l m -> is_key k = true -> rep ((k, v) :: l) (<[rank k := v]> m).
Proof.
  intros [Hl Hm] Hk. split; [by constructor|]. intros q Hq. unfold lookup, is_at. cbn.
  rewrite deq_rank by done. destruct (Z.eqb_spec (rank k) (rank q)) as [E|E].
  - by rewrite E, lookup_insert_eq.
  - rewrite lookup_insert_ne by done. by apply Hm.
Qed.

#[global] Instance laws : OverflowTreeLaws t.
Proof.
  refine {| ot_rep := rep |}.
  - split; [constructor|]. intros k _. by rewrite lookup_empty.
  - intros l m k v Hr Hk _. eexists. split; [|by apply rep_cons].
    cbn. rewrite (proj2 Hr k Hk). destruct (m !! rank k); [rewrite decide_True by eauto|
      rewrite decide_False by (by intros [? ?])]; done.
  - intros l m k v Hr Hk _. eexists _, _. split; [done|by apply rep_cons].
  - intros l m k Hr Hk. cbn. by rewrite (proj2 Hr k Hk).
Defined.
End Assoc.

(** C7: on a well-formed leaf that is not locked ([leaf_ok]), [upsert] with a non-zero payload
    of a key that the leaf owns, that its model predicts to one of its blocks and that is not
    the free mark (the largest double), succeeds with a code between 1 and 6, through slots or overflow tree;
    then [find] returns the new payload for that key and, for any other such key, what it
    returned before. *)
Theorem leaf_upsert_find {T} `{OverflowTreeLaws T} (h : gmap Z (Leaf T)) (a : Z) (l : Leaf T)
    (ms : list (gmap Z Z)) (k q : double) (v gv : Z) (acc : option InnerSlot)
    (block qblock : Z) :
  leaf_ok l ms -> h !! a = Some l -> agrees l acc -> lf_next l <> a ->
  owns h l k -> predicts l k block -> storable k -> v <> 0 ->
  owns h l q -> predicts l q qblock -> storable q -> q = k \/ rank q <> rank k ->
  exists code sp h' before h1 after h2,
    upsert 1 a k v gv acc h = Ok ((code, sp), h') /\ 1 <= code <= 6 /\
    find 1 a q gv acc h = Ok (before, h1) /\
    find 1 a q gv acc h' = Ok (after, h2) /\
    after = if rank q =? rank k then (1, Some v) else before.
Proof.
  intros Hok Ha Hag Hne Ho Hp Hk Hv Hoq Hpq Hq Hcase.
  destruct (upsert_spec 0 h a l ms k v gv acc block) as
    (code & sp & l' & m & Eu & Hc & _ & Hs & Hm & Hok' & _); try done.
  destruct (find_spec 0 h a l ms q gv acc qblock) as (l1 & E1 & _); try done.
  assert (Hpq' : predicts l' q qblock).
  { unfold predicts in *. destruct Hs as (-> & -> & -> & _). done. }
  edestruct (find_spec 0 (<[a := l']> h) a l' _ q gv acc qblock Hok') as (l2 & E2 & _); try done.
  { apply lookup_insert_eq. }
  { by eapply agrees_frame. }
  { by eapply owns_frame. }
  exists code, sp, (<[a := l']> h), (found (value_in ms qblock q)), (<[a := l1]> h), (found (value_in
    (<[Z.to_nat block := <[rank k := v]> m]> ms) qblock q)), (<[a := l2]> (<[a := l']> h)).
  split_and!; try done; try lia. unfold value_in.
  destruct (decide (Z.to_nat qblock = Z.to_nat block)) as [E|E].
  - rewrite E, list_lookup_insert_eq by (by eapply lookup_lt_Some). rewrite Hm. cbn.
    destruct (Z.eqb_spec (rank q) (rank k)) as [Er|Er]; [by rewrite Er, lookup_insert_eq|].
    by rewrite lookup_insert_ne.
  - rewrite list_lookup_insert_ne by done.
    destruct (Z.eqb_spec (rank q) (rank k)) as [Er|Er]; [|done]. exfalso.
    destruct Hcase as [->|]; [|done]. unfold predicts in *. congruence.
Qed.

(** ** The constructor *)

Section Construction.
Context {T : Type} `{OverflowTreeLaws T}.

Lemma empty_block_rep gv : block_rep (T := T) (empty_block gv) ∅.
Proof.
  split_and!; [done| |done|].
  - apply Forall_replicate. done.
  - exists ∅. split; [done|].
    split; [by intros i s [-> _]%lookup_replicate|]. intros k [Kk Nk]. rewrite lookup_empty.
    assert (find_first (has_key k) (slots (empty_block (T := T) gv)) = None) as ->; [|done].
    apply find_first_None, Forall_replicate. unfold has_key. cbn.
    rewrite deq_rank by done. by apply Z.eqb_neq.
Qed.

(** A placement is an insertion into the map of the predicted block; the key
    must be new, since a placement does not look for it. *)
Lemma data_placement_spec l ms k v block m :
  leaf_ok l ms -> predicts l k block -> storable k -> v <> 0 ->
  ms !! Z.to_nat block = Some m -> m !! rank k = None ->
  exists l', data_placement l k v = Ok l' /\ same_frame l l' /\
    leaf_ok l' (<[Z.to_nat block := <[rank k := v]> m]> ms).
Proof.
  intros Hok Hp Hk Hv Hm Hnew.
  destruct (leaf_block l ms k block Hok Hp) as (b & m' & Hb0 & Hz & Hl & Hm' & Hrep).
  assert (m' = m) by congruence. subst m'.
  pose proof Hp as Hpr. unfold data_placement. unfold predicts in Hp. rewrite Hp. mstep. rewrite Hz. mstep.
  assert (Hlt : (Z.to_nat block < length (blocks l))%nat) by (by eapply lookup_lt_Some).
  assert (Hst : forall b', zstore (blocks l) block b' = Ok (<[Z.to_nat block := b']> (blocks l))).
  { intros b'. rewrite <- (Z2Nat.id block) at 1 by lia. by apply zstore_nat. }
  assert (Ef : find_slot (has_key k) (slots b) = None).
  { pose proof (block_rep_find b m k Hrep Hk) as Hf.
    destruct (find_slot (has_key k) (slots b)); [|done]. destruct Hf as (? & _ & ?). congruence. }
  pose proof Hrep as (_ & _ & Hfree & _).
  destruct (find_slot is_free (slots b)) as [i|] eqn:Efree.
  - rewrite Hst. mstep. eexists; split; [done|]. split; [done|]. apply leaf_ok_insert; try done; [by destruct Hk|].
    by eapply block_rep_insert.
  - destruct (block_rep_overflow b m k v Hrep Hk Ef Efree) as (mo & Hmo & Eq & Hput).
    destruct (ot_insert_ok _ mo k v Hmo) as (c & t & Ei & Ht); [by destruct Hk|done|].
    rewrite Ei. mstep. rewrite Hst. mstep. eexists; split; [done|]. split; [done|].
    assert (Hrep' : block_rep (mkBlock (set_tree (header b) (Some t)) (slots b))
              (<[rank k := v]> m)) by (by eapply Hput).
    destruct (leaf_ok_insert l ms block _ m k v Hok Hm Hb0 (proj1 Hk) Hpr Hrep'). by split.
Qed.

(** The maps after placing a list of data, starting from [ms]. *)
Lemma place_all_spec data l ms :
  leaf_ok l ms ->
  Forall (fun kv => storable kv.1 /\ kv.2 <> 0 /\ exists block, predicts l kv.1 block) data ->
  NoDup (map (fun kv => rank kv.1) data) ->
  (forall kv block, kv ∈ data -> predicts l kv.1 block -> value_in ms block kv.1 = None) ->
  exists l' ms', foldlM place l data = Ok l' /\ same_frame l l' /\ leaf_ok l' ms' /\
    (forall k v block, (k, v) ∈ data -> predicts l k block -> value_in ms' block k = Some v) /\
    (forall k block, Forall (fun kv => rank kv.1 <> rank k) data -> value_in ms' block k = value_in ms block k).
Proof.
  revert l ms. induction data as [|[k v] data IH]; intros l ms Hok Hall Hnd Hnew.
  { exists l, ms. split; [done|]. split; [done|]. split; [done|]. split; [|done].
    intros k v block Hin. by apply elem_of_nil in Hin. }
  apply Forall_cons in Hall as [(Hk & Hv & block & Hp) Hall]. cbn [map fst snd] in *.
  apply NoDup_cons in Hnd as [Hni Hnd].
  destruct (leaf_block l ms k block Hok Hp) as (b & m & _ & _ & _ & Hm & _).
  assert (Hmk : m !! rank k = None).
  { pose proof (Hnew (k, v) block (list_elem_of_here _ _) Hp) as E.
    unfold value_in in E. by rewrite Hm in E. }
  destruct (data_placement_spec l ms k v block m) as (l1 & E1 & Hs1 & Hok1); try done.
  set (ms1 := <[Z.to_nat block := <[rank k := v]> m]> ms) in *.
  assert (Hv1 : forall q bq, rank q <> rank k -> value_in ms1 bq q = value_in ms bq q).
  { intros q bq Hq. unfold value_in, ms1.
    destruct (decide (Z.to_nat bq = Z.to_nat block)) as [E|E].
    - rewrite E, list_lookup_insert_eq by (by eapply lookup_lt_Some). rewrite Hm. cbn.
      by rewrite lookup_insert_ne.
    - by rewrite list_lookup_insert_ne. }
  assert (Hpred : forall q bq, predicts l1 q bq <-> predicts l q bq).
  { intros q bq. unfold predicts. destruct Hs1 as (-> & -> & -> & _). done. }
  assert (Hrk : forall kv, kv ∈ data -> rank kv.1 <> rank k).
  { intros kv Hin E. apply Hni. rewrite <- E. apply list_elem_of_fmap. by exists kv. }
  destruct (IH l1 ms1 Hok1) as (l' & ms' & E & Hs & Hok' & Hin & Hout); try done.
  - eapply Forall_impl; [exact Hall|]. cbn. intros kv (H1 & H2 & bq & H3).
    split_and!; try done. exists bq. by apply Hpred.
  - intros kv bq Hkv Hpq. rewrite Hv1 by auto. apply Hnew; [by apply list_elem_of_further|].
    by apply Hpred.
  - exists l', ms'. split; [unfold place at 1; cbn; rewrite E1; done|].
    split. { unfold same_frame in *. naive_solver congruence. }
    split; [done|]. split.
    + intros q w bq [[= -> ->]|Hq]%elem_of_cons Hpq.
      * rewrite Hout.
        -- unfold predicts in *. assert (bq = block) by congruence. subst bq.
           unfold value_in, ms1. rewrite list_lookup_insert_eq by (by eapply lookup_lt_Some).
           cbn. by rewrite lookup_insert_eq.
        -- apply Forall_forall. intros kv. by apply Hrk.
      * eapply Hin; [done|]. by apply Hpred.
    + intros q bq Hf. apply Forall_cons in Hf as [Hq Hf]. rewrite Hout by done. by apply Hv1.
Qed.
End Construction.

Lemma init_lock_free (s : InnerSlot) :
  check_read_lock (init_lock s) = true /\ check_write_lock (init_lock s) = true.
Proof.
  unfold check_read_lock, check_write_lock, init_lock, unlocked. cbn [info set_info].
  rewrite <- !Z.land_assoc.
  change (Z.land (not32 (u32 (Z.shiftl 3 30))) second_bit_lockSet) with 0.
  change (Z.land (not32 (u32 (Z.shiftl 3 30))) lockSet) with 0. by rewrite Z.land_0_r.
Qed.

Section NewLeaf.
Context {T : Type} `{OverflowTreeLaws T}.

Lemma leaf_header_ok bn k0 kn start sl ic gv prev next (l : Leaf T) :
  3 <= bn < 2 ^ 29 -> leaf_header bn k0 kn start sl ic gv prev next = Ok l ->
  leaf_ok l (replicate (Z.to_nat bn) ∅) /\ lf_next l = next /\ lf_first_key l = k0.
Proof.
  intros Hbn E. unfold leaf_header in E. apply bind_ok in E as (ts & _ & E).
  rewrite (u32_small bn) in E by lia.
  destruct (model_correction _ _ _ _ _) as [s i]. injection E as <-.
  split; [|done]. split; cbn; try done; try lia.
  - by rewrite length_replicate.
  - apply Forall2_replicate, empty_block_rep.
  - intros j m [-> _]%lookup_replicate k v _ Hv. by rewrite lookup_empty in Hv.
Qed.

Lemma get_info_slot this (l : Leaf T) acc :
  0 <= lf_block_number l < 2 ^ 29 -> exists s, get_info this l acc = Ok s /\ agrees l (Some s) /\
    min_key s = lf_first_key l /\ ptr s = this /\ type s = 0.
Proof.
  intros Hn. unfold get_info, set_block_number.
  destruct (Z.ltb_spec (lf_block_number l) (2 ^ 29)); [|lia]. mstep.
  eexists. split; [done|]. unfold agrees, model_of, leaf_check_read_lock, leaf_check_write_lock.
  match goal with |- context [check_read_lock (init_lock ?x)] =>
    destruct (init_lock_free x) as [-> ->] end.
  split_and!; try done.
  - unfold block_number. cbn [info init_lock set_type set_info slope intercept].
    rewrite (proj1 (fields_unlocked _)).
    rewrite (proj1 (fields_set_type _ 0 ltac:(lia))). by rewrite block_number_set by lia.
  - unfold type. cbn [info init_lock set_type set_info]. rewrite (proj2 (fields_unlocked _)).
    apply (fields_set_type _ 0). lia.
Qed.

(** The slot is not locked. *)
Lemma get_info_idle this (l : Leaf T) acc s : get_info this l acc = Ok s -> release_lock s = s.
Proof.
  unfold get_info. intros (x & _ & E)%bind_ok. injection E as <-.
  unfold release_lock, init_lock, set_info, unlocked. cbn. f_equal. rewrite <- Z.land_assoc. f_equal.
Qed.
Lemma new_leaf_idle this acc bn data number start sl ic gv prev next (l : Leaf T) s :
  new_leaf this acc bn data number start sl ic gv prev next = Ok (l, s) -> release_lock s = s.
Proof.
  unfold new_leaf. intros (k0 & _ & E)%bind_ok. apply bind_ok in E as (kn & _ & E).
  apply bind_ok in E as (l0 & _ & E). apply bind_ok in E as (l1 & _ & E). apply bind_ok in E as (s1 & Es & E).
  injection E as _ <-. by eapply get_info_idle.
Qed.

Lemma get_info_ok this (l : Leaf T) ms acc :
  leaf_ok l ms -> exists s, get_info this l acc = Ok s /\ agrees l (Some s) /\ agrees l None /\
    min_key s = lf_first_key l /\ ptr s = this /\ type s = 0.
Proof.
  intros Hok. pose proof (lo_number _ _ Hok).
  destruct (get_info_slot this l acc) as (s & E & Ha & Hs); [lia|]. exists s. split; [done|]. split; [done|].
  split; [|done]. unfold agrees, model_of, leaf_check_read_lock, leaf_check_write_lock. by rewrite (lo_unlocked _ _ Hok).
Qed.

Lemma value_in_empty n block k : value_in (replicate n ∅) block k = None.
Proof.
  unfold value_in. destruct (replicate n ∅ !! Z.to_nat block) as [m|] eqn:E; [|done].
  apply lookup_replicate in E as [-> _]. cbn. apply lookup_empty.
Qed.

(** Placement does not touch the model, and predicts every key it places. *)
Lemma place_all_predicts data (l l' : Leaf T) :
  foldlM place l data = Ok l' -> Forall (fun kv => exists block, predicts l kv.1 block) data.
Proof.
  revert l. induction data as [|[k v] data IH]; intros l E; [done|].
  cbn [foldlM] in E. apply bind_ok in E as (l1 & E1 & E). unfold place, data_placement in E1. cbn [fst snd] in E1.
  apply bind_ok in E1 as (block & Hp & E1). apply bind_ok in E1 as (b & _ & E1).
  constructor; [by exists block|].
  assert (Hm : lf_slope l1 = lf_slope l /\ lf_intercept l1 = lf_intercept l /\
    lf_block_number l1 = lf_block_number l).
  { destruct (find_slot is_free (slots b)).
    - apply bind_ok in E1 as (bs & _ & E1). by injection E1 as <-.
    - apply bind_ok in E1 as ([c t] & _ & E1). apply bind_ok in E1 as (bs & _ & E1). by injection E1 as <-. }
  eapply Forall_impl; [by apply IH|]. intros kv [bl H']. exists bl. unfold predicts in *.
  destruct Hm as (Ea & Eb & Ec). by rewrite <- Ea, <- Eb, <- Ec.
Qed.

(** What a constructor call that succeeds has built. *)
Lemma new_leaf_inv this acc bn data number start sl ic gv prev next kv0 (l : Leaf T) s :
  3 <= bn < 2 ^ 29 -> data !! start = Some kv0 ->
  new_leaf this acc bn data number start sl ic gv prev next = Ok (l, s) ->
  Forall (fun kv => storable kv.1 /\ kv.2 <> 0) (take number (drop start data)) ->
  NoDup (map (fun kv => rank kv.1) (take number (drop start data))) ->
  exists ms, leaf_ok l ms /\ agrees l (Some s) /\ agrees l None /\
    min_key s = kv0.1 /\ ptr s = this /\ type s = 0 /\ lf_first_key l = kv0.1 /\
    lf_next l = next /\ lf_prev l = prev /\
    (forall k v block, (k, v) ∈ take number (drop start data) -> predicts l k block ->
       value_in ms block k = Some v) /\
    (forall k block, Forall (fun kv => rank kv.1 <> rank k) (take number (drop start data)) ->
       value_in ms block k = None).
Proof.
  intros Hbn H1 E Hall Hnd. unfold new_leaf in E. rewrite H1 in E. mstep in E.
  apply bind_ok in E as (kvn & _ & E). apply bind_ok in E as (l0 & E0 & E).
  apply bind_ok in E as (l1 & E1 & E). apply bind_ok in E as (s1 & Es & E). injection E as -> ->.
  destruct (leaf_header_ok _ _ _ _ _ _ _ _ _ _ Hbn E0) as (Hok0 & Hn0 & Hf0).
  pose proof (place_all_predicts _ _ _ E1) as Hp.
  destruct (place_all_spec (take number (drop start data)) l0 _ Hok0) as (l' & ms & E' & Hs & Hok & Hin & Hout).
  { apply Forall_forall. intros kv Hkv. destruct (proj1 (Forall_forall _ _) Hall kv Hkv) as [K1 K2].
    split; [done|]. split; [done|]. by apply (proj1 (Forall_forall _ _) Hp). }
  { exact Hnd. }
  { intros kv block _ _. apply value_in_empty. }
  assert (l' = l) as -> by congruence. destruct (get_info_ok this l ms acc Hok) as (s' & Es' & A1 & A2 & A3 & A4 & A5).
  assert (s' = s) as -> by congruence.
  assert (Hpr : forall k block, predicts l k block <-> predicts l0 k block).
  { intros k block. unfold predicts. by destruct Hs as (-> & -> & -> & _). }
  destruct Hs as (_ & _ & _ & Hnx & Hpv & Hfk & _).
  exists ms. split; [exact Hok|]. split; [exact A1|]. split; [exact A2|]. split; [congruence|].
  split; [exact A4|]. split; [exact A5|]. split; [congruence|]. split; [congruence|].
  split; [|split].
  - rewrite Hpv. unfold leaf_header in E0. apply bind_ok in E0 as (ts & _ & E0).
    destruct (model_correction _ _ _ _ _). by injection E0 as <-.
  - intros k v block Hk Hb. apply (Hin k v block Hk). by apply Hpr.
  - intros k block Hf. rewrite Hout by done. apply value_in_empty.
Qed.

(** The leaf a constructor call builds. *)
Lemma new_leaf_spec this acc bn data number start sl ic gv prev next kv0 kvn l0 :
  3 <= bn < 2 ^ 29 ->
  data !! start = Some kv0 -> zload data (Z.of_nat start + Z.of_nat number - 1) = Ok kvn ->
  leaf_header bn kv0.1 kvn.1 (Z.of_nat start) sl ic gv prev next = Ok l0 ->
  Forall (fun kv => storable kv.1 /\ kv.2 <> 0 /\ exists block, predicts l0 kv.1 block)
    (take number (drop start data)) ->
  NoDup (map (fun kv => rank kv.1) (take number (drop start data))) ->
  exists l ms s, new_leaf this acc bn data number start sl ic gv prev next = Ok (l, s) /\
    leaf_ok l ms /\ same_frame l0 l /\ agrees l (Some s) /\ agrees l None /\
    (forall k v block, (k, v) ∈ take number (drop start data) -> predicts l0 k block ->
       value_in ms block k = Some v) /\
    (forall k block, Forall (fun kv => rank kv.1 <> rank k) (take number (drop start data)) ->
       value_in ms block k = None).
Proof.
  intros Hbn H1 H2 H3 Hall Hnd.
  destruct (leaf_header_ok _ _ _ _ _ _ _ _ _ _ Hbn H3) as (Hok0 & _).
  destruct (place_all_spec (take number (drop start data)) l0 _ Hok0 Hall Hnd)
    as (l & ms & E & Hs & Hok & Hin & Hout).
  { intros kv block _ _. apply value_in_empty. }
  destruct (get_info_ok this l ms acc Hok) as (s & Es & A1 & A2 & _).
  exists l, ms, s. unfold new_leaf. rewrite H1. mstep. rewrite H2. mstep. rewrite H3. mstep.
  rewrite E. mstep. rewrite Es. split; [done|]. split_and!; try done.
  intros k block Hf. rewrite Hout by done. apply value_in_empty.
Qed.
End NewLeaf.

(** A leaf without overflow trees, checked by evaluation. *)
Section Plain.
Context {T : Type} `{OverflowTreeLaws T}.

Definition block_map (b : Block T) : gmap Z Z :=
  foldr (fun s m => <[rank (skey s) := spayload s]> m) ∅ (slots b).

Definition plain_block (b : Block T) : bool :=
  (length (slots b) =? Z.to_nat LeafRealSlotsPerBlock)%nat &&
  forallb (fun s => is_key (skey s)) (slots b) && negb (block_locked (header b)) &&
  match overflow_tree (header b) with None => true | Some _ => false end &&
  bool_decide (NoDup (used_keys (slots b))).

(** The keys in use of the blocks from [i] on are where they are predicted. *)
Fixpoint placed_b (i : Z) (l : Leaf T) (bs : list (Block T)) : bool :=
  match bs with
  | [] => true
  | b :: bs' =>
      forallb (fun s => is_free s ||
        match predict_block (skey s) (lf_slope l) (lf_intercept l) (lf_block_number l) with
        | Ok block => block =? i
        | Err _ => false
        end) (slots b) && placed_b (i + 1) l bs'
  end.

Definition plain_leaf (l : Leaf T) : bool :=
  (3 <=? lf_block_number l) && (lf_block_number l <? 2 ^ 29) &&
  (length (blocks l) =? Z.to_nat (lf_block_number l))%nat && forallb plain_block (blocks l) &&
  (lf_locked l =? 0) && negb (lf_abandoned l) && placed_b 0 l (blocks l).

Lemma plain_block_rep b : plain_block b = true -> block_rep b (block_map b).
Proof.
  unfold plain_block. intros E. zb.
  match goal with E : forallb _ _ = true |- _ => rewrite forallb_forall in E; rename E into Hk end.
  assert (Hkeys : slot_keys_ok (slots b)).
  { apply Forall_forall. intros s Hs%list_elem_of_In. by apply Hk. }
  split_and!; try done; [by apply Nat.eqb_eq|]. exists ∅.
  destruct (overflow_tree (header b)); [done|]. split; [done|].
  split; [apply distinct_empty; by eapply bool_decide_eq_true_1|]. intros k [Kk _].
  unfold block_map. clear - Kk Hkeys. induction Hkeys as [|s ss Ks Hss IH]; [done|]. cbn.
  unfold has_key at 1. rewrite deq_rank by done.
  destruct (Z.eqb_spec (rank k) (rank (skey s))) as [E|E].
  - by rewrite E, lookup_insert_eq.
  - rewrite lookup_insert_ne by done. apply IH.
Qed.

Lemma block_map_slot b k v :
  block_map b !! rank k = Some v -> exists s, s ∈ slots b /\ rank (skey s) = rank k.
Proof.
  unfold block_map. induction (slots b) as [|s ss IH]; cbn; [by rewrite lookup_empty|].
  destruct (decide (rank (skey s) = rank k)) as [E|E].
  - intros _. exists s. split; [apply list_elem_of_here|done].
  - rewrite lookup_insert_ne by done. intros Hv. destruct (IH Hv) as (s' & Hs & E').
    exists s'. split; [by apply list_elem_of_further|done].
Qed.

Lemma placed_b_ok start l bs i b :
  placed_b start l bs = true -> bs !! i = Some b -> slot_keys_ok (slots b) ->
  placed_in l (start + Z.of_nat i) (block_map b).
Proof.
  revert start i. induction bs as [|b0 bs IH]; intros start i Hb Hi Hk; [done|]. cbn [placed_b] in Hb.
  apply andb_true_iff in Hb as [Hb0 Hb]. destruct i as [|i].
  - injection Hi as ->. rewrite Z.add_0_r. intros k v [Kk Nk] Hv.
    destruct (block_map_slot b k v Hv) as (s & Hs & E). rewrite forallb_forall in Hb0.
    specialize (Hb0 s (proj1 (list_elem_of_In _ _) Hs)). pose proof (proj1 (Forall_forall _ _) Hk s Hs) as Ks.
    cbn in Ks. apply orb_true_iff in Hb0 as [Hf|Hp].
    + unfold is_free in Hf. rewrite deq_rank in Hf by done. apply Z.eqb_eq in Hf. congruence.
    + exists (skey s). split; [done|]. split; [done|]. unfold predicts. destruct (predict_block _ _ _ _); [|done].
      apply Z.eqb_eq in Hp. by subst.
  - cbn in Hi. replace (start + Z.of_nat (S i)) with (start + 1 + Z.of_nat i) by lia. by apply IH.
Qed.

Lemma leaf_ok_plain l : plain_leaf l = true -> leaf_ok l (map block_map (blocks l)).
Proof.
  unfold plain_leaf. intros E. zb.
  match goal with E : forallb _ _ = true |- _ => rewrite forallb_forall in E; rename E into Hb end.
  split; try done; try lia; [by apply Nat.eqb_eq| |].
  - apply Forall2_fmap_r, Forall_Forall2_diag, Forall_forall. intros b Hin%list_elem_of_In.
    by apply plain_block_rep, Hb.
  - intros i m Hi. rewrite list_lookup_fmap in Hi. destruct (blocks l !! i) as [b|] eqn:Ebi; [|done].
    injection Hi as <-. apply (placed_b_ok 0 l (blocks l) i b); [done|done|].
    apply (plain_block_rep b), Hb. apply list_elem_of_In. by eapply list_elem_of_lookup_2.
Qed.
End Plain.

(** C13: a leaf of 3 to 2^29 blocks that the constructor builds from distinct keys with
    non-zero payloads, none of them the free mark (the largest double) and each predicted to one of its blocks,
    answers [find], through its accelerator or without it, with the payload of every key it
    was given, and with not found for every other key that it owns and predicts to one of its
    blocks, wherever the model and the free slots put them. *)
Theorem new_leaf_finds {T} `{OverflowTreeLaws T} (this : Z) (acc : InnerSlot) (bn : Z)
    (data : list (double * Z)) (number start : nat) (sl ic : double) (gv prev next : Z)
    (kv0 kvn : double * Z) (l0 : Leaf T) :
  3 <= bn < 2 ^ 29 ->
  data !! start = Some kv0 -> zload data (Z.of_nat start + Z.of_nat number - 1) = Ok kvn ->
  leaf_header bn kv0.1 kvn.1 (Z.of_nat start) sl ic gv prev next = Ok l0 ->
  Forall (fun kv => storable kv.1 /\ kv.2 <> 0 /\ exists block, predicts l0 kv.1 block)
    (take number (drop start data)) ->
  NoDup (map (fun kv => rank kv.1) (take number (drop start data))) ->
  exists l s, new_leaf this acc bn data number start sl ic gv prev next = Ok (l, s) /\
    forall (h : gmap Z (Leaf T)) (k : double) (o : option InnerSlot) (block : Z),
      h !! this = Some l -> owns h l k -> storable k -> predicts l0 k block ->
      o = Some s \/ o = None ->
      exists r h', find 1 this k gv o h = Ok (r, h') /\
        (forall v, (k, v) ∈ take number (drop start data) -> r = (1, Some v)) /\
        (Forall (fun kv => rank kv.1 <> rank k) (take number (drop start data)) -> r = (0, None)).
Proof.
  intros Hbn H1 H2 H3 Hall Hnd.
  destruct (new_leaf_spec this acc bn data number start sl ic gv prev next kv0 kvn l0)
    as (l & ms & s & E & Hok & Hs & A1 & A2 & Hin & Hout); try done.
  exists l, s. split; [done|]. intros h k o block Hh Hown Hk Hp Ho.
  assert (Hp' : predicts l k block).
  { unfold predicts in *. destruct Hs as (-> & -> & -> & _). done. }
  assert (Ha : agrees l o) by (by destruct Ho as [-> | ->]).
  destruct (find_spec 0 h this l ms k gv o block) as (l' & Ef & _); try done.
  eexists _, _. split; [exact Ef|]. split.
  - intros v Hv. by rewrite (Hin k v block Hv Hp).
  - intros Hf. by rewrite (Hout k block Hf).
Qed.

(** ** Concrete leaves *)

Definition zdata (l : list Z) : list (double * Z) := map (fun z => (double_of_Z z, z + 1)) l.
Definition no_slot : InnerSlot := mkSlot (double_of_Z 0) 0 (double_of_Z 0) (double_of_Z 0) 0.

(** Four blocks over the keys 10, 20, 30, 40 with slope 1/10. *)
Definition demo_header : res (Leaf Assoc.t) :=
  leaf_header 4 (double_of_Z 10) (double_of_Z 40) 0 (double_of_ratio 1 10) (double_of_Z 0) 0 0 0.
Definition demo_leaf : Leaf Assoc.t :=
  match demo_header with
  | Ok l => l
  | Err _ => mkLeaf FREE_FLAG FREE_FLAG 0 0 0 FREE_FLAG 0 0 0 false []
  end.

Lemma demo_leaf_header : leaf_header (T := Assoc.t) 4 (double_of_Z 10) (double_of_Z 40) 0
  (double_of_ratio 1 10) (double_of_Z 0) 0 0 0 = Ok demo_leaf.
Proof. vm_compute. reflexivity. Qed.

Lemma demo_predicts (k : Z) (block : Z) :
  match predict_block (double_of_Z k) (lf_slope demo_leaf) (lf_intercept demo_leaf) 4 with
  | Ok b => b =? block | Err _ => false end = true ->
  predicts demo_leaf (double_of_Z k) block.
Proof.
  unfold predicts. intros E. change (lf_block_number demo_leaf) with 4.
  destruct (predict_block _ _ _ _); [|done]. f_equal. lia.
Qed.

Lemma demo_data_ok :
  Forall (fun kv => storable kv.1 /\ kv.2 <> 0 /\ exists block, predicts demo_leaf kv.1 block)
    (zdata [10; 20; 30; 40]).
Proof.
  repeat constructor; cbn [fst snd]; try (vm_compute; discriminate).
  - exists 1. apply demo_predicts. vm_compute. reflexivity.
  - exists 1. apply demo_predicts. vm_compute. reflexivity.
  - exists 2. apply demo_predicts. vm_compute. reflexivity.
  - exists 2. apply demo_predicts. vm_compute. reflexivity.
Qed.

Lemma new_leaf_finds_witness :
  exists l s, new_leaf (T := Assoc.t) 1 no_slot 4 (zdata [10; 20; 30; 40]) 4 0
    (double_of_ratio 1 10) (double_of_Z 0) 0 0 0 = Ok (l, s).
Proof.
  destruct (new_leaf_finds (T := Assoc.t) 1 no_slot 4 (zdata [10; 20; 30; 40]) 4 0
    (double_of_ratio 1 10) (double_of_Z 0) 0 0 0 (double_of_Z 10, 11) (double_of_Z 40, 41)
    demo_leaf) as (l & s & E & _).
  - lia.
  - reflexivity.
  - reflexivity.
  - exact demo_leaf_header.
  - exact demo_data_ok.
  - apply (bool_decide_unpack _). vm_compute. exact I.
  - exists l, s. exact E.
Defined.

Lemma demo_leaf_ok : leaf_ok demo_leaf (replicate 4 ∅).
Proof. apply (leaf_header_ok 4 _ _ _ _ _ _ _ _ _ ltac:(lia) demo_leaf_header). Qed.

Lemma demo_agrees : agrees demo_leaf None.
Proof. vm_compute. done. Qed.

Lemma leaf_upsert_find_witness :
  exists code sp h', upsert 1 1 (double_of_Z 20) 9 0 None {[1 := demo_leaf]} = Ok ((code, sp), h') /\
    1 <= code <= 6.
Proof.
  destruct (leaf_upsert_find {[1 := demo_leaf]} 1 demo_leaf (replicate 4 ∅) (double_of_Z 20)
    (double_of_Z 30) 9 0 None 1 2) as (code & sp & h' & _ & _ & _ & _ & E & Hc & _).
  - exact demo_leaf_ok.
  - apply lookup_insert_eq.
  - exact demo_agrees.
  - vm_compute. discriminate.
  - left. reflexivity.
  - apply demo_predicts. vm_compute. reflexivity.
  - vm_compute. split; [reflexivity|discriminate].
  - discriminate.
  - left. reflexivity.
  - apply demo_predicts. vm_compute. reflexivity.
  - vm_compute. split; [reflexivity|discriminate].
  - right. vm_compute. discriminate.
  - exists code, sp, h'. split; [exact E|exact Hc].
Defined.

(** ** The flags *)

(** Operations on one leaf, in order, then a search. *)
Inductive leaf_op : Type :=
| LUpsert (k v : Z)
| LRemove (k : Z).

Definition leaf_step {T} `{OverflowTree T} (h : gmap Z (Leaf T)) (o : leaf_op) : res (gmap Z (Leaf T)) :=
  match o with
  | LUpsert k v => '(_, h) ← upsert 2 1 (double_of_Z k) v 0 None h; Ok h
  | LRemove k => '(_, h) ← remove 2 1 (double_of_Z k) 0 None h; Ok h
  end.
Definition leaf_run {T} `{OverflowTree T} (l : Leaf T) (os : list leaf_op) (k : Z) : res (Z * option Z) :=
  h ← foldlM leaf_step {[1 := l]} os;
  '(r, _) ← find 2 1 (double_of_Z k) 0 None h; Ok r.

Definition fill_then (os : list leaf_op) : list leaf_op :=
  map (fun i => LUpsert i (i + 1)) (seqZ 1 16) ++ os.

(** [DELETE_FLAG] is [max() - 1], which rounds to [max()], the [FREE_FLAG]:
    a slot removed in a block with an overflow tree is free again, an upsert of a
    key of the tree fills the slot, and removing that key uncovers the old
    payload in the tree: the key is found after it was removed, with a payload
    it no longer had. *)
Theorem delete_flag_is_free_flag :
  deq DELETE_FLAG FREE_FLAG = true /\
  leaf_run demo_leaf (fill_then []) 16 = Ok (1, Some 17) /\
  leaf_run demo_leaf (fill_then [LRemove 3; LUpsert 16 99]) 16 = Ok (1, Some 99) /\
  leaf_run demo_leaf (fill_then [LRemove 3; LUpsert 16 99; LRemove 16]) 16 = Ok (1, Some 17).
Proof. split_and!; vm_compute; reflexivity. Qed.
