(* ===== verification/BPlusTree.v ===== *)
(** * Ghost trees and searches (core/index/b_plus.h: btree_plus)

    A tree of pages is related to a ghost [tree] that says which page holds what:
    every page agrees with the ghost tree, children point to their parents, and
    the keys of a subtree are between its separators (the first separator of a
    page is never compared, so it is not constrained).  A search follows a path,
    which is a context of frames around a leaf. *)

From S2P Require Import Prelude Doubles BPage BPlus.

(** ** Ghost trees *)

Inductive tree : Type :=
| Leaf (a : Z) (rs : list Record_)
| Node (a : Z) (cs : list (double * tree)).

Section TreeInd.
Variable P : tree -> Prop.
Hypothesis HL : forall a rs, P (Leaf a rs).
Hypothesis HN : forall a cs, Forall (fun c => P c.2) cs -> P (Node a cs).

Fixpoint tree_rect_nested (t : tree) : P t :=
  match t with
  | Leaf a rs => HL a rs
  | Node a cs => HN a cs
      ((fix go cs : Forall (fun c => P c.2) cs :=
          match cs with
          | [] => List.Forall_nil _
          | c :: cs' => List.Forall_cons _ c cs' (tree_rect_nested c.2) (go cs')
          end) cs)
  end.
End TreeInd.

Definition addr (t : tree) : Z := match t with Leaf a _ | Node a _ => a end.

Fixpoint flatten (t : tree) : list Record_ :=
  match t with
  | Leaf _ rs => rs
  | Node _ cs => concat (map (fun c => flatten c.2) cs)
  end.

Fixpoint subtrees (t : tree) : list tree :=
  t :: match t with
       | Leaf _ _ => []
       | Node _ cs => concat (map (fun c => subtrees c.2) cs)
       end.

(** The addresses of the leaves from left to right. *)
Fixpoint leaves (t : tree) : list Z :=
  match t with
  | Leaf a _ => [a]
  | Node _ cs => concat (map (fun c => leaves c.2) cs)
  end.

Fixpoint depth (t : tree) : nat :=
  match t with
  | Leaf _ _ => 0
  | Node _ cs => S (foldr Nat.max 0%nat (map (fun c => depth c.2) cs))
  end.

Definition addrs (t : tree) : list Z := map addr (subtrees t).

(** What a page stores for a child. *)
Definition rec_of (c : double * tree) : Record_ := mkRec c.1 (addr c.2).

(** ** Order

    [ordered lo hi t]: the ranks of the keys are in [lo, hi), each page is sorted
    and each separator but the first bounds its neighbours. *)

Section Kids.
Variable ord : Z -> Z -> tree -> Prop.
Variable hi : Z.

Fixpoint kids (lo : Z) (cs : list (double * tree)) : Prop :=
  match cs with
  | [] => False
  | (_, c) :: cs' =>
      match cs' with
      | [] => ord lo hi c
      | (k, _) :: _ =>
          is_key k = true /\ lo < rank k < hi /\ ord lo (rank k) c /\ kids (rank k) cs'
      end
  end.
End Kids.

Fixpoint ordered (lo hi : Z) (t : tree) : Prop :=
  match t with
  | Leaf _ rs => sorted_recs rs /\ keys_ok rs /\ Forall (fun r => lo <= rank (key r) < hi) rs
  | Node _ cs => kids ordered hi lo cs
  end.

Lemma kids_cons lo hi k c k' c' cs :
  kids ordered hi lo ((k, c) :: (k', c') :: cs) <->
  is_key k' = true /\ lo < rank k' < hi /\ ordered lo (rank k') c /\
  kids ordered hi (rank k') ((k', c') :: cs).
Proof. done. Qed.

(** A list of children cut at a separator. *)
Lemma kids_split lo hi l k c r :
  l <> [] -> kids ordered hi lo (l ++ (k, c) :: r) ->
  is_key k = true /\ lo < rank k < hi /\ kids ordered (rank k) lo l /\
  kids ordered hi (rank k) ((k, c) :: r).
Proof.
  revert lo. induction l as [|[k0 c0] l IH]; intros lo Hl H; [done|].
  destruct l as [|[k1 c1] l].
  - cbn in H. destruct H as (? & ? & ? & ?). done.
  - cbn [app] in H. apply kids_cons in H as (H1 & H2 & H3 & H4).
    destruct (IH (rank k1)) as (K1 & K2 & K3 & K4); [done|exact H4|].
    split_and!; try done; try lia. apply kids_cons. split_and!; try done; lia.
Qed.

Lemma kids_join lo hi l k c r :
  is_key k = true -> lo < rank k < hi -> kids ordered (rank k) lo l ->
  kids ordered hi (rank k) ((k, c) :: r) -> kids ordered hi lo (l ++ (k, c) :: r).
Proof.
  intros Hk. revert lo. induction l as [|[k0 c0] l IH]; intros lo Hlo H1 H2; [done|].
  destruct l as [|[k1 c1] l].
  - cbn in H1. done.
  - apply kids_cons in H1 as (A1 & A2 & A3 & A4). cbn [app]. apply kids_cons.
    split_and!; try done; try lia. apply IH; try done. lia.
Qed.

(** The keys of an ordered tree are in order. *)
Definition within (lo hi : Z) (l : list Record_) : Prop :=
  Forall (fun r => lo <= rank (key r) < hi) l.

Lemma within_weaken lo hi lo' hi' l :
  within lo hi l -> lo' <= lo -> hi <= hi' -> within lo' hi' l.
Proof. intros H ? ?. eapply Forall_impl; [exact H|]. cbn. intros; lia. Qed.

Lemma sorted_within_app m lo hi l1 l2 :
  sorted_recs l1 -> within lo m l1 -> sorted_recs l2 -> within m hi l2 ->
  sorted_recs (l1 ++ l2).
Proof.
  intros S1 W1 S2 W2. apply sorted_app_inv. split_and!; [done..|]. intros a b Ha Hb.
  pose proof (proj1 (Forall_forall _ _) W1 a Ha). pose proof (proj1 (Forall_forall _ _) W2 b Hb).
  cbn in *. lia.
Qed.

Definition sorted_in (lo hi : Z) (l : list Record_) : Prop :=
  sorted_recs l /\ keys_ok l /\ within lo hi l.

Lemma sorted_in_app m lo hi l1 l2 :
  lo <= m <= hi -> sorted_in lo m l1 -> sorted_in m hi l2 -> sorted_in lo hi (l1 ++ l2).
Proof.
  intros Hm (S1 & K1 & W1) (S2 & K2 & W2). split_and!.
  - by eapply sorted_within_app.
  - by apply keys_ok_app.
  - apply Forall_app. split; eapply within_weaken; try done; lia.
Qed.

Lemma flatten_ordered t : forall lo hi, ordered lo hi t -> sorted_in lo hi (flatten t).
Proof.
  induction t as [a rs|a cs IH] using tree_rect_nested; intros lo hi H; [exact H|].
  cbn [flatten ordered] in *. revert lo H.
  induction cs as [|[k c] cs IHcs]; intros lo H; [done|].
  apply Forall_cons in IH as [Hc Hcs]. cbn [map concat].
  destruct cs as [|[k' c'] cs].
  - cbn. rewrite app_nil_r. by apply Hc.
  - apply kids_cons in H as (H1 & H2 & H3 & H4).
    apply (sorted_in_app (rank k')); [lia|by apply Hc|by apply IHcs].
Qed.

(** ** Paths

    A frame is an inner page without one of its children; a context is the frames
    from a subtree up to the root, innermost first. *)

Record frame : Type := mkFrame {
  f_addr : Z;
  f_left : list (double * tree);
  f_key : double;
  f_right : list (double * tree)
}.

Definition fill (f : frame) (t : tree) : tree :=
  Node (f_addr f) (f_left f ++ (f_key f, t) :: f_right f).

Fixpoint plug (ctx : list frame) (t : tree) : tree :=
  match ctx with
  | [] => t
  | f :: ctx' => plug ctx' (fill f t)
  end.

Lemma plug_app c1 c2 t : plug (c1 ++ c2) t = plug c2 (plug c1 t).
Proof. revert t; induction c1 as [|f c1 IH]; intros t; cbn; [done|apply IH]. Qed.

(** [frame_ok]: whatever is ordered between the inner bounds and starts with the
    separator of the hole fits in the frame. *)
Definition frame_ok (lo hi : Z) (f : frame) (lo' hi' : Z) : Prop :=
  lo <= lo' /\ hi' <= hi /\
  forall c mid, kids ordered hi' lo' ((f_key f, c) :: mid) ->
    kids ordered hi lo (f_left f ++ (f_key f, c) :: mid ++ f_right f).

Fixpoint ctx_ok (lo hi : Z) (ctx : list frame) (lo' hi' : Z) : Prop :=
  match ctx with
  | [] => lo' = lo /\ hi' = hi
  | f :: ctx' => exists l h, ctx_ok lo hi ctx' l h /\ frame_ok l h f lo' hi'
  end.

Lemma ctx_ok_snoc lo hi l h ctx f lo' hi' :
  frame_ok lo hi f l h -> ctx_ok l h ctx lo' hi' -> ctx_ok lo hi (ctx ++ [f]) lo' hi'.
Proof.
  intros Hf. revert lo' hi'. induction ctx as [|g ctx IH]; intros lo' hi' H; cbn in *.
  - destruct H as [-> ->]. exists lo, hi. done.
  - destruct H as (l1 & h1 & H & Hg). exists l1, h1. split; [by apply IH|done].
Qed.

(** The child that [upper_bound] picks. *)
Definition routes (q : double) (l r : list (double * tree)) : Prop :=
  Forall (fun c => rank c.1 <= rank q) (drop 1 l) /\
  match r with [] => True | c :: _ => rank q < rank c.1 end.

Lemma kids_keys lo hi cs : kids ordered hi lo cs -> Forall (fun c => is_key c.1 = true) (drop 1 cs).
Proof.
  revert lo. induction cs as [|[k c] cs IH]; intros lo H; [done|]. cbn [drop].
  destruct cs as [|[k' c'] cs]; [constructor|].
  apply kids_cons in H as (H1 & _ & _ & H4). constructor; [done|]. by apply (IH (rank k')).
Qed.

(** What a hole inherits from the children to its left and to its right. *)
Lemma kids_left lo hi l k c r :
  kids ordered hi lo (l ++ (k, c) :: r) ->
  exists lo', lo <= lo' /\ (l = [] -> lo' = lo) /\ (l <> [] -> lo' = rank k) /\
    kids ordered hi lo' ((k, c) :: r) /\
    forall c' x, kids ordered hi lo' ((k, c') :: x) -> kids ordered hi lo (l ++ (k, c') :: x).
Proof.
  intros H. destruct l as [|y l]; [by exists lo|].
  destruct (kids_split lo hi (y :: l) k c r) as (K1 & K2 & K3 & K4); [done..|].
  exists (rank k). split_and!; [lia|done|done|done|].
  intros c' x Hx. by apply kids_join.
Qed.

Lemma kids_right lo hi k c r :
  kids ordered hi lo ((k, c) :: r) ->
  exists hi', hi' <= hi /\ match r with [] => hi' = hi | (k', _) :: _ => hi' = rank k' end /\
    ordered lo hi' c /\
    forall c' x, kids ordered hi' lo ((k, c') :: x) -> kids ordered hi lo ((k, c') :: x ++ r).
Proof.
  intros H. destruct r as [|[k' c'] r].
  - exists hi. split_and!; try done. intros c' x. by rewrite app_nil_r.
  - apply kids_cons in H as (H1 & H2 & H3 & H4).
    exists (rank k'). split_and!; [lia|done|done|].
    intros d x Hx. by apply (kids_join lo hi ((k, d) :: x) k' c' r).
Qed.

(** Routing finds a frame, and the bounds of the hole enclose the key. *)
Lemma kids_route lo hi a l k c r q :
  kids ordered hi lo (l ++ (k, c) :: r) -> routes q (l ++ [(k, c)]) r -> lo <= rank q < hi ->
  exists lo' hi', frame_ok lo hi (mkFrame a l k r) lo' hi' /\ lo' <= rank q < hi' /\
    ordered lo' hi' c.
Proof.
  intros H [R1 R2] Hq.
  destruct (kids_left lo hi l k c r H) as (lo' & L1 & L2 & L3 & L4 & L5).
  destruct (kids_right lo' hi k c r L4) as (hi' & P1 & P2 & P3 & P4).
  exists lo', hi'. split; [|split; [|done]].
  - split_and!; [done|done|]. intros d mid Hm. cbn. apply L5, P4, Hm.
  - split.
    + destruct l as [|x l]; [rewrite L2 by done; lia|]. rewrite L3 by done.
      rewrite Forall_forall in R1. apply (R1 (k, c)). cbn. apply elem_of_app. right.
      apply list_elem_of_here.
    + destruct r as [|[k' c'] r]; [lia|]. rewrite P2. exact R2.
Qed.

(** ** The heap

    What the invariant says of a page is said through three views: its kind and
    records, its parent, its neighbours in the leaf list. *)

Abbreviation heap := (gmap Z page).

Definition shape (h : heap) (a : Z) : option (bool * Z * list Record_) :=
  (fun p => (is_leaf (hdr p), rec_num p, records p)) <$> h !! a.
Definition up (h : heap) (a : Z) : option Z := (fun p => parent (hdr p)) <$> h !! a.
Definition link (h : heap) (a : Z) : option (Z * Z) :=
  (fun p => (prev_leaf (hdr p), next_leaf (hdr p))) <$> h !! a.

(** The page at [a] is well-formed and holds exactly these records. *)
Definition page_at (h : heap) (a : Z) (leaf : bool) (rs : list Record_) : Prop :=
  exists p, h !! a = Some p /\ page_ok p /\ is_leaf (hdr p) = leaf /\ active p = rs.

(** A page is split as soon as it is full. *)
Definition room {A} (l : list A) : Prop := Z.of_nat (length l) < cardinality.

Lemma page_ok_records p p' :
  records p' = records p -> rec_num p' = rec_num p -> page_ok p ->
  page_ok p' /\ active p' = active p.
Proof.
  intros E1 E2 [H1 H2 H3 H4]. unfold active in *. rewrite E1, E2. split; [|done].
  split; rewrite ?E1, ?E2; try done. unfold active. by rewrite E1, E2.
Qed.

Lemma page_at_shape h h' a leaf rs :
  shape h' a = shape h a -> page_at h a leaf rs -> page_at h' a leaf rs.
Proof.
  intros E (p & Hp & Hok & Hl & Ha). unfold shape in E. rewrite Hp in E. cbn in E.
  destruct (h' !! a) as [p'|] eqn:E'; [|done]. injection E as E1 E2 E3.
  exists p'. destruct (page_ok_records p p') as [H1 H2]; try done.
  split_and!; try done; congruence.
Qed.

Definition local (h : heap) (t : tree) : Prop :=
  match t with
  | Leaf a rs => page_at h a true rs /\ room rs
  | Node a cs => page_at h a false (map rec_of cs) /\ room cs /\
                 Forall (fun c => up h (addr c.2) = Some a) cs
  end.

(** The heap holds the pages of the tree. *)
Definition rep (h : heap) (t : tree) : Prop := Forall (local h) (subtrees t).

Definition kids_rep (h : heap) (cs : list (double * tree)) : Prop :=
  Forall (fun c => rep h c.2) cs.

Lemma rep_leaf h a rs : rep h (Leaf a rs) <-> page_at h a true rs /\ room rs.
Proof. unfold rep. cbn. rewrite Forall_singleton. done. Qed.

Lemma rep_node h a cs :
  rep h (Node a cs) <->
  page_at h a false (map rec_of cs) /\ room cs /\
  Forall (fun c => up h (addr c.2) = Some a) cs /\ kids_rep h cs.
Proof.
  unfold rep, kids_rep. cbn [subtrees]. rewrite Forall_cons, Forall_concat, Forall_map.
  cbn [local]. tauto.
Qed.

Definition kids_addrs (cs : list (double * tree)) : list Z := concat (map (fun c => addrs c.2) cs).

Lemma addrs_node a cs : addrs (Node a cs) = a :: kids_addrs cs.
Proof.
  unfold addrs, kids_addrs. cbn [subtrees map addr]. f_equal.
  induction cs as [|c cs IH]; cbn; [done|]. by rewrite map_app, IH.
Qed.

Lemma addrs_addr t : addr t ∈ addrs t.
Proof. destruct t; cbn; apply list_elem_of_here. Qed.

(** A tree does not see changes elsewhere, nor a change of its root's parent. *)
Lemma rep_frame h h' t :
  (forall x, x ∈ addrs t -> shape h' x = shape h x) ->
  (forall x, x ∈ addrs t -> x <> addr t -> up h' x = up h x) ->
  NoDup (addrs t) -> rep h t -> rep h' t.
Proof.
  induction t as [a rs|a cs IH] using tree_rect_nested; intros Hs Hu Hn H.
  - apply rep_leaf in H as [H H2]. apply rep_leaf. split; [|done].
    eapply page_at_shape; [|exact H]. apply Hs, list_elem_of_here.
  - apply rep_node in H as (H1 & H0 & H2 & H3). rewrite addrs_node in *.
    apply NoDup_cons in Hn as [Ha Hn].
    assert (Hin : forall c x, c ∈ cs -> x ∈ addrs c.2 -> x ∈ kids_addrs cs).
    { intros c x Hc Hx. apply list_elem_of_In, in_concat. exists (addrs c.2).
      split; [|by apply list_elem_of_In]. apply in_map_iff. exists c. split; [done|].
      by apply list_elem_of_In. }
    apply rep_node. split_and!.
    + eapply page_at_shape; [|exact H1]. apply Hs, list_elem_of_here.
    + done.
    + apply Forall_forall. intros c Hc. rewrite Hu.
      * by apply (proj1 (Forall_forall _ _) H2).
      * apply list_elem_of_further, (Hin c); [done|]. apply addrs_addr.
      * intros E. cbn in E. apply Ha. rewrite <- E. apply (Hin c); [done|]. apply addrs_addr.
    + apply Forall_forall. intros c Hc.
      apply (proj1 (Forall_forall _ _) IH c Hc).
      * intros x Hx. apply Hs, list_elem_of_further, (Hin c); done.
      * intros x Hx Hne. apply Hu; [apply list_elem_of_further, (Hin c); done|].
        intros ->. apply Ha, (Hin c); done.
      * clear -Hn Hc. unfold kids_addrs in Hn. apply list_elem_of_split in Hc as (l1 & l2 & ->).
        rewrite map_app, concat_app in Hn. cbn in Hn.
        apply NoDup_app in Hn as (_ & _ & Hn). by apply NoDup_app in Hn as (Hn & _).
      * by apply (proj1 (Forall_forall _ _) H3).
Qed.

(** ** Search *)

Lemma find_at l (x : Record_) r : (l ++ x :: r) !! length l = Some x.
Proof. by rewrite lookup_app_r, Nat.sub_diag by lia. Qed.

(** [inner_lookup] picks the child that [routes] describes. *)
Lemma inner_lookup_route p cs q :
  page_ok p -> active p = map rec_of cs -> cs <> [] -> is_key q = true ->
  Forall (fun c => is_key c.1 = true) (drop 1 cs) ->
  exists l k c r, cs = l ++ (k, c) :: r /\ routes q (l ++ [(k, c)]) r /\
    inner_lookup p q = Ok (addr c).
Proof.
  intros Hok Ha Hne Hq Hk. unfold inner_lookup, upper_bound.
  rewrite count_ok, Z.eqb_refl by done. mstep.
  replace (drop 1 (active p)) with (map rec_of (drop 1 cs)) by (rewrite Ha; by destruct cs).
  set (n := prefix_len (fun r => negb (dlt q (key r))) (map rec_of (drop 1 cs))).
  assert (Hn : (n < length cs)%nat).
  { pose proof (prefix_len_le (fun r => negb (dlt q (key r))) (map rec_of (drop 1 cs))) as Hle.
    fold n in Hle. rewrite length_map, length_drop in Hle. destruct cs; [done|]. cbn in *. lia. }
  replace (1 + Z.of_nat n - 1) with (Z.of_nat n) by lia.
  destruct (lookup_lt_is_Some_2 cs n Hn) as [[k c] Hc].
  exists (take n cs), k, c, (drop (S n) cs). split; [by apply list_split_at|]. split; [split|].
  - rewrite <- (take_S_r _ _ _ Hc). apply Forall_lookup. intros i x Hx.
    rewrite lookup_drop in Hx. apply lookup_take_Some in Hx as [Hx Hi].
    pose proof (prefix_len_before (fun r => negb (dlt q (key r))) (map rec_of (drop 1 cs)) i (rec_of x)) as H.
    rewrite list_lookup_fmap, lookup_drop, Hx in H. specialize (H ltac:(subst n; lia) eq_refl).
    cbn in H. rewrite dlt_rank in H; [zb; lia|done|].
    apply (proj1 (Forall_lookup _ _) Hk i x). by rewrite lookup_drop.
  - destruct (drop (S n) cs) as [|[k' c'] r] eqn:Ed; [done|].
    assert (Hx : cs !! S n = Some (k', c')).
    { rewrite <- (Nat.add_0_r (S n)), <- lookup_drop, Ed. done. }
    pose proof (prefix_len_at (fun r => negb (dlt q (key r))) (map rec_of (drop 1 cs)) (rec_of (k', c'))) as H.
    fold n in H. rewrite list_lookup_fmap, lookup_drop in H. cbn [Nat.add] in H.
    rewrite Hx in H. specialize (H eq_refl). cbn in H. rewrite dlt_rank in H; [zb; cbn; lia|done|].
    apply (proj1 (Forall_lookup _ _) Hk n (k', c')). by rewrite lookup_drop.
  - pose proof (active_length p Hok) as Hl. rewrite Ha, length_map in Hl.
    assert (Hr : records p !! n = Some (rec_of (k, c))).
    { rewrite <- active_lookup by lia. by rewrite Ha, list_lookup_fmap, Hc. }
    rewrite (zload_nat _ _ _ Hr). done.
Qed.

Lemma depth_kid a cs c : c ∈ cs -> (depth c.2 < depth (Node a cs))%nat.
Proof.
  cbn [depth]. induction 1 as [|c c' cs Hc IH]; cbn; lia.
Qed.

(** [descend] ends at the leaf that a path leads to. *)
Lemma descend_spec q t : forall st lo hi fuel,
  rep (pages st) t -> ordered lo hi t -> is_key q = true -> lo <= rank q < hi ->
  (depth t < fuel)%nat ->
  exists ctx a rs lo' hi', t = plug ctx (Leaf a rs) /\ descend fuel (addr t) q st = Ok (a, st) /\
    ctx_ok lo hi ctx lo' hi' /\ lo' <= rank q < hi' /\ ordered lo' hi' (Leaf a rs) /\
    (length ctx <= depth t)%nat.
Proof.
  induction t as [a rs|a cs IH] using tree_rect_nested;
    intros st lo hi fuel Hr Ho Hq Hb Hf; (destruct fuel as [|fuel]; [lia|]).
  - apply rep_leaf in Hr as ((p & Hp & _ & Hl & _) & _).
    exists [], a, rs, lo, hi. split_and!; try done; try apply Ho; try lia.
    cbn [descend addr]. unfold ld, mbind, T_bind. rewrite Hp. cbn. by rewrite Hl.
  - apply rep_node in Hr as ((p & Hp & Hok & Hl & Ha) & _ & _ & Hk).
    cbn [ordered] in Ho. pose proof (kids_keys _ _ _ Ho) as Hks.
    destruct (inner_lookup_route p cs q) as (l & k & c & r & -> & Hrt & El); try done.
    { by intros ->. }
    destruct (kids_route lo hi a l k c r q) as (lo' & hi' & Hfr & Hb' & Hc); try done.
    assert (Hin : (k, c) ∈ l ++ (k, c) :: r) by (apply elem_of_app; right; apply list_elem_of_here).
    pose proof (depth_kid a _ _ Hin) as Hd. cbn [snd] in Hd.
    pose proof (proj1 (Forall_forall _ _) IH _ Hin st lo' hi' fuel) as IHc.
    pose proof (proj1 (Forall_forall _ _) Hk _ Hin) as Hkc. cbn [snd] in IHc, Hkc.
    destruct IHc as (ctx & b & rs & lo2 & hi2 & E & Ed & Hctx & Hb2 & Ho2 & Hlen); try done; [lia|].
    exists (ctx ++ [mkFrame a l k r]), b, rs, lo2, hi2. split_and!; try done; try lia.
    + rewrite plug_app. cbn. rewrite <- E. done.
    + cbn [descend addr]. unfold ld at 1, mbind at 1, T_bind. rewrite Hp. cbn. rewrite Hl.
      unfold lift. rewrite El. cbn. exact Ed.
    + by eapply ctx_ok_snoc.
    + rewrite length_app. cbn [length]. lia.
Qed.

(** ** Trees cut at a hole *)

(** What the children of the frames hold to the left and to the right of the hole. *)
Section Around.
Context {A : Type} (g : tree -> list A).

Definition over (cs : list (double * tree)) : list A := concat (map (fun c => g c.2) cs).

Fixpoint before (ctx : list frame) : list A :=
  match ctx with [] => [] | f :: ctx' => before ctx' ++ over (f_left f) end.
Fixpoint after (ctx : list frame) : list A :=
  match ctx with [] => [] | f :: ctx' => over (f_right f) ++ after ctx' end.

Lemma over_app c1 c2 : over (c1 ++ c2) = over c1 ++ over c2.
Proof. unfold over. by rewrite map_app, concat_app. Qed.
Lemma over_cons k c cs : over ((k, c) :: cs) = g c ++ over cs.
Proof. done. Qed.

Lemma plug_around (Hg : forall a cs, g (Node a cs) = over cs) ctx t :
  g (plug ctx t) = before ctx ++ g t ++ after ctx.
Proof.
  revert t; induction ctx as [|f ctx IH]; intros t; cbn; [by rewrite app_nil_r|].
  rewrite IH. unfold fill. rewrite Hg, over_app, over_cons. by rewrite <- !app_assoc.
Qed.
End Around.

Lemma flatten_plug ctx t : flatten (plug ctx t) = before flatten ctx ++ flatten t ++ after flatten ctx.
Proof. by apply plug_around. Qed.
Lemma leaves_plug ctx t : leaves (plug ctx t) = before leaves ctx ++ leaves t ++ after leaves ctx.
Proof. by apply plug_around. Qed.

Fixpoint ctx_addrs (ctx : list frame) : list Z :=
  match ctx with
  | [] => []
  | f :: ctx' => f_addr f :: kids_addrs (f_left f) ++ kids_addrs (f_right f) ++ ctx_addrs ctx'
  end.

Lemma kids_addrs_app c1 c2 : kids_addrs (c1 ++ c2) = kids_addrs c1 ++ kids_addrs c2.
Proof. apply over_app. Qed.
Lemma kids_addrs_cons k c cs : kids_addrs ((k, c) :: cs) = addrs c ++ kids_addrs cs.
Proof. done. Qed.

Lemma addrs_plug ctx t : addrs (plug ctx t) ≡ₚ addrs t ++ ctx_addrs ctx.
Proof.
  revert t; induction ctx as [|f ctx IH]; intros t; cbn [plug ctx_addrs]; [by rewrite app_nil_r|].
  rewrite IH. unfold fill. rewrite addrs_node, kids_addrs_app, kids_addrs_cons. solve_Permutation.
Qed.

(** The pages of the frames, around a child at [x]. *)
Definition frame_rep (h : heap) (f : frame) (x : Z) : Prop :=
  page_at h (f_addr f) false
    (map rec_of (f_left f) ++ mkRec (f_key f) x :: map rec_of (f_right f)) /\
  room (f_left f ++ (f_key f, Leaf x []) :: f_right f) /\ up h x = Some (f_addr f) /\
  Forall (fun c => up h (addr c.2) = Some (f_addr f)) (f_left f ++ f_right f) /\
  kids_rep h (f_left f ++ f_right f).

Fixpoint ctx_rep (h : heap) (ctx : list frame) (x : Z) : Prop :=
  match ctx with
  | [] => True
  | f :: ctx' => frame_rep h f x /\ ctx_rep h ctx' (f_addr f)
  end.

Lemma rep_fill h f t : rep h (fill f t) <-> rep h t /\ frame_rep h f (addr t).
Proof.
  unfold fill, frame_rep, kids_rep, room. rewrite rep_node. unfold kids_rep, room.
  rewrite map_app, !Forall_app, !Forall_cons, !length_app. cbn. tauto.
Qed.

Lemma rep_plug h ctx t : rep h (plug ctx t) <-> rep h t /\ ctx_rep h ctx (addr t).
Proof.
  revert t; induction ctx as [|f ctx IH]; intros t; cbn [plug ctx_rep]; [tauto|].
  rewrite IH, rep_fill. cbn. tauto.
Qed.

Lemma ctx_ok_plug lo hi ctx t lo' hi' :
  ctx_ok lo hi ctx lo' hi' -> ordered lo' hi' t -> ordered lo hi (plug ctx t).
Proof.
  revert t lo' hi'; induction ctx as [|f ctx IH]; intros t lo' hi' Hc Ho.
  - by destruct Hc as [-> ->].
  - destruct Hc as (l & h & Hc & _ & _ & Hf). apply (IH (fill f t) l h Hc).
    cbn [fill ordered]. by apply (Hf t []).
Qed.

(** The order says where a key of the hole stands in the whole tree. *)
Lemma around_hole lo hi ctx lo' hi' k :
  ctx_ok lo hi ctx lo' hi' -> is_key k = true -> lo' <= rank k < hi' ->
  Forall (fun r => rank (key r) < rank k) (before flatten ctx) /\
  Forall (fun r => rank k < rank (key r)) (after flatten ctx).
Proof.
  intros Hc Hk Hb.
  assert (Ho : ordered lo hi (plug ctx (Leaf 0 [mkRec k 1]))).
  { eapply ctx_ok_plug; [exact Hc|]. cbn. split_and!; repeat constructor; cbn; done || lia. }
  apply flatten_ordered in Ho as (Hs & _ & _). rewrite flatten_plug in Hs. cbn in Hs.
  apply sorted_app_inv in Hs as (_ & Hs & H). split.
  - apply Forall_forall. intros r Hr. apply (H r (mkRec k 1) Hr), list_elem_of_here.
  - by inversion Hs.
Qed.

(** An upsert in the right leaf is an upsert in the whole list. *)
Lemma rank_below_app k l1 l2 :
  is_key k = true -> keys_ok l1 -> Forall (fun r => rank (key r) < rank k) l1 ->
  rank_below k (l1 ++ l2) = (length l1 + rank_below k l2)%nat.
Proof.
  intros Hk K F. induction F as [|r l1 Hr F IH]; [done|]. apply keys_ok_cons in K as [Kr K].
  unfold rank_below in *. cbn. rewrite dle_rank by done.
  destruct (Z.leb_spec (rank k) (rank (key r))); [lia|]. cbn. by rewrite IH.
Qed.

Lemma rank_below_before k l1 l2 :
  is_key k = true -> keys_ok l2 -> Forall (fun r => rank k < rank (key r)) l2 ->
  rank_below k (l1 ++ l2) = rank_below k l1.
Proof.
  intros Hk K F. unfold rank_below. induction l1 as [|r l1 IH]; cbn.
  - destruct F as [|r l2 Hr F]; [done|]. apply keys_ok_cons in K as [Kr K]. cbn.
    rewrite dle_rank by done. destruct (Z.leb_spec (rank k) (rank (key r))); [done|lia].
  - by rewrite IH.
Qed.

Lemma recs_upsert_around k v l1 l l2 :
  is_key k = true -> keys_ok l1 -> keys_ok l2 ->
  Forall (fun r => rank (key r) < rank k) l1 -> Forall (fun r => rank k < rank (key r)) l2 ->
  recs_upsert k v (l1 ++ l ++ l2) = l1 ++ recs_upsert k v l ++ l2.
Proof.
  intros Hk K1 K2 F1 F2. unfold recs_upsert.
  rewrite rank_below_app, rank_below_before by done.
  pose proof (rank_below_le k l) as Hle. set (n := rank_below k l) in *.
  rewrite lookup_app_r by lia. replace (length l1 + n - length l1)%nat with n by lia.
  rewrite take_app_add, drop_app_add.
  destruct (decide (n < length l)%nat) as [Hn|Hn].
  - rewrite lookup_app_l by done. destruct (lookup_lt_is_Some_2 l n Hn) as [r Hr]. rewrite Hr.
    rewrite take_app_le, drop_app_le by lia.
    destruct (deq (key r) k).
    + rewrite insert_app_r, insert_app_l by done. done.
    + by rewrite <- !app_assoc.
  - assert (n = length l) as -> by lia. rewrite lookup_app_r, Nat.sub_diag by lia.
    rewrite take_app_length, drop_app_length. rewrite (lookup_ge_None_2 l) by lia.
    destruct F2 as [|r l2 Hr F2].
    + cbn. by rewrite !app_nil_r, <- app_assoc.
    + apply keys_ok_cons in K2 as [Kr _]. cbn [lookup list_lookup]. rewrite deq_rank by done.
      destruct (Z.eqb_spec (rank (key r)) (rank k)); [lia|]. by rewrite <- !app_assoc.
Qed.
