(* ===== verification/BPlusInsert.v ===== *)
(** * Splits and insertion into the parent (core/index/b_plus.h: page::split,
    btree_plus::insert_into_parent)

    The effect of the heap updates on the ghost tree of BPlusTree.v: [split] moves
    the upper half of a page to a new one, and [insert_into_parent] takes a pending
    right neighbour up the path to the first page with room, or to a new root. *)

From S2P Require Import Prelude Doubles BPage BPlus BPlusTree.

(** ** Steps on the heap *)

Lemma bind_step {A B} (m : T A) (f : A -> T B) st x st' :
  m st = Ok (x, st') -> (m ≫= f) st = f x st'.
Proof. intros E. unfold mbind, T_bind. by rewrite E. Qed.

Lemma ld_step {B} a (f : page -> T B) st p :
  pages st !! a = Some p -> (ld a ≫= f) st = f p st.
Proof. intros E. apply bind_step. unfold ld. by rewrite E. Qed.

Lemma lift_step {A B} (m : res A) (f : A -> T B) st x :
  m = Ok x -> (lift m ≫= f) st = f x st.
Proof. intros ->. done. Qed.

Definition with_page (st : btree_plus) (a : Z) (p : page) : btree_plus :=
  mkTree (root st) (<[a := p]> (pages st)) (fresh st).

Lemma sd_step {B} a p (f : unit -> T B) st : (sd a p ≫= f) st = f tt (with_page st a p).
Proof. done. Qed.

Lemma modify_ok a g st p :
  pages st !! a = Some p -> modify a g st = Ok (tt, with_page st a (g p)).
Proof. intros E. unfold modify. by rewrite (ld_step _ _ _ p). Qed.

Lemma modify_step {B} a g (f : unit -> T B) st p :
  pages st !! a = Some p -> (modify a g ≫= f) st = f tt (with_page st a (g p)).
Proof. intros E. apply bind_step. by apply modify_ok. Qed.

(** The views of an updated heap. *)
Lemma shape_insert h a p x :
  shape (<[a := p]> h) x =
  if decide (x = a) then Some (is_leaf (hdr p), rec_num p, records p) else shape h x.
Proof.
  unfold shape. destruct (decide (x = a)) as [->|]; [by rewrite lookup_insert_eq|].
  by rewrite lookup_insert_ne by done.
Qed.
Lemma up_insert h a p x :
  up (<[a := p]> h) x = if decide (x = a) then Some (parent (hdr p)) else up h x.
Proof.
  unfold up. destruct (decide (x = a)) as [->|]; [by rewrite lookup_insert_eq|].
  by rewrite lookup_insert_ne by done.
Qed.
Lemma link_insert h a p x :
  link (<[a := p]> h) x =
  if decide (x = a) then Some (prev_leaf (hdr p), next_leaf (hdr p)) else link h x.
Proof.
  unfold link. destruct (decide (x = a)) as [->|]; [by rewrite lookup_insert_eq|].
  by rewrite lookup_insert_ne by done.
Qed.

Lemma page_at_intro h a p :
  h !! a = Some p -> page_ok p -> page_at h a (is_leaf (hdr p)) (active p).
Proof. intros. by exists p. Qed.

Lemma page_at_same h h' a leaf rs :
  h' !! a = h !! a -> page_at h a leaf rs -> page_at h' a leaf rs.
Proof. intros E. apply page_at_shape. unfold shape. by rewrite E. Qed.

(** ** Splitting a page *)

(** [move_records] moves a run of records, one at a time. *)
Lemma move_records_lookup m k left n s :
  (k + m <= length (records s))%nat -> (left + k + m <= length (records n))%nat ->
  exists nrs srs,
    move_records m (Z.of_nat k) (Z.of_nat left) n s =
      Ok (set_record_num (set_records n nrs) (rec_num n - Z.of_nat m),
          set_record_num (set_records s srs) (rec_num s + Z.of_nat m)) /\
    length nrs = length (records n) /\ length srs = length (records s) /\
    (forall i, nrs !! i = if decide (left + k <= i < left + k + m)%nat
       then (fun r => mkRec (key r) nullptr) <$> records n !! i else records n !! i) /\
    (forall i, srs !! i = if decide (k <= i < k + m)%nat
       then records n !! (left + i)%nat else records s !! i).
Proof.
  revert k n s. induction m as [|m IH]; intros k n s Hs Hn; cbn [move_records].
  - exists (records n), (records s). split; [|split_and!; try done].
    + rewrite Z.sub_0_r, Z.add_0_r. by destruct n as [[] ?], s as [[] ?].
    + intros i. by rewrite decide_False by lia.
    + intros i. by rewrite decide_False by lia.
  - replace (Z.of_nat k + Z.of_nat left) with (Z.of_nat (left + k)) by lia.
    destruct (lookup_lt_is_Some_2 (records n) (left + k)) as [r Hr]; [lia|].
    rewrite (zload_nat _ _ _ Hr). mstep. rewrite !zstore_nat by lia. mstep.
    replace (Z.of_nat k + 1) with (Z.of_nat (S k)) by lia.
    set (n1 := set_record_num _ (rec_num n - 1)). set (s1 := set_record_num _ (rec_num s + 1)).
    destruct (IH (S k) n1 s1) as (nrs & srs & E & L1 & L2 & E1 & E2);
      [cbn; rewrite length_insert; lia..|].
    exists nrs, srs. cbn in L1, L2. rewrite length_insert in L1, L2. split_and!; try done.
    + rewrite E. unfold n1, s1. rewrite !rec_num_set.
      replace (rec_num n - 1 - Z.of_nat m) with (rec_num n - Z.of_nat (S m)) by lia.
      replace (rec_num s + 1 + Z.of_nat m) with (rec_num s + Z.of_nat (S m)) by lia. done.
    + intros i. rewrite E1. cbn. destruct (decide (i = left + k)%nat) as [->|Hne].
      * rewrite decide_False, decide_True by lia. rewrite list_lookup_insert_eq by lia.
        by rewrite Hr.
      * rewrite list_lookup_insert_ne by done.
        destruct (decide (left + S k <= i < left + S k + m)%nat),
          (decide (left + k <= i < left + k + S m)%nat); try lia; done.
    + intros i. rewrite E2. cbn. destruct (decide (i = k)) as [->|Hne].
      * rewrite decide_False, decide_True by lia. by rewrite list_lookup_insert_eq by lia.
      * rewrite (list_lookup_insert_ne _ k i) by lia.
        repeat destruct (decide _); try lia; [|done].
        by rewrite list_lookup_insert_ne by lia.
Qed.

(** A full move: the upper [m] records of a page go to an empty one. *)
Lemma move_records_spec left m n s :
  page_ok n -> page_ok s -> rec_num s = 0 -> rec_num n = Z.of_nat (left + m) ->
  exists n' s', move_records m 0 (Z.of_nat left) n s = Ok (n', s') /\
    page_ok n' /\ active n' = take left (active n) /\ hdr n' = hdr (set_record_num n (Z.of_nat left)) /\
    page_ok s' /\ active s' = drop left (active n) /\ hdr s' = hdr (set_record_num s (Z.of_nat m)).
Proof.
  intros Hn Hs H0 Hm. pose proof (active_length n Hn) as Hl.
  pose proof Hn as [N1 N2 N3 N4]. pose proof Hs as [S1 S2 S3 S4].
  destruct (move_records_lookup m 0 left n s) as (nrs & srs & E & L1 & L2 & E1 & E2); [lia..|].
  change (Z.of_nat 0) with 0 in E.
  eexists _, _; split; [exact E|]. rewrite H0, Hm.
  replace (Z.of_nat (left + m) - Z.of_nat m) with (Z.of_nat left) by lia. rewrite Z.add_0_l.
  assert (EN : take left nrs = take left (active n)).
  { apply list_eq. intros i. rewrite !lookup_take. destruct (decide (i < left)%nat); [|done].
    rewrite E1, decide_False by lia. by rewrite active_lookup by lia. }
  assert (ES : take m srs = drop left (active n)).
  { apply list_eq. intros i. rewrite lookup_take, lookup_drop.
    destruct (decide (i < m)%nat).
    - rewrite E2, decide_True by lia. by rewrite active_lookup by lia.
    - symmetry. apply lookup_ge_None. lia. }
  split_and!; try done.
  - split; unfold active; rewrite ?rec_num_set, ?Nat2Z.id; cbn [records set_record_num set_records set_hdr].
    + lia.
    + lia.
    + rewrite EN. by apply Forall_take.
    + apply Forall_lookup. intros i x Hx. rewrite lookup_drop, E1 in Hx.
      destruct (decide _) as [Hd|Hd].
      * apply fmap_Some in Hx as (r & _ & ->). done.
      * apply (proj1 (Forall_lookup _ _) N4 (i - m)%nat). rewrite lookup_drop, <- Hx. f_equal. lia.
  - unfold active at 1. by rewrite rec_num_set, Nat2Z.id.
  - split; unfold active; rewrite ?rec_num_set, ?Nat2Z.id; cbn [records set_record_num set_records set_hdr].
    + lia.
    + lia.
    + rewrite ES. by apply Forall_drop.
    + apply Forall_lookup. intros i x Hx. rewrite lookup_drop, E2, decide_False in Hx by lia.
      rewrite H0 in S4. apply (proj1 (Forall_lookup _ _) S4 (m + i)%nat). by rewrite lookup_drop.
  - unfold active at 1. by rewrite rec_num_set, Nat2Z.id.
Qed.

Lemma new_page_ok l b : page_ok (set_is_leaf (new_page l) b) /\ active (set_is_leaf (new_page l) b) = [].
Proof.
  split; [split|done]; try done; cbn; repeat constructor.
Qed.

Definition half : nat := 7.

Definition allocated (f : Z) (st : btree_plus) (p : page) : btree_plus :=
  mkTree (root st) (<[f := p]> (pages st)) (f + 1).

Lemma alloc_step {B} p (g : Z -> T B) st f :
  fresh st = f -> (alloc p ≫= g) st = g f (allocated f st p).
Proof. by intros <-. Qed.

(** The common end of [split]: the records move. *)
Lemma split_move n s :
  page_ok n -> rec_num n = cardinality -> page_ok s -> rec_num s = 0 ->
  exists n' s',
    move_records (Z.to_nat (cdiv (rec_num n) 2)) 0 (rec_num n - cdiv (rec_num n) 2) n s = Ok (n', s') /\
    page_ok n' /\ active n' = take half (active n) /\ hdr n' = hdr (set_record_num n 7) /\
    page_ok s' /\ active s' = drop half (active n) /\ hdr s' = hdr (set_record_num s 6).
Proof.
  intros Hn Hc Hs H0. rewrite Hc. change (Z.to_nat (cdiv cardinality 2)) with 6%nat.
  change (cardinality - cdiv cardinality 2) with (Z.of_nat half).
  by apply (move_records_spec half 6 n s).
Qed.

(** Lookups in a heap that is a sequence of updates. *)
Ltac heap_get :=
  cbn [with_page allocated pages]; repeat first [rewrite lookup_insert_eq | rewrite lookup_insert_ne by congruence];
  first [reflexivity | eassumption].
Ltac heap_steps :=
  repeat first
    [ erewrite ld_step by heap_get
    | erewrite modify_step by heap_get
    | erewrite modify_ok by heap_get
    | rewrite sd_step ].

Lemma page_ok_hdr p h : record_num h = rec_num p -> page_ok p -> page_ok (set_hdr p h).
Proof. intros E Hok. by apply (page_ok_records p (set_hdr p h)). Qed.

(** The views of a page after a sequence of updates. *)
Ltac heap_views :=
  intros; rewrite ?shape_insert, ?up_insert, ?link_insert; repeat case_decide; try congruence; try done.

Lemma link_same h x : (fun l => (l.1, l.2)) <$> link h x = link h x.
Proof. by destruct (link h x) as [[]|]. Qed.

Lemma split_leaf st a p :
  pages st !! a = Some p -> page_ok p -> is_leaf (hdr p) = true -> rec_num p = cardinality ->
  let f := fresh st in let next := next_leaf (hdr p) in
  f <> a -> f <> 0 -> next = nullptr \/ (next <> nullptr /\ next <> a /\ next <> f /\ is_Some (pages st !! next)) ->
  exists st', split a st = Ok (f, st') /\ root st' = root st /\ fresh st' = f + 1 /\
    page_at (pages st') a true (take half (active p)) /\
    page_at (pages st') f true (drop half (active p)) /\
    (forall x, x <> a -> x <> f -> shape (pages st') x = shape (pages st) x) /\
    (forall x, x <> f -> up (pages st') x = up (pages st) x) /\
    link (pages st') a = Some (prev_leaf (hdr p), f) /\ link (pages st') f = Some (a, next) /\
    (forall x, x <> a -> x <> f -> x <> nullptr -> link (pages st') x =
       (fun l => (if decide (x = next) then f else l.1, l.2)) <$> link (pages st) x).
Proof.
  intros Hp Hok Hl Hn f next Hfa Hf0 Hnext. unfold split. rewrite (ld_step _ _ _ p) by done.
  set (s0 := set_is_leaf (new_page (level (hdr p))) (is_leaf (hdr p))).
  rewrite (alloc_step _ _ _ f) by done. rewrite Hl. fold next. clearbody f next.
  destruct (new_page_ok (level (hdr p)) (is_leaf (hdr p))) as [K0 _]. fold s0 in K0.
  destruct Hnext as [->|(N0 & N1 & N2 & q & Hq)].
  - cbn [Z.eqb nullptr]. erewrite bind_step; [|heap_steps; reflexivity]. heap_steps.
    destruct (split_move (set_next_leaf p f) (set_next_leaf (set_prev_leaf s0 a) nullptr))
      as (n' & s' & E & Hn1 & Ha1 & Hh1 & Hs1 & Ha2 & Hh2); [by apply page_ok_hdr|done|by apply (page_ok_hdr (set_prev_leaf s0 a)), (page_ok_hdr s0)|done|].
    rewrite (lift_step _ _ _ _ E). heap_steps. rewrite Hh1. cbn [is_leaf hdr set_record_num set_next_leaf set_hdr].
    rewrite Hl. eexists. split; [reflexivity|]. cbn [root fresh pages with_page allocated].
    split_and!; try done.
    + exists n'. rewrite lookup_insert_ne, lookup_insert_eq by done. split_and!; try done. by rewrite Hh1.
    + exists s'. rewrite lookup_insert_eq. split_and!; try done. by rewrite Hh2.
    + heap_views.
    + heap_views. subst x. unfold up. by rewrite Hp, Hh1.
    + heap_views. by rewrite Hh1.
    + heap_views. by rewrite Hh2.
    + heap_views. symmetry. apply link_same.
  - rewrite (proj2 (Z.eqb_neq _ _) N0).
    erewrite bind_step; [|heap_steps; reflexivity]. heap_steps.
    destruct (split_move (set_next_leaf p f) (set_next_leaf (set_prev_leaf s0 a) next))
      as (n' & s' & E & Hn1 & Ha1 & Hh1 & Hs1 & Ha2 & Hh2);
      [by apply page_ok_hdr|done|by apply (page_ok_hdr (set_prev_leaf s0 a)), (page_ok_hdr s0)|done|].
    rewrite (lift_step _ _ _ _ E). heap_steps. rewrite Hh1. cbn [is_leaf hdr set_record_num set_next_leaf set_hdr].
    rewrite Hl. eexists. split; [reflexivity|]. cbn [root fresh pages with_page allocated].
    split_and!; try done.
    + exists n'. rewrite lookup_insert_ne, lookup_insert_eq by done. split_and!; try done. by rewrite Hh1.
    + exists s'. rewrite lookup_insert_eq. split_and!; try done. by rewrite Hh2.
    + heap_views. subst x. unfold shape. by rewrite Hq.
    + heap_views; subst x; unfold up; [by rewrite Hp, Hh1|by rewrite Hq].
    + heap_views. by rewrite Hh1.
    + heap_views. by rewrite Hh2.
    + heap_views; [subst x; unfold link; by rewrite Hq|]. symmetry. apply link_same.
Qed.

(** The parents of a run of children. *)
Lemma maintain_child_ok st a p i r q :
  pages st !! a = Some p -> is_leaf (hdr p) = false -> records p !! i = Some r ->
  pages st !! val r = Some q ->
  maintain_child a (Z.of_nat i) st = Ok (tt, with_page st (val r) (set_parent q a)).
Proof.
  intros Hp Hl Hr Hq. unfold maintain_child. rewrite (ld_step _ _ _ p) by done. rewrite Hl.
  rewrite (lift_step _ _ _ r) by (by apply zload_nat). by rewrite (modify_ok _ _ _ q).
Qed.

Lemma maintain_children_ok n : forall i st a p,
  pages st !! a = Some p -> is_leaf (hdr p) = false -> (i + n <= length (records p))%nat ->
  Forall (fun r => val r <> a /\ is_Some (pages st !! val r)) (take n (drop i (records p))) ->
  exists st', maintain_children n a (Z.of_nat i) st = Ok (tt, st') /\
    root st' = root st /\ fresh st' = fresh st /\ pages st' !! a = pages st !! a /\
    (forall x, shape (pages st') x = shape (pages st) x) /\
    (forall x, link (pages st') x = link (pages st) x) /\
    (forall x, up (pages st') x =
       if decide (x ∈ map val (take n (drop i (records p)))) then Some a else up (pages st) x).
Proof.
  induction n as [|n IH]; intros i st a p Hp Hl Hi HF; cbn [maintain_children].
  - by exists st.
  - destruct (lookup_lt_is_Some_2 (records p) i) as [r Hr]; [lia|].
    rewrite (drop_S _ _ _ Hr) in HF |- *. cbn [take map] in HF |- *.
    apply Forall_cons in HF as [[Hv [q Hq]] HF].
    rewrite (bind_step _ _ _ _ _ (maintain_child_ok st a p i r q Hp Hl Hr Hq)).
    set (st1 := with_page st (val r) (set_parent q a)).
    replace (Z.of_nat i + 1) with (Z.of_nat (S i)) by lia.
    assert (Hp1 : pages st1 !! a = Some p) by (cbn; by rewrite lookup_insert_ne).
    destruct (IH (S i) st1 a p) as (st' & E & R1 & R2 & R3 & R4 & R5 & R6); try done; [lia| |].
    { eapply Forall_impl; [exact HF|]. intros x [X1 X2]. split; [done|]. cbn.
      destruct (decide (val x = val r)) as [->|]; [rewrite lookup_insert_eq; by eexists|].
      by rewrite lookup_insert_ne. }
    exists st'. split; [exact E|]. split_and!; try done.
    + by rewrite R3, Hp1.
    + intros x. rewrite R4. cbn. heap_views. subst x. unfold shape. by rewrite Hq.
    + intros x. rewrite R5. cbn. heap_views. subst x. unfold link. by rewrite Hq.
    + intros x. rewrite R6. cbn. rewrite up_insert. cbn [parent hdr set_parent set_hdr].
      repeat case_decide; try done.
      * exfalso. match goal with H : ~ _ |- _ => apply H end. by apply list_elem_of_further.
      * exfalso. match goal with H : ~ _ |- _ => apply H end. subst. apply list_elem_of_here.
      * exfalso. match goal with H : _ ∈ _ :: _ |- _ => apply elem_of_cons in H as [|] end; done.
Qed.

Lemma split_inner st a p :
  pages st !! a = Some p -> page_ok p -> is_leaf (hdr p) = false -> rec_num p = cardinality ->
  let f := fresh st in f <> a ->
  Forall (fun r => val r <> f /\ val r <> a /\ is_Some (pages st !! val r)) (drop half (active p)) ->
  exists st', split a st = Ok (f, st') /\ root st' = root st /\ fresh st' = f + 1 /\
    page_at (pages st') a false (take half (active p)) /\
    page_at (pages st') f false (drop half (active p)) /\
    (forall x, x <> a -> x <> f -> shape (pages st') x = shape (pages st) x) /\
    (forall x, x <> f -> up (pages st') x =
       if decide (x ∈ map val (drop half (active p))) then Some f else up (pages st) x) /\
    (forall x, x <> f -> link (pages st') x = link (pages st) x).
Proof.
  intros Hp Hok Hl Hn f Hfa HF. unfold split. rewrite (ld_step _ _ _ p) by done.
  set (s0 := set_is_leaf (new_page (level (hdr p))) (is_leaf (hdr p))).
  rewrite (alloc_step _ _ _ f) by done. rewrite Hl. clearbody f.
  destruct (new_page_ok (level (hdr p)) (is_leaf (hdr p))) as [K0 _]. fold s0 in K0.
  erewrite bind_step; [|reflexivity]. heap_steps.
  destruct (split_move p s0) as (n' & s' & E & Hn1 & Ha1 & Hh1 & Hs1 & Ha2 & Hh2); try done.
  rewrite (lift_step _ _ _ _ E). heap_steps. rewrite Hh1. cbn [is_leaf hdr set_record_num set_hdr].
  rewrite Hl.
  assert (En : rec_num s' = 6) by (unfold rec_num; by rewrite Hh2). rewrite En.
  set (st1 := with_page _ f s').
  pose proof (active_length p Hok) as Hlen. rewrite Hn in Hlen.
  assert (Es : take 6 (drop 0 (records s')) = drop half (active p)).
  { rewrite drop_0. rewrite <- Ha2. unfold active. by rewrite En. }
  change (Z.to_nat 6) with 6%nat.
  destruct (maintain_children_ok 6 0 st1 f s') as (st' & E' & R1 & R2 & R3 & R4 & R5 & R6).
  { cbn. by rewrite lookup_insert_eq. }
  { by rewrite Hh2. }
  { rewrite (ok_size _ Hs1), cardinality_13. lia. }
  { rewrite Es. eapply Forall_impl; [exact HF|]. intros r (X1 & X2 & X3). split; [done|]. cbn.
    by rewrite !lookup_insert_ne by done. }
  erewrite bind_step; [|exact E']. exists st'. split; [reflexivity|]. rewrite Es in R6. split_and!.
  - by rewrite R1.
  - by rewrite R2.
  - rewrite <- Ha1. eapply page_at_shape; [apply R4|].
    exists n'. cbn. rewrite lookup_insert_ne, lookup_insert_eq by done. split_and!; try done. by rewrite Hh1.
  - rewrite <- Ha2. eapply page_at_shape; [apply R4|].
    exists s'. cbn. rewrite lookup_insert_eq. split_and!; try done. by rewrite Hh2.
  - intros x X1 X2. rewrite R4. cbn. heap_views.
  - intros x X1. rewrite R6. destruct (decide (x ∈ _)); [done|]. cbn. heap_views. subst x.
    unfold up. by rewrite Hp, Hh1.
  - intros x X1. rewrite R5. cbn. heap_views. subst x. unfold link. by rewrite Hp, Hh1.
Qed.

(** ** Inserting into the parent *)

Lemma kid_addrs cs c x : c ∈ cs -> x ∈ addrs c.2 -> x ∈ kids_addrs cs.
Proof.
  intros Hc Hx. apply list_elem_of_In, in_concat. exists (addrs c.2).
  split; [|by apply list_elem_of_In]. apply in_map_iff. exists c. split; [done|].
  by apply list_elem_of_In.
Qed.

(** The addresses below different children are different. *)
Lemma kids_disjoint cs c c' x :
  NoDup (kids_addrs cs) -> c ∈ cs -> c' ∈ cs -> x ∈ addrs c.2 -> x <> addr c.2 -> x <> addr c'.2.
Proof.
  intros Hn Hc Hc' Hx Hne ->.
  induction cs as [|[k d] cs IH]; [by apply elem_of_nil in Hc|].
  rewrite kids_addrs_cons in Hn. apply NoDup_app in Hn as (Hn1 & Hd & Hn2).
  pose proof (addrs_addr c'.2) as Hr.
  apply elem_of_cons in Hc as [->|Hc]; apply elem_of_cons in Hc' as [->|Hc']; cbn in *; try done.
  - by apply (Hd (addr c'.2)); [|apply (kid_addrs cs c')].
  - by apply (Hd (addr d)); [apply addrs_addr|apply (kid_addrs cs c)].
  - by apply IH.
Qed.

Lemma kids_nodup cs c : NoDup (kids_addrs cs) -> c ∈ cs -> NoDup (addrs c.2).
Proof.
  intros Hn Hc. apply list_elem_of_split in Hc as (l1 & l2 & ->). destruct c as [k c].
  rewrite kids_addrs_app, kids_addrs_cons in Hn.
  apply NoDup_app in Hn as (_ & _ & Hn). by apply NoDup_app in Hn as (Hn & _).
Qed.

(** An inner page of any size. *)
Definition node_at (h : heap) (a : Z) (cs : list (double * tree)) : Prop :=
  page_at h a false (map rec_of cs) /\
  Forall (fun c => up h (addr c.2) = Some a) cs /\ kids_rep h cs.

Lemma rep_node_at h a cs : rep h (Node a cs) <-> node_at h a cs /\ room cs.
Proof. rewrite rep_node. unfold node_at. tauto. Qed.

Lemma kids_rep_frame h h' cs :
  (forall x, x ∈ kids_addrs cs -> shape h' x = shape h x) ->
  (forall c x, c ∈ cs -> x ∈ addrs c.2 -> x <> addr c.2 -> up h' x = up h x) ->
  NoDup (kids_addrs cs) -> kids_rep h cs -> kids_rep h' cs.
Proof.
  intros Hs Hu Hn H. apply Forall_forall. intros c Hc. apply (rep_frame h).
  - intros x Hx. apply Hs. by apply (kid_addrs cs c).
  - intros x Hx Hne. by apply (Hu c).
  - by apply (kids_nodup cs).
  - by apply (proj1 (Forall_forall _ _) H).
Qed.

Lemma ctx_rep_frame h h' ctx a :
  (forall x, x ∈ ctx_addrs ctx -> shape h' x = shape h x /\ up h' x = up h x) ->
  (ctx <> [] -> up h' a = up h a) -> NoDup (ctx_addrs ctx) -> ctx_rep h ctx a -> ctx_rep h' ctx a.
Proof.
  revert a. induction ctx as [|f ctx IH]; intros a Hs Ha Hn H; [done|].
  cbn [ctx_rep ctx_addrs] in *. destruct H as [(F1 & F2 & F3 & F4 & F5) H].
  rewrite app_assoc, <- kids_addrs_app in *.
  apply NoDup_cons in Hn as [Hfa Hn]. apply NoDup_app in Hn as (Hn1 & _ & Hn2).
  assert (Hk : forall x, x ∈ kids_addrs (f_left f ++ f_right f) -> shape h' x = shape h x /\ up h' x = up h x)
    by (intros x Hx; apply Hs, list_elem_of_further, elem_of_app; by left).
  split.
  - split_and!.
    + eapply page_at_shape; [|exact F1]. apply Hs, list_elem_of_here.
    + done.
    + by rewrite Ha.
    + apply Forall_forall. intros c Hc.
      rewrite (proj2 (Hk _ (kid_addrs _ c _ Hc (addrs_addr _)))).
      by apply (proj1 (Forall_forall _ _) F4).
    + apply (kids_rep_frame h); try done; [by intros x Hx; apply Hk|].
      intros c x Hc Hx _. by apply Hk, (kid_addrs _ c).
  - apply IH; try done.
    + intros x Hx. apply Hs, list_elem_of_further, elem_of_app. by right.
    + intros _. apply Hs, list_elem_of_here.
Qed.

(** [split] of an inner page that has become full. *)
Lemma split_node st a cs :
  node_at (pages st) a cs -> length cs = Z.to_nat cardinality ->
  NoDup (a :: kids_addrs cs) -> Forall (fun x => 0 < x < fresh st) (a :: kids_addrs cs) ->
  exists st', split a st = Ok (fresh st, st') /\ root st' = root st /\ fresh st' = fresh st + 1 /\
    rep (pages st') (Node a (take half cs)) /\ rep (pages st') (Node (fresh st) (drop half cs)) /\
    (forall x, x ∉ a :: kids_addrs cs -> x <> fresh st ->
       shape (pages st') x = shape (pages st) x /\ up (pages st') x = up (pages st) x) /\
    up (pages st') a = up (pages st) a /\
    (forall x, x <> fresh st -> link (pages st') x = link (pages st) x).
Proof.
  intros ((p & Hp & Hok & Hl & Ha) & Hup & Hkr) Hlen Hn Hf.
  apply Forall_cons in Hf as [Hfa Hf]. apply NoDup_cons in Hn as [Hak Hn].
  assert (Hnum : rec_num p = cardinality).
  { pose proof (active_length p Hok) as E. rewrite Ha, length_map, Hlen in E.
    pose proof (ok_num p Hok). lia. }
  assert (Hkid : forall c, c ∈ cs -> addr c.2 ∈ kids_addrs cs)
    by (intros c Hc; apply (kid_addrs cs c); [done|apply addrs_addr]).
  assert (Hlt : forall x, x ∈ kids_addrs cs -> 0 < x < fresh st) by (by apply Forall_forall).
  destruct (split_inner st a p) as (st' & E & R1 & R2 & R3 & R4 & R5 & R6 & R7); try done; [lia| |].
  { rewrite Ha, skipn_map. apply Forall_map, Forall_drop, Forall_forall. intros c Hc. cbn.
    specialize (Hkid c Hc). pose proof (Hlt _ Hkid). split_and!; [lia|by intros <-|].
    pose proof (proj1 (Forall_forall _ _) Hup c Hc) as Hu. unfold up in Hu. cbn in Hu.
    destruct (pages st !! addr c.2); [by eexists|done]. }
  exists st'. rewrite Ha, ?firstn_map, ?skipn_map, ?map_map in *. cbn [val rec_of] in R6.
  assert (Hsub : forall (cs' : list (double * tree)) c, cs' = take half cs \/ cs' = drop half cs ->
    c ∈ cs' -> c ∈ cs).
  { intros cs' c [->| ->] Hc; rewrite <- (take_drop half cs); apply elem_of_app; auto. }
  assert (Hrep : forall cs', cs' = take half cs \/ cs' = drop half cs ->
    kids_rep (pages st') cs').
  { intros cs' Hcs'. apply Forall_forall. intros c Hc. pose proof (Hsub cs' c Hcs' Hc) as Hc'.
    apply (rep_frame (pages st)).
    - intros x Hx. pose proof (kid_addrs cs c x Hc' Hx) as Hx'. pose proof (Hlt _ Hx').
      apply R5; [by intros ->|lia].
    - intros x Hx Hne. pose proof (kid_addrs cs c x Hc' Hx) as Hx'. pose proof (Hlt _ Hx').
      rewrite R6 by lia. rewrite decide_False; [done|].
      intros (d & -> & Hd)%list_elem_of_fmap.
      apply (kids_disjoint cs c d (addr d.2)); try done. apply (Hsub (drop half cs)); auto.
    - by apply (kids_nodup cs).
    - by apply (proj1 (Forall_forall _ _) Hkr). }
  split_and!; try done.
  - apply rep_node. split_and!; try done; [|apply Forall_forall; intros c Hc|by apply Hrep; left].
    + unfold room. rewrite length_take, Hlen, cardinality_13. unfold half. lia.
    + pose proof (Hsub (take half cs) c ltac:(auto) Hc) as Hc'.
      pose proof (Hlt _ (Hkid c Hc')). rewrite R6 by lia. rewrite decide_False.
      * by apply (proj1 (Forall_forall _ _) Hup).
      * intros (d & Ed & Hd)%list_elem_of_fmap.
        rewrite <- (take_drop half cs), kids_addrs_app in Hn. apply NoDup_app in Hn as (_ & Hdis & _).
        apply (Hdis (addr c.2)).
        { apply (kid_addrs _ c); [done|apply addrs_addr]. }
        rewrite Ed. apply (kid_addrs _ d); [done|apply addrs_addr].
  - apply rep_node. split_and!; try done; [|apply Forall_forall; intros c Hc|by apply Hrep; right].
    + unfold room. rewrite length_drop, Hlen, cardinality_13. unfold half. lia.
    + pose proof (Hsub (drop half cs) c ltac:(auto) Hc) as Hc'.
      pose proof (Hlt _ (Hkid c Hc')). rewrite R6 by lia. rewrite decide_True; [done|].
      apply list_elem_of_fmap. by exists c.
  - intros x Hx Hxf. rewrite not_elem_of_cons in Hx. destruct Hx as [Hxa Hx]. split; [by apply R5|].
    rewrite R6 by done. rewrite decide_False; [done|].
    intros (d & -> & Hd)%list_elem_of_fmap. apply Hx, Hkid. apply (Hsub (drop half cs)); auto.
  - rewrite R6 by lia. rewrite decide_False; [done|].
    intros (d & Ed & Hd)%list_elem_of_fmap. apply Hak. rewrite Ed. apply Hkid, (Hsub (drop half cs)); auto.
Qed.

Lemma find_child_rank_at p l k x r :
  active p = l ++ mkRec k x :: r -> Forall (fun q => val q <> x) l ->
  find_child_rank p x = Z.of_nat (length l).
Proof.
  intros Ha Hl. unfold find_child_rank. rewrite Ha.
  assert (E : prefix_len (fun r => negb (val r =? x)) (l ++ mkRec k x :: r) = length l).
  { apply prefix_len_unique.
    - rewrite length_app. cbn. lia.
    - intros i q Hi Hq. rewrite lookup_app_l in Hq by done.
      apply negb_true_iff, Z.eqb_neq. by apply (proj1 (Forall_lookup _ _) Hl i).
    - intros q Hq. rewrite find_at in Hq. injection Hq as <-. cbn. by rewrite Z.eqb_refl. }
  rewrite E, length_app. cbn [length]. by rewrite (proj2 (Nat.ltb_lt _ _)) by lia.
Qed.

(** The new child is linked in next to its sibling. *)
Definition grown (f : frame) (t1 : tree) (k : double) (t2 : tree) : list (double * tree) :=
  f_left f ++ (f_key f, t1) :: (k, t2) :: f_right f.

Lemma add_child st f t1 k t2 p q :
  rep (pages st) t1 -> rep (pages st) t2 -> frame_rep (pages st) f (addr t1) ->
  NoDup (f_addr f :: kids_addrs (f_left f) ++ kids_addrs (f_right f) ++ addrs t1 ++ addrs t2) ->
  pages st !! f_addr f = Some p -> pages st !! addr t2 = Some q -> addr t2 <> nullptr ->
  let st1 := with_page st (addr t2) (set_parent q (f_addr f)) in
  exists p', insert_pair p (Z.of_nat (length (f_left f)) + 1) k (addr t2) = Ok (p', rec_num p') /\
    let st2 := with_page st1 (f_addr f) p' in
    node_at (pages st2) (f_addr f) (grown f t1 k t2) /\
    rec_num p' = Z.of_nat (length (grown f t1 k t2)) /\
    (forall x, x <> f_addr f -> shape (pages st2) x = shape (pages st) x) /\
    (forall x, x <> addr t2 -> up (pages st2) x = up (pages st) x) /\
    (forall x, link (pages st2) x = link (pages st) x).
Proof.
  intros Hr1 Hr2 ((p0 & Hp0 & Hok & Hl & Ha) & F2 & F3 & F4 & F5) Hn Hp Hq Hnz st1.
  assert (p0 = p) as -> by congruence.
  assert (Hne : addr t2 <> f_addr f).
  { intros E. apply NoDup_cons in Hn as [Hn _]. apply Hn. rewrite <- E.
    rewrite !elem_of_app. do 3 right. apply addrs_addr. }
  pose proof (active_length p Hok) as Hlen. rewrite Ha, length_app in Hlen.
  cbn [length] in Hlen. rewrite !length_map in Hlen.
  unfold room in F2. rewrite length_app in F2. cbn [length] in F2. pose proof (ok_num p Hok) as Hnum.
  destruct (insert_at_spec p (S (length (f_left f))) (mkRec k (addr t2))) as (p' & E & Hok' & EA & En & Eh);
    try done; [rewrite Ha, length_app; cbn; rewrite !length_map; lia|lia|].
  exists p'. split.
  { unfold insert_pair.
    replace (Z.of_nat (length (f_left f)) + 1) with (Z.of_nat (S (length (f_left f)))) by lia.
    destruct (Z.ltb_spec (Z.of_nat (S (length (f_left f)))) 0); [lia|].
    destruct (Z.ltb_spec (rec_num p) (Z.of_nat (S (length (f_left f))))); [lia|]. cbn [orb].
    rewrite E. done. }
  assert (EA' : active p' = map rec_of (grown f t1 k t2)).
  { rewrite EA, Ha. unfold grown. rewrite map_app. cbn [map].
    rewrite take_app_ge, drop_app_ge by (rewrite length_map; lia). rewrite length_map.
    replace (S (length (f_left f)) - length (f_left f))%nat with 1%nat by lia. cbn.
    rewrite take_0, drop_0, <- app_assoc. done. }
  assert (Hs : forall x, x <> f_addr f ->
    shape (<[f_addr f := p']> (<[addr t2 := set_parent q (f_addr f)]> (pages st))) x = shape (pages st) x).
  { intros x Hx. heap_views. subst x. unfold shape. by rewrite Hq. }
  assert (Hu : forall x, x <> addr t2 ->
    up (<[f_addr f := p']> (<[addr t2 := set_parent q (f_addr f)]> (pages st))) x = up (pages st) x).
  { intros x Hx. heap_views. subst x. unfold up. by rewrite Hp, Eh. }
  cbn [with_page pages st1]. unfold node_at. split_and!; try done.
  - exists p'. rewrite lookup_insert_eq. split_and!; try done. by rewrite Eh.
  - unfold grown. rewrite Forall_app, !Forall_cons. cbn [snd]. apply Forall_app in F4 as [F4 F6].
    assert (Hkid : forall c x, c ∈ f_left f \/ c ∈ f_right f -> x ∈ addrs c.2 -> x <> addr t2).
    { intros c x Hc Hx ->. apply NoDup_cons in Hn as [_ Hn]. rewrite app_assoc, <- kids_addrs_app, app_assoc in Hn.
      apply NoDup_app in Hn as (_ & Hn & _). apply (Hn (addr t2)); [|apply addrs_addr].
      apply elem_of_app. left. apply (kid_addrs _ c); [|done]. rewrite elem_of_app. tauto. }
    split_and!.
    + apply Forall_forall. intros c Hc. rewrite Hu; [by apply (proj1 (Forall_forall _ _) F4)|].
      apply (Hkid c); [by left|apply addrs_addr].
    + rewrite Hu; [done|]. intros Ex. apply NoDup_cons in Hn as [_ Hn].
      do 2 apply NoDup_app in Hn as (_ & _ & Hn). apply NoDup_app in Hn as (_ & Hn & _).
      apply (Hn (addr t1)); [apply addrs_addr|]. rewrite Ex. apply addrs_addr.
    + rewrite up_insert, up_insert, decide_False by done. by rewrite decide_True.
    + apply Forall_forall. intros c Hc. rewrite Hu; [by apply (proj1 (Forall_forall _ _) F6)|].
      apply (Hkid c); [by right|apply addrs_addr].
  - apply NoDup_cons in Hn as [Hfa Hn].
    assert (Hk : kids_rep (pages st) (grown f t1 k t2)).
    { apply Forall_app in F5 as [G1 G2]. unfold kids_rep, grown. by rewrite Forall_app, !Forall_cons. }
    assert (Hg : NoDup (kids_addrs (grown f t1 k t2))).
    { unfold grown. rewrite kids_addrs_app, !kids_addrs_cons.
      assert (kids_addrs (f_left f) ++ addrs t1 ++ addrs t2 ++ kids_addrs (f_right f) ≡ₚ
        kids_addrs (f_left f) ++ kids_addrs (f_right f) ++ addrs t1 ++ addrs t2) as ->
        by solve_Permutation. done. }
    apply (kids_rep_frame (pages st)); try done.
    + intros x Hx. apply Hs. intros ->. apply Hfa. unfold grown in Hx.
      rewrite kids_addrs_app, !kids_addrs_cons, !elem_of_app in Hx. rewrite !elem_of_app. tauto.
    + intros c x Hc Hx Hxa. apply Hu.
      apply (kids_disjoint (grown f t1 k t2) c (k, t2)); try done.
      unfold grown. rewrite elem_of_app, !elem_of_cons. auto.
  - rewrite En. unfold grown. rewrite length_app. cbn [length]. lia.
  - intros x. heap_views; subst x; unfold link; [by rewrite Hp, Eh|by rewrite Hq].
Qed.

Definition additive {A} (g : tree -> list A) : Prop := forall a cs, g (Node a cs) = over g cs.

(** The invariant without the leaf list. *)
Record stored (st : btree_plus) (g : tree) (lo hi : Z) : Prop := {
  st_root : root st = addr g;
  st_rep : rep (pages st) g;
  st_nodup : NoDup (addrs g);
  st_fresh : Forall (fun x => 0 < x < fresh st) (addrs g);
  st_order : ordered lo hi g
}.

(** [t1] is in the tree; [t2], its new right neighbour from [k] on, is not yet. *)
Record pending (st : btree_plus) (ctx : list frame) (t1 : tree) (k : double) (t2 : tree)
    (lo hi : Z) : Prop := {
  pd_root : root st = addr (plug ctx t1);
  pd_rep1 : rep (pages st) t1;
  pd_rep2 : rep (pages st) t2;
  pd_ctx : ctx_rep (pages st) ctx (addr t1);
  pd_nodup : NoDup (addrs t1 ++ addrs t2 ++ ctx_addrs ctx);
  pd_fresh : Forall (fun x => 0 < x < fresh st) (addrs t1 ++ addrs t2 ++ ctx_addrs ctx);
  pd_key : is_key k = true;
  pd_order : exists l h, ctx_ok lo hi ctx l h /\ l < rank k < h /\
    ordered l (rank k) t1 /\ ordered (rank k) h t2
}.

Lemma addr_plug ctx t t' : addr t = addr t' -> addr (plug ctx t) = addr (plug ctx t').
Proof. revert t t'; induction ctx as [|f ctx IH]; intros t t' E; [done|]. by apply IH. Qed.

Lemma addr_plug_in f ctx t : addr (plug (f :: ctx) t) ∈ ctx_addrs (f :: ctx).
Proof.
  revert f t. induction ctx as [|g ctx IH]; intros f t.
  - apply list_elem_of_here.
  - cbn [plug]. cbn [ctx_addrs]. apply list_elem_of_further. rewrite !elem_of_app. do 2 right.
    apply (IH g (fill f t)).
Qed.

Lemma first_record_key_ok st a p :
  pages st !! a = Some p -> page_ok p ->
  exists k0, first_record_key a st = Ok (k0, st) /\
    forall r rs, active p = r :: rs -> k0 = key r.
Proof.
  intros Hp Hok. destruct (lookup_lt_is_Some_2 (records p) 0) as [r Hr].
  { rewrite (ok_size _ Hok), cardinality_13. lia. }
  exists (key r). split.
  - unfold first_record_key. rewrite (ld_step _ _ _ p) by done.
    by rewrite (lift_step _ _ _ r) by (by apply (zload_nat _ 0)).
  - intros r' rs E. unfold active in E. destruct (records p) as [|x l]; [done|].
    injection Hr as ->. destruct (Z.to_nat (rec_num p)); [done|]. by injection E as -> _.
Qed.

Lemma rep_page h t : rep h t -> exists p, h !! addr t = Some p /\ page_ok p.
Proof.
  destruct t as [a rs|a cs].
  - intros ((p & Hp & Hok & _) & _)%rep_leaf. by exists p.
  - intros ((p & Hp & Hok & _) & _)%rep_node. by exists p.
Qed.

(** A new root over two subtrees. *)
Lemma new_root_page_ok k0 a k b :
  a <> nullptr -> b <> nullptr ->
  let p := set_record_num (set_records (new_page 0)
             (mkRec k0 a :: mkRec k b :: drop 2 (records (new_page 0)))) 2 in
  page_ok p /\ active p = [mkRec k0 a; mkRec k b].
Proof.
  intros Ha Hb p. split; [split|done]; try done; cbn.
  - repeat constructor; done.
  - repeat constructor.
Qed.

Lemma grow_root st t1 k t2 lo hi fuel :
  pending st [] t1 k t2 lo hi ->
  exists st' g', insert_into_parent (S fuel) (addr t1) k (addr t2) st = Ok (tt, st') /\
    stored st' g' lo hi /\
    (forall A (g : tree -> list A), additive g -> g g' = g t1 ++ g t2) /\
    (forall x, x < fresh st -> link (pages st') x = link (pages st) x).
Proof.
  intros [P1 P2 P3 _ P4 P5 P6 (l & h & [-> ->] & Hk & O1 & O2)]. cbn [ctx_addrs plug] in *.
  rewrite app_nil_r in *. cbn [insert_into_parent]. erewrite bind_step; [|reflexivity].
  rewrite P1, Z.eqb_refl.
  destruct (rep_page _ _ P2) as (p1 & Hp1 & Hok1). destruct (rep_page _ _ P3) as (p2 & Hp2 & Hok2).
  destruct (first_record_key_ok st (addr t1) p1 Hp1 Hok1) as (k0 & E0 & _).
  rewrite (bind_step _ _ _ _ _ E0).
  assert (Hlt : forall x, x ∈ addrs t1 \/ x ∈ addrs t2 -> 0 < x < fresh st).
  { intros x Hx. apply (proj1 (Forall_forall _ _) P5). by apply elem_of_app. }
  pose proof (Hlt (addr t1) (or_introl (addrs_addr t1))) as H1.
  pose proof (Hlt (addr t2) (or_intror (addrs_addr t2))) as H2.
  assert (H12 : addr t1 <> addr t2).
  { apply NoDup_app in P4 as (_ & Hd & _). intros E. apply (Hd (addr t1)); [apply addrs_addr|].
    rewrite E. apply addrs_addr. }
  rewrite (alloc_step _ _ _ (fresh st)) by done.
  set (f := fresh st) in *. set (np := set_record_num _ 2).
  erewrite (modify_step (addr t1) _ _ _ p1) by (cbn; by rewrite lookup_insert_ne by lia).
  erewrite (modify_step (addr t2) _ _ _ p2) by (cbn; by rewrite !lookup_insert_ne by lia).
  eexists _, (Node f [(k0, t1); (k, t2)]). split; [reflexivity|].
  destruct (new_root_page_ok k0 (addr t1) k (addr t2)) as [Hnp Hna]; [unfold nullptr; lia..|]. fold np in Hnp, Hna.
  apply NoDup_app in P4 as (N1 & Nd & N2).
  assert (Hsh : forall x, x <> f -> shape (<[addr t2:=set_parent p2 f]> (<[addr t1:=set_parent p1 f]>
    (<[f:=np]> (pages st)))) x = shape (pages st) x).
  { intros x Hx. heap_views; subst x; unfold shape; [by rewrite Hp2|by rewrite Hp1]. }
  assert (Hu : forall x, x <> f -> x <> addr t1 -> x <> addr t2 -> up (<[addr t2:=set_parent p2 f]>
    (<[addr t1:=set_parent p1 f]> (<[f:=np]> (pages st)))) x = up (pages st) x) by heap_views.
  split; [|split].
  - split; cbn [root pages fresh with_page allocated addr].
    + done.
    + apply rep_node. split_and!.
      * exists np. rewrite !lookup_insert_ne, lookup_insert_eq by lia. done.
      * unfold room. rewrite cardinality_13. done.
      * rewrite !Forall_cons. cbn [snd]. split_and!; [| |constructor]; rewrite !up_insert;
          repeat case_decide; done.
      * unfold kids_rep. rewrite !Forall_cons. cbn [snd]. split_and!; [| |constructor];
          (eapply rep_frame; [| | |eassumption]; [| |done]).
        -- intros x Hx. apply Hsh. pose proof (Hlt x). naive_solver lia.
        -- intros x Hx Hne. apply Hu; [pose proof (Hlt x); naive_solver lia|done|].
           intros ->. apply (Nd (addr t2)); [done|apply addrs_addr].
        -- intros x Hx. apply Hsh. pose proof (Hlt x). naive_solver lia.
        -- intros x Hx Hne. apply Hu; [pose proof (Hlt x); naive_solver lia| |done].
           intros ->. apply (Nd (addr t1)); [apply addrs_addr|done].
    + rewrite addrs_node, !kids_addrs_cons. cbn [kids_addrs map concat]. rewrite app_nil_r.
      constructor; [|by apply NoDup_app]. intros Hx. apply elem_of_app in Hx. specialize (Hlt _ Hx). lia.
    + rewrite addrs_node, !kids_addrs_cons. cbn [kids_addrs map concat]. rewrite app_nil_r.
      constructor; [lia|]. eapply Forall_impl; [exact P5|]. cbn. intros; lia.
    + cbn. split_and!; try done; lia.
  - intros A g Hg. rewrite Hg. unfold over. cbn. by rewrite app_nil_r.
  - intros x Hx. cbn. heap_views; subst x; unfold link; [by rewrite Hp2|by rewrite Hp1|lia].
Qed.

(** What [insert_into_parent] achieves: a stored tree that has [t1] and [t2] in
    place of [t1], and no change to the leaf links. *)
Definition absorbed (st st' : btree_plus) (ctx : list frame) (t1 t2 : tree) (lo hi : Z) : Prop :=
  exists g', stored st' g' lo hi /\
    (forall A (g : tree -> list A), additive g ->
       g g' = before g ctx ++ g t1 ++ g t2 ++ after g ctx) /\
    (forall x, x < fresh st -> link (pages st') x = link (pages st) x).

(** The addresses around a pending split, regrouped by frame. *)
Lemma pending_addrs f ctx t1 k t2 :
  addrs t1 ++ addrs t2 ++ ctx_addrs (f :: ctx) ≡ₚ
  (f_addr f :: kids_addrs (grown f t1 k t2)) ++ ctx_addrs ctx.
Proof. unfold grown. rewrite kids_addrs_app, !kids_addrs_cons. cbn [ctx_addrs]. solve_Permutation. Qed.

Lemma pending_frame_addrs f ctx t1 t2 :
  addrs t1 ++ addrs t2 ++ ctx_addrs (f :: ctx) ≡ₚ
  (f_addr f :: kids_addrs (f_left f) ++ kids_addrs (f_right f) ++ addrs t1 ++ addrs t2) ++ ctx_addrs ctx.
Proof. cbn [ctx_addrs]. solve_Permutation. Qed.

(** The order of a node that has grown by one child. *)
Lemma grown_ordered l h f l' h' t1 k t2 :
  frame_ok l h f l' h' -> is_key k = true -> l' < rank k < h' ->
  ordered l' (rank k) t1 -> ordered (rank k) h' t2 -> ordered l h (Node (f_addr f) (grown f t1 k t2)).
Proof.
  intros (_ & _ & Hf) Hk Hb O1 O2. cbn [ordered]. apply (Hf t1 [(k, t2)]).
  apply kids_cons. cbn. split_and!; done || lia.
Qed.

(** The father of a pending split finds its child and takes the new one. *)
Lemma father_step st f ctx t1 k t2 lo hi fuel :
  pending st (f :: ctx) t1 k t2 lo hi ->
  exists st2,
    insert_into_parent (S fuel) (addr t1) k (addr t2) st =
      (if cardinality <=? Z.of_nat (length (grown f t1 k t2)) then
         father_sibling ← split (f_addr f);
         k' ← first_record_key father_sibling;
         insert_into_parent fuel (f_addr f) k' father_sibling
       else modify (addr t2) (fun p => set_parent p (f_addr f))) st2 /\
    root st2 = root st /\ fresh st2 = fresh st /\
    node_at (pages st2) (f_addr f) (grown f t1 k t2) /\
    ctx_rep (pages st2) ctx (f_addr f) /\
    (forall x, link (pages st2) x = link (pages st) x).
Proof.
  intros [P1 P2 P3 [PF PC] P4 P5 P6 _]. rewrite pending_frame_addrs in P4, P5.
  pose proof PF as ((p & Hp & Hok & Hl & Ha) & F2 & F3 & F4 & F5).
  destruct (rep_page _ _ P3) as (q & Hq & _).
  assert (Hroot : addr t1 <> root st).
  { rewrite P1. intros E. pose proof (addr_plug_in f ctx t1) as Hin. rewrite <- E in Hin.
    rewrite <- pending_frame_addrs in P4. apply NoDup_app in P4 as (_ & Hd & _).
    apply (Hd (addr t1)); [apply addrs_addr|]. apply elem_of_app. by right. }
  pose proof P4 as (N1 & Nd & N2)%NoDup_app.
  assert (Hne : addr t2 <> f_addr f).
  { intros E. apply NoDup_cons in N1 as [N1 _]. apply N1. rewrite <- E.
    rewrite !elem_of_app. do 3 right. apply addrs_addr. }
  assert (Hnz : addr t2 <> nullptr).
  { pose proof (proj1 (Forall_forall _ _) P5 (addr t2)) as H. unfold nullptr.
    assert (0 < addr t2 < fresh st); [|lia]. apply H.
    rewrite elem_of_app, elem_of_cons, !elem_of_app. left. do 4 right. apply addrs_addr. }
  destruct (add_child st f t1 k t2 p q P2 P3 PF N1 Hp Hq Hnz) as (p' & Ei & Hnode & Hnum & Hs & Hu & Hlk).
  unfold up in F3. destruct (pages st !! addr t1) as [o|] eqn:Eo; [|done]. injection F3 as F3.
  assert (Ef : find_child_rank p (addr t1) = Z.of_nat (length (f_left f))).
  { rewrite (find_child_rank_at p (map rec_of (f_left f)) (f_key f) (addr t1) (map rec_of (f_right f))); [by rewrite length_map|done|].
    apply Forall_map, Forall_forall. intros c Hc E. cbn in E.
    apply NoDup_cons in N1 as [_ N1]. rewrite app_assoc, app_assoc in N1.
    apply NoDup_app in N1 as (N1 & _ & _). apply NoDup_app in N1 as (_ & N1 & _).
    apply (N1 (addr t1)); [|apply addrs_addr]. rewrite <- E. apply elem_of_app. left.
    apply (kid_addrs _ c); [done|apply addrs_addr]. }
  set (st2 := with_page (with_page st (addr t2) (set_parent q (f_addr f))) (f_addr f) p') in *.
  exists st2. split.
  - cbn [insert_into_parent]. erewrite bind_step; [|reflexivity].
    rewrite (proj2 (Z.eqb_neq _ _) Hroot). rewrite (ld_step _ _ _ o) by done. rewrite F3.
    rewrite (ld_step _ _ _ p) by done. rewrite (modify_step _ _ _ _ q) by done.
    rewrite (ld_step _ _ _ p) by heap_get. rewrite Ef.
    rewrite (lift_step _ _ _ _ Ei). rewrite sd_step. fold st2. by rewrite Hnum.
  - split_and!; try done. apply (ctx_rep_frame (pages st)); try done.
    + intros x Hx. split; [apply Hs|apply Hu]; intros ->.
      * by apply (Nd (f_addr f)); [apply list_elem_of_here|].
      * apply (Nd (addr t2)); [|done]. apply list_elem_of_further. rewrite !elem_of_app.
        do 3 right. apply addrs_addr.
    + intros _. by apply Hu.
Qed.

(** A full page is split, and its upper half is pending one level up. *)
Lemma split_pending st f ctx t1 k t2 lo hi st2 fuel :
  pending st (f :: ctx) t1 k t2 lo hi ->
  length (grown f t1 k t2) = Z.to_nat cardinality ->
  root st2 = root st -> fresh st2 = fresh st ->
  node_at (pages st2) (f_addr f) (grown f t1 k t2) -> ctx_rep (pages st2) ctx (f_addr f) ->
  exists st3 k',
    (father_sibling ← split (f_addr f);
     k' ← first_record_key father_sibling;
     insert_into_parent fuel (f_addr f) k' father_sibling) st2 =
    insert_into_parent fuel (f_addr f) k' (fresh st) st3 /\
    pending st3 ctx (Node (f_addr f) (take half (grown f t1 k t2))) k'
      (Node (fresh st) (drop half (grown f t1 k t2))) lo hi /\
    (forall x, x <> fresh st -> link (pages st3) x = link (pages st2) x) /\
    fresh st3 = fresh st + 1.
Proof.
  intros [P1 P2 P3 [PF PC] P4 P5 P6 (l & h & (l1 & h1 & Hctx & Hfr) & Hk & O1 & O2)] Hlen R1 R2 Hnode Hctxr.
  rewrite (pending_addrs f ctx t1 k t2) in P4, P5. set (cs := grown f t1 k t2) in *.
  pose proof P4 as (N1 & Nd & N2)%NoDup_app. pose proof P5 as (F1 & F2)%Forall_app.
  rewrite <- R2 in F1.
  destruct (split_node st2 (f_addr f) cs Hnode Hlen N1 F1)
    as (st3 & E & S1 & S2 & S3 & S4 & S5 & S6 & S7).
  rewrite R2 in *.
  destruct (drop half cs) as [|[k' c'] rest] eqn:Ed.
  { exfalso. assert (length (drop half cs) = 0%nat) as Hl by (by rewrite Ed).
    rewrite length_drop, Hlen, cardinality_13 in Hl. unfold half in Hl. lia. }
  destruct (rep_page _ _ S4) as (p' & Hp' & Hok'). cbn [addr] in Hp'.
  destruct (first_record_key_ok st3 (fresh st) p' Hp' Hok') as (k0 & Ek & Hk0).
  assert (k0 = k') as ->.
  { apply rep_node in S4 as ((q & Hq & _ & _ & Hq') & _). assert (q = p') as -> by congruence.
    cbn [map rec_of] in Hq'. by apply (Hk0 _ _ Hq'). }
  exists st3, k'. split; [|split; [|split; [done|lia]]].
  { rewrite (bind_step _ _ _ _ _ E). by rewrite (bind_step _ _ _ _ _ Ek). }
  pose proof (grown_ordered l1 h1 f l h t1 k t2 Hfr P6 Hk O1 O2) as Hog. fold cs in Hog.
  cbn [ordered] in Hog. rewrite <- (take_drop half cs), Ed in Hog.
  assert (Ht : take half cs <> []).
  { intros Et. assert (length (take half cs) = 0%nat) as Hl by (by rewrite Et).
    rewrite length_take, Hlen, cardinality_13 in Hl. unfold half in Hl. lia. }
  destruct (kids_split l1 h1 _ k' c' rest Ht Hog) as (K1 & K2 & K3 & K4).
  assert (Hperm : addrs (Node (f_addr f) (take half cs)) ++
      addrs (Node (fresh st) ((k', c') :: rest)) ++ ctx_addrs ctx ≡ₚ
      fresh st :: (f_addr f :: kids_addrs cs) ++ ctx_addrs ctx).
  { rewrite !addrs_node. rewrite <- (take_drop half cs) at 2. rewrite Ed, kids_addrs_app.
    solve_Permutation. }
  split.
  - rewrite S1, R1, P1. cbn [plug]. by apply addr_plug.
  - done.
  - done.
  - apply (ctx_rep_frame (pages st2)); try done.
    intros x Hx. apply S5.
    + intros Hx'. by apply (Nd x).
    + pose proof (proj1 (Forall_forall _ _) F2 x Hx). cbn in *. lia.
  - rewrite Hperm. constructor; [|done]. intros Hx.
    pose proof (proj1 (Forall_forall _ _) P5 _ Hx). cbn in *. lia.
  - rewrite Hperm, S2. pose proof (proj1 (Forall_forall _ _) P5) as H. constructor.
    + specialize (H (f_addr f) ltac:(apply list_elem_of_here)). cbn in H. lia.
    + eapply Forall_impl; [exact P5|]. cbn. intros; lia.
  - done.
  - exists l1, h1. split_and!; try done; lia.
Qed.

Lemma insert_into_parent_ok ctx : forall st t1 k t2 lo hi fuel,
  pending st ctx t1 k t2 lo hi -> (length ctx < fuel)%nat ->
  exists st', insert_into_parent fuel (addr t1) k (addr t2) st = Ok (tt, st') /\
    absorbed st st' ctx t1 t2 lo hi.
Proof.
  induction ctx as [|f ctx IH]; intros st t1 k t2 lo hi [|fuel] Hp Hfuel;
    [cbn in Hfuel; lia| |cbn in Hfuel; lia|].
  - destruct (grow_root st t1 k t2 lo hi fuel Hp) as (st' & g' & E & H1 & H2 & H3).
    exists st'. split; [exact E|]. exists g'. split_and!; try done.
    intros A g Hg. cbn. rewrite app_nil_r. by apply H2.
  - destruct (father_step st f ctx t1 k t2 lo hi fuel Hp)
      as (st2 & E & R1 & R2 & R3 & R4 & R5).
    cbn [length] in Hfuel. rewrite E. clear E. set (cs := grown f t1 k t2) in *.
    assert (Hover : forall A (g : tree -> list A), over g cs =
      over g (f_left f) ++ g t1 ++ g t2 ++ over g (f_right f)).
    { intros A g. unfold cs, grown. by rewrite over_app, !over_cons. }
    destruct (Z.leb_spec cardinality (Z.of_nat (length cs))) as [Hfull|Hroom].
    + assert (Hlen : length cs = Z.to_nat cardinality).
      { destruct Hp as [_ _ _ [(_ & F2 & _) _] _ _ _ _]. unfold room in F2.
        unfold cs, grown in *. rewrite length_app in *. cbn [length] in *. lia. }
      destruct (split_pending st f ctx t1 k t2 lo hi st2 fuel) as (st3 & k' & E & Hp3 & L3 & F3); try done.
      fold cs in Hp3. rewrite E.
      destruct (IH st3 _ k' _ lo hi fuel Hp3 ltac:(lia)) as (st' & E' & g' & H1 & H2 & H3).
      exists st'. split; [exact E'|]. exists g'. split_and!; try done.
      * intros A g Hg. rewrite (H2 A g Hg), (Hg _ (take half cs)), (Hg _ (drop half cs)).
        rewrite (app_assoc (over g (take half cs))), <- over_app, take_drop, Hover.
        cbn [before after]. by rewrite <- !app_assoc.
      * intros x Hx. rewrite H3 by lia. rewrite L3 by lia. apply R5.
    + destruct Hp as [P1 P2 P3 [PF PC] P4 P5 P6 (l & h & (l1 & h1 & Hctx & Hfr) & Hk & O1 & O2)].
      assert (Hq : exists q, pages st2 !! addr t2 = Some q /\ parent (hdr q) = f_addr f).
      { destruct R3 as (_ & Hup & _). unfold cs, grown in Hup.
        apply Forall_app in Hup as [_ Hup]. apply Forall_cons in Hup as [_ Hup].
        apply Forall_cons in Hup as [Hup _]. unfold up in Hup. cbn in Hup.
        destruct (pages st2 !! addr t2) as [q|]; [|done]. injection Hup as Hup. by exists q. }
      destruct Hq as (q & Hq & Hpar).
      assert (set_parent q (f_addr f) = q) as Eq by (rewrite <- Hpar; by destruct q as [[] ?]).
      rewrite (modify_ok _ _ _ q) by done. rewrite Eq.
      assert (Est : pages (with_page st2 (addr t2) q) = pages st2) by (cbn; by apply insert_id).
      eexists. split; [reflexivity|]. exists (plug ctx (Node (f_addr f) cs)). split_and!.
      * split.
        -- cbn [root with_page]. rewrite R1, P1. cbn [plug]. by apply addr_plug.
        -- rewrite Est. apply rep_plug. cbn [addr]. split; [|done]. by apply rep_node_at.
        -- rewrite addrs_plug, addrs_node. unfold cs. by rewrite <- (pending_addrs f ctx t1 k t2).
        -- rewrite addrs_plug, addrs_node. cbn [fresh with_page]. rewrite R2.
           unfold cs. by rewrite <- (pending_addrs f ctx t1 k t2).
        -- eapply ctx_ok_plug; [exact Hctx|]. by eapply grown_ordered.
      * intros A g Hg. rewrite (plug_around g Hg), (Hg _ cs), Hover. cbn [before after].
        by rewrite <- !app_assoc.
      * intros x Hx. rewrite Est. apply R5.
Qed.
