(* ===== verification/BPlusMap.v ===== *)
(** * The B+ tree is a finite map (core/index/b_plus.h: btree_plus)

    The leaf list and the invariant [wf]; [find], [upsert], [get_data] and
    [range_query] against the sorted list of records, and the instance of the
    interface that leaf nodes use their overflow trees through.  Deletion does
    not preserve the invariant: see [descending_then_delete_undefined]. *)

From S2P Require Import Prelude Doubles BPage BPlus BPlusTree BPlusInsert.
From S2P Require LeafNode.

(** ** The leaf list *)

Definition head_or (l : list Z) (y : Z) : Z := match l with [] => y | b :: _ => b end.

(** The pages of [l] are chained both ways, between [x] and [y]. *)
Fixpoint linked (h : heap) (x : Z) (l : list Z) (y : Z) : Prop :=
  match l with
  | [] => True
  | a :: l' => link h a = Some (x, head_or l' y) /\ linked h a l' y
  end.

Lemma linked_same h h' x l y :
  (forall a, a ∈ l -> link h' a = link h a) -> linked h x l y -> linked h' x l y.
Proof.
  revert x; induction l as [|a l IH]; intros x Hs H; [done|]. destruct H as [H1 H2]. split.
  - rewrite Hs; [done|]. apply list_elem_of_here.
  - apply IH; [|done]. intros b Hb. apply Hs. by apply list_elem_of_further.
Qed.

Lemma linked_at h x l1 a l2 y :
  linked h x (l1 ++ a :: l2) y -> exists x', link h a = Some (x', head_or l2 y).
Proof. revert x; induction l1 as [|b l1 IH]; intros x [H1 H2]; [by exists x|by apply (IH b)]. Qed.

(** A page [f] linked in after [a]. *)
Definition linked_in (h h' : heap) (a f next : Z) : Prop :=
  (forall x, link h a = Some x -> link h' a = Some (x.1, f)) /\ link h' f = Some (a, next) /\
  (forall x, x <> a -> x <> f -> x <> nullptr ->
     link h' x = (fun l => (if decide (x = next) then f else l.1, l.2)) <$> link h x).

Lemma linked_insert h h' x l1 a f l2 :
  linked h x (l1 ++ a :: l2) nullptr -> NoDup (l1 ++ a :: l2) -> f ∉ l1 ++ a :: l2 ->
  Forall (fun x => x <> nullptr) (l1 ++ a :: l2) ->
  linked_in h h' a f (head_or l2 nullptr) ->
  linked h' x (l1 ++ a :: f :: l2) nullptr.
Proof.
  intros H Hn Hf Hz (H1 & H2 & H3).
  assert (Hsame : forall b, b ∈ l1 ++ l2 -> b <> head_or l2 nullptr -> link h' b = link h b).
  { intros b Hb Hne.
    assert (Hb' : b ∈ l1 ++ a :: l2).
    { apply elem_of_app in Hb. rewrite elem_of_app, elem_of_cons. tauto. }
    rewrite H3.
    - destruct (decide (b = head_or l2 nullptr)); [done|]. apply link_same.
    - intros ->. clear -Hn Hb. rewrite <- Permutation_middle, NoDup_cons in Hn. tauto.
    - by intros ->.
    - by apply (proj1 (Forall_forall _ _) Hz). }
  revert x H. induction l1 as [|b l1 IH]; intros x H.
  - destruct H as [E1 E2]. apply NoDup_cons in Hn as [Ha Hn]. cbn [app linked head_or].
    split_and!; [by apply (H1 _ E1)|done|]. destruct l2 as [|b l2]; [done|].
    destruct E2 as [E2 E3]. cbn [linked head_or] in *. apply NoDup_cons in Hn as [Hb Hn]. split.
    + rewrite H3, E2; [cbn; by rewrite decide_True| | |].
      * intros ->. apply Ha, list_elem_of_here.
      * intros ->. apply Hf. cbn. rewrite !elem_of_cons. auto.
      * apply (proj1 (Forall_forall _ _) Hz). cbn. rewrite !elem_of_cons. auto.
    + eapply linked_same; [|exact E3]. intros c Hc. apply Hsame; [by apply list_elem_of_further|].
      by intros ->.
  - destruct H as [E1 E2]. cbn [app] in *. apply NoDup_cons in Hn as [Hb Hn].
    apply Forall_cons in Hz as [Hbz Hz]. rewrite not_elem_of_cons in Hf. destruct Hf as [Hfb Hf].
    split.
    + rewrite Hsame; [|by apply list_elem_of_here|].
      * rewrite E1. by destruct l1.
      * intros ->. destruct l2 as [|c l2]; [done|]. apply Hb. cbn. rewrite elem_of_app, !elem_of_cons. auto.
    + apply IH; try done. intros c Hc. apply Hsame. by apply list_elem_of_further.
Qed.

(** ** The invariant *)

(** Ranks are at most [2 ^ 64] in absolute value. *)
Definition rmin : Z := - 2 ^ 64.
Definition rmax : Z := 2 ^ 64 + 1.

Lemma key_in_range k : is_key k = true -> rmin <= rank k < rmax.
Proof.
  unfold rmin, rmax. destruct k as [s|s| |s m e]; cbn [is_key rank]; intros H; [lia|destruct s; lia|done|].
  pose proof (rank_bound s m e H). destruct s; lia.
Qed.

Record wf (t : btree_plus) (g : tree) : Prop := {
  wf_stored : stored t g rmin rmax;
  wf_linked : linked (pages t) nullptr (leaves g) nullptr
}.

Lemma rep_in_heap h t x : rep h t -> x ∈ addrs t -> is_Some (h !! x).
Proof.
  intros H (s & -> & Hs)%list_elem_of_fmap. pose proof (proj1 (Forall_forall _ _) H s Hs) as Hl.
  destruct s as [a rs|a cs]; cbn in *.
  - destruct Hl as [(p & Hp & _) _]. by exists p.
  - destruct Hl as [(p & Hp & _) _]. by exists p.
Qed.

(** One unit of fuel per page is enough for every path. *)
Lemma addrs_le_size h t : rep h t -> NoDup (addrs t) -> (length (addrs t) <= size h)%nat.
Proof.
  intros Hr Hn. rewrite <- (size_dom h), <- (size_list_to_set (C := gset Z) _ Hn).
  apply subseteq_size. intros x Hx%elem_of_list_to_set. apply elem_of_dom.
  by apply (rep_in_heap h t).
Qed.

Lemma depth_le_addrs t : (depth t <= length (addrs t))%nat.
Proof.
  induction t as [a rs|a cs IH] using tree_rect_nested; [cbn; lia|].
  rewrite addrs_node. cbn [depth length]. apply -> Nat.succ_le_mono.
  induction IH as [|[k c] cs Hc _ IHcs]; [cbn; lia|].
  rewrite kids_addrs_cons, length_app. cbn [map foldr snd] in *. lia.
Qed.

Lemma ctx_le_addrs ctx t : (length ctx < length (addrs (plug ctx t)))%nat.
Proof.
  rewrite addrs_plug, length_app.
  assert (0 < length (addrs t))%nat by (destruct t; cbn; lia).
  assert (length ctx <= length (ctx_addrs ctx))%nat; [|lia].
  clear. induction ctx as [|f ctx IH]; cbn; [lia|]. rewrite !length_app. lia.
Qed.

Lemma leaves_in_addrs t x : x ∈ leaves t -> x ∈ addrs t.
Proof.
  induction t as [a rs|a cs IH] using tree_rect_nested; intros H; [done|].
  rewrite addrs_node. apply list_elem_of_further. cbn [leaves] in H.
  apply list_elem_of_In, in_concat in H as (l & Hl & Hx).
  apply in_map_iff in Hl as (c & <- & Hc). apply (kid_addrs cs c).
  - by apply list_elem_of_In.
  - apply (proj1 (Forall_forall _ _) IH); by apply list_elem_of_In.
Qed.

(** ** Search and insertion refine the sorted list *)

Lemma find_leaf_page_ok t g q :
  wf t g -> is_key q = true ->
  exists ctx a rs lo' hi', g = plug ctx (Leaf a rs) /\ find_leaf_page q t = Ok (a, t) /\
    ctx_ok rmin rmax ctx lo' hi' /\ lo' <= rank q < hi' /\ ordered lo' hi' (Leaf a rs).
Proof.
  intros [[S1 S2 S3 S4 S5] _] Hq.
  pose proof (addrs_le_size _ _ S2 S3) as Hle. pose proof (depth_le_addrs g) as Hd.
  destruct (descend_spec q g t rmin rmax (page_fuel t)) as
    (ctx & a & rs & lo' & hi' & -> & E & H1 & H2 & H3 & _); try done.
  - by apply key_in_range.
  - unfold page_fuel. lia.
  - exists ctx, a, rs, lo', hi'. split_and!; try done; try lia; try apply H3.
    unfold find_leaf_page. by rewrite S1.
Qed.

Lemma find_key_around q l1 l l2 :
  is_key q = true -> keys_ok l1 -> keys_ok l2 ->
  Forall (fun r => rank (key r) < rank q) l1 -> Forall (fun r => rank q < rank (key r)) l2 ->
  find_key q (l1 ++ l ++ l2) = find_key q l.
Proof.
  intros Hq K1 K2 F1 F2. rewrite !find_key_app.
  assert (find_key q l1 = None) as ->.
  { apply find_key_None; [done..|]. eapply Forall_impl; [exact F1|]. cbn. intros; lia. }
  assert (find_key q l2 = None) as ->.
  { apply find_key_None; [done..|]. eapply Forall_impl; [exact F2|]. cbn. intros; lia. }
  by destruct (find_key q l).
Qed.

(** The keys around the leaf that a search for [q] reaches. *)
Lemma leaf_around g ctx a rs lo' hi' q :
  ordered rmin rmax g -> g = plug ctx (Leaf a rs) -> ctx_ok rmin rmax ctx lo' hi' ->
  is_key q = true -> lo' <= rank q < hi' ->
  keys_ok (before flatten ctx) /\ keys_ok (after flatten ctx) /\
  Forall (fun r => rank (key r) < rank q) (before flatten ctx) /\
  Forall (fun r => rank q < rank (key r)) (after flatten ctx) /\
  find_key q (flatten g) = find_key q rs.
Proof.
  intros Ho -> Hc Hq Hb. destruct (around_hole _ _ _ _ _ q Hc Hq Hb) as [F1 F2].
  apply flatten_ordered in Ho as (_ & K & _). rewrite flatten_plug in *.
  rewrite !keys_ok_app in K. destruct K as (K1 & K2 & K3).
  split_and!; try done. by apply find_key_around.
Qed.

Lemma find_ok t g q :
  wf t g -> is_key q = true -> find q t = Ok (val <$> find_key q (flatten g), t).
Proof.
  intros Hwf Hq. destruct (find_leaf_page_ok t g q Hwf Hq) as (ctx & a & rs & lo' & hi' & E & Ef & Hc & Hb & Ho).
  destruct Hwf as [[S1 S2 S3 S4 S5] _].
  destruct (leaf_around g ctx a rs lo' hi' q S5 E Hc Hq Hb) as (_ & _ & _ & _ & ->).
  subst g. apply rep_plug in S2 as [S2 _]. apply rep_leaf in S2 as [(p & Hp & Hok & Hl & Ha) _].
  unfold find. rewrite (bind_step _ _ _ _ _ Ef). rewrite (ld_step _ _ _ p) by done.
  unfold lift. rewrite leaf_lookup_spec; rewrite ?Ha; try done; apply Ho.
Qed.

Lemma within_upsert lo hi k v rs :
  is_key k = true -> keys_ok rs -> sorted_recs rs -> within lo hi rs -> lo <= rank k < hi ->
  within lo hi (recs_upsert k v rs).
Proof.
  intros Hk K S W Hb. unfold within in *.
  destruct (recs_upsert_cases k v rs Hk K S) as [(l1 & r & l2 & -> & E & _ & -> & _)|(_ & -> & _ & _)].
  - rewrite Forall_app, Forall_cons in *. cbn. naive_solver.
  - rewrite <- (take_drop (rank_below k rs) rs) in W. rewrite Forall_app, Forall_cons in *.
    cbn. naive_solver.
Qed.

(** The page of the leaf takes the record; the rest of the heap is as before. *)
Lemma leaf_insert st ctx a rs k v :
  rep (pages st) (plug ctx (Leaf a rs)) -> NoDup (addrs (plug ctx (Leaf a rs))) ->
  is_key k = true -> keys_ok rs -> sorted_recs rs -> v <> nullptr ->
  exists p p' pay n, pages st !! a = Some p /\ rec_num p = Z.of_nat (length rs) /\
    insert_in_node p k v = Ok (p', pay, n) /\
    page_at (pages (with_page st a p')) a true (recs_upsert k v rs) /\
    ctx_rep (pages (with_page st a p')) ctx a /\
    (forall x, link (pages (with_page st a p')) x = link (pages st) x) /\
    n = rec_num p' /\ rec_num p' = Z.of_nat (length (recs_upsert k v rs)) /\
    match find_key k rs with
    | Some _ => pay = INT64_MAX /\ n = rec_num p
    | None => pay = v /\ n = rec_num p + 1
    end.
Proof.
  intros Hr Hn Hk K S Hv. apply rep_plug in Hr as [Hr Hc].
  apply rep_leaf in Hr as [(p & Hp & Hok & Hl & Ha) Hroom]. cbn [addr] in Hc.
  pose proof (active_length p Hok) as Hlen. rewrite Ha in Hlen. pose proof (ok_num p Hok) as Hnum.
  unfold room in Hroom.
  destruct (insert_in_node_spec p k v) as (p' & pay & n & E & Hok' & EA & En & Eh & Hm);
    rewrite ?Ha; try done; [lia|].
  rewrite Ha in EA, Hm. exists p, p', pay, n.
  pose proof (active_length p' Hok') as Hlen'. rewrite EA in Hlen'. pose proof (ok_num p' Hok').
  split_and!; try done; [lia| | | |lia].
  - exists p'. cbn. rewrite lookup_insert_eq. split_and!; try done. by rewrite Eh.
  - apply (ctx_rep_frame (pages st)); try done.
    + intros x Hx. cbn. rewrite shape_insert, up_insert. rewrite decide_False; [rewrite decide_False; [done|]|];
        intros ->; rewrite addrs_plug in Hn; apply NoDup_cons in Hn as [Hn _]; done.
    + intros _. cbn. rewrite up_insert, decide_True by done. unfold up. by rewrite Hp, Eh.
    + rewrite addrs_plug in Hn. by apply NoDup_app in Hn as (_ & _ & Hn).
  - intros x. cbn. heap_views. subst x. unfold link. by rewrite Hp, Eh.
Qed.

Lemma leaves_sublist t : leaves t `sublist_of` addrs t.
Proof.
  induction t as [a rs|a cs IH] using tree_rect_nested; [done|].
  rewrite addrs_node. apply sublist_cons. cbn [leaves].
  induction IH as [|[k c] cs Hc _ IHcs]; [done|].
  rewrite kids_addrs_cons. cbn [map concat]. by apply sublist_app.
Qed.

(** A leaf of a full page becomes two leaves in order. *)
Lemma ordered_halves lo hi a b rs :
  ordered lo hi (Leaf a rs) -> length rs = Z.to_nat cardinality ->
  exists r rest, drop half rs = r :: rest /\ is_key (key r) = true /\ lo < rank (key r) < hi /\
    ordered lo (rank (key r)) (Leaf a (take half rs)) /\
    ordered (rank (key r)) hi (Leaf b (drop half rs)).
Proof.
  intros (S & K & W) Hlen. cbn [ordered]. rewrite cardinality_13 in Hlen.
  destruct rs as [|r0 rs]; [done|]. destruct (drop half (r0 :: rs)) as [|r rest] eqn:Ed.
  { assert (length (drop half (r0 :: rs)) = 0%nat) as Hl by (by rewrite Ed).
    rewrite length_drop, Hlen in Hl. unfold half in Hl. lia. }
  pose proof (take_drop half (r0 :: rs)) as E. rewrite Ed in E.
  rewrite <- E in S, K, W. apply sorted_app_inv in S as (S1 & S2 & S3).
  rewrite keys_ok_app, keys_ok_cons in K. destruct K as (K1 & Kr & K2).
  apply Forall_app in W as [W1 W2]. apply Forall_cons in W2 as [Wr W2].
  inversion S2 as [|? ? F S4]; subst.
  pose proof (S3 r0 r (list_elem_of_here _ _) (list_elem_of_here _ _)) as Hr0.
  assert (lo <= rank (key r0)) as Hlo.
  { cbn [half take] in W1. apply Forall_cons in W1 as [[W1 _] _]. done. }
  exists r, rest. split_and!; try done; try lia.
  - apply Forall_forall. intros q Hq. pose proof (proj1 (Forall_forall _ _) W1 q Hq) as Hw.
    pose proof (S3 q r Hq (list_elem_of_here _ _)). cbn in Hw. lia.
  - by constructor.
  - constructor; [lia|]. apply Forall_forall. intros q Hq.
    pose proof (proj1 (Forall_forall _ _) F q Hq). pose proof (proj1 (Forall_forall _ _) W2 q Hq).
    cbn in *. lia.
Qed.

Lemma insert_up_ok st ctx t1 k t2 lo hi :
  pending st ctx t1 k t2 lo hi ->
  exists st', insert_up (addr t1) k (addr t2) st = Ok (tt, st') /\ absorbed st st' ctx t1 t2 lo hi.
Proof.
  intros Hp. unfold insert_up. apply insert_into_parent_ok; [done|].
  destruct Hp as [P1 P2 P3 PC P4 P5 _ _]. unfold page_fuel.
  pose proof (ctx_le_addrs ctx t1) as H1.
  pose proof (addrs_le_size (pages st) (plug ctx t1)) as H2.
  assert (length (addrs (plug ctx t1)) <= size (pages st))%nat; [|lia].
  apply H2; [by apply rep_plug|]. rewrite addrs_plug.
  apply NoDup_app in P4 as (N1 & Nd & N2). apply NoDup_app in N2 as (_ & _ & N2).
  apply NoDup_app. split_and!; try done. intros x Hx Hx'. apply (Nd x Hx).
  apply elem_of_app. by right.
Qed.

(** The neighbours of a leaf that takes one more record. *)
Lemma split_neighbour t g ctx a rs :
  wf t g -> g = plug ctx (Leaf a rs) ->
  exists prev, link (pages t) a = Some (prev, head_or (after leaves ctx) nullptr) /\
    let next := head_or (after leaves ctx) nullptr in
    next = nullptr \/
    (next <> nullptr /\ next <> a /\ next <> fresh t /\ is_Some (pages t !! next)).
Proof.
  intros [[S1 S2 S3 S4 S5] Hlk] ->. rewrite leaves_plug in Hlk.
  destruct (linked_at _ _ _ _ _ _ Hlk) as [prev Hprev]. exists prev. split; [done|].
  destruct (after leaves ctx) as [|b l] eqn:Ea; [by left|right]. cbn [head_or].
  assert (Hb : b ∈ leaves (plug ctx (Leaf a rs))).
  { rewrite leaves_plug, Ea, !elem_of_app, elem_of_cons. auto. }
  pose proof (leaves_in_addrs _ _ Hb) as Hb'.
  pose proof (proj1 (Forall_forall _ _) S4 _ Hb') as Hf. cbn in Hf.
  split_and!; [unfold nullptr; lia| |lia|by apply (rep_in_heap (pages t) (plug ctx (Leaf a rs)))].
  intros ->. pose proof (sublist_NoDup _ _ S3 (leaves_sublist (plug ctx (Leaf a rs)))) as Hn.
  rewrite leaves_plug, Ea in Hn. apply NoDup_app in Hn as (_ & _ & Hn).
  cbn in Hn. apply NoDup_cons in Hn as [Hn _]. apply Hn, list_elem_of_here.
Qed.

(** The leaf is full: it is split and the new leaf goes up. *)
Lemma upsert_splits t g ctx a rs rs' p' lo' hi' :
  wf t g -> g = plug ctx (Leaf a rs) -> ctx_ok rmin rmax ctx lo' hi' ->
  ordered lo' hi' (Leaf a rs') -> length rs' = Z.to_nat cardinality ->
  page_at (pages (with_page t a p')) a true rs' -> ctx_rep (pages (with_page t a p')) ctx a ->
  (forall x, link (pages (with_page t a p')) x = link (pages t) x) ->
  exists t' g', (sibling ← split a; k' ← first_record_key sibling; _ ← insert_up a k' sibling; mret 4)
      (with_page t a p') = Ok (4, t') /\
    wf t' g' /\ flatten g' = before flatten ctx ++ rs' ++ after flatten ctx.
Proof.
  intros Hwf Hg Hctx Ho Hlen (q & Hq & Hok & Hl & Ha) Hcr Hlk.
  destruct (split_neighbour t g ctx a rs Hwf Hg) as (prev & Hprev & Hnb).
  destruct Hwf as [[S1 S2 S3 S4 S5] Hlinked]. rewrite Hg in *.
  set (st1 := with_page t a p') in *. set (next := head_or (after leaves ctx) nullptr) in *.
  assert (Hq' : q = p') by (cbn in Hq; rewrite lookup_insert_eq in Hq; congruence). subst q.
  assert (Hfr : 0 < a < fresh t).
  { apply (proj1 (Forall_forall _ _) S4). rewrite addrs_plug. apply list_elem_of_here. }
  pose proof (active_length p' Hok) as Hal. rewrite Ha, Hlen in Hal. pose proof (ok_num p' Hok) as Hnum.
  assert (Hnext : next_leaf (hdr p') = next).
  { specialize (Hlk a). rewrite Hprev in Hlk. unfold link in Hlk. rewrite Hq in Hlk. by injection Hlk as _ ->. }
  destruct (split_leaf st1 a p') as (st2 & E & R1 & R2 & R3 & R4 & R5 & R6 & R7 & R8 & R9);
    try done; [lia|cbn; lia|cbn; lia| |].
  { rewrite Hnext. destruct Hnb as [|(N1 & N2 & N3 & N4)]; [by left|right]. split_and!; try done.
    cbn. by rewrite lookup_insert_ne. }
  change (fresh st1) with (fresh t) in *. rewrite Ha in R3, R4. rewrite Hnext in *.
  destruct (ordered_halves lo' hi' a (fresh t) rs' Ho Hlen) as (r & rest & Ed & Kr & Hr & O1 & O2).
  pose proof R4 as (p2 & Hp2 & Hok2 & _ & Hp2a). rewrite Ed in Hp2a.
  destruct (first_record_key_ok st2 (fresh t) p2 Hp2 Hok2) as (k0 & Ek & Hk0).
  rewrite (Hk0 _ _ Hp2a) in Ek.
  pose proof S3 as Hn. rewrite addrs_plug in Hn. apply NoDup_cons in Hn as [Ha1 Hn].
  pose proof S4 as Hf. rewrite addrs_plug in Hf. apply Forall_cons in Hf as [_ Hf]. cbn [addr] in *.
  assert (Hctxf : forall x, x ∈ ctx_addrs ctx -> x <> a /\ x <> fresh t).
  { intros x Hx. pose proof (proj1 (Forall_forall _ _) Hf x Hx). cbn in *. split; [by intros ->|lia]. }
  assert (Hpend : pending st2 ctx (Leaf a (take half rs')) (key r) (Leaf (fresh t) (drop half rs')) rmin rmax).
  { split; cbn [addr addrs subtrees map concat app].
    - rewrite R1. unfold st1. cbn. rewrite S1. by apply addr_plug.
    - apply rep_leaf. split; [done|]. unfold room. rewrite length_take, Hlen, cardinality_13. unfold half. lia.
    - apply rep_leaf. split; [done|]. unfold room. rewrite length_drop, Hlen, cardinality_13. unfold half. lia.
    - apply (ctx_rep_frame (pages st1)); try done.
      + intros x Hx. destruct (Hctxf x Hx). split; [by apply R5|by apply R6].
      + intros _. apply R6. lia.
    - constructor; [|constructor; [|done]].
      + rewrite elem_of_cons. intros [|]; [lia|done].
      + intros Hx. by destruct (Hctxf _ Hx).
    - rewrite R2. constructor; [lia|constructor; [lia|]]. eapply Forall_impl; [exact Hf|]. cbn. intros; lia.
    - done.
    - by exists lo', hi'. }
  destruct (insert_up_ok _ _ _ _ _ _ _ Hpend) as (st3 & E3 & g' & W1 & W2 & W3). cbn [addr] in E3.
  exists st3, g'. split; [|split; [split; [done|]|]].
  - rewrite (bind_step _ _ _ _ _ E), (bind_step _ _ _ _ _ Ek), (bind_step _ _ _ _ _ E3). done.
  - rewrite (W2 _ leaves) by done. cbn [leaves app].
    assert (Hlv : forall x, x ∈ leaves (plug ctx (Leaf a rs)) -> 0 < x < fresh t).
    { intros x Hx. apply (proj1 (Forall_forall _ _) S4). by apply leaves_in_addrs. }
    rewrite leaves_plug in Hlinked, Hlv. cbn [leaves app] in Hlinked, Hlv.
    apply (linked_same (pages st2)).
    + intros x Hx. apply W3. rewrite R2. rewrite elem_of_app, !elem_of_cons in Hx.
      pose proof (Hlv x) as Hx'. rewrite elem_of_app, elem_of_cons in Hx'. naive_solver lia.
    + apply (linked_insert (pages t)); try done.
      * pose proof (sublist_NoDup _ _ S3 (leaves_sublist (plug ctx (Leaf a rs)))) as Hnl.
        by rewrite leaves_plug in Hnl.
      * intros Hx. specialize (Hlv _ Hx). lia.
      * apply Forall_forall. intros x Hx. specialize (Hlv x Hx). unfold nullptr. lia.
      * split_and!; [|done|].
        -- intros y Hy. rewrite R7. rewrite <- Hlk in Hy. unfold link in Hy. rewrite Hq in Hy.
           by injection Hy as <-.
        -- intros x X1 X2 X3. by rewrite R9, Hlk by done.
  - rewrite (W2 _ flatten) by done. cbn [flatten]. by rewrite (app_assoc (take half rs')), take_drop.
Qed.

(** [upsert] is insertion into the sorted list of records. *)
Lemma upsert_ok t g k v :
  wf t g -> is_key k = true -> v <> nullptr ->
  exists t' g', upsert k v t =
      Ok (match find_key k (flatten g) with Some _ => 3 | None => 4 end, t') /\
    wf t' g' /\ flatten g' = recs_upsert k v (flatten g).
Proof.
  intros Hwf Hk Hv.
  destruct (find_leaf_page_ok t g k Hwf Hk) as (ctx & a & rs & lo' & hi' & Eg & Ef & Hctx & Hb & Ho).
  destruct (leaf_around g ctx a rs lo' hi' k) as (K1 & K2 & F1 & F2 & Efk); try done.
  { apply Hwf. }
  destruct Ho as (So & Ko & Wo). rewrite Efk.
  destruct Hwf as [[S1 S2 S3 S4 S5] Hlinked] eqn:Ewf. clear Ewf. rewrite Eg in S2, S3.
  destruct (leaf_insert t ctx a rs k v S2 S3 Hk Ko So Hv)
    as (p & p' & pay & n & Hp & Hnum & Ei & Hpage & Hcr & Hlk & En & Hn' & Hm).
  destruct (recs_upsert_keys k v rs Hk Ko So) as [Ko' So'].
  pose proof (within_upsert _ _ k v rs Hk Ko So Wo Hb) as Wo'.
  set (rs' := recs_upsert k v rs) in *. set (st1 := with_page t a p') in *.
  assert (Hflat : before flatten ctx ++ rs' ++ after flatten ctx = recs_upsert k v (flatten g)).
  { rewrite Eg, flatten_plug. symmetry. by apply recs_upsert_around. }
  assert (Hstay : room rs' -> wf st1 (plug ctx (Leaf a rs')) /\
    flatten (plug ctx (Leaf a rs')) = recs_upsert k v (flatten g)).
  { intros Hroom. split; [|by rewrite flatten_plug]. split; [split|].
    - unfold st1. cbn. rewrite S1, Eg. by apply addr_plug.
    - apply rep_plug. split; [by apply rep_leaf|done].
    - rewrite addrs_plug in S3 |- *. done.
    - rewrite Eg, addrs_plug in S4. by rewrite addrs_plug.
    - by eapply ctx_ok_plug.
    - apply (linked_same (pages t)); [by intros x _|]. rewrite Eg, leaves_plug in Hlinked.
      by rewrite leaves_plug. }
  unfold upsert. rewrite (bind_step _ _ _ _ _ Ef). rewrite (ld_step _ _ _ p) by done.
  rewrite (lift_step _ _ _ _ Ei). rewrite sd_step. fold st1.
  destruct (find_key k rs) as [r|] eqn:Er.
  - destruct Hm as [-> En2]. rewrite En2, Z.eqb_refl. cbn.
    eexists _, _. split; [reflexivity|]. apply Hstay. unfold room. rewrite <- Hn', <- En, En2, Hnum.
    apply rep_plug in S2 as [S2 _]. by apply rep_leaf in S2 as [_ S2].
  - destruct Hm as [-> En2]. rewrite (proj2 (Z.eqb_neq n (rec_num p))) by lia. rewrite Hn'.
    destruct (Z.leb_spec cardinality (Z.of_nat (length rs'))) as [Hfull|Hroom].
    + destruct (upsert_splits t g ctx a rs rs' p' lo' hi') as (t' & g' & E & Hw & Hf); try done.
      { assert (Hroom : room rs) by (apply rep_plug in S2 as [S2 _]; by apply rep_leaf in S2 as [_ S2]).
        unfold room in Hroom. lia. }
      exists t', g'. split_and!; try done; try apply Hw. by rewrite Hf.
    + eexists _, _. split; [reflexivity|]. by apply Hstay.
Qed.

Lemma new_tree_wf : wf new_tree (Leaf 1 []).
Proof.
  split; [split|]; cbn.
  - done.
  - apply rep_leaf. split; [|done]. exists (set_is_leaf (new_page 0) true).
    destruct (new_page_ok 0 true) as [H1 H2]. cbn. rewrite lookup_singleton_eq. done.
  - repeat constructor. apply not_elem_of_nil.
  - repeat constructor.
  - split_and!; constructor.
  - done.
Qed.

(** ** Scans *)

(** The leaves with their records. *)
Fixpoint leaf_recs (t : tree) : list (Z * list Record_) :=
  match t with
  | Leaf a rs => [(a, rs)]
  | Node _ cs => concat (map (fun c => leaf_recs c.2) cs)
  end.

Lemma leaf_recs_leaves t : map fst (leaf_recs t) = leaves t.
Proof.
  induction t as [a rs|a cs IH] using tree_rect_nested; [done|]. cbn.
  induction IH as [|c cs Hc _ IHcs]; [done|]. cbn. by rewrite map_app, Hc, IHcs.
Qed.

Lemma leaf_recs_flatten t : concat (map snd (leaf_recs t)) = flatten t.
Proof.
  induction t as [a rs|a cs IH] using tree_rect_nested; [cbn; apply app_nil_r|]. cbn.
  induction IH as [|c cs Hc _ IHcs]; [done|]. cbn. by rewrite map_app, concat_app, Hc, IHcs.
Qed.

Lemma leaf_recs_pages h t :
  rep h t -> Forall (fun l => page_at h l.1 true l.2) (leaf_recs t).
Proof.
  induction t as [a rs|a cs IH] using tree_rect_nested; intros H.
  - apply rep_leaf in H as [H _]. by repeat constructor.
  - apply rep_node in H as (_ & _ & _ & H). cbn. apply Forall_concat, Forall_map, Forall_forall.
    intros c Hc. apply (proj1 (Forall_forall _ _) IH c Hc). by apply (proj1 (Forall_forall _ _) H).
Qed.

(** [chain] reads the records of a run of linked leaves. *)
Lemma chain_ok st l : forall x fuel,
  linked (pages st) x (map fst l) nullptr ->
  Forall (fun a => a.1 <> nullptr /\ page_at (pages st) a.1 true a.2) l -> (length l < fuel)%nat ->
  chain fuel (head_or (map fst l) nullptr) st = Ok (concat (map snd l), st).
Proof.
  induction l as [|[a rs] l IH]; intros x [|fuel] Hl HF Hf; cbn [length] in Hf; try lia; [done|].
  apply Forall_cons in HF as [[Ha (p & Hp & _ & _ & Hact)] HF]. destruct Hl as [E Hl].
  cbn [map head_or fst chain]. cbn [fst] in *. rewrite (proj2 (Z.eqb_neq _ _) Ha).
  rewrite (ld_step _ _ _ p) by done. unfold link in E. rewrite Hp in E. injection E as _ En.
  rewrite En. rewrite (bind_step _ _ _ _ _ (IH a fuel Hl HF ltac:(lia))).
  cbn. by rewrite Hact.
Qed.

Lemma leftmost_ok g : forall st fuel,
  rep (pages st) g -> (exists lo hi, ordered lo hi g) -> (depth g < fuel)%nat ->
  leftmost fuel (addr g) st = Ok (head_or (leaves g) nullptr, st) /\ leaves g <> [].
Proof.
  induction g as [a rs|a cs IH] using tree_rect_nested; intros st [|fuel] Hr Ho Hf; try lia.
  - apply rep_leaf in Hr as ((p & Hp & _ & Hl & _) & _). cbn [leftmost addr].
    rewrite (ld_step _ _ _ p) by done. by rewrite Hl.
  - destruct Ho as (lo & hi & H). destruct cs as [|[k c] cs]; [done|].
    apply rep_node in Hr as ((p & Hp & Hok & Hl & Ha) & _ & _ & Hk).
    apply Forall_cons in Hk as [Hk _]. apply Forall_cons in IH as [IH _]. cbn [snd] in *.
    assert (exists lo hi, ordered lo hi c) as Hc.
    { cbn [ordered] in H. destruct cs as [|[k' c'] cs]; [by exists lo, hi|].
      apply kids_cons in H as (_ & _ & H & _). by eexists _, _. }
    destruct (IH st fuel Hk Hc) as [E Hne].
    { cbn [depth map foldr snd] in Hf. lia. }
    cbn [leftmost addr leaves map concat snd]. rewrite (ld_step _ _ _ p) by done. rewrite Hl.
    assert (Hr : records p !! 0%nat = Some (rec_of (k, c))).
    { pose proof (active_length p Hok) as Hlen. rewrite Ha in Hlen. cbn in Hlen.
      rewrite <- active_lookup by lia. by rewrite Ha. }
    rewrite (lift_step _ _ _ (rec_of (k, c))) by (by apply (zload_nat _ 0)).
    cbn [val rec_of addr snd]. rewrite E. destruct (leaves c) as [|b l]; done.
Qed.

Definition bindings (l : list Record_) : list (double * Z) := map (fun r => (key r, val r)) l.

(** The linked leaves from any one of them on. *)
Lemma chain_from t g l1 l2 :
  wf t g -> leaf_recs g = l1 ++ l2 ->
  chain (page_fuel t) (head_or (map fst l2) nullptr) t = Ok (concat (map snd l2), t).
Proof.
  intros [[S1 S2 S3 S4 S5] Hl] E. pose proof (leaf_recs_pages _ _ S2) as Hp.
  rewrite <- leaf_recs_leaves, E, map_app in Hl.
  assert (Hin : forall a, a ∈ map fst (leaf_recs g) -> 0 < a).
  { intros a Ha. rewrite leaf_recs_leaves in Ha.
    pose proof (proj1 (Forall_forall _ _) S4 a (leaves_in_addrs _ _ Ha)). cbn in *. lia. }
  assert (Hlen : (length (leaf_recs g) <= size (pages t))%nat).
  { rewrite <- (length_map fst), leaf_recs_leaves.
    etransitivity; [apply sublist_length, leaves_sublist|]. by apply addrs_le_size. }
  rewrite E, length_app in Hlen.
  assert (exists x, linked (pages t) x (map fst l2) nullptr) as [x Hx].
  { clear -Hl. revert Hl. generalize nullptr at 1. induction l1 as [|b l1 IH]; intros x H; [by exists x|].
    destruct H as [_ H]. by apply IH in H. }
  apply (chain_ok t l2 x); [done| |unfold page_fuel; lia].
  rewrite E in Hp. apply Forall_app in Hp as [_ Hp]. apply Forall_forall. intros a Ha. split.
  - assert (0 < a.1); [|unfold nullptr; lia]. apply Hin. rewrite E, map_app, elem_of_app. right.
    apply list_elem_of_fmap. by exists a.
  - by apply (proj1 (Forall_forall _ _) Hp).
Qed.

Lemma get_data_ok t g : wf t g -> get_data t = Ok (bindings (flatten g), t).
Proof.
  intros Hwf. pose proof (chain_from t g [] (leaf_recs g) Hwf eq_refl) as Hc.
  pose proof Hwf as [[S1 S2 S3 S4 S5] _]. pose proof (addrs_le_size _ _ S2 S3).
  pose proof (depth_le_addrs g).
  destruct (leftmost_ok g t (page_fuel t) S2) as [E _]; [by exists rmin, rmax|unfold page_fuel; lia|].
  unfold get_data. rewrite S1. rewrite (bind_step _ _ _ _ _ E).
  rewrite leaf_recs_leaves in Hc. rewrite (bind_step _ _ _ _ _ Hc). by rewrite leaf_recs_flatten.
Qed.

Lemma range_query_ok t g lo hi :
  wf t g -> is_key lo = true ->
  range_query lo hi t =
    Ok (bindings (filter (fun r => in_bounds lo hi r = true) (flatten g)), t).
Proof.
  intros Hwf Hlo.
  destruct (find_leaf_page_ok t g lo Hwf Hlo) as (ctx & a & rs & lo' & hi' & Eg & Ef & Hctx & Hb & Ho).
  destruct (leaf_around g ctx a rs lo' hi' lo) as (K1 & K2 & F1 & F2 & _); try done; [apply Hwf|].
  assert (El : leaf_recs g = before leaf_recs ctx ++ (a, rs) :: after leaf_recs ctx).
  { rewrite Eg. by apply (plug_around leaf_recs). }
  pose proof (chain_from t g _ _ Hwf El) as Hc. cbn [map head_or fst snd concat] in Hc.
  unfold range_query. rewrite (bind_step _ _ _ _ _ Ef), (bind_step _ _ _ _ _ Hc).
  rewrite <- (leaf_recs_flatten g), El, map_app, concat_app, !filter_app. cbn [map concat snd].
  rewrite (filter_none _ (concat (map snd (before leaf_recs ctx)))); [by rewrite app_nil_l, filter_app|].
  assert (concat (map snd (before leaf_recs ctx)) = before flatten ctx) as ->.
  { clear. induction ctx as [|f ctx IH]; [done|]. cbn. rewrite map_app, concat_app, IH. f_equal.
    unfold over. induction (f_left f) as [|c cs IHc]; [done|]. cbn.
    by rewrite map_app, concat_app, leaf_recs_flatten, IHc. }
  apply Forall_forall. intros r Hr Hin. unfold in_bounds in Hin.
  pose proof (proj1 (Forall_forall _ _) F1 r Hr) as Hlt. cbn in Hlt.
  pose proof (keys_ok_elem _ _ K1 Hr) as Kr. rewrite dle_rank in Hin by done. zb. lia.
Qed.

(** ** The finite map *)

Definition represents (t : btree_plus) (m : gmap Z Z) : Prop :=
  exists g, wf t g /\ forall k, is_key k = true -> val <$> find_key k (flatten g) = m !! rank k.

Lemma represents_new : represents new_tree ∅.
Proof. exists (Leaf 1 []). split; [apply new_tree_wf|]. intros k _. by rewrite lookup_empty. Qed.

Lemma represents_upsert t m k v :
  represents t m -> is_key k = true -> v <> nullptr ->
  exists t', upsert k v t = Ok (if decide (is_Some (m !! rank k)) then 3 else 4, t') /\
    represents t' (<[rank k := v]> m).
Proof.
  intros (g & Hwf & Hm) Hk Hv. destruct (upsert_ok t g k v Hwf Hk Hv) as (t' & g' & E & Hwf' & Ef).
  exists t'. split.
  - rewrite E, <- (Hm k Hk). destruct (find_key k (flatten g)); cbn;
      [rewrite decide_True by eauto|rewrite decide_False by (by intros [? ?])]; done.
  - exists g'. split; [done|]. intros q Hq. rewrite Ef.
    pose proof Hwf as [[_ _ _ _ Ho] _]. apply flatten_ordered in Ho as (S & K & _).
    rewrite find_key_upsert by done. destruct (Z.eqb_spec (rank q) (rank k)) as [->|Hne].
    + by rewrite lookup_insert_eq.
    + rewrite lookup_insert_ne by done. by apply Hm.
Qed.

Lemma represents_find t m k :
  represents t m -> is_key k = true -> find k t = Ok (m !! rank k, t).
Proof. intros (g & Hwf & Hm) Hk. rewrite (find_ok t g k Hwf Hk). by rewrite Hm. Qed.

(** The interface of the leaf nodes, on the program's own tree. *)
#[export] Instance btree_overflow : LeafNode.OverflowTree btree_plus := {|
  LeafNode.ot_new := new_tree;
  LeafNode.ot_upsert k v t := upsert k v t;
  LeafNode.ot_insert k v t := insert k v t;
  LeafNode.ot_delete k t := delete_entry k t;
  LeafNode.ot_find k t := fst <$> find k t;
  LeafNode.ot_range lo hi t := fst <$> range_query lo hi t;
  LeafNode.ot_data t := fst <$> get_data t
|}.

#[export] Instance btree_overflow_laws : LeafNode.OverflowTreeLaws btree_plus.
Proof.
  refine {| LeafNode.ot_rep := represents |}.
  - apply represents_new.
  - intros t m k v Hr Hk Hv. by apply represents_upsert.
  - intros t m k v Hr Hk Hv. destruct (represents_upsert t m k v Hr Hk Hv) as (t' & E & Hr').
    by eexists _, t'.
  - intros t m k Hr Hk. cbn. by rewrite (represents_find t m k).
Defined.

(** The map that a sequence of upserts describes. *)
Definition bound (m : gmap Z Z) (kv : double * Z) : gmap Z Z := <[rank kv.1 := kv.2]> m.

Lemma run_upserts ops : forall t m,
  represents t m -> Forall (fun kv => is_key kv.1 = true /\ kv.2 <> nullptr) ops ->
  exists t', run t (map (fun kv => Upsert kv.1 kv.2) ops) = Ok t' /\
    represents t' (foldl bound m ops).
Proof.
  induction ops as [|[k v] ops IH]; intros t m Hr HF; [by exists t|].
  apply Forall_cons in HF as [[Hk Hv] HF]. cbn [fst snd] in *.
  destruct (represents_upsert t m k v Hr Hk Hv) as (t1 & E & Hr1).
  destruct (IH t1 _ Hr1 HF) as (t' & E' & Hr'). exists t'. split; [|done].
  unfold run in *. cbn [map foldlM run_op fst snd]. rewrite E. mstep. exact E'.
Qed.

(** C3: after any sequence of upserts with non-zero payloads the tree of pages is a
    finite map: no operation faults, [find] returns the last payload of each key,
    [get_data] returns the bindings in key order, and [range_query] returns those of
    them that are in the range. *)
Theorem btree_refines_map (ops : list (double * Z)) :
  Forall (fun kv => is_key kv.1 = true /\ kv.2 <> nullptr) ops ->
  exists t l, run new_tree (map (fun kv => Upsert kv.1 kv.2) ops) = Ok t /\
    get_data t = Ok (bindings l, t) /\ sorted_recs l /\
    (forall q, is_key q = true ->
       find q t = Ok (foldl bound ∅ ops !! rank q, t) /\
       val <$> find_key q l = foldl bound ∅ ops !! rank q) /\
    (forall lo hi, is_key lo = true -> range_query lo hi t =
       Ok (bindings (filter (fun r => in_bounds lo hi r = true) l), t)).
Proof.
  intros HF. destruct (run_upserts ops new_tree ∅ represents_new HF) as (t & E & Hr).
  pose proof Hr as (g & Hwf & Hm). exists t, (flatten g). split_and!; [done| | | |].
  - by apply get_data_ok.
  - pose proof Hwf as [[_ _ _ _ Ho] _]. by apply flatten_ordered in Ho as (S & _).
  - intros q Hq. split; [by apply represents_find|by apply Hm].
  - intros lo hi Hlo. by apply range_query_ok.
Qed.

(** Forty keys, so that leaves and the root split, some of them twice. *)
Definition demo_ops : list (double * Z) :=
  map (fun i => (double_of_Z (i * 7 mod 40), i + 1)) (seqZ 0 45).

Lemma btree_refines_map_witness :
  exists t, run new_tree (map (fun kv => Upsert kv.1 kv.2) demo_ops) = Ok t /\
    find (double_of_Z 21) t = Ok (Some 44, t).
Proof.
  assert (HF : Forall (fun kv => is_key kv.1 = true /\ kv.2 <> nullptr) demo_ops).
  { apply (bool_decide_unpack _). vm_compute. exact I. }
  destruct (btree_refines_map demo_ops HF) as (t & l & E & _ & _ & Hf & _).
  exists t. split; [exact E|]. destruct (Hf (double_of_Z 21) eq_refl) as [-> _].
  vm_compute. reflexivity.
Defined.
