(* ===== verification/InnerNode.v ===== *)
(** * Inner nodes (core/index/inner_node.h)

    An inner node is a header and [8 * block_number] slots, each free or the
    accelerator of a child.  Nodes are in a map by address; an [InnerSlot *] is a
    [slot_ref]: a slot of an inner node or of the root array, which belongs to the
    index.  [inner_slots[--slot]] at slot 0 wraps around and is [UB]. *)

From S2P Require Import Prelude Doubles Rounding Slots.

Definition InnerSlotsPerBlock : Z := 8.

Record InnerNode : Type := mkInner {
  in_slope : double;
  in_intercept : float;
  in_block_number : Z;
  in_record_number : Z;
  in_first_key : double;
  in_level : Z;
  inner_slots : list InnerSlot
}.

Definition set_slots (n : InnerNode) (ss : list InnerSlot) : InnerNode :=
  mkInner (in_slope n) (in_intercept n) (in_block_number n) (in_record_number n)
    (in_first_key n) (in_level n) ss.

Inductive slot_ref : Type :=
| RootSlot (i : Z)
| NodeSlot (node : Z) (i : Z).

(** The comparison [predicted_block > block_number - 4] is made after a 32-bit
    unsigned subtraction. *)
Definition predict_block (key slope : double) (intercept : float) (bn : Z) : res Z :=
  pb ← to_int64 (ddiv (linear key slope intercept) (double_of_Z InnerSlotsPerBlock));
  if pb <? 0 then Ok 0
  else if u32 (bn - 4) <? pb then Ok (u32 (bn - 2))
  else Ok (u32 (pb + 1)).

Definition is_free (s : InnerSlot) : bool := deq (min_key s) FREE_FLAG.

Definition free_slot : InnerSlot := mkSlot FREE_FLAG 0 (double_of_Z 0) (double_of_Z 0) 0.

(** ** Construction *)

(** First free slot from index [i], looking at [n] slots. *)
Fixpoint free_from (n : nat) (i : Z) (ss : list InnerSlot) : res (option Z) :=
  match n with
  | O => Ok None
  | S n' =>
      s ← zload ss i;
      if is_free s then Ok (Some i) else free_from n' (i + 1) ss
  end.

(** [data_placement]: the predicted block, then every slot after it; [assert]
    fails when there is none (with NDEBUG the child is dropped). *)
Definition data_placement (n : InnerNode) (key : double) (node : InnerSlot) : res InnerNode :=
  block ← predict_block key (in_slope n) (in_intercept n) (in_block_number n);
  let slot := block * InnerSlotsPerBlock in
  r ← free_from (Z.to_nat InnerSlotsPerBlock) slot (inner_slots n);
  match r with
  | Some i => ss ← zstore (inner_slots n) i node; Ok (set_slots n ss)
  | None =>
      let from := slot + InnerSlotsPerBlock in
      let total := in_block_number n * InnerSlotsPerBlock in
      r ← free_from (Z.to_nat (total - from)) from (inner_slots n);
      match r with
      | Some i => ss ← zstore (inner_slots n) i node; Ok (set_slots n ss)
      | None => Err AssertFailed
      end
  end.

Definition place (n : InnerNode) (kn : double * InnerSlot) : res InnerNode :=
  data_placement n kn.1 kn.2.

(** The node before any placement: model of the segment, scaled and corrected. *)
Definition inner_header (bn : Z) (key0 keyn : double) (number start_pos : Z)
    (slope intercept : double) (level : Z) : InnerNode :=
  let d := double_of_Z in
  let sl := ddiv slope INNER_NODE_INIT_RATIO in
  let ic := float_of_double (ddiv (dsub (dsub intercept (d start_pos)) (dmul key0 slope))
              INNER_NODE_INIT_RATIO) in
  let '(sl, ic) :=
    model_correction sl ic (u64 (u32 (u32 bn - 3) * InnerSlotsPerBlock)) key0 keyn in
  mkInner sl ic (u32 bn) number key0 level
    (replicate (Z.to_nat (8 * u32 bn)) free_slot).

Definition inner_info (this : Z) (n : InnerNode) (acc : InnerSlot) : res InnerSlot :=
  s ← set_block_number (mkSlot (in_first_key n) this (in_slope n) (in_intercept n) (info acc))
        (in_block_number n);
  Ok (init_lock (set_type s 1)).

(** [InnerNode(accelerator, block_number, keys, nodes, number, start_pos, slope,
    intercept, level, rebuild)]; [children] is keys and nodes together. *)
Definition new_inner (this : Z) (acc : InnerSlot) (bn : Z) (children : list (double * InnerSlot))
    (number start_pos : nat) (slope intercept : double) (level : Z) : res (InnerNode * InnerSlot) :=
  c0 ← of_opt UB (children !! start_pos);
  cn ← zload children (Z.of_nat start_pos + Z.of_nat number - 1);
  let n := inner_header bn c0.1 cn.1 (Z.of_nat number) (Z.of_nat start_pos) slope intercept level in
  n ← foldlM place n (take number (drop start_pos children));
  acc ← inner_info this n acc;
  Ok (n, acc).

(** ** Search *)

(** [while (inner_slots[--slot].min_key == FREE_FLAG) {}] *)
Fixpoint search_left (slot : nat) (ss : list InnerSlot) : res nat :=
  match slot with
  | O => Err UB
  | S i =>
      s ← of_opt UB (ss !! i);
      if is_free s then search_left i ss else Ok i
  end.

(** [while (slot < slot_number && not free && key >= min_key) ++slot]; [n] bounds
    the slots left. *)
Fixpoint search_right (n : nat) (slot slot_number : nat) (key : double) (ss : list InnerSlot)
    : res nat :=
  match n with
  | O => Ok slot
  | S n' =>
      if (slot <? slot_number)%nat then
        s ← of_opt UB (ss !! slot);
        if negb (is_free s) && dle (min_key s) key
        then search_right n' (S slot) slot_number key ss
        else Ok slot
      else Ok slot
  end.

(** The slot for a key, from its predicted slot. *)
Definition search_slot (slot slot_number : nat) (key : double) (ss : list InnerSlot) : res nat :=
  s ← of_opt UB (ss !! slot);
  if is_free s || dlt key (min_key s) then search_left slot ss
  else
    r ← search_right (length ss) slot slot_number key ss;
    Ok (r - 1)%nat.

Definition predicted_slot (key : double) (acc : InnerSlot) : res nat :=
  block ← predict_block key (slope acc) (intercept acc) (block_number acc);
  Ok (Z.to_nat (block * InnerSlotsPerBlock)).

(** Returns the slot as a reference. *)
Fixpoint find_leaf_node (fuel : nat) (h : gmap Z InnerNode) (a : Z) (key : double)
    (acc : InnerSlot) : res slot_ref :=
  match fuel with
  | O => Err OutOfFuel
  | S fuel' =>
      n ← of_opt UB (h !! a);
      slot ← predicted_slot key acc;
      let slot_number := Z.to_nat (u32 (block_number acc * InnerSlotsPerBlock)) in
      i ← search_slot slot slot_number key (inner_slots n);
      s ← of_opt UB (inner_slots n !! i);
      if type s =? 1 then find_leaf_node fuel' h (ptr s) key s
      else Ok (NodeSlot a (Z.of_nat i))
  end.

(** ** Insertion of a node *)

(** [while (inner_slots[++target].min_key <= key) {}] *)
Fixpoint target_from (n : nat) (target : nat) (key : double) (ss : list InnerSlot) : res nat :=
  match n with
  | O => Err UB
  | S n' =>
      s ← of_opt UB (ss !! S target);
      if dle (min_key s) key then target_from n' (S target) key ss else Ok (S target)
  end.

(** [for (; slot > target; --slot) inner_slots[slot] = inner_slots[slot - 1];] *)
Fixpoint shift_up (n : nat) (slot : nat) (ss : list InnerSlot) : list InnerSlot :=
  match n with
  | O => ss
  | S n' =>
      match ss !! (slot - 1)%nat with
      | Some s => shift_up n' (slot - 1) (<[slot := s]> ss)
      | None => ss
      end
  end.

(** 1: updated, 2: inserted in the predicted block, 3: no room.  The accelerator's
    word goes through [get_lock] and [release_lock]. *)
Definition upsert_here (n : InnerNode) (slot predicted : nat) (node : InnerSlot) (acc : InnerSlot)
    : res (Z * InnerNode * InnerSlot) :=
  s ← of_opt UB (inner_slots n !! slot);
  if deq (min_key s) (min_key node) then
    acc ← of_opt OutOfFuel (get_lock acc);
    Ok (1, set_slots n (<[slot := node]> (inner_slots n)), release_lock acc)
  else
    last ← of_opt UB (inner_slots n !! (predicted + 7)%nat);
    if is_free last then
      acc ← of_opt OutOfFuel (get_lock acc);
      target ← (if (predicted <=? slot)%nat
                then target_from (length (inner_slots n)) predicted (min_key node) (inner_slots n)
                else Ok predicted);
      top ← search_left (predicted + 7) (inner_slots n);
      let ss := shift_up (S top - target) (S top) (inner_slots n) in
      Ok (2, set_slots n (<[target := node]> ss), release_lock acc)
    else Ok (3, n, acc).

(** The slot array of a node, or the root array, holds the accelerator: the caller
    passes it by reference, so it is returned. *)
Fixpoint upsert_node (fuel : nat) (h : gmap Z InnerNode) (a : Z) (node acc : InnerSlot)
    : res (Z * gmap Z InnerNode * InnerSlot) :=
  match fuel with
  | O => Err OutOfFuel
  | S fuel' =>
      n ← of_opt UB (h !! a);
      predicted ← predicted_slot (min_key node) acc;
      let slot_number := Z.to_nat (u32 (block_number acc * InnerSlotsPerBlock)) in
      slot ← search_slot predicted slot_number (min_key node) (inner_slots n);
      s ← of_opt UB (inner_slots n !! slot);
      if type s =? 1 then
        '(code, h, s) ← upsert_node fuel' h (ptr s) node s;
        n ← of_opt UB (h !! a);
        Ok (code, <[a := set_slots n (<[slot := s]> (inner_slots n))]> h, acc)
      else
        '(code, n, acc) ← upsert_here n slot predicted node acc;
        Ok (code, <[a := n]> h, acc)
  end.

(** ** Leftmost leaf and destruction *)

Fixpoint get_leftmost_leaf (fuel : nat) (h : gmap Z InnerNode) (a : Z) : res Z :=
  match fuel with
  | O => Err OutOfFuel
  | S fuel' =>
      n ← of_opt UB (h !! a);
      s ← of_opt UB (find_first (fun s => negb (is_free s)) (inner_slots n));
      if type s =? 0 then Ok (ptr s) else get_leftmost_leaf fuel' h (ptr s)
  end.

(** Frees the node and, above level 1, the nodes below it. *)
Fixpoint destroy (fuel : nat) (h : gmap Z InnerNode) (a : Z) : res (gmap Z InnerNode) :=
  match fuel with
  | O => Err OutOfFuel
  | S fuel' =>
      n ← of_opt UB (h !! a);
      h ← (if 1 <? in_level n
           then foldlM (fun h s => if is_free s then Ok h else destroy fuel' h (ptr s)) h (inner_slots n)
           else Ok h);
      Ok (delete a h)
  end.

(** ** The cache predicts what the nodes predict *)

(** [local_model::predict_block] and [InnerNode::predict_block] are the same
    function; a slot of the predicted block is a slot of the node. *)
Lemma inner_predict_range key sl ic bn b :
  4 <= bn < 2 ^ 32 -> predict_block key sl ic bn = Ok b -> 0 <= b <= bn - 2.
Proof.
  unfold predict_block. intros Hbn H. apply bind_ok in H as (pb & _ & H).
  rewrite (u32_small (bn - 4)), (u32_small (bn - 2)) in H by lia.
  destruct (Z.ltb_spec pb 0); [injection H as <-; lia|].
  destruct (Z.ltb_spec (bn - 4) pb); [injection H as <-; lia|].
  rewrite u32_small in H by lia. injection H as <-. lia.
Qed.

(** ** Layout *)

(** [P k] is the predicted slot of the key [k].  The used slots are in key order,
    and each key lies in or after its predicted slot with no free slot between. *)
Section Layout.
Variable P : double -> option nat.

Definition used (ss : list InnerSlot) (i : nat) (s : InnerSlot) : Prop :=
  ss !! i = Some s /\ is_free s = false.

Record layout (ss : list InnerSlot) : Prop := {
  lay_keys : forall i s, used ss i s -> is_key (min_key s) = true;
  lay_sorted : forall i j s t, (i < j)%nat -> used ss i s -> used ss j t ->
    rank (min_key s) < rank (min_key t);
  lay_near : forall j t, used ss j t -> exists p, P (min_key t) = Some p /\ (p <= j)%nat /\
    forall i, (p <= i <= j)%nat -> exists s, used ss i s
}.

(** The prediction is monotone between two keys. *)
Definition mono (k k' : double) : Prop :=
  forall p p', rank k <= rank k' -> P k = Some p -> P k' = Some p' -> (p <= p')%nat.

(** Reference search: the last used slot whose key is at most the query. *)
Definition is_last_le (q : double) (ss : list InnerSlot) (i : nat) (s : InnerSlot) : Prop :=
  used ss i s /\ rank (min_key s) <= rank q /\
  forall j t, (i < j)%nat -> used ss j t -> rank q < rank (min_key t).

Lemma search_left_spec ss i s p :
  used ss i s -> (i < p)%nat -> (p <= length ss)%nat ->
  (forall j t, (i < j < p)%nat -> ~ used ss j t) ->
  search_left p ss = Ok i.
Proof.
  intros [Hs Hf]. induction p as [|p IH]; intros Hi Hp Hno; [lia|]. cbn [search_left].
  destruct (decide (i = p)) as [->|Hne].
  - rewrite Hs. mstep. by rewrite Hf.
  - destruct (lookup_lt_is_Some_2 ss p) as [t Ht]; [lia|]. rewrite Ht. mstep.
    destruct (is_free t) eqn:E; [|exfalso; apply (Hno p t); [lia|done]].
    apply IH; [lia|lia|]. intros j x Hj. apply Hno. lia.
Qed.

Lemma search_right_spec ss q n i p :
  is_key q = true -> layout ss -> (i < length ss)%nat -> (p <= i)%nat -> (i < p + n)%nat ->
  (forall j, (p <= j <= i)%nat -> exists s, used ss j s /\ rank (min_key s) <= rank q) ->
  (forall j t, (i < j)%nat -> used ss j t -> rank q < rank (min_key t)) ->
  search_right n p (length ss) q ss = Ok (S i).
Proof.
  intros Hq Hlay Hi. revert p. induction n as [|n IH]; intros p Hpi Hn Hin Hout; [lia|].
  cbn [search_right].
  destruct (Nat.ltb_spec p (length ss)); [|lia].
  destruct (Hin p) as (s & [Hs Hf] & Hle); [lia|]. rewrite Hs. mstep. rewrite Hf.
  assert (Ks : is_key (min_key s) = true) by (by apply (lay_keys _ Hlay p)).
  rewrite dle_rank by done. destruct (Z.leb_spec (rank (min_key s)) (rank q)); [|lia]. cbn [andb negb].
  destruct (decide (p = i)) as [->|Hne].
  - destruct n as [|n]; [done|]. cbn [search_right].
    destruct (Nat.ltb_spec (S i) (length ss)) as [Hlt|]; [|done].
    destruct (lookup_lt_is_Some_2 ss (S i) Hlt) as [t Ht]. rewrite Ht. mstep.
    destruct (is_free t) eqn:E; [done|]. cbn [andb negb].
    assert (Kt : is_key (min_key t) = true) by (by apply (lay_keys _ Hlay (S i))).
    specialize (Hout (S i) t ltac:(lia) (conj Ht E)). rewrite dle_rank by done.
    by destruct (Z.leb_spec (rank (min_key t)) (rank q)); [lia|].
  - apply (IH (S p)); try done; try lia. intros j Hj. apply Hin. lia.
Qed.

(** The search from the predicted slot finds the reference slot. *)
Lemma search_slot_spec ss q p i s :
  layout ss -> is_key q = true -> P q = Some p -> (p < length ss)%nat ->
  (forall j t, used ss j t -> mono (min_key t) q /\ mono q (min_key t)) ->
  is_last_le q ss i s -> search_slot p (length ss) q ss = Ok i.
Proof.
  intros Hlay Hq Hp Hlen Hmono (Hi & Hle & Hlast).
  destruct (lay_near _ Hlay i s Hi) as (pi & Hpi & Hpii & Hrun).
  assert (Hpp : (pi <= p)%nat) by (by apply (proj1 (Hmono i s Hi) pi p)).
  assert (Hil : (i < length ss)%nat) by (by eapply lookup_lt_Some, Hi).
  unfold search_slot. destruct (lookup_lt_is_Some_2 ss p Hlen) as [t Ht]. rewrite Ht. mstep.
  destruct (Nat.le_gt_cases p i) as [Hpi2|Hpi2].
  - destruct (Hrun p) as [t' [Ht' Hf]]; [lia|]. assert (t' = t) by congruence. subst t'.
    assert (Hin : forall j, (p <= j <= i)%nat -> exists s, used ss j s /\ rank (min_key s) <= rank q).
    { intros j Hj. destruct (Hrun j) as [u Hu]; [lia|]. exists u. split; [done|].
      destruct (decide (j = i)) as [->|]; [destruct Hu, Hi; congruence|].
      pose proof (lay_sorted _ Hlay j i u s ltac:(lia) Hu Hi). lia. }
    destruct (Hin p) as (u & [Hu Hfu] & Hule); [lia|]. assert (u = t) by congruence. subst u.
    assert (Kt : is_key (min_key t) = true) by (by apply (lay_keys _ Hlay p)).
    rewrite Hf, dlt_rank by done. destruct (Z.ltb_spec (rank q) (rank (min_key t))); [lia|]. cbn [orb].
    rewrite (search_right_spec ss q (length ss) i p) by (done || lia).
    mstep. f_equal. lia.
  - assert (is_free t || dlt q (min_key t) = true) as ->.
    { destruct (is_free t) eqn:Ef; [done|]. cbn [orb].
      assert (Hu : used ss p t) by done.
      pose proof (lay_keys _ Hlay p t Hu). specialize (Hlast p t Hpi2 Hu).
      rewrite dlt_rank by done. apply Z.ltb_lt. lia. }
    apply (search_left_spec ss i s); try done; [lia|].
    intros j u Hj Hu. destruct (lay_near _ Hlay j u Hu) as (pu & Hpu & Hpuj & _).
    specialize (Hlast j u ltac:(lia) Hu).
    pose proof (proj2 (Hmono j u Hu) p pu ltac:(lia) Hp Hpu). lia.
Qed.

(** ** Placement keeps the layout *)

Lemma free_from_spec n i ss :
  (i + n <= length ss)%nat ->
  match free_from n (Z.of_nat i) ss with
  | Ok (Some j) => exists k s, j = Z.of_nat k /\ (i <= k < i + n)%nat /\ ss !! k = Some s /\
      is_free s = true /\ forall x, (i <= x < k)%nat -> exists t, used ss x t
  | Ok None => forall x, (i <= x < i + n)%nat -> exists t, used ss x t
  | Err _ => False
  end.
Proof.
  revert i. induction n as [|n IH]; intros i Hlen; cbn [free_from].
  { intros x Hx. lia. }
  destruct (lookup_lt_is_Some_2 ss i) as [s Hs]; [lia|]. rewrite (zload_nat _ _ _ Hs). mstep.
  destruct (is_free s) eqn:E.
  { exists i, s. split_and!; try done; try lia. }
  replace (Z.of_nat i + 1) with (Z.of_nat (S i)) by lia.
  specialize (IH (S i) ltac:(lia)). destruct (free_from n (Z.of_nat (S i)) ss) as [[j|]|]; [| |done].
  - destruct IH as (k & t & -> & Hk & Ht & Hf & Hx). exists k, t. split_and!; try done; try lia.
    intros x Hx'. destruct (decide (x = i)) as [->|]; [by exists s|]. apply Hx. lia.
  - intros x Hx'. destruct (decide (x = i)) as [->|]; [by exists s|]. apply IH. lia.
Qed.

Lemma layout_fill ss k p i s0 node :
  layout ss -> is_key k = true -> min_key node = k -> is_free node = false -> P k = Some p ->
  (p <= i)%nat -> ss !! i = Some s0 -> is_free s0 = true ->
  (forall x, (p <= x < i)%nat -> exists t, used ss x t) ->
  (forall j t, used ss j t -> rank (min_key t) < rank k /\ mono (min_key t) k) ->
  layout (<[i := node]> ss).
Proof.
  intros Hlay Hk Hmk Hnf Hp Hpi Hs0 Hf Hrun Hless.
  assert (Hil : (i < length ss)%nat) by (by eapply lookup_lt_Some).
  assert (Hbefore : forall j t, used ss j t -> (j < i)%nat).
  { intros j t Hu. destruct (Nat.lt_trichotomy j i) as [|[->|Hgt]]; [done| |exfalso].
    - destruct Hu as [Hu1 Hu2]. congruence.
    - destruct (lay_near _ Hlay j t Hu) as (pj & Hpj & _ & Hall).
      destruct (Hless j t Hu) as [Hlt Hm]. pose proof (Hm pj p ltac:(lia) Hpj Hp).
      destruct (Hall i) as [u [Hu1 Hu2]]; [lia|]. congruence. }
  assert (Hused : forall j t, used (<[i := node]> ss) j t <-> (j = i /\ t = node) \/ (used ss j t)).
  { intros j t. unfold used. destruct (decide (j = i)) as [->|Hne].
    - rewrite list_lookup_insert_eq by done. naive_solver congruence.
    - rewrite list_lookup_insert_ne by done. naive_solver. }
  split.
  - intros j t [[-> ->]|Hu]%Hused; [by rewrite Hmk|by apply (lay_keys _ Hlay j)].
  - intros j j' t t' Hj [[-> ->]|Hu]%Hused [[-> ->]|Hu']%Hused; try lia.
    + apply Hbefore in Hu'. lia.
    + rewrite Hmk. apply (Hless j t Hu).
    + by apply (lay_sorted _ Hlay j j').
  - intros j t [[-> ->]|Hu]%Hused.
    + exists p. rewrite Hmk. split_and!; try done. intros x Hx.
      destruct (decide (x = i)) as [->|]; [exists node; apply Hused; by left|].
      destruct (Hrun x) as [u Hu]; [lia|]. exists u. apply Hused. by right.
    + destruct (lay_near _ Hlay j t Hu) as (pj & Hpj & Hle & Hall). exists pj. split_and!; try done.
      intros x Hx. destruct (Hall x Hx) as [u Hux]. exists u. apply Hused. by right.
Qed.
End Layout.

(** ** The constructed node *)

(** The predicted slot under a node's model. *)
Definition node_pred (sl : double) (ic : float) (bn : Z) (k : double) : option nat :=
  match predict_block k sl ic bn with
  | Ok b => Some (Z.to_nat (b * InnerSlotsPerBlock))
  | Err _ => None
  end.
Definition pred_of (n : InnerNode) : double -> option nat :=
  node_pred (in_slope n) (in_intercept n) (in_block_number n).

Record node_ok (n : InnerNode) (done : list (double * InnerSlot)) : Prop := {
  no_number : 4 <= in_block_number n < 2 ^ 29;
  no_length : length (inner_slots n) = Z.to_nat (8 * in_block_number n);
  no_layout : layout (pred_of n) (inner_slots n);
  no_used : forall i s, used (inner_slots n) i s -> exists c, c ∈ done /\ s = c.2;
  no_done : forall c, c ∈ done -> exists i, used (inner_slots n) i c.2
}.

(** The model is a finite line that does not fall. *)
Definition line (n : InnerNode) : bool := rising (in_slope n) && usable (in_intercept n).

(** Then the prediction is monotone: every rounding of it is. *)
Lemma predict_block_mono k k' sl ic bn b b' :
  rising sl = true -> usable ic = true -> finite k = true -> finite k' = true -> rank k <= rank k' ->
  4 <= bn < 2 ^ 32 ->
  predict_block k sl ic bn = Ok b -> predict_block k' sl ic bn = Ok b' -> b <= b'.
Proof.
  intros Hs Hu Hk Hk' Hle Hbn H H'. apply bind_ok in H as (a & Ha & H), H' as (a' & Ha' & H').
  pose proof (position_mono InnerSlotsPerBlock eq_refl eq_refl k k' sl ic a a' Hs Hu Hk Hk' Hle Ha Ha').
  rewrite (u32_small (bn - 4)), (u32_small (bn - 2)) in H, H' by lia.
  destruct (Z.ltb_spec a 0), (Z.ltb_spec a' 0), (Z.ltb_spec (bn - 4) a), (Z.ltb_spec (bn - 4) a');
    rewrite ?(u32_small (a + 1)) in H by lia; rewrite ?(u32_small (a' + 1)) in H' by lia; simplify_eq; lia.
Qed.

Lemma pred_mono n k k' :
  4 <= in_block_number n < 2 ^ 29 -> line n = true -> finite k = true -> finite k' = true ->
  mono (pred_of n) k k'.
Proof.
  intros Hbn [Hr Hu]%andb_true_iff Hk Hk' p p' Hle. unfold pred_of, node_pred, InnerSlotsPerBlock.
  destruct (predict_block k _ _ _) as [b|] eqn:E; [|done]. destruct (predict_block k' _ _ _) as [b'|] eqn:E'; [|done].
  pose proof (fun H => predict_block_mono _ _ _ _ _ _ _ Hr Hu Hk Hk' Hle H E E') as Hb.
  specialize (Hb ltac:(lia)). intros [= <-] [= <-]. lia.
Qed.

(** A child: its key is finite and is the key of its slot. *)
Definition child_ok (c : double * InnerSlot) : Prop :=
  finite c.1 = true /\ min_key c.2 = c.1 /\ is_free c.2 = false.

Lemma pred_range n k p :
  4 <= in_block_number n < 2 ^ 29 -> pred_of n k = Some p ->
  (p + 16 <= Z.to_nat (8 * in_block_number n))%nat /\
  exists b, predict_block k (in_slope n) (in_intercept n) (in_block_number n) = Ok b /\
    0 <= b /\ p = Z.to_nat (b * 8).
Proof.
  intros Hn. unfold pred_of, node_pred, InnerSlotsPerBlock.
  destruct (predict_block _ _ _ _) as [b|] eqn:E; [|done]. intros [= <-].
  apply inner_predict_range in E as Hr; [|lia]. split; [lia|]. exists b. split_and!; (done || lia).
Qed.

Lemma inner_placement_spec n done c n' :
  node_ok n done -> child_ok c ->
  (forall d, d ∈ done -> child_ok d /\ rank d.1 < rank c.1 /\ mono (pred_of n) d.1 c.1) ->
  data_placement n c.1 c.2 = Ok n' ->
  node_ok n' (done ++ [c]) /\ pred_of n' = pred_of n /\
  (in_slope n', in_intercept n', in_block_number n', in_first_key n')
  = (in_slope n, in_intercept n, in_block_number n, in_first_key n).
Proof.
  intros [Hn Hlen Hlay Hu Hd] (Kc & Kmin & Kf) Hall Hp.
  assert (Hless : forall j t, used (inner_slots n) j t ->
    rank (min_key t) < rank c.1 /\ mono (pred_of n) (min_key t) c.1).
  { intros j t Ht. destruct (Hu j t Ht) as (d & Hdin & ->).
    destruct (Hall d Hdin) as ((_ & Hm & _) & H2 & H3). by rewrite Hm. }
  unfold data_placement in Hp. apply bind_ok in Hp as (b & Hb & Hp).
  assert (Hpc : pred_of n c.1 = Some (Z.to_nat (b * 8))).
  { unfold pred_of, node_pred. rewrite Hb. done. }
  apply inner_predict_range in Hb as Hr; [|lia]. unfold InnerSlotsPerBlock in Hp.
  set (p := Z.to_nat (b * 8)) in *.
  assert (Hfill : forall i s0, (p <= i)%nat -> inner_slots n !! i = Some s0 -> is_free s0 = true ->
    (forall x, (p <= x < i)%nat -> exists t, used (inner_slots n) x t) ->
    (ss ← zstore (inner_slots n) (Z.of_nat i) c.2; Ok (set_slots n ss)) = Ok n' ->
    node_ok n' (done ++ [c]) /\ pred_of n' = pred_of n /\
    (in_slope n', in_intercept n', in_block_number n', in_first_key n')
    = (in_slope n, in_intercept n, in_block_number n, in_first_key n)).
  { intros i s0 Hpi Hs0 Hf0 Hrun E. assert (Hil : (i < length (inner_slots n))%nat) by (by eapply lookup_lt_Some).
    rewrite zstore_nat in E by done. mstep in E. injection E as <-. split; [|done].
    split; cbn [set_slots inner_slots in_block_number]; [done|by rewrite length_insert| | |].
    - exact (layout_fill (pred_of n) _ c.1 p i s0 c.2 Hlay (finite_key _ Kc) Kmin Kf Hpc Hpi Hs0 Hf0 Hrun Hless).
    - intros j s [Hj Hjf]. destruct (decide (j = i)) as [->|Hne].
      + rewrite list_lookup_insert_eq in Hj by done. injection Hj as <-. exists c.
        split; [apply elem_of_app; right; apply list_elem_of_here|done].
      + rewrite list_lookup_insert_ne in Hj by done. destruct (Hu j s (conj Hj Hjf)) as (d & Hd1 & Hd2).
        exists d. split; [apply elem_of_app; by left|done].
    - intros d [Hdin|Hdin]%elem_of_app.
      + destruct (Hd d Hdin) as (j & Hj & Hjf). exists j. split; [|done].
        destruct (decide (j = i)) as [->|Hne]; [congruence|]. by rewrite list_lookup_insert_ne.
      + apply list_elem_of_singleton in Hdin as ->. exists i. split; [|done].
        by rewrite list_lookup_insert_eq. }
  replace (b * 8) with (Z.of_nat p) in Hp by lia.
  pose proof (free_from_spec 8 p (inner_slots n) ltac:(lia)) as H1. change (Z.to_nat 8) with 8%nat in Hp.
  destruct (free_from 8 (Z.of_nat p) (inner_slots n)) as [[j|]|] eqn:E1; [| |done]; mstep in Hp.
  - destruct H1 as (i & s0 & -> & Hi & Hs0 & Hf0 & Hrun). apply (Hfill i s0); try done; lia.
  - replace (Z.of_nat p + 8) with (Z.of_nat (p + 8)) in Hp by lia.
    pose proof (free_from_spec (Z.to_nat (in_block_number n * 8 - Z.of_nat (p + 8))) (p + 8)
      (inner_slots n) ltac:(lia)) as H2.
    destruct (free_from _ (Z.of_nat (p + 8)) (inner_slots n)) as [[j|]|] eqn:E2; [| |done]; mstep in Hp; [|done].
    destruct H2 as (i & s0 & -> & Hi & Hs0 & Hf0 & Hrun). apply (Hfill i s0); try done; [lia|].
    intros x Hx. destruct (Nat.lt_ge_cases x (p + 8)); [apply H1; lia|apply Hrun; lia].
Qed.

(** The keys of the children increase. *)
Fixpoint increasing_from (lo : option Z) (cs : list (double * InnerSlot)) : Prop :=
  match cs with
  | [] => True
  | c :: cs' => (match lo with Some r => r < rank c.1 | None => True end) /\
                increasing_from (Some (rank c.1)) cs'
  end.

Lemma increasing_from_lower lo cs c :
  increasing_from (Some lo) cs -> c ∈ cs -> lo < rank c.1.
Proof.
  revert lo. induction cs as [|d cs IH]; intros lo H Hc; [by apply elem_of_nil in Hc|].
  destruct H as [H1 H2]. apply elem_of_cons in Hc as [->|Hc]; [done|].
  specialize (IH _ H2 Hc). lia.
Qed.

Lemma inner_place_all_spec cs n done n' :
  node_ok n done -> Forall child_ok cs -> Forall child_ok done ->
  increasing_from None cs ->
  (forall d c, d ∈ done -> c ∈ cs -> rank d.1 < rank c.1) ->
  (forall d c, d ∈ done ++ cs -> c ∈ done ++ cs -> mono (pred_of n) d.1 c.1) ->
  foldlM place n cs = Ok n' ->
  node_ok n' (done ++ cs) /\ pred_of n' = pred_of n /\
  (in_slope n', in_intercept n', in_block_number n', in_first_key n')
  = (in_slope n, in_intercept n, in_block_number n, in_first_key n).
Proof.
  revert n done. induction cs as [|c cs IH]; intros n dn Hok Hcs Hdn Hinc Hlt Hmono E.
  { cbn in E. injection E as <-. by rewrite app_nil_r. }
  cbn [foldlM] in E. apply bind_ok in E as (n1 & E1 & E).
  apply Forall_cons in Hcs as [Hc Hcs]. destruct Hinc as [_ Hinc].
  destruct (inner_placement_spec n dn c n1) as (Hok1 & Hp1 & Eq1); try done.
  { intros d Hd. split_and!.
    - by apply (proj1 (Forall_forall _ _) Hdn).
    - apply Hlt; [done|apply list_elem_of_here].
    - apply Hmono; apply elem_of_app; [by left|right; apply list_elem_of_here]. }
  destruct (IH n1 (dn ++ [c])) as (Hok2 & Hp2 & Eq2); try done.
  - apply Forall_app. by split; [|constructor].
  - destruct cs; [done|]. cbn in *. naive_solver.
  - intros d e [Hd|Hd]%elem_of_app He.
    + apply Hlt; [done|by apply list_elem_of_further].
    + apply list_elem_of_singleton in Hd as ->. by eapply increasing_from_lower.
  - rewrite <- app_assoc. cbn. intros d e Hd He. rewrite Hp1. by apply Hmono.
  - rewrite <- app_assoc in Hok2. cbn in Hok2. split; [done|]. split; congruence.
Qed.

Lemma inner_header_ok bn k0 kn number start sl ic level :
  4 <= bn < 2 ^ 29 -> node_ok (inner_header bn k0 kn number start sl ic level) [] /\
  in_block_number (inner_header bn k0 kn number start sl ic level) = bn.
Proof.
  intros Hbn. unfold inner_header. rewrite (u32_small bn) by lia.
  destruct (model_correction _ _ _ _ _) as [s i]. split; [|done].
  assert (Hno : forall j t, ~ used (replicate (Z.to_nat (8 * bn)) free_slot) j t).
  { intros j t [Hj Hf]. apply lookup_replicate in Hj as [-> _]. done. }
  split; cbn [in_block_number inner_slots]; [done|by rewrite length_replicate| | |].
  - split; intros; exfalso; by eapply Hno.
  - intros; exfalso; by eapply Hno.
  - intros c Hc. by apply elem_of_nil in Hc.
Qed.

Lemma inner_info_ok this n acc done :
  node_ok n done -> exists s, inner_info this n acc = Ok s /\
    (slope s, intercept s, block_number s) = (in_slope n, in_intercept n, in_block_number n) /\
    min_key s = in_first_key n /\ ptr s = this /\ type s = 1.
Proof.
  intros Hok. pose proof (no_number _ _ Hok) as Hn. unfold inner_info, set_block_number.
  destruct (Z.ltb_spec (in_block_number n) (2 ^ 29)); [|lia]. mstep.
  eexists. split; [done|]. unfold block_number, type.
  cbn [info init_lock set_type set_info slope intercept min_key ptr].
  rewrite (proj1 (fields_unlocked _)), (proj2 (fields_unlocked _)).
  destruct (fields_set_type (with_block_number (info acc) (in_block_number n)) 1 ltac:(lia)) as [-> ->].
  rewrite block_number_set by lia. done.
Qed.

(** The children of a constructor call. *)
Definition slice {A} (number start : nat) (l : list A) : list A := take number (drop start l).

(** Placement does not touch the model. *)
Lemma place_all_model cs m m' :
  foldlM place m cs = Ok m' ->
  in_block_number m' = in_block_number m /\ pred_of m' = pred_of m /\ in_first_key m' = in_first_key m /\ in_level m' = in_level m.
Proof.
  revert m. induction cs as [|c cs IH]; intros m F; cbn in F; [by injection F as <-|].
  apply bind_ok in F as (m1 & F1 & F). destruct (IH _ F) as (-> & -> & -> & ->).
  unfold place, data_placement in F1. apply bind_ok in F1 as (b & _ & F1).
  apply bind_ok in F1 as ([j|] & _ & F1); [|apply bind_ok in F1 as ([j|] & _ & F1); [|done]];
    apply bind_ok in F1 as (ss & _ & F1); by injection F1 as <-.
Qed.

Lemma new_inner_spec this acc bn children number start sl ic level n s :
  4 <= bn < 2 ^ 29 -> Forall child_ok (slice number start children) ->
  increasing_from None (slice number start children) ->
  line n = true ->
  new_inner this acc bn children number start sl ic level = Ok (n, s) ->
  node_ok n (slice number start children) /\ in_block_number n = bn /\
  (slope s, intercept s, block_number s) = (in_slope n, in_intercept n, in_block_number n) /\
  type s = 1 /\ ptr s = this.
Proof.
  intros Hbn Hc Hinc Hm E. unfold new_inner in E.
  apply bind_ok in E as (c0 & _ & E). apply bind_ok in E as (cn & _ & E).
  apply bind_ok in E as (n1 & En & E). apply bind_ok in E as (s1 & Es & E).
  injection E as -> ->.
  destruct (inner_header_ok bn c0.1 cn.1 (Z.of_nat number) (Z.of_nat start) sl ic level Hbn) as [Hok0 Hb0].
  set (n0 := inner_header _ _ _ _ _ _ _ _) in *.
  destruct (place_all_model _ _ _ En) as (Eb & Epred & _).
  destruct (inner_place_all_spec (slice number start children) n0 [] n) as (Hok & _ & Eq); try done.
  - intros d c Hd. by apply elem_of_nil in Hd.
  - intros d c Hd Hc'. rewrite <- Epred. apply pred_mono; [by rewrite Eb, Hb0|done|..];
      by apply (proj1 (Forall_forall _ _) Hc).
  - cbn [app] in Hok.
    destruct (inner_info_ok this n acc _ Hok) as (s' & Es' & E1 & _ & E2 & E3).
    assert (s' = s) by congruence. subst s'. split_and!; try done.
    rewrite <- Hb0. congruence.
Qed.

(** The child a linear scan would choose: the last whose key is at most the query. *)
Definition last_le (q : double) (cs : list (double * InnerSlot)) : option (double * InnerSlot) :=
  last (filter (fun c => dle c.1 q = true) cs).

Lemma last_le_spec q cs c :
  is_key q = true -> Forall child_ok cs -> increasing_from None cs -> last_le q cs = Some c ->
  c ∈ cs /\ rank c.1 <= rank q /\ forall d, d ∈ cs -> rank c.1 < rank d.1 -> rank q < rank d.1.
Proof.
  intros Hq Hok Hinc Hl. unfold last_le in Hl.
  assert (Hin : c ∈ filter (fun c => dle c.1 q = true) cs).
  { apply last_Some in Hl as [l' ->]. apply elem_of_app. right. apply list_elem_of_here. }
  apply list_elem_of_filter in Hin as [Hle Hin].
  pose proof (proj1 (Forall_forall _ _) Hok c Hin) as (Kc%finite_key & _).
  rewrite dle_rank in Hle by done. split_and!; [done|lia|].
  intros d Hd Hlt. destruct (Z.lt_ge_cases (rank q) (rank d.1)) as [|Hge]; [done|exfalso].
  clear Hin Hle. revert Hl Hinc Hok Hd. generalize (@None Z).
  induction cs as [|e cs IH]; intros lo Hl Hinc Hok Hd; [by apply elem_of_nil in Hd|].
  apply Forall_cons in Hok as [He Hok]. destruct Hinc as [_ Hinc].
  assert (Hmem : forall x, x ∈ filter (fun c => dle c.1 q = true) cs -> rank e.1 < rank x.1).
  { intros x [_ Hx]%list_elem_of_filter. by eapply increasing_from_lower. }
  apply elem_of_cons in Hd as [->|Hd].
  - destruct He as (Ke%finite_key & _). rewrite filter_cons_True in Hl by (rewrite dle_rank by done; lia).
    destruct (filter _ cs) as [|f fs] eqn:Ef; [cbn in Hl; injection Hl as <-; lia|].
    rewrite last_cons_cons in Hl.
    assert (c ∈ f :: fs) as Hcin by (apply last_Some in Hl as [l' ->]; apply elem_of_app; right; apply list_elem_of_here).
    specialize (Hmem c Hcin). lia.
  - rewrite filter_cons in Hl. destruct (decide _).
    + destruct (filter _ cs) as [|f fs] eqn:Ef.
      * assert (d ∈ filter (fun c => dle c.1 q = true) cs) as Hdf.
        { apply list_elem_of_filter. split; [|done]. pose proof (proj1 (Forall_forall _ _) Hok d Hd) as (Kd%finite_key & _).
          rewrite dle_rank by done. lia. }
        rewrite Ef in Hdf. by apply elem_of_nil in Hdf.
      * rewrite last_cons_cons in Hl. by apply (IH (Some (rank e.1))).
    + by apply (IH (Some (rank e.1))).
Qed.

Lemma node_search n cs q c p s :
  node_ok n cs -> Forall child_ok cs -> increasing_from None cs -> finite q = true -> line n = true ->
  (slope s, intercept s, block_number s) = (in_slope n, in_intercept n, in_block_number n) ->
  pred_of n q = Some p -> last_le q cs = Some c ->
  exists i, predicted_slot q s = Ok p /\
    Z.to_nat (u32 (block_number s * InnerSlotsPerBlock)) = length (inner_slots n) /\
    search_slot p (length (inner_slots n)) q (inner_slots n) = Ok i /\
    inner_slots n !! i = Some c.2.
Proof.
  intros Hok Hcs Hinc Hq Hline Es Hp Hl. injection Es as E1 E2 E3.
  destruct (last_le_spec q cs c (finite_key q Hq) Hcs Hinc Hl) as (Hin & Hle & Hmax).
  destruct (no_done _ _ Hok c Hin) as (i & Hi).
  destruct (pred_range n q p (no_number _ _ Hok) Hp) as (Hpr & b & Hb & Hb0 & Hbp).
  pose proof (no_number _ _ Hok). pose proof (no_length _ _ Hok).
  assert (Hmin : forall d, d ∈ cs -> min_key d.2 = d.1).
  { intros d Hd. by destruct (proj1 (Forall_forall _ _) Hcs d Hd) as (_ & ? & _). }
  exists i. split_and!.
  - unfold predicted_slot. rewrite E1, E2, E3, Hb. mstep. by rewrite Hbp.
  - rewrite E3. unfold InnerSlotsPerBlock. rewrite u32_small by lia. lia.
  - apply (search_slot_spec (pred_of n) _ _ _ _ c.2); try done; [apply Hok|by apply finite_key|lia| |].
    + intros j t Ht. destruct (no_used _ _ Hok j t Ht) as (d & Hd & ->). rewrite Hmin by done.
      destruct (proj1 (Forall_forall _ _) Hcs d Hd) as (Kd & _). split; by apply pred_mono.
    + split_and!; [done|by rewrite Hmin|]. intros j t Hj Ht.
      destruct (no_used _ _ Hok j t Ht) as (d & Hd & ->). rewrite Hmin by done.
      apply Hmax; [done|]. rewrite <- !Hmin by done.
      by apply (lay_sorted _ _ (no_layout _ _ Hok) i j).
  - apply Hi.
Qed.

(** C12: the learned search of an inner node is a linear search: on a node built
    from increasing keys, whose model is a finite line that does not fall,
    [find_leaf_node] returns the slot of the last child whose key is at most the
    query, however the model was rounded and however far the placement had to move
    the children past their predicted blocks. *)
Theorem find_leaf_node_is_linear_search (this : Z) (acc : InnerSlot) (bn : Z)
    (children : list (double * InnerSlot)) (number start : nat) (sl ic : double) (level : Z)
    (n : InnerNode) (s : InnerSlot) (q : double) (c : double * InnerSlot) (p : nat) :
  4 <= bn < 2 ^ 29 ->
  Forall child_ok (slice number start children) ->
  increasing_from None (slice number start children) ->
  new_inner this acc bn children number start sl ic level = Ok (n, s) ->
  line n = true -> finite q = true -> pred_of n q = Some p ->
  last_le q (slice number start children) = Some c -> type c.2 = 0 ->
  exists i, find_leaf_node 1 {[this := n]} this q s = Ok (NodeSlot this (Z.of_nat i)) /\
    inner_slots n !! i = Some c.2.
Proof.
  intros Hbn Hcs Hinc En Hline Hq Hp Hl Ht.
  destruct (new_inner_spec this acc bn children number start sl ic level n s)
    as (Hok & Hb & Es & _ & _); try done.
  destruct (node_search n _ q c p s Hok Hcs Hinc Hq Hline Es) as (i & E1 & E2 & E3 & E4); try done.
  exists i. split; [|done]. cbn [find_leaf_node]. rewrite lookup_singleton_eq. mstep.
  rewrite E1. mstep. rewrite E2, E3. mstep. rewrite E4. mstep. by rewrite Ht.
Qed.

(** Three leaves under one node. *)
Definition demo_child (k a : Z) : double * InnerSlot :=
  (double_of_Z k, mkSlot (double_of_Z k) a (double_of_Z 0) (double_of_Z 0) 5).
Definition demo_children : list (double * InnerSlot) :=
  [demo_child 10 1; demo_child 20 2; demo_child 40 3].
Definition demo_inner : res (InnerNode * InnerSlot) :=
  new_inner 9 free_slot 4 demo_children 3 0 (double_of_ratio 1 15) (double_of_Z 0) 1.
Definition demo_node : InnerNode :=
  match demo_inner with Ok (n, _) => n | Err _ => inner_header 4 FREE_FLAG FREE_FLAG 0 0 FREE_FLAG FREE_FLAG 0 end.
Definition demo_acc : InnerSlot := match demo_inner with Ok (_, s) => s | Err _ => free_slot end.

Lemma find_leaf_node_is_linear_search_witness :
  exists i, find_leaf_node 1 {[9 := demo_node]} 9 (double_of_Z 33) demo_acc = Ok (NodeSlot 9 (Z.of_nat i)) /\
    inner_slots demo_node !! i = Some (demo_child 20 2).2.
Proof.
  refine (find_leaf_node_is_linear_search 9 free_slot 4 demo_children 3 0 (double_of_ratio 1 15)
    (double_of_Z 0) 1 demo_node demo_acc (double_of_Z 33) (demo_child 20 2) 16 _ _ _ _ _ _ _ _ _).
  - lia.
  - repeat constructor.
  - cbn -[rank]. vm_compute. done.
  - vm_compute. reflexivity.
  - vm_compute. reflexivity.
  - reflexivity.
  - vm_compute. reflexivity.
  - vm_compute. reflexivity.
  - vm_compute. reflexivity.
Defined.

(** A node with a single child has [max_key - min_key = 0]: the corrected
    slope is infinite, and predicting the child's own key converts a NaN to an
    integer, which is undefined.  Bulk loading data that fits one leaf builds
    such a node, and a leaf with one key meets the same case. *)
Theorem single_child_undefined :
  new_inner 9 free_slot 4 [demo_child 10 1] 1 0 (double_of_Z 0) (double_of_Z 0) 1 = Err UB /\
  (let n := inner_header 4 (double_of_Z 10) (double_of_Z 10) 1 0 (double_of_Z 0) (double_of_Z 0) 1 in
   deq (in_slope n) (in_slope n) = true /\ dlt FREE_FLAG (in_slope n) = true).
Proof. split; [vm_compute; reflexivity|]. cbv zeta. split; vm_compute; reflexivity. Qed.
