(* ===== verification/Routing.v ===== *)
(** * Searches through the levels of inner nodes (core/index/inner_node.h,
    find_leaf_node)

    A level is a list of children, each the first key of a run of the level below and
    the accelerator of the node built over that run.  When the models are finite lines
    that do not fall, a search from the last slot of the top level whose key is at
    most the query ends at the last leaf whose first key is at most the query. *)

From S2P Require Import Prelude Doubles Rounding Slots InnerNode.
Open Scope Z_scope.

Abbreviation child := (double * InnerSlot)%type.

(** ** The reference search *)

Lemma last_le_nil q : last_le q [] = None.
Proof. done. Qed.

Lemma last_le_cons q c cs :
  last_le q (c :: cs) = match last_le q cs with Some d => Some d | None => if dle c.1 q then Some c else None end.
Proof.
  unfold last_le. rewrite filter_cons. destruct (decide (dle c.1 q = true)) as [E|E].
  - rewrite last_cons, E. by destruct (last _).
  - apply not_true_is_false in E. rewrite E. by destruct (last _).
Qed.

Lemma last_le_app q l1 l2 :
  last_le q (l1 ++ l2) = match last_le q l2 with Some d => Some d | None => last_le q l1 end.
Proof.
  induction l1 as [|c l1 IH]; cbn [app]; [by destruct (last_le q l2)|].
  rewrite !last_le_cons, IH. by destruct (last_le q l2).
Qed.

Lemma last_le_None q cs : last_le q cs = None <-> Forall (fun c => dle c.1 q = false) cs.
Proof.
  induction cs as [|c cs IH]; [by split|]. rewrite last_le_cons, Forall_cons, <- IH.
  destruct (last_le q cs); [naive_solver|]. destruct (dle c.1 q); naive_solver.
Qed.

Lemma last_le_Some q cs c : last_le q cs = Some c -> c ∈ cs /\ dle c.1 q = true.
Proof.
  induction cs as [|d cs IH]; [done|]. rewrite last_le_cons.
  destruct (last_le q cs) as [e|]; [intros [= ->]; destruct (IH eq_refl); split; [by apply list_elem_of_further|done]|].
  destruct (dle d.1 q) eqn:E; [|done]. intros [= ->]. split; [apply list_elem_of_here|done].
Qed.

Lemma increasing_weaken lo cs : increasing_from lo cs -> increasing_from None cs.
Proof. destruct cs; [done|]. by intros [_ H]. Qed.

Lemma increasing_app lo l1 l2 :
  increasing_from lo (l1 ++ l2) -> increasing_from lo l1 /\ increasing_from None l2 /\
  forall c d, c ∈ l1 -> d ∈ l2 -> rank c.1 < rank d.1.
Proof.
  revert lo. induction l1 as [|x l1 IH]; intros lo H; cbn [app] in *.
  - split; [done|]. split; [by eapply increasing_weaken|]. intros c d Hc. by apply elem_of_nil in Hc.
  - destruct H as [H1 H2]. destruct (IH _ H2) as (I1 & I2 & I3). split; [by split|]. split; [done|].
    intros c d [->|Hc]%elem_of_cons Hd; [|by apply I3].
    apply (increasing_from_lower _ (l1 ++ l2)); [done|]. apply elem_of_app. by right.
Qed.

(** The first of the run of a chosen child is at most the query. *)
Lemma last_le_first q c0 rest c :
  finite q = true -> Forall child_ok (c0 :: rest) -> increasing_from None (c0 :: rest) ->
  last_le q (c0 :: rest) = Some c -> dle c0.1 q = true.
Proof.
  intros Hq Hok [_ Hinc] H. destruct (last_le_Some _ _ _ H) as [Hin Hle].
  pose proof (proj1 (Forall_forall _ _) Hok) as Hall.
  destruct (Hall c Hin) as (Kc & _). destruct (Hall c0 (list_elem_of_here _ _)) as (K0 & _).
  apply finite_key in Hq, Kc, K0. rewrite dle_rank in Hle |- * by done. zb.
  apply elem_of_cons in Hin as [->|Hin]; [by apply Z.leb_le|].
  pose proof (increasing_from_lower _ _ _ Hinc Hin). apply Z.leb_le. lia.
Qed.

(** The run starts where the child does. *)
Definition starts (a : child) (run : list child) : Prop :=
  exists c0 rest, run = c0 :: rest /\ forall q, finite q = true -> dle c0.1 q = dle a.1 q.

(** Choosing a run by its first key, and then inside it, is choosing in the whole level. *)
Lemma last_le_split q accs (runs : list (list child)) c :
  Forall2 starts accs runs ->
  Forall child_ok (concat runs) -> increasing_from None (concat runs) -> finite q = true ->
  last_le q (concat runs) = Some c ->
  exists accs1 a accs2 runs1 run runs2, accs = accs1 ++ a :: accs2 /\ runs = runs1 ++ run :: runs2 /\
    length accs1 = length runs1 /\ last_le q accs = Some a /\ last_le q run = Some c /\
    last_le q (concat runs2) = None.
Proof.
  intros H. induction H as [|a run accs runs (c0 & rest & -> & Ea) HF IH]; intros Hok Hinc Hq Hl; [done|].
  cbn [concat] in *. rewrite last_le_app in Hl. apply Forall_app in Hok as [Hok1 Hok2].
  destruct (increasing_app _ _ _ Hinc) as (I1 & I2 & _).
  destruct (last_le q (concat runs)) as [c'|] eqn:E.
  - injection Hl as ->. destruct (IH Hok2 I2 Hq eq_refl) as (accs1 & b & accs2 & runs1 & run & runs2 & -> & -> & H1 & H2 & H3 & H4).
    exists (a :: accs1), b, accs2, ((c0 :: rest) :: runs1), run, runs2. split_and!; try done; [cbn; by rewrite H1|].
    by cbn [app]; rewrite last_le_cons, H2.
  - exists [], a, accs, [], (c0 :: rest), runs. split_and!; try done.
    assert (En : last_le q accs = None).
    { apply last_le_None. apply last_le_None in E. clear -HF E Hq.
      induction HF as [|b run accs runs (d0 & r & -> & Eb) HF IH]; [done|]. cbn [concat] in E.
      cbn [app] in E. apply Forall_cons in E as [E1 E2]. apply Forall_app in E2 as [_ E2].
      constructor; [by rewrite <- Eb by done|by apply IH]. }
    rewrite last_le_cons, En, <- Ea by done. by rewrite (last_le_first q c0 rest c).
Qed.

Lemma last_le_runs q accs (runs : list (list child)) c :
  Forall2 starts accs runs ->
  Forall child_ok (concat runs) -> increasing_from None (concat runs) -> finite q = true ->
  last_le q (concat runs) = Some c ->
  exists i a run, accs !! i = Some a /\ runs !! i = Some run /\ last_le q accs = Some a /\ last_le q run = Some c.
Proof.
  intros HF Hok Hinc Hq Hl.
  destruct (last_le_split q accs runs c HF Hok Hinc Hq Hl) as (accs1 & a & accs2 & runs1 & run & runs2 & -> & -> & El & H1 & H2 & _).
  exists (length accs1), a, run. split_and!; [by apply list_lookup_middle|by apply list_lookup_middle|done..].
Qed.

(** ** One node *)

(** What the constructor leaves in the accelerator, whatever its model. *)
Lemma new_inner_slot this acc bn children number start sl ic level n s :
  4 <= bn < 2 ^ 29 -> new_inner this acc bn children number start sl ic level = Ok (n, s) ->
  exists c0, children !! start = Some c0 /\ min_key s = c0.1 /\ ptr s = this /\ type s = 1 /\
    (slope s, intercept s, block_number s) = (in_slope n, in_intercept n, in_block_number n) /\
    in_block_number n = bn.
Proof.
  intros Hbn E. unfold new_inner in E. apply bind_ok in E as (c0 & E0 & E). apply of_opt_ok in E0.
  apply bind_ok in E as (cn & _ & E). apply bind_ok in E as (n1 & En & E). apply bind_ok in E as (s1 & Es & E).
  injection E as -> ->. exists c0. split; [done|].
  destruct (inner_header_ok bn c0.1 cn.1 (Z.of_nat number) (Z.of_nat start) sl ic level Hbn) as [_ Hb0].
  set (n0 := inner_header _ _ _ _ _ _ _ _) in *.
  assert (Hf : in_first_key n0 = c0.1) by (unfold n0, inner_header; by destruct (model_correction _ _ _ _ _)).
  destruct (place_all_model _ _ _ En) as (Eb & _ & Ef & _).
  unfold inner_info, set_block_number in Es. rewrite Eb, Hb0, (proj2 (Z.ltb_lt bn _)) in Es by lia.
  mstep in Es. injection Es as <-. unfold block_number, type.
  cbn [info init_lock set_type set_info slope intercept min_key ptr].
  rewrite (proj1 (fields_unlocked _)), (proj2 (fields_unlocked _)).
  destruct (fields_set_type (with_block_number (info acc) bn) 1 ltac:(lia)) as [-> ->].
  rewrite block_number_set by lia. by rewrite Ef, Eb, Hb0.
Qed.

Lemma new_inner_level this acc bn children number start sl ic level n s :
  new_inner this acc bn children number start sl ic level = Ok (n, s) -> in_level n = level.
Proof.
  intros E. unfold new_inner in E. apply bind_ok in E as (c0 & _ & E). apply bind_ok in E as (cn & _ & E).
  apply bind_ok in E as (n1 & En & E). apply bind_ok in E as (s1 & _ & E). injection E as -> _.
  destruct (place_all_model _ _ _ En) as (_ & _ & _ & ->). unfold inner_header. by destruct (model_correction _ _ _ _ _).
Qed.

Lemma new_inner_blocks this acc bn children number start sl ic level n s :
  new_inner this acc bn children number start sl ic level = Ok (n, s) -> in_block_number n = u32 bn.
Proof.
  intros E. unfold new_inner in E. apply bind_ok in E as (c0 & _ & E). apply bind_ok in E as (cn & _ & E).
  apply bind_ok in E as (n1 & En & E). apply bind_ok in E as (s1 & _ & E). injection E as -> _.
  destruct (place_all_model _ _ _ En) as (-> & _). unfold inner_header. by destruct (model_correction _ _ _ _ _).
Qed.

(** More fuel and more nodes do not change a search that ended. *)
Lemma find_leaf_node_mono f f' ns ns' a q s r :
  (f <= f')%nat -> ns ⊆ ns' -> find_leaf_node f ns a q s = Ok r -> find_leaf_node f' ns' a q s = Ok r.
Proof.
  intros Hf Hns. revert f' a s Hf. induction f as [|f IH]; intros f' a s Hf H; [done|].
  destruct f' as [|f']; [lia|]. cbn [find_leaf_node] in *.
  apply bind_ok in H as (n & Hn & H). apply of_opt_ok in Hn.
  rewrite (lookup_weaken _ _ _ _ Hn Hns). mstep. apply bind_ok in H as (p & -> & H). mstep.
  apply bind_ok in H as (i & -> & H). mstep. apply bind_ok in H as (d & -> & H). mstep.
  destruct (type d =? 1); [|done]. apply IH; [lia|done].
Qed.

(** ** Searches *)

(** A search below the slot [s] ends at a slot that holds [c]. *)
Definition leads (ns : gmap Z InnerNode) (q : double) (f : nat) (s c : InnerSlot) : Prop :=
  if type s =? 1 then
    exists a i n, find_leaf_node f ns (ptr s) q s = Ok (NodeSlot a i) /\ ns !! a = Some n /\
      zload (inner_slots n) i = Ok c
  else s = c.

Lemma leads_mono ns ns' q f f' s c :
  (f <= f')%nat -> ns ⊆ ns' -> leads ns q f s c -> leads ns' q f' s c.
Proof.
  intros Hf Hns. unfold leads. destruct (type s =? 1); [|done]. intros (a & i & n & H1 & H2 & H3).
  exists a, i, n. split; [by eapply find_leaf_node_mono|]. split; [by eapply lookup_weaken|done].
Qed.

(** Every model of the level is in range at the query. *)
Definition in_reach (ns : gmap Z InnerNode) (q : double) : Prop :=
  forall a n, ns !! a = Some n -> line n = true /\ exists p, pred_of n q = Some p.

(** The node of a child was built over a run. *)
Definition over (lvl : Z) (ns : gmap Z InnerNode) (a : child) (run : list child) : Prop :=
  (exists n acc bn cs number start sl ic,
     ns !! ptr a.2 = Some n /\ 4 <= bn < 2 ^ 29 /\ slice number start cs = run /\
     new_inner (ptr a.2) acc bn cs number start sl ic lvl = Ok (n, a.2)) /\
  exists c0 rest, run = c0 :: rest /\ c0.1 = a.1.

Lemma over_mono lvl ns ns' a run : ns ⊆ ns' -> over lvl ns a run -> over lvl ns' a run.
Proof.
  intros Hns [(n & acc & bn & cs & number & start & sl & ic & H1 & H) Hf].
  split; [|done]. exists n, acc, bn, cs, number, start, sl, ic. split; [by eapply lookup_weaken|done].
Qed.

Lemma over_starts lvl ns a run : over lvl ns a run -> starts a run.
Proof. intros [_ (c0 & rest & -> & E)]. exists c0, rest. split; [done|]. intros q _. by rewrite E. Qed.

Lemma over_child lvl ns a run : over lvl ns a run -> Forall child_ok run -> child_ok a /\ type a.2 = 1.
Proof.
  intros [(n & acc & bn & cs & number & start & sl & ic & _ & Hbn & Hs & E) (c0 & rest & Er & Ea)] Hok.
  destruct (new_inner_slot _ _ _ _ _ _ _ _ _ _ _ Hbn E) as (c & Hc & Hk & _ & Ht & _).
  assert (c = c0) as ->.
  { assert (Hl : run !! 0%nat = Some c0) by (by rewrite Er). rewrite <- Hs in Hl. unfold slice in Hl.
    destruct number as [|number]; [by destruct start|]. rewrite lookup_take, lookup_drop, Nat.add_0_r in Hl.
    destruct (decide _); [congruence|lia]. }
  subst run. rewrite Er in Hok. apply Forall_cons in Hok as [(K & Km & Kf) _].
  split; [|done]. split; [by rewrite <- Ea|]. split; [congruence|].
  unfold is_free in *. by rewrite Hk, <- Km.
Qed.

(** A search goes on at the child that a linear scan of the node's children chooses. *)
Lemma node_step ns s n run q d p g :
  ns !! ptr s = Some n -> node_ok n run -> Forall child_ok run -> increasing_from None run ->
  (slope s, intercept s, block_number s) = (in_slope n, in_intercept n, in_block_number n) ->
  line n = true -> pred_of n q = Some p -> finite q = true -> last_le q run = Some d ->
  exists i, inner_slots n !! i = Some d.2 /\
    find_leaf_node (S g) ns (ptr s) q s =
      if type d.2 =? 1 then find_leaf_node g ns (ptr d.2) q d.2 else Ok (NodeSlot (ptr s) (Z.of_nat i)).
Proof.
  intros Hn Hnode Hok Hinc Es Hline Hp Hq Hl.
  destruct (node_search n run q d p s Hnode Hok Hinc Hq Hline Es Hp Hl) as (i & E1 & E2 & E3 & E4).
  exists i. split; [done|]. cbn [find_leaf_node]. rewrite Hn. mstep. rewrite E1. mstep. rewrite E2, E3. mstep. by rewrite E4.
Qed.

Lemma leads_node ns s n run q f d c :
  ns !! ptr s = Some n -> node_ok n run -> Forall child_ok run -> increasing_from None run ->
  (slope s, intercept s, block_number s) = (in_slope n, in_intercept n, in_block_number n) -> type s = 1 ->
  finite q = true -> in_reach ns q -> last_le q run = Some d -> leads ns q f d.2 c -> leads ns q (S f) s c.
Proof.
  intros Hn Hnode Hok Hinc Es Ht Hq Hns Hl Hd. destruct (Hns _ _ Hn) as [Hline [p Hp]].
  destruct (node_step ns s n run q d p f Hn Hnode Hok Hinc Es Hline Hp Hq Hl) as (i & Ei & Estep).
  unfold leads in *. rewrite Ht. cbn [Z.eqb Pos.eqb]. rewrite Estep. destruct (type d.2 =? 1); [done|].
  subst c. exists (ptr s), (Z.of_nat i), n. split_and!; try done. by apply zload_nat.
Qed.

(** ** One level *)

Lemma level_children lvl ns accs runs :
  Forall2 (over lvl ns) accs runs -> Forall child_ok (concat runs) -> increasing_from None (concat runs) ->
  Forall child_ok accs /\ increasing_from None accs.
Proof.
  intros H. induction H as [|a run accs runs Ha HF IH]; intros Hok Hinc; [by split|].
  cbn [concat] in *. apply Forall_app in Hok as [Hok1 Hok2].
  destruct (increasing_app _ _ _ Hinc) as (I1 & I2 & I3). destruct (IH Hok2 I2) as [J1 J2].
  destruct (over_child _ _ _ _ Ha Hok1) as [Hc _]. split; [by constructor|].
  split; [done|]. destruct HF as [|b run' accs' runs' Hb HF]; [done|].
  destruct J2 as [_ J2]. split; [|done].
  destruct Ha as [_ (c0 & r & -> & Ea)], Hb as [_ (d0 & r' & -> & Eb)].
  rewrite <- Ea, <- Eb. apply I3; [apply list_elem_of_here|cbn; apply list_elem_of_here].
Qed.
