(* ===== verification/InnerTree.v ===== *)
(** * The tree of inner nodes (core/index/inner_node.h)

    [tree f ns a cs addrs]: the slot of the child [a] is that of an inner node of height
    [f], whose leaves' slots are [cs], in key order, and whose nodes lie at [addrs].
    A search in a tree ends at the last of its children whose key is at most the query. *)

From S2P Require Import Prelude Doubles Rounding Slots InnerNode Routing.
Open Scope Z_scope.

(** No lock of the slot is taken. *)
Definition idle (s : InnerSlot) : Prop := release_lock s = s.

(** ** The tree of inner nodes *)

(** What a child leads to at height [f]: the children of the leaves below it in key order,
    and the addresses of the inner nodes. *)
Fixpoint tree (f : nat) (ns : gmap Z InnerNode) (a : child) (cs : list child) (addrs : list Z) : Prop :=
  match f with
  | O => type a.2 = 0 /\ cs = [a] /\ addrs = []
  | S f' =>
      type a.2 = 1 /\ idle a.2 /\ Forall child_ok cs /\ increasing_from None cs /\
      exists n kids (parts : list (list child * list Z)),
        ns !! ptr a.2 = Some n /\ in_level n = Z.of_nat (S f') /\
        (slope a.2, intercept a.2, block_number a.2) = (in_slope n, in_intercept n, in_block_number n) /\
        node_ok n kids /\ Forall child_ok kids /\ increasing_from None kids /\
        Forall2 (fun k part => tree f' ns k part.1 part.2 /\ starts k part.1) kids parts /\
        cs = concat (map fst parts) /\ addrs = ptr a.2 :: concat (map snd parts)
  end.

Definition forest (f : nat) ns (kids : list child) (parts : list (list child * list Z)) : Prop :=
  Forall2 (fun k part => tree f ns k part.1 part.2 /\ starts k part.1) kids parts.

Lemma tree_frame f ns ns' a cs addrs :
  tree f ns a cs addrs -> (forall b, b ∈ addrs -> ns' !! b = ns !! b) -> tree f ns' a cs addrs.
Proof.
  revert a cs addrs. induction f as [|f IH]; intros a cs addrs; [done|]. cbn [tree].
  intros (Ht & Hi & H1 & H2 & n & kids & parts & En & Elv & Em & Hok & K1 & K2 & HF & -> & ->) Hsame.
  split_and!; [done..|]. exists n, kids, parts. split_and!; try done.
  - rewrite Hsame; [done|]. apply list_elem_of_here.
  - assert (Hs : forall b, b ∈ concat (map snd parts) -> ns' !! b = ns !! b).
    { intros b Hb. apply Hsame. by apply list_elem_of_further. }
    clear -IH HF Hs. induction HF as [|k part kids parts [Hk Hst] HF IHF]; [constructor|].
    cbn [map concat] in Hs. constructor.
    + split; [|done]. apply IH; [done|]. intros b Hb. apply Hs, elem_of_app. by left.
    + apply IHF. intros b Hb. apply Hs, elem_of_app. by right.
Qed.

Lemma forest_frame f ns ns' kids parts :
  forest f ns kids parts -> (forall b, b ∈ concat (map snd parts) -> ns' !! b = ns !! b) -> forest f ns' kids parts.
Proof.
  induction 1 as [|k part kids parts [Hk Hst] HF IH]; intros Hs; [constructor|]. cbn [map concat] in Hs. constructor.
  - split; [|done]. eapply tree_frame; [done|]. intros b Hb. apply Hs, elem_of_app. by left.
  - apply IH. intros b Hb. apply Hs, elem_of_app. by right.
Qed.

Lemma forest_starts f ns kids parts : forest f ns kids parts -> Forall2 starts kids (map fst parts).
Proof. intros HF. apply Forall2_fmap_r. eapply Forall2_impl; [exact HF|]. by intros k part [_ ?]. Qed.

(** The lowest level holds the children themselves. *)
Lemma forest_0 ns kids parts :
  forest 0 ns kids parts <-> parts = map (fun k => ([k], [])) kids /\ Forall (fun k : child => type k.2 = 0) kids.
Proof.
  split.
  - induction 1 as [|k part kids parts [(Ht & E1 & E2) _] HF [-> IH]]; [done|].
    split; [|by constructor]. destruct part as [cs addrs]. cbn in *. by rewrite E1, E2.
  - intros [-> HF]. induction HF as [|k kids Hk HF IH]; constructor; [|done]. split; [done|]. exists k, []. by split.
Qed.

Lemma leaf_parts (kids : list child) :
  concat (map fst (map (fun k : child => ([k], @nil Z)) kids)) = kids /\
  concat (map snd (map (fun k : child => ([k], @nil Z)) kids)) = [].
Proof. induction kids as [|k kids [IH1 IH2]]; [done|]. cbn. by rewrite IH1, IH2. Qed.

(** ** A search in the tree *)

Lemma tree_leads f ns a cs addrs q c :
  tree f ns a cs addrs -> finite q = true -> in_reach ns q -> last_le q cs = Some c ->
  leads ns q f a.2 c.2.
Proof.
  revert a cs addrs. induction f as [|f IH]; intros a cs addrs; cbn [tree].
  { intros (Ht & -> & _) Hq _ Hl. unfold leads. rewrite Ht. rewrite last_le_cons in Hl. cbn in Hl.
    destruct (dle a.1 q); [|done]. by injection Hl as <-. }
  intros (Ht & Hi & H1 & H2 & n & kids & parts & En & Elv & Em & Hok & K1 & K2 & HF & -> & _) Hq Hr Hl.
  destruct (last_le_runs q kids (map fst parts) c (forest_starts _ _ _ _ HF) H1 H2 Hq Hl) as (i & k & run & Ei & Er & E1 & E2).
  rewrite list_lookup_fmap in Er. destruct (parts !! i) as [[run' ads]|] eqn:Ep; [|discriminate Er]. injection Er as <-.
  destruct (Forall2_lookup_lr _ _ _ _ _ _ HF Ei Ep) as [Hk _]. cbn in Hk, E2.
  apply (leads_node ns a.2 n kids q f k c.2 En Hok K1 K2 Em Ht Hq Hr E1).
  exact (IH k run' ads Hk Hq Hr E2).
Qed.

(** ** The size of a tree *)

Lemma tree_heap f ns a cs addrs b : tree f ns a cs addrs -> b ∈ addrs -> is_Some (ns !! b).
Proof.
  revert a cs addrs. induction f as [|f IH]; intros a cs addrs; cbn [tree].
  { intros (_ & _ & ->) Hb. by apply elem_of_nil in Hb. }
  intros (_ & _ & _ & _ & n & kids & parts & En & _ & _ & _ & _ & _ & HF & _ & ->) Hb.
  apply elem_of_cons in Hb as [->|Hb]; [by exists n|]. apply list_elem_of_In, in_concat in Hb as (ads & Hads & Hb).
  apply list_elem_of_In in Hads, Hb. apply list_elem_of_fmap in Hads as (part & -> & Hpart).
  apply list_elem_of_lookup in Hpart as [i Hi]. destruct (Forall2_lookup_r _ _ _ _ _ HF Hi) as (k & _ & [Hk _]).
  by apply (IH k part.1 part.2).
Qed.

Lemma forest_heap f ns kids parts b : forest f ns kids parts -> b ∈ concat (map snd parts) -> is_Some (ns !! b).
Proof.
  intros HF Hb. apply list_elem_of_In, in_concat in Hb as (ads & Hads & Hb).
  apply list_elem_of_In in Hads, Hb. apply list_elem_of_fmap in Hads as (part & -> & Hpart).
  apply list_elem_of_lookup in Hpart as [i Hi]. destruct (Forall2_lookup_r _ _ _ _ _ HF Hi) as (k & _ & [Hk _]).
  by apply (tree_heap f ns k part.1 part.2).
Qed.

(** A path is as long as the addresses are many. *)
Lemma tree_height f ns a cs addrs : tree f ns a cs addrs -> cs <> [] -> (f <= length addrs)%nat.
Proof.
  revert a cs addrs. induction f as [|f IH]; intros a cs addrs; cbn [tree]; [lia|].
  intros (_ & _ & _ & _ & n & kids & parts & _ & _ & _ & _ & _ & _ & HF & -> & ->) Hne. cbn [length].
  assert (Hpart : exists k part, part ∈ parts /\ tree f ns k part.1 part.2 /\ part.1 <> []).
  { destruct HF as [|k part kids parts [Hk (c0 & rest & E & _)] HF]; [done|]. exists k, part.
    split; [apply list_elem_of_here|]. split; [done|]. by rewrite E. }
  destruct Hpart as (k & part & Hin & Hk & Hp). pose proof (IH _ _ _ Hk Hp) as Hle.
  apply list_elem_of_split in Hin as (l1 & l2 & ->). rewrite map_app, concat_app, !length_app. cbn [map concat].
  rewrite length_app. lia.
Qed.

Lemma heap_count (ns : gmap Z InnerNode) (addrs : list Z) :
  NoDup addrs -> (forall b, b ∈ addrs -> is_Some (ns !! b)) -> (length addrs <= size ns)%nat.
Proof.
  intros Hnd Hin. rewrite <- (size_dom (D := gset Z)), <- (size_list_to_set (C := gset Z)) by done.
  apply subseteq_size. intros b Hb. apply elem_of_list_to_set in Hb. by apply elem_of_dom, Hin.
Qed.

(** A node that was built over a run is a tree over what the run leads to. *)
Lemma over_tree f ns a run parts :
  over (Z.of_nat (S f)) ns a run -> forest f ns run parts -> (forall n, ns !! ptr a.2 = Some n -> line n = true) ->
  Forall child_ok (concat (map fst parts)) -> increasing_from None (concat (map fst parts)) ->
  Forall child_ok run -> increasing_from None run ->
  tree (S f) ns a (concat (map fst parts)) (ptr a.2 :: concat (map snd parts)).
Proof.
  intros [(n & acc & bn & cs & number & start & sl & ic & En & Hbn & Es & E) Hst] HF Hline H1 H2 K1 K2.
  subst run. destruct (new_inner_spec _ _ _ _ _ _ _ _ _ _ _ Hbn K1 K2 (Hline _ En) E) as (Hok & _ & Em & Ht & _).
  cbn [tree]. split_and!; try done; [|by exists n, (slice number start cs), parts; rewrite (new_inner_level _ _ _ _ _ _ _ _ _ _ _ E)].
  unfold new_inner in E. apply bind_ok in E as (? & _ & E). apply bind_ok in E as (? & _ & E).
  apply bind_ok in E as (? & _ & E). apply bind_ok in E as (s1 & E1 & E). injection E as _ <-.
  unfold inner_info in E1. apply bind_ok in E1 as (s2 & _ & E1). injection E1 as <-.
  unfold idle, release_lock, init_lock, set_info, unlocked. cbn. f_equal. rewrite <- Z.land_assoc. f_equal.
Qed.

(** ** A level over a forest *)

(** The slots and addresses below a node that was built over some children. *)
Definition group (a : child) (parts : list (list child * list Z)) : list child * list Z :=
  (concat (map fst parts), ptr a.2 :: concat (map snd parts)).

Lemma forest_concat f ns runs parts :
  forest f ns (concat runs) parts -> exists groups, concat groups = parts /\ Forall2 (forest f ns) runs groups.
Proof.
  revert parts. induction runs as [|run runs IH]; intros parts HF; cbn [concat] in HF.
  { inversion HF. by exists []. }
  apply Forall2_app_inv_l in HF as (ps & rest & H1 & H2 & ->).
  destruct (IH rest H2) as (groups & <- & HG). exists (ps :: groups). split; [done|by constructor].
Qed.

Lemma group_children accs groups :
  length accs = length groups -> concat (map fst (zip_with group accs groups)) = concat (map fst (concat groups)).
Proof.
  revert groups. induction accs as [|a accs IH]; intros [|g groups] E; try done. cbn in *. injection E as E.
  by rewrite IH, map_app, concat_app.
Qed.

Lemma group_addresses accs groups :
  length accs = length groups ->
  concat (map snd (zip_with group accs groups)) ≡ₚ map (fun a : child => ptr a.2) accs ++ concat (map snd (concat groups)).
Proof.
  revert groups. induction accs as [|a accs IH]; intros [|g groups] E; try done. cbn in *. injection E as E.
  rewrite IH by done. rewrite map_app, concat_app. apply perm_skip. rewrite !app_assoc.
  apply Permutation_app_tail, Permutation_app_comm.
Qed.

Lemma starts_group f ns a run parts : starts a run -> forest f ns run parts -> starts a (concat (map fst parts)).
Proof.
  intros (c0 & rest & -> & E) HF. inversion HF as [|? part ? ps [_ (d0 & r & E1 & E2)] _]; subst.
  exists d0, (r ++ concat (map fst ps)). cbn. rewrite E1. split; [done|]. intros q Hq. by rewrite E2, E by done.
Qed.

Lemma group_forest f ns accs runs groups :
  Forall2 (over (Z.of_nat (S f)) ns) accs runs -> Forall2 (forest f ns) runs groups ->
  Forall (fun a : child => forall n, ns !! ptr a.2 = Some n -> line n = true) accs ->
  Forall child_ok (concat runs) -> increasing_from None (concat runs) ->
  Forall child_ok (concat (map fst (concat groups))) -> increasing_from None (concat (map fst (concat groups))) ->
  forest (S f) ns accs (zip_with group accs groups).
Proof.
  intros Hover. revert groups. induction Hover as [|a run accs runs Ha Hover IH]; intros groups HG Hline K1 K2 H1 H2.
  { inversion HG. constructor. }
  inversion HG as [|? g ? groups' Hg HG']; subst. cbn [concat] in *. rewrite map_app, concat_app in H1, H2.
  apply Forall_app in K1 as [K1 K1']. apply Forall_app in H1 as [H1 H1'].
  apply increasing_app in K2 as (K2 & K2' & _). apply increasing_app in H2 as (H2 & H2' & _).
  apply Forall_cons in Hline as [Hl Hline]. cbn [zip_with]. constructor; [|by apply IH]. split.
  - exact (over_tree f ns a run g Ha Hg Hl H1 H2 K1 K2).
  - apply (starts_group f ns a run g); [by eapply over_starts|done].
Qed.
