(* ===== verification/InnerWalk.v ===== *)
(** * Walks over the tree of inner nodes (core/index/inner_node.h, get_leftmost_leaf,
    destroy)

    The slots in use of a node are its children in key order, so the leftmost leaf of a
    tree is that of its first child, and [destroy] frees the nodes of the tree and no
    other. *)

From Stdlib Require Import Sorting.Sorted.
From stdpp Require Import sorting.
From S2P Require Import Prelude Doubles Rounding Slots InnerNode Routing InnerTree.
Open Scope Z_scope.

(** ** The slots in use *)

Lemma filter_sorted {A} (R : A -> A -> Prop) (P : A -> Prop) `{!forall x, Decision (P x)} (l : list A) :
  (forall i j s t, (i < j)%nat -> l !! i = Some s -> l !! j = Some t -> P s -> P t -> R s t) ->
  StronglySorted R (filter P l).
Proof.
  induction l as [|x l IH]; intros Hl; [constructor|]. rewrite filter_cons.
  assert (Hl' : StronglySorted R (filter P l)).
  { apply IH. intros i j s t Hij Hs Ht. apply (Hl (S i) (S j)); [lia|done|done]. }
  destruct (decide (P x)) as [Hx|Hx]; [|done]. constructor; [done|]. apply Forall_forall.
  intros y Hy. apply list_elem_of_filter in Hy as [Py Hy]. apply list_elem_of_lookup in Hy as [j Hj].
  apply (Hl 0%nat (S j)); [lia|done|done|done|done].
Qed.

Definition key_lt (s t : InnerSlot) : Prop := rank (min_key s) < rank (min_key t).
#[local] Instance key_lt_antisymm : AntiSymm (=) key_lt.
Proof. unfold key_lt. intros s t H1 H2. lia. Qed.

Lemma key_lt_NoDup l : StronglySorted key_lt l -> NoDup l.
Proof.
  induction 1 as [|s l Hl IH Hs]; constructor; [|done]. intros Hin.
  pose proof (proj1 (Forall_forall _ _) Hs s Hin) as Hlt. unfold key_lt in Hlt. lia.
Qed.

Lemma kids_sorted kids :
  Forall child_ok kids -> increasing_from None kids -> StronglySorted key_lt (map snd kids).
Proof.
  intros Hok. generalize (@None Z). induction Hok as [|k kids (_ & Ek & _) Hok IH]; intros lo Hinc; [constructor|].
  destruct Hinc as [_ Hinc]. cbn [map]. constructor; [by eapply IH|]. apply Forall_map, Forall_forall. intros d Hd.
  destruct (proj1 (Forall_forall _ _) Hok d Hd) as (_ & Ed & _). unfold key_lt. cbn. rewrite Ek, Ed.
  by apply (increasing_from_lower _ kids).
Qed.

Definition used_slots (n : InnerNode) : list InnerSlot := filter (fun s => is_free s = false) (inner_slots n).

Lemma used_slots_kids n kids :
  node_ok n kids -> Forall child_ok kids -> increasing_from None kids -> used_slots n = map snd kids.
Proof.
  intros Hok Hk Hinc. pose proof (kids_sorted kids Hk Hinc) as Hs.
  assert (Hu : StronglySorted key_lt (used_slots n)).
  { apply filter_sorted. intros i j s t Hij Es Et Fs Ft. by apply (lay_sorted _ _ (no_layout _ _ Hok) i j). }
  apply (StronglySorted_unique key_lt); [done|done|].
  apply NoDup_Permutation; [by apply key_lt_NoDup..|]. intros s. unfold used_slots. rewrite list_elem_of_filter. split.
  - intros [Hf Hin]. apply list_elem_of_lookup in Hin as [i Hi].
    destruct (no_used _ _ Hok i s (conj Hi Hf)) as (c & Hc & ->). apply list_elem_of_fmap. by exists c.
  - intros Hin. apply list_elem_of_fmap in Hin as (c & -> & Hc). destruct (no_done _ _ Hok c Hc) as (i & Hi & Hf).
    split; [done|]. by eapply list_elem_of_lookup_2.
Qed.

Lemma find_first_used ss :
  find_first (fun s => negb (is_free s)) ss = head (filter (fun s => is_free s = false) ss).
Proof.
  induction ss as [|s ss IH]; [done|]. cbn [find_first]. rewrite filter_cons.
  destruct (is_free s); [by rewrite decide_False by done|by rewrite decide_True by done].
Qed.

(** ** The leftmost leaf *)

Lemma parts_nonempty f ns k part kids parts c :
  forest f ns (k :: kids) (part :: parts) -> head (concat (map fst (part :: parts))) = Some c -> head part.1 = Some c.
Proof.
  intros HF Hc. inversion HF as [|? ? ? ? [_ (c0 & rest & E & _)] _]; subst. cbn [map concat] in Hc.
  rewrite E in Hc |- *. done.
Qed.

Lemma tree_leftmost f g ns a cs addrs c :
  tree (S f) ns a cs addrs -> head cs = Some c -> (f <= g)%nat -> get_leftmost_leaf (S g) ns (ptr a.2) = Ok (ptr c.2).
Proof.
  revert g a cs addrs. induction f as [|f IH]; intros g a cs addrs Ht Hc Hg.
  all: destruct Ht as (_ & _ & _ & _ & n & kids & parts & En & _ & _ & Hok & K1 & K2 & HF & -> & _).
  all: destruct HF as [|k part kids parts [Hk Hst] HF]; [done|].
  all: pose proof (parts_nonempty _ ns k part kids parts c (List.Forall2_cons (R := fun k part => _) _ _ (conj Hk Hst) HF) Hc) as Hp.
  all: cbn [get_leftmost_leaf]; rewrite En; mstep; rewrite find_first_used.
  all: change (filter _ (inner_slots n)) with (used_slots n); rewrite (used_slots_kids n _ Hok K1 K2); cbn [map head]; mstep.
  - destruct Hk as (Htk & E & _). rewrite Htk. cbn [Z.eqb]. rewrite E in Hp. by injection Hp as <-.
  - pose proof Hk as (Htk & _). rewrite Htk. cbn [Z.eqb]. destruct g as [|g]; [lia|]. by apply (IH g k part.1 part.2); [|..|lia].
Qed.

(** ** Destruction *)

(** [ns'] is [ns] without the nodes at [addrs]. *)
Definition freed (addrs : list Z) (ns ns' : gmap Z InnerNode) : Prop :=
  forall b, ns' !! b = if decide (b ∈ addrs) then None else ns !! b.

Lemma freed_nil ns : freed [] ns ns.
Proof. intros b. by rewrite decide_False by (by apply not_elem_of_nil). Qed.

Lemma freed_app l1 l2 ns ns1 ns2 : freed l1 ns ns1 -> freed l2 ns1 ns2 -> freed (l1 ++ l2) ns ns2.
Proof.
  intros H1 H2 b. rewrite H2, H1. destruct (decide (b ∈ l2)) as [Hb|Hb].
  - by rewrite decide_True by (apply elem_of_app; by right).
  - destruct (decide (b ∈ l1)) as [Hb'|Hb'].
    + by rewrite decide_True by (apply elem_of_app; by left).
    + rewrite decide_False; [done|]. by intros [?|?]%elem_of_app.
Qed.

Lemma freed_delete a addrs ns ns' : freed addrs ns ns' -> freed (a :: addrs) ns (delete a ns').
Proof.
  intros Hf b. destruct (decide (b = a)) as [->|Hne].
  - rewrite lookup_delete_eq. by rewrite decide_True by apply list_elem_of_here.
  - rewrite lookup_delete_ne by done. rewrite Hf. destruct (decide (b ∈ addrs)).
    + by rewrite decide_True by (by apply list_elem_of_further).
    + rewrite decide_False; [done|]. by intros [?|?]%elem_of_cons.
Qed.

(** A step that frees a tree, taken for each of a level, frees the level. *)
Lemma forest_destroy (step : gmap Z InnerNode -> InnerSlot -> res (gmap Z InnerNode)) f ns kids parts :
  (forall ns a cs addrs, tree f ns a cs addrs -> cs <> [] -> NoDup addrs ->
     exists ns', step ns a.2 = Ok ns' /\ freed addrs ns ns') ->
  forest f ns kids parts -> NoDup (concat (map snd parts)) ->
  exists ns', foldlM step ns (map snd kids) = Ok ns' /\ freed (concat (map snd parts)) ns ns'.
Proof.
  intros Hstep HF. revert ns HF. revert parts. induction kids as [|k kids IH]; intros parts ns HF Hnd.
  { inversion HF. exists ns. split; [done|]. apply freed_nil. }
  inversion HF as [|? part ? ps [Hk Hst] HF']; subst. cbn [map concat] in Hnd |- *.
  apply NoDup_app in Hnd as (Hn1 & Hd & Hn2).
  destruct (Hstep ns k part.1 part.2 Hk) as (ns1 & E1 & F1); [by destruct Hst as (c0 & r & -> & _)|done|].
  destruct (IH ps ns1) as (ns2 & E2 & F2); [|done|].
  { apply (forest_frame f ns); [done|]. intros b Hb. rewrite F1, decide_False; [done|]. intros Hb'. by apply (Hd b). }
  exists ns2. cbn [foldlM]. rewrite E1. mstep. split; [done|]. by eapply freed_app.
Qed.

Lemma foldlM_used {A} (f : A -> InnerSlot -> res A) x ss :
  foldlM (fun h s => if is_free s then Ok h else f h s) x ss = foldlM f x (filter (fun s => is_free s = false) ss).
Proof.
  revert x. induction ss as [|s ss IH]; intros x; [done|]. rewrite filter_cons. cbn [foldlM].
  destruct (is_free s) eqn:E.
  - rewrite decide_False by done. mstep. apply IH.
  - rewrite decide_True by done. cbn [foldlM]. destruct (f x s); [|done]. mstep. apply IH.
Qed.

Lemma tree_destroy f g ns a cs addrs :
  tree (S f) ns a cs addrs -> NoDup addrs -> (f <= g)%nat ->
  exists ns', destroy (S g) ns (ptr a.2) = Ok ns' /\ freed addrs ns ns'.
Proof.
  revert g ns a cs addrs. induction f as [|f IH]; intros g ns a cs addrs Ht Hnd Hg.
  all: destruct Ht as (_ & _ & _ & _ & n & kids & parts & En & El & _ & Hok & K1 & K2 & HF & _ & ->).
  all: cbn [destroy]; rewrite En; mstep; rewrite El.
  - cbn [Z.of_nat Z.ltb Z.compare Pos.compare Pos.compare_cont Pos.of_succ_nat]. mstep. exists (delete (ptr a.2) ns). split; [done|].
    apply freed_delete. change (forest 0 ns kids parts) in HF. apply forest_0 in HF as [-> _].
    destruct (leaf_parts kids) as [_ ->]. apply freed_nil.
  - rewrite (proj2 (Z.ltb_lt 1 _)) by lia. rewrite foldlM_used.
    change (filter _ (inner_slots n)) with (used_slots n). rewrite (used_slots_kids n kids Hok K1 K2).
    apply NoDup_cons in Hnd as [Hna Hnd]. destruct g as [|g]; [lia|].
    destruct (forest_destroy (fun h s => destroy (S g) h (ptr s)) (S f) ns kids parts) as (ns' & E & Hf); [|exact HF|done|].
    { intros ns1 a1 cs1 ads1 Ht1 _ Hn1. apply (IH g ns1 a1 cs1 ads1 Ht1 Hn1). lia. }
    rewrite E. mstep. exists (delete (ptr a.2) ns'). split; [done|]. by apply freed_delete.
Qed.
