(* ===== verification/InnerUpsert.v ===== *)
(** * Insertion of a child into the inner nodes (core/index/inner_node.h, upsert_node)

    An upsert of a child replaces the slot with its key, or moves slots of its predicted
    block up by one, or fails when that block is full.  Over the list of children the node
    holds, in key order, the first two are [put_child].  They keep the layout that the
    learned search relies on, at every level of the tree. *)

From S2P Require Import Prelude Doubles Rounding Slots InnerNode Routing InnerTree.
Open Scope Z_scope.

(** ** The list of children *)

Fixpoint put_child (c : child) (cs : list child) : list child :=
  match cs with
  | [] => [c]
  | d :: cs' =>
      if rank d.1 <? rank c.1 then d :: put_child c cs'
      else if rank d.1 =? rank c.1 then c :: cs' else c :: d :: cs'
  end.

Lemma put_child_from lo c cs :
  increasing_from lo cs -> (match lo with Some r => r < rank c.1 | None => True end) ->
  increasing_from lo (put_child c cs).
Proof.
  revert lo. induction cs as [|d cs IH]; intros lo Hi Hlo; cbn [put_child]; [by split|].
  destruct Hi as [Hd Hi]. destruct (Z.ltb_spec (rank d.1) (rank c.1)) as [Hlt|Hge].
  - split; [done|]. by apply IH.
  - destruct (Z.eqb_spec (rank d.1) (rank c.1)) as [E|Hne].
    + split; [done|]. by rewrite <- E.
    + split; [done|]. split; [lia|done].
Qed.

Lemma put_child_in lo c cs d :
  increasing_from lo cs -> d ∈ put_child c cs <-> d = c \/ (d ∈ cs /\ rank d.1 <> rank c.1).
Proof.
  revert lo. induction cs as [|e cs IH]; intros lo Hi; cbn [put_child].
  { rewrite list_elem_of_singleton. split; [tauto|]. intros [->|[H _]]; [done|by apply elem_of_nil in H]. }
  destruct Hi as [He Hi]. assert (Hlow : forall x, x ∈ cs -> rank e.1 < rank x.1).
  { intros x Hx. by apply (increasing_from_lower _ cs). }
  destruct (Z.ltb_spec (rank e.1) (rank c.1)) as [Hlt|Hge].
  - rewrite !elem_of_cons, (IH _ Hi). split.
    + intros [->|[->|[H1 H2]]]; [right; split; [by left|lia]|by left|right; tauto].
    + intros [->|[[->|H1] H2]]; [right; by left|by left|right; by right].
  - destruct (Z.eqb_spec (rank e.1) (rank c.1)) as [E|Hne]; rewrite !elem_of_cons.
    + split; [intros [->|Hd]; [by left|right; split; [by right|specialize (Hlow d Hd); lia]]|].
      intros [->|[[->|Hd] Hn]]; [by left|congruence|by right].
    + split; [|tauto]. intros [->|[->|Hd]]; [by left|right; split; [by left|done]|].
      right. split; [by right|]. specialize (Hlow d Hd). lia.
Qed.

Lemma put_child_ok c cs : child_ok c -> Forall child_ok cs -> Forall child_ok (put_child c cs).
Proof.
  intros Hc. induction 1 as [|d cs Hd Hcs IH]; cbn [put_child]; [by constructor|].
  destruct (rank d.1 <? rank c.1); [by constructor|]. destruct (rank d.1 =? rank c.1); [by constructor|].
  constructor; [done|by constructor].
Qed.

(** ** The shift *)

Lemma shift_up_lookup n slot ss i :
  (n <= slot)%nat -> (slot < length ss)%nat ->
  shift_up n slot ss !! i = if decide (slot - n < i <= slot)%nat then ss !! (i - 1)%nat else ss !! i.
Proof.
  revert slot ss. induction n as [|n IH]; intros slot ss Hn Hs; cbn [shift_up].
  { by rewrite decide_False by lia. }
  destruct (lookup_lt_is_Some_2 ss (slot - 1)) as [s E]; [lia|]. rewrite E.
  rewrite IH by (rewrite ?length_insert; lia). destruct (decide (i = slot)) as [->|Hne].
  - rewrite decide_False by lia. rewrite decide_True by lia. by rewrite list_lookup_insert_eq, E.
  - destruct (decide (slot - 1 - n < i <= slot - 1)%nat) as [Hi|Hi].
    + rewrite decide_True by lia. by rewrite list_lookup_insert_ne by lia.
    + rewrite decide_False by lia. by rewrite list_lookup_insert_ne by lia.
Qed.

Lemma shift_up_length n slot ss : length (shift_up n slot ss) = length ss.
Proof.
  revert slot ss. induction n as [|n IH]; intros slot ss; cbn [shift_up]; [done|].
  destruct (ss !! (slot - 1)%nat); [|done]. by rewrite IH, length_insert.
Qed.

Lemma shift_up_nothing slot ss : shift_up 0 slot ss = ss.
Proof. done. Qed.

(** Where a slot is after [node] was put at [t], in front of the used slots up to [top]. *)
Definition moved (t top i : nat) : nat := if decide (t <= i < top)%nat then S i else i.

(** The slots from [t] on, before the free slot [top], go up by one. *)
Section Shift.
Variables (ss : list InnerSlot) (t top : nat) (node s0 : InnerSlot).
Hypothesis Ht : (t <= top)%nat.
Hypothesis Htop : ss !! top = Some s0.
Hypothesis Hfree : is_free s0 = true.
Hypothesis Hnode : is_free node = false.

Definition shifted : list InnerSlot := <[t := node]> (shift_up (top - t) top ss).

Lemma top_length : (top < length ss)%nat.
Proof. by eapply lookup_lt_Some. Qed.

Lemma shifted_lookup i :
  shifted !! i = if decide (i = t) then Some node else if decide (t < i <= top)%nat then ss !! (i - 1)%nat else ss !! i.
Proof.
  pose proof top_length. unfold shifted. destruct (decide (i = t)) as [->|Hne].
  - rewrite list_lookup_insert_eq; [done|]. rewrite shift_up_length. lia.
  - rewrite list_lookup_insert_ne by done. rewrite shift_up_lookup by lia.
    destruct (decide (t < i <= top)%nat); [by rewrite decide_True by lia|by rewrite decide_False by lia].
Qed.

Lemma used_shifted i s :
  used shifted i s <-> (i = t /\ s = node) \/ exists j, used ss j s /\ i = moved t top j.
Proof.
  unfold used. rewrite shifted_lookup. unfold moved. split.
  - intros [E Hf]. destruct (decide (i = t)) as [->|Hne]; [left; split; [done|congruence]|]. right.
    destruct (decide (t < i <= top)%nat) as [Hi|Hi].
    + exists (i - 1)%nat. split; [done|]. rewrite decide_True by lia. lia.
    + exists i. split; [done|]. rewrite decide_False; [done|]. intros Hi'. lia.
  - intros [[-> ->]|(j & [E Hf] & ->)]; [by rewrite decide_True by done|].
    destruct (decide (t <= j < top)%nat) as [Hj|Hj].
    + rewrite decide_False by lia. rewrite decide_True by lia. by rewrite Nat.sub_1_r.
    + assert (j <> top) by (intros ->; congruence).
      rewrite decide_False by lia. by rewrite decide_False by lia.
Qed.

(** A place in use stays in use. *)
Lemma shifted_places p i s :
  (p <= t)%nat -> (forall j, (p <= j < top)%nat -> exists x, used ss j x) ->
  used ss i s -> exists s', used shifted i s'.
Proof.
  intros Hpt Hrun Hi. assert (Hne : i <> top) by (intros ->; destruct Hi; congruence).
  destruct (decide (i = t)) as [->|Hit]; [exists node; apply used_shifted; by left|].
  destruct (decide (t < i < top)%nat) as [Hin|Hout].
  - destruct (Hrun (i - 1)%nat ltac:(lia)) as [x Hx]. exists x. apply used_shifted. right. exists (i - 1)%nat. split; [done|].
    unfold moved. rewrite decide_True by lia. lia.
  - exists s. apply used_shifted. right. exists i. split; [done|]. unfold moved. by rewrite decide_False by lia.
Qed.
End Shift.

(** ** The layout after an insertion *)

Section LayoutInsert.
Variable P : double -> option nat.

Lemma layout_shifted ss p t top node s0 :
  layout P ss -> (p <= t <= top)%nat -> ss !! top = Some s0 -> is_free s0 = true ->
  (forall i, (p <= i < top)%nat -> exists s, used ss i s) ->
  is_key (min_key node) = true -> is_free node = false -> P (min_key node) = Some p ->
  (forall j s, used ss j s -> (j < t)%nat -> rank (min_key s) < rank (min_key node)) ->
  (forall j s, used ss j s -> (t <= j)%nat -> rank (min_key node) < rank (min_key s)) ->
  (forall j s pj, used ss j s -> (t <= j < top)%nat -> P (min_key s) = Some pj -> (pj <= p)%nat) ->
  layout P (shifted ss t top node).
Proof.
  intros [L1 L2 L3] Hpt Htop Hfree Hrun Hk Hf Hp Hlow Hhigh Hpj.
  pose proof (used_shifted ss t top node s0 (proj2 Hpt) Htop Hfree Hf) as Hu.
  assert (Hbefore : forall j s, used ss j s -> j <> top).
  { intros j s [E Hfs] ->. congruence. }
  (* the slots of the block are used up to [top] *)
  assert (Hrun' : forall i, (p <= i <= top)%nat -> exists s, used (shifted ss t top node) i s).
  { intros i Hi. destruct (decide (i = t)) as [->|Hne]; [exists node; apply Hu; by left|].
    destruct (Nat.lt_ge_cases i t) as [Hlt|Hge].
    - destruct (Hrun i) as [s Hs]; [lia|]. exists s. apply Hu. right. exists i. split; [done|].
      unfold moved. by rewrite decide_False by lia.
    - destruct (Hrun (i - 1)%nat) as [s Hs]; [lia|]. exists s. apply Hu. right. exists (i - 1)%nat. split; [done|].
      unfold moved. rewrite decide_True by lia. lia. }
  split.
  - intros i s [[-> ->]|(j & Hj & ->)]%Hu; [done|by eapply L1].
  - intros i i' s s' Hi [[-> ->]|(j & Hj & ->)]%Hu [[-> ->]|(j' & Hj' & ->)]%Hu; [lia| | |].
    + apply (Hhigh j' s' Hj'). unfold moved in Hi. destruct (decide (t <= j' < top)%nat); lia.
    + apply (Hlow j s Hj). unfold moved in Hi. destruct (decide (t <= j < top)%nat); lia.
    + apply (L2 j j' s s'); [|done|done]. pose proof (Hbefore j s Hj). pose proof (Hbefore j' s' Hj').
      unfold moved in Hi. destruct (decide (t <= j < top)%nat), (decide (t <= j' < top)%nat); lia.
  - intros i s [[-> ->]|(j & Hj & ->)]%Hu.
    + exists p. split; [done|]. split; [lia|]. intros i Hi. apply Hrun'. lia.
    + destruct (L3 j s Hj) as (pj & Hpj' & Hle & Hall). exists pj. split; [done|]. unfold moved.
      pose proof (Hbefore j s Hj) as Hne. destruct (decide (t <= j < top)%nat) as [Hin|Hout].
      * pose proof (Hpj j s pj Hj Hin Hpj') as Hpjp. split; [lia|]. intros i Hi.
        destruct (Nat.lt_ge_cases i p); [|apply Hrun'; lia].
        destruct (Hall i) as [s' Hs']; [lia|]. exists s'. apply Hu. right. exists i. split; [done|].
        unfold moved. by rewrite decide_False by lia.
      * split; [done|]. intros i Hi. destruct (Nat.lt_ge_cases j t) as [Hlt|Hge].
        -- destruct (Hall i) as [s' Hs']; [lia|]. exists s'. apply Hu. right. exists i. split; [done|].
           unfold moved. by rewrite decide_False by lia.
        -- assert (Hpt' : (top < pj)%nat).
           { destruct (Nat.lt_ge_cases top pj) as [|Hge']; [done|]. destruct (Hall top) as [s' [Hs' Hs'']]; [lia|congruence]. }
           destruct (Hall i) as [s' Hs']; [lia|]. exists s'. apply Hu. right. exists i. split; [done|].
           unfold moved. by rewrite decide_False by lia.
Qed.

(** Replacing a slot by one with a key of the same rank. *)
Lemma layout_replace ss i s node :
  layout P ss -> used ss i s -> is_key (min_key node) = true -> is_free node = false ->
  rank (min_key node) = rank (min_key s) -> P (min_key node) = P (min_key s) ->
  layout P (<[i := node]> ss).
Proof.
  intros [L1 L2 L3] Hi Hk Hf Er Ep. assert (Hlen : (i < length ss)%nat) by (eapply lookup_lt_Some, Hi).
  assert (Hu : forall j t, used (<[i := node]> ss) j t <-> (j = i /\ t = node) \/ (j <> i /\ used ss j t)).
  { intros j t. unfold used. destruct (decide (j = i)) as [->|Hne].
    - rewrite list_lookup_insert_eq by done. split; [|by intros [[_ ->]|[? _]]].
      intros [E _]. left. split; [done|congruence].
    - rewrite list_lookup_insert_ne by done. tauto. }
  assert (Hany : forall j, (exists t, used ss j t) -> exists t, used (<[i := node]> ss) j t).
  { intros j [t Ht]. destruct (decide (j = i)) as [->|Hne]; [exists node|exists t]; apply Hu; tauto. }
  split.
  - intros j t [[-> ->]|[_ Ht]]%Hu; [done|by eapply L1].
  - intros j j' t t' Hj [[-> ->]|[Hn Ht]]%Hu [[-> ->]|[Hn' Ht']]%Hu; [lia| | |by eapply L2].
    + rewrite Er. by eapply L2.
    + rewrite Er. by eapply L2.
  - intros j t [[-> ->]|[Hn Ht]]%Hu.
    + rewrite Ep. destruct (L3 i s Hi) as (p & ? & ? & Hall). exists p. split_and!; [done..|].
      intros x Hx. by apply Hany, Hall.
    + destruct (L3 j t Ht) as (p & ? & ? & Hall). exists p. split_and!; [done..|]. intros x Hx. by apply Hany, Hall.
Qed.
End LayoutInsert.

(** ** One node *)

(** The model of a node, its level and the places in use stay. *)
Definition same_model (n n' : InnerNode) : Prop :=
  (in_slope n', in_intercept n', in_block_number n') = (in_slope n, in_intercept n, in_block_number n) /\
  in_level n' = in_level n /\
  forall i s, used (inner_slots n) i s -> exists s', used (inner_slots n') i s'.

Lemma same_model_refl n : same_model n n.
Proof. split; [done|]. split; [done|]. intros i s Hs. by exists s. Qed.

(** A slot that is not locked can be locked and released again. *)
Lemma idle_lock s : idle s -> exists s', get_lock s = Some s' /\ release_lock s' = s.
Proof.
  intros Hi. assert (E : Z.land (info s) double_bit_lockMask = info s).
  { change (info (release_lock s) = info s). by rewrite Hi. }
  assert (E0 : Z.land (info s) lockSet = 0).
  { rewrite <- E, <- Z.land_assoc. change (Z.land double_bit_lockMask lockSet) with 0. apply Z.land_0_r. }
  unfold get_lock. rewrite E0. eexists. split; [done|]. unfold release_lock, set_info. cbn.
  rewrite Z.land_lor_distr_l, E. change (Z.land lockSet double_bit_lockMask) with 0. rewrite Z.lor_0_r. by destruct s.
Qed.

(** Only a positive number compares equal to itself alone. *)
Lemma deq_positive x m e :
  deq x (SpecFloat.S754_finite false m e) = true -> x = SpecFloat.S754_finite false m e.
Proof.
  destruct x as [b|b| |b m' e']; [done|by destruct b|done|].
  unfold deq, SpecFloat.SFeqb, SpecFloat.SFcompare. destruct b; [done|].
  destruct (Z.compare_spec e' e) as [He| |]; [|done..]. rewrite compare_pos.
  destruct (Z.compare_spec (Z.pos m') (Z.pos m)) as [Hm| |]; [|done..]. intros _. congruence.
Qed.

(** A free slot has the flag itself as its key. *)
Lemma free_key s : is_free s = true -> min_key s = FREE_FLAG.
Proof.
  assert (Eflag : exists m e, FREE_FLAG = SpecFloat.S754_finite false m e) by (vm_compute; eauto).
  unfold is_free. destruct Eflag as (m & e & ->). apply deq_positive.
Qed.

(** A key that can be stored is below the flag. *)
Lemma below_flag c : child_ok c -> rank c.1 < rank FREE_FLAG.
Proof.
  intros (K & E & Hf). apply finite_key in K as Kk. unfold is_free in Hf. rewrite E, deq_rank in Hf by done.
  apply Z.eqb_neq in Hf. assert (rank c.1 <= rank FREE_FLAG); [|lia].
  assert (Er : rank FREE_FLAG = 2046 * 2 ^ 53 - 1) by (vm_compute; reflexivity). rewrite Er.
  destruct (c.1) as [b|b| |b m e]; cbn [rank]; [lia|done|done|]. cbn [is_key] in Kk.
  pose proof (valid_finite _ _ _ Kk). destruct b; nia.
Qed.

(** In a block the slots in use come first. *)
Section Blocks.
Variables (n : InnerNode) (cs : list child) (p : nat).
Hypothesis Hok : node_ok n cs.
Hypothesis Hblock : exists q, pred_of n q = Some p.

Lemma block_prefix j s :
  used (inner_slots n) j s -> (p <= j < p + 8)%nat ->
  (forall pj, pred_of n (min_key s) = Some pj -> (pj <= p)%nat) /\
  forall i, (p <= i <= j)%nat -> exists t, used (inner_slots n) i t.
Proof.
  intros Hj Hp. destruct Hblock as [q Hq]. destruct (lay_near _ _ (no_layout _ _ Hok) j s Hj) as (pj & Ep & Hle & Hall).
  destruct (pred_range n q p (no_number _ _ Hok) Hq) as (_ & b & _ & Hb & ->).
  destruct (pred_range n _ pj (no_number _ _ Hok) Ep) as (_ & bj & _ & Hbj & ->).
  assert (Z.to_nat (bj * 8) <= Z.to_nat (b * 8))%nat by lia. split.
  - intros pj' Ep'. rewrite Ep in Ep'. by injection Ep' as <-.
  - intros i Hi. apply Hall. lia.
Qed.

(** The number of slots in use of the block, when its last slot is free. *)
Lemma block_top s0 :
  inner_slots n !! (p + 7)%nat = Some s0 -> is_free s0 = true ->
  exists top s, (p <= top <= p + 7)%nat /\ inner_slots n !! top = Some s /\ is_free s = true /\
    (forall i, (p <= i < top)%nat -> exists t, used (inner_slots n) i t) /\
    forall i t, (top <= i <= p + 7)%nat -> ~ used (inner_slots n) i t.
Proof.
  intros E0 Hf0.
  assert (H : forall k, (k <= 7)%nat ->
    (forall i, (p <= i < p + k)%nat -> exists t, used (inner_slots n) i t) \/
    exists top s, (p <= top <= p + 7)%nat /\ inner_slots n !! top = Some s /\ is_free s = true /\
      forall i, (p <= i < top)%nat -> exists t, used (inner_slots n) i t).
  { induction k as [|k IH]; intros Hk; [left; lia|]. destruct (IH ltac:(lia)) as [Hl|]; [|by right].
    destruct (lookup_lt_is_Some_2 (inner_slots n) (p + k)) as [t Ht]; [apply lookup_lt_Some in E0; lia|].
    destruct (is_free t) eqn:Ef.
    - right. exists (p + k)%nat, t. split_and!; [lia|lia|done..].
    - left. intros i Hi. destruct (decide (i = p + k)%nat) as [->|]; [by exists t|]. apply Hl. lia. }
  assert (Hend : forall top s, (p <= top)%nat -> inner_slots n !! top = Some s -> is_free s = true ->
    forall i t, (top <= i <= p + 7)%nat -> ~ used (inner_slots n) i t).
  { intros top s Ht Es Hf i t Hi Hu. destruct (block_prefix i t Hu ltac:(lia)) as [_ Hall].
    destruct (Hall top) as [x [Ex Hx]]; [lia|]. congruence. }
  destruct (H 7%nat (le_n _)) as [Hl|(top & s & Ht & Es & Hf & Hl)].
  - exists (p + 7)%nat, s0. split_and!; [lia|lia|done..| |by eapply Hend; [|exact E0|]; [lia|]]. exact Hl.
  - exists top, s. split_and!; [lia|lia|done..| |by eapply Hend; [|exact Es|]; [lia|]]. exact Hl.
Qed.
End Blocks.

Lemma target_from_spec n p i K ss :
  (p <= i)%nat -> (i - p < n)%nat -> (S i < length ss)%nat ->
  (forall j s, (p < j <= i)%nat -> ss !! j = Some s -> dle (min_key s) K = true) ->
  (forall s, ss !! S i = Some s -> dle (min_key s) K = false) ->
  target_from n p K ss = Ok (S i).
Proof.
  revert p. induction n as [|n IH]; intros p Hpi Hn Hlen Hlow Hhigh; [lia|]. cbn [target_from].
  destruct (lookup_lt_is_Some_2 ss (S p)) as [s Es]; [lia|]. rewrite Es. mstep.
  destruct (decide (i = p)) as [->|Hne]; [by rewrite (Hhigh s Es)|].
  rewrite (Hlow (S p) s) by (done || lia). apply IH; [lia|lia|done| |done].
  intros j t Hj. apply Hlow. lia.
Qed.

(** The search has stopped at the slot of [c], the last child not above the new one. *)
Section UpsertHere.
Variables (n : InnerNode) (cs : list child) (node acc : InnerSlot) (p slot : nat) (c : child).
Abbreviation K := (min_key node).
Abbreviation new := (K, node).
Hypothesis Hok : node_ok n cs.
Hypothesis Hcs : Forall child_ok cs.
Hypothesis Hinc : increasing_from None cs.
Hypothesis Hline : line n = true.
Hypothesis Hnew : child_ok new.
Hypothesis Hp : pred_of n K = Some p.
Hypothesis Hlast : last_le K cs = Some c.
Hypothesis Hslot : inner_slots n !! slot = Some c.2.
Hypothesis Hidle : idle acc.

Lemma slot_child j s : used (inner_slots n) j s -> exists d, d ∈ cs /\ s = d.2 /\ min_key s = d.1 /\ finite (min_key s) = true.
Proof.
  intros Hj. destruct (no_used _ _ Hok j s Hj) as (d & Hd & ->). exists d.
  destruct (proj1 (Forall_forall _ _) Hcs d Hd) as (Kd & Em & _). by rewrite Em.
Qed.

Lemma chosen : c ∈ cs /\ used (inner_slots n) slot c.2 /\ min_key c.2 = c.1 /\ finite c.1 = true /\ rank c.1 <= rank K.
Proof.
  destruct Hnew as (HK & _). destruct (last_le_spec K cs c (finite_key K HK) Hcs Hinc Hlast) as (Hin & Hle & _).
  destruct (proj1 (Forall_forall _ _) Hcs c Hin) as (Kc & Em & Ef). by split_and!.
Qed.

Lemma slots_before j s : used (inner_slots n) j s -> (j < slot)%nat -> rank (min_key s) < rank c.1.
Proof.
  intros Hj Hlt. destruct chosen as (_ & Hu & <- & _). by apply (lay_sorted _ _ (no_layout _ _ Hok) j slot).
Qed.

Lemma slots_after j s : used (inner_slots n) j s -> (slot < j)%nat -> rank c.1 < rank (min_key s) /\ rank K < rank (min_key s).
Proof.
  intros Hj Hlt. destruct chosen as (_ & Hu & Ec & _). destruct Hnew as (HK & _).
  destruct (last_le_spec K cs c (finite_key K HK) Hcs Hinc Hlast) as (_ & _ & Hmax).
  pose proof (lay_sorted _ _ (no_layout _ _ Hok) slot j c.2 s Hlt Hu Hj) as Hr. rewrite Ec in Hr. split; [done|].
  destruct (slot_child j s Hj) as (d & Hd & -> & Ed & _). rewrite Ed in Hr |- *. by apply Hmax.
Qed.

(** Keys at most [K] are predicted at most at [p], keys at least [K] at least there. *)
Lemma pred_below k pk : finite k = true -> rank k <= rank K -> pred_of n k = Some pk -> (pk <= p)%nat.
Proof.
  intros Hk Hle Ek. destruct Hnew as (HK & _). exact (pred_mono n k K (no_number _ _ Hok) Hline Hk HK pk p Hle Ek Hp).
Qed.
Lemma pred_above k pk : finite k = true -> rank K <= rank k -> pred_of n k = Some pk -> (p <= pk)%nat.
Proof.
  intros Hk Hle Ek. destruct Hnew as (HK & _). exact (pred_mono n K k (no_number _ _ Hok) Hline HK Hk p pk Hle Hp Ek).
Qed.

(** No slot is in use between the chosen one and the predicted block. *)
Lemma gap_free j s : used (inner_slots n) j s -> (slot < j)%nat -> (p <= j)%nat.
Proof.
  intros Hj Hlt. destruct (lay_near _ _ (no_layout _ _ Hok) j s Hj) as (pj & Ep & Hle & _).
  destruct (slots_after j s Hj Hlt) as [_ Hgt]. destruct (slot_child j s Hj) as (_ & _ & _ & _ & Hf).
  pose proof (pred_above (min_key s) pj Hf ltac:(lia) Ep). lia.
Qed.

Lemma update_ok :
  rank K = rank c.1 -> node_ok (set_slots n (<[slot := node]> (inner_slots n))) (put_child new cs).
Proof.
  intros E. destruct chosen as (Hin & Hu & Ec & Kc & _). destruct Hnew as (HK & _ & Hf).
  assert (Hlen : (slot < length (inner_slots n))%nat) by (eapply lookup_lt_Some, Hu).
  split; cbn [set_slots inner_slots in_block_number].
  - apply Hok.
  - rewrite length_insert. apply Hok.
  - apply (layout_replace (pred_of n) _ slot c.2); [apply Hok|done|by apply finite_key|done|by rewrite Ec|].
    destruct (lay_near _ _ (no_layout _ _ Hok) slot c.2 Hu) as (pc & Epc & _). rewrite Hp, Epc. f_equal.
    rewrite Ec in Epc. pose proof (pred_below c.1 pc Kc ltac:(lia) Epc). pose proof (pred_above c.1 pc Kc ltac:(lia) Epc). lia.
  - intros j s [Hj Hjf]. destruct (decide (j = slot)) as [->|Hne].
    + rewrite list_lookup_insert_eq in Hj by done. injection Hj as <-. exists new.
      split; [apply (put_child_in None); [done|by left]|done].
    + rewrite list_lookup_insert_ne in Hj by done. destruct (slot_child j s (conj Hj Hjf)) as (d & Hd & -> & Ed & _).
      exists d. split; [|done]. apply (put_child_in None); [done|]. right. split; [done|]. cbn. rewrite <- Ed.
      destruct (Nat.lt_total j slot) as [Hlt|[?|Hlt]]; [|done|].
      * pose proof (slots_before j _ (conj Hj Hjf) Hlt). lia.
      * pose proof (slots_after j _ (conj Hj Hjf) Hlt). lia.
  - intros d Hd. apply (put_child_in None) in Hd as [->|[Hd Hr]]; [| |done].
    + exists slot. split; [by rewrite list_lookup_insert_eq|done].
    + destruct (no_done _ _ Hok d Hd) as (j & Hj & Hjf). exists j. split; [|done].
      destruct (decide (j = slot)) as [->|Hne]; [|by rewrite list_lookup_insert_ne].
      exfalso. apply Hr. cbn. destruct (proj1 (Forall_forall _ _) Hcs d Hd) as (_ & Ed & _).
      assert (d.2 = c.2) as Edc by congruence. rewrite <- Ed, Edc, Ec. lia.
Qed.

(** The place of the new child, when the last slot of its block is free. *)
Lemma insert_place s0 :
  rank K <> rank c.1 -> inner_slots n !! (p + 7)%nat = Some s0 -> is_free s0 = true ->
  exists t top s, (if (p <=? slot)%nat then target_from (length (inner_slots n)) p K (inner_slots n) else Ok p) = Ok t /\
    search_left (p + 7) (inner_slots n) = Ok (if (p =? top)%nat then slot else (top - 1)%nat) /\
    (p <= t <= top)%nat /\ (p = top -> (slot < p)%nat) /\ inner_slots n !! top = Some s /\ is_free s = true /\
    (forall i, (p <= i < top)%nat -> exists t, used (inner_slots n) i t) /\
    (forall j x, used (inner_slots n) j x -> (j < t)%nat -> rank (min_key x) < rank K) /\
    (forall j x, used (inner_slots n) j x -> (t <= j)%nat -> rank K < rank (min_key x)).
Proof.
  intros Hne E0 Hf0. destruct chosen as (Hin & Hu & Ec & Kc & Hle). destruct Hnew as (HK & _ & _).
  assert (Hlen : (p + 7 < length (inner_slots n))%nat) by (by eapply lookup_lt_Some).
  destruct (block_top n cs p Hok (ex_intro _ K Hp) s0 E0 Hf0) as (top & s & Ht & Es & Hf & Hrun & Hfree).
  (* the chosen slot is before the free ones *)
  assert (Hst : (slot < top)%nat).
  { destruct (Nat.lt_ge_cases slot top) as [|Hge]; [done|exfalso].
    destruct (Nat.le_gt_cases slot (p + 7)) as [Hle7|Hgt]; [by apply (Hfree slot c.2)|].
    destruct (lay_near _ _ (no_layout _ _ Hok) slot c.2 Hu) as (pc & Epc & _ & Hall). rewrite Ec in Epc.
    pose proof (pred_below c.1 pc Kc Hle Epc). destruct (Hall (p + 7)%nat) as [x [Ex Hx]]; [lia|congruence]. }
  assert (Hleft : search_left (p + 7) (inner_slots n) = Ok (if (p =? top)%nat then slot else (top - 1)%nat)).
  { destruct (Nat.eqb_spec p top) as [Ept|Hpt].
    - apply (search_left_spec _ slot c.2); [done|lia|lia|]. intros j x Hj Hux.
      pose proof (gap_free j x Hux ltac:(lia)). by apply (Hfree j x ltac:(lia)).
    - destruct (Hrun (top - 1)%nat ltac:(lia)) as [x Hx]. apply (search_left_spec _ (top - 1)%nat x); [done|lia|lia|].
      intros j y Hj. apply Hfree. lia. }
  assert (Hlow : forall j x, used (inner_slots n) j x -> (j <= slot)%nat -> rank (min_key x) < rank K).
  { intros j x Hx Hj. destruct (decide (j = slot)) as [->|Hjs].
    - destruct Hu as [Eu _], Hx as [Ex _]. assert (x = c.2) as -> by congruence. rewrite Ec. lia.
    - pose proof (slots_before j x Hx ltac:(lia)). lia. }
  destruct (Nat.leb_spec p slot) as [Hps|Hsp].
  - exists (S slot), top, s. split_and!; [|done|lia|lia|lia|done|done|done| |].
    + apply target_from_spec; [done|lia|lia| |].
      * intros j x Hj Ex. destruct (Hrun j) as [y Hy]; [lia|]. assert (y = x) as -> by (destruct Hy; congruence).
        destruct (slot_child j x Hy) as (_ & _ & _ & _ & Kx). apply finite_key in Kx, HK. rewrite dle_rank by done.
        pose proof (Hlow j x Hy ltac:(lia)). apply Z.leb_le. lia.
      * intros x Ex. destruct (is_free x) eqn:Efx.
        -- apply free_key in Efx. rewrite Efx. pose proof (below_flag _ Hnew) as Hb. cbn [fst] in Hb.
           apply finite_key in HK. rewrite dle_rank by done. apply Z.leb_gt. lia.
        -- destruct (slot_child (S slot) x (conj Ex Efx)) as (_ & _ & _ & _ & Kx). apply finite_key in Kx, HK.
           rewrite dle_rank by done. pose proof (slots_after (S slot) x (conj Ex Efx) ltac:(lia)). apply Z.leb_gt. lia.
    + intros j x Hx Hj. apply (Hlow j x Hx). lia.
    + intros j x Hx Hj. apply (slots_after j x Hx). lia.
  - exists p, top, s. split_and!; [done|done|lia|lia|done|done|done|done| |].
    + intros j x Hx Hj. destruct (Nat.le_gt_cases j slot) as [Hjs|Hjs]; [by apply (Hlow j x Hx)|].
      pose proof (gap_free j x Hx Hjs). lia.
    + intros j x Hx Hj. apply (slots_after j x Hx). lia.
Qed.

Lemma insert_ok t top s :
  (p <= t <= top)%nat -> inner_slots n !! top = Some s -> is_free s = true -> (top < p + 8)%nat ->
  (forall i, (p <= i < top)%nat -> exists t, used (inner_slots n) i t) ->
  (forall j x, used (inner_slots n) j x -> (j < t)%nat -> rank (min_key x) < rank K) ->
  (forall j x, used (inner_slots n) j x -> (t <= j)%nat -> rank K < rank (min_key x)) ->
  node_ok (set_slots n (shifted (inner_slots n) t top node)) (put_child new cs).
Proof.
  intros Ht Es Hf H8 Hrun Hlow Hhigh. destruct Hnew as (HK & _ & Hnf).
  pose proof (used_shifted (inner_slots n) t top node s (proj2 Ht) Es Hf Hnf) as Hu.
  assert (Hother : forall j x, used (inner_slots n) j x -> rank (min_key x) <> rank K).
  { intros j x Hx. destruct (Nat.lt_ge_cases j t) as [Hlt|Hge];
      [pose proof (Hlow j x Hx Hlt)|pose proof (Hhigh j x Hx Hge)]; lia. }
  split; cbn [set_slots inner_slots in_block_number].
  - apply Hok.
  - unfold shifted. rewrite length_insert, shift_up_length. apply Hok.
  - apply (layout_shifted (pred_of n) _ p t top node s); try done; [apply Hok|by apply finite_key|].
    intros j x pj Hx Hj Ep. destruct (block_prefix n cs p Hok (ex_intro _ K Hp) j x Hx ltac:(lia)) as [Hpj _].
    by apply Hpj.
  - intros j x [[-> ->]|(i & Hi & ->)]%Hu.
    + exists new. split; [apply (put_child_in None); [done|by left]|done].
    + destruct (slot_child i x Hi) as (d & Hd & -> & Ed & _). exists d. split; [|done].
      apply (put_child_in None); [done|]. right. split; [done|]. rewrite <- Ed. by apply (Hother i).
  - intros d Hd. apply (put_child_in None) in Hd as [->|[Hd Hr]]; [| |done].
    + exists t. apply Hu. by left.
    + destruct (no_done _ _ Hok d Hd) as (j & Hj). exists (moved t top j). apply Hu. right. by exists j.
Qed.

(** What [upsert_here] does with the node: an update or an insertion of the child, or
    nothing when the block is full. *)
Lemma upsert_here_spec :
  exists code n', upsert_here n slot p node acc = Ok (code, n', acc) /\
    same_model n n' /\
    ((code = 3 /\ n' = n /\ rank K <> rank c.1) \/ (code = 1 /\ rank K = rank c.1 \/ code = 2 /\ rank K <> rank c.1) /\ node_ok n' (put_child new cs)).
Proof.
  destruct chosen as (Hin & Hu & Ec & Kc & Hle). destruct (idle_lock acc Hidle) as (acc' & El & Er).
  unfold upsert_here. rewrite Hslot. mstep. destruct Hnew as (HK & _).
  rewrite deq_rank by (rewrite ?Ec; by apply finite_key). rewrite Ec. destruct (Z.eqb_spec (rank c.1) (rank K)) as [E|Hne].
  { rewrite El. mstep. rewrite Er. eexists 1, _. split; [done|]. split.
    { split; [done|]. split; [done|]. intros i s [Es Hf]. cbn [set_slots inner_slots]. destruct (decide (i = slot)) as [->|Hn].
      - exists node. split; [|apply Hnew]. apply list_lookup_insert_eq. by eapply lookup_lt_Some.
      - exists s. split; [|done]. by rewrite list_lookup_insert_ne. }
    right.
    split; [left; split; [done|congruence]|]. by apply update_ok. }
  destruct (pred_range n K p (no_number _ _ Hok) Hp) as (Hpr & _). pose proof (no_length _ _ Hok) as Hlen.
  destruct (lookup_lt_is_Some_2 (inner_slots n) (p + 7)) as [s0 E0]; [lia|]. rewrite E0. mstep.
  destruct (is_free s0) eqn:Ef0; [|eexists 3, _; split; [done|]; split; [split; [done|]; split; [done|]; intros i s Hs; by exists s|]; left; split_and!; [done|done|congruence]].
  rewrite El. mstep. destruct (insert_place s0 ltac:(congruence) E0 Ef0) as
    (t & top & s & Et & Eleft & Hr & Hpt & Es & Hf & Hrun & Hlow & Hhigh).
  rewrite Et. mstep. rewrite Eleft. mstep. rewrite Er.
  assert (Htop : (top < p + 8)%nat).
  { destruct (Nat.lt_ge_cases top (p + 8)) as [|Hge]; [done|exfalso].
    destruct (Hrun (p + 7)%nat ltac:(lia)) as [x [Ex Hx]]. congruence. }
  eexists 2, _. split; [reflexivity|].
  assert (Esh : <[t:=node]> (shift_up (S (if (p =? top)%nat then slot else (top - 1)%nat) - t)
     (S (if (p =? top)%nat then slot else (top - 1)%nat)) (inner_slots n)) = shifted (inner_slots n) t top node).
  { unfold shifted. f_equal. destruct (Nat.eqb_spec p top) as [E|Hpt'].
    - specialize (Hpt E). replace (S slot - t)%nat with 0%nat by lia. by replace (top - t)%nat with 0%nat by lia.
    - by replace (S (top - 1))%nat with top by lia. }
  rewrite Esh. split; [|right; split; [right; split; [done|congruence]|by apply (insert_ok t top s)]].
  split; [done|]. split; [done|]. cbn [set_slots inner_slots]. destruct Hnew as (_ & _ & Hnf).
  intros i x Hx. apply (shifted_places (inner_slots n) t top node s (proj2 Hr) Es Hf Hnf p i x); [lia|exact Hrun|exact Hx].
Qed.
End UpsertHere.

(** ** An upsert in the tree *)

Lemma put_child_after c l1 l2 :
  Forall (fun d : child => rank d.1 < rank c.1) l1 -> put_child c (l1 ++ l2) = l1 ++ put_child c l2.
Proof. induction 1 as [|d l1 Hd _ IH]; [done|]. cbn [app put_child]. by rewrite (proj2 (Z.ltb_lt _ _) Hd), IH. Qed.

Lemma put_child_before c l1 l2 :
  Forall (fun d : child => rank c.1 < rank d.1) l2 -> put_child c (l1 ++ l2) = put_child c l1 ++ l2.
Proof.
  intros H2. induction l1 as [|d l1 IH]; cbn [app put_child].
  - destruct H2 as [|e l2 He _]; [done|]. cbn [put_child app].
    by rewrite (proj2 (Z.ltb_ge _ _)), (proj2 (Z.eqb_neq _ _)) by lia.
  - rewrite IH. destruct (rank d.1 <? rank c.1); [done|]. by destruct (rank d.1 =? rank c.1).
Qed.

Lemma starts_put d run c x :
  starts d run -> Forall child_ok run -> increasing_from None run -> child_ok c ->
  last_le c.1 run = Some x -> starts d (put_child c run).
Proof.
  intros (c0 & rest & -> & Es) Hok Hinc Hc Hl. pose proof (last_le_first c.1 c0 rest x (proj1 Hc) Hok Hinc Hl) as Hle.
  apply Forall_cons in Hok as [(K0 & _) _]. pose proof (proj1 Hc) as Kc.
  apply finite_key in K0, Kc. rewrite dle_rank in Hle by done. apply Z.leb_le in Hle. cbn [put_child].
  destruct (Z.ltb_spec (rank c0.1) (rank c.1)) as [|Hge]; [by exists c0, (put_child c rest)|].
  rewrite (proj2 (Z.eqb_eq _ _)) by lia. exists c, rest. split; [done|]. intros q Hq.
  rewrite <- Es by done. apply finite_key in Hq. rewrite !dle_rank by done. f_equal. lia.
Qed.

(** Only the nodes at [addrs] may change, and their models do not. *)
Definition touches (addrs : list Z) (ns ns' : gmap Z InnerNode) : Prop :=
  forall b, match ns !! b with
            | Some n => exists n', ns' !! b = Some n' /\ same_model n n' /\ (b ∉ addrs -> n' = n)
            | None => ns' !! b = None
            end.

Lemma touches_other addrs ns ns' b : touches addrs ns ns' -> b ∉ addrs -> ns' !! b = ns !! b.
Proof.
  intros Ht Hb. specialize (Ht b). destruct (ns !! b) as [n|]; [|done]. destruct Ht as (n' & -> & _ & E). by rewrite E.
Qed.

Lemma touches_weaken addrs addrs' ns ns' :
  touches addrs ns ns' -> (forall b, b ∈ addrs -> b ∈ addrs') -> touches addrs' ns ns'.
Proof.
  intros Ht Hsub b. specialize (Ht b). destruct (ns !! b) as [n|]; [|done]. destruct Ht as (n' & E1 & E2 & E3).
  exists n'. split_and!; [done|done|]. intros Hb. apply E3. intros Hb'. by apply Hb, Hsub.
Qed.

Lemma touches_node ns a n n' : ns !! a = Some n -> same_model n n' -> touches [a] ns (<[a := n']> ns).
Proof.
  intros En Em b. destruct (decide (b = a)) as [->|Hne].
  - rewrite En. exists n'. rewrite lookup_insert_eq. split_and!; [done|done|]. intros Hb. destruct Hb. apply list_elem_of_here.
  - rewrite lookup_insert_ne by done. destruct (ns !! b) as [m|] eqn:E; [|done].
    exists m. split; [done|]. split; [apply same_model_refl|done].
Qed.

(** Every model on the way is in range at the key. *)
Definition reach_at (ns : gmap Z InnerNode) (addrs : list Z) (q : double) : Prop :=
  forall b n, b ∈ addrs -> ns !! b = Some n -> line n = true /\ exists p, pred_of n q = Some p.

Lemma middle_in {A} (x : A) (l1 l2 : list A) : x ∈ l1 ++ x :: l2.
Proof. apply elem_of_app. right. apply list_elem_of_here. Qed.

Section TreeUpsert.
Variables (node : InnerSlot).
Abbreviation K := (min_key node).
Abbreviation new := (K, node).
Hypothesis Hnew : child_ok new.
Hypothesis Htype : type node = 0.

(** What an upsert below [a] leaves: the tree with the child put in, or the same tree. *)
Definition upserted (f : nat) ns (a : child) (cs : list child) (addrs : list Z) (c : child) (code : Z) ns' : Prop :=
  touches addrs ns ns' /\ 1 <= code <= 3 /\ (code = 1 <-> rank K = rank c.1) /\
  tree f ns' a (if code =? 3 then cs else put_child new cs) addrs.

(** The search that [upsert_node] makes in a node. *)
Lemma upsert_search g ns s n kids d p :
  ns !! ptr s = Some n -> node_ok n kids -> Forall child_ok kids -> increasing_from None kids ->
  (slope s, intercept s, block_number s) = (in_slope n, in_intercept n, in_block_number n) ->
  line n = true -> pred_of n K = Some p -> last_le K kids = Some d ->
  exists i, inner_slots n !! i = Some d.2 /\
    upsert_node (S g) ns (ptr s) node s =
      if type d.2 =? 1 then
        '(code, h, x) ← upsert_node g ns (ptr d.2) node d.2;
        n ← of_opt UB (h !! ptr s);
        Ok (code, <[ptr s := set_slots n (<[i := x]> (inner_slots n))]> h, s)
      else
        '(code, m, acc) ← upsert_here n i p node s;
        Ok (code, <[ptr s := m]> ns, acc).
Proof.
  intros Hn Hok Hk Hinc Em Hline Hp Hl. destruct Hnew as (HK & _).
  destruct (node_search n kids K d p s Hok Hk Hinc HK Hline Em Hp Hl) as (i & E1 & E2 & E3 & E4).
  exists i. split; [done|]. cbn [upsert_node]. rewrite Hn. mstep. rewrite E1. mstep. rewrite E2, E3. mstep.
  rewrite E4. mstep. reflexivity.
Qed.

Lemma tree_upsert_leaf g ns a cs addrs c :
  tree 1 ns a cs addrs -> reach_at ns addrs K -> last_le K cs = Some c ->
  exists code ns', upsert_node (S g) ns (ptr a.2) node a.2 = Ok (code, ns', a.2) /\
    upserted 1 ns a cs addrs c code ns'.
Proof.
  cbn [tree]. intros (Ht & Hi & H1 & H2 & n & kids & parts & En & Elv & Em & Hok & K1 & K2 & HF & -> & ->) Hr Hl.
  change (forest 0 ns kids parts) in HF. apply forest_0 in HF as [-> Hkt]. destruct (leaf_parts kids) as [El1 El2].
  rewrite El1, El2 in *. destruct (Hr (ptr a.2) n (list_elem_of_here _ _) En) as [Hline [p Hp]].
  destruct (upsert_search g ns a.2 n kids c p En Hok K1 K2 Em Hline Hp Hl) as (i & Ei & ->).
  assert (Hc0 : type c.2 = 0).
  { destruct (last_le_Some _ _ _ Hl) as [Hin _]. exact (proj1 (Forall_forall _ _) Hkt c Hin). }
  rewrite Hc0. cbn [Z.eqb].
  destruct (upsert_here_spec n kids node a.2 p i c Hok K1 K2 Hline Hnew Hp Hl Ei Hi) as (code & n' & -> & Em' & Hcase).
  mstep. exists code, (<[ptr a.2 := n']> ns). split; [done|]. split; [by apply (touches_node ns (ptr a.2) n n')|].
  assert (Hcode : 1 <= code <= 3 /\ (code = 1 <-> rank K = rank c.1) /\
    node_ok n' (if code =? 3 then kids else put_child new kids)).
  { destruct Hcase as [(-> & -> & Hne)|[[[-> E]|[-> Hne]] Hok']]; (split; [lia|split; [|assumption]]); split; lia. }
  destruct Hcode as (Hc1 & Hc2 & Hok'). split; [done|]. split; [done|].
  set (kids' := if code =? 3 then kids else put_child new kids) in *.
  assert (Hk' : Forall child_ok kids' /\ increasing_from None kids' /\ Forall (fun k : child => type k.2 = 0) kids').
  { unfold kids'. destruct (code =? 3); [done|]. split; [by apply put_child_ok|]. split; [by apply put_child_from|].
    apply Forall_forall. intros k Hk. apply (put_child_in None) in Hk as [->|[Hk _]]; [done| |done].
    exact (proj1 (Forall_forall _ _) Hkt k Hk). }
  destruct Hk' as (K1' & K2' & Kt'). cbn [tree]. destruct (leaf_parts kids') as [El1' El2'].
  split_and!; [done..|]. exists n', kids', (map (fun k : child => ([k], [])) kids').
  rewrite lookup_insert_eq, El1', El2'. destruct Em' as (Em' & Elv' & _). split_and!; try done; [by rewrite Elv'|by rewrite Em, <- Em'|].
  change (forest 0 (<[ptr a.2 := n']> ns) kids' (map (fun k : child => ([k], [])) kids')). by apply forest_0.
Qed.

(** The parts of a level around the chosen child. *)
Lemma level_split f ns kids (parts : list (list child * list Z)) c :
  forest f ns kids parts -> Forall child_ok (concat (map fst parts)) -> increasing_from None (concat (map fst parts)) ->
  last_le K (concat (map fst parts)) = Some c ->
  exists k1 d k2 p1 run ads p2, kids = k1 ++ d :: k2 /\ parts = p1 ++ (run, ads) :: p2 /\
    forest f ns k1 p1 /\ tree f ns d run ads /\ starts d run /\ forest f ns k2 p2 /\
    last_le K kids = Some d /\ last_le K run = Some c /\
    Forall child_ok run /\ increasing_from None run /\
    Forall (fun x : child => rank x.1 < rank K) (concat (map fst p1)) /\
    Forall (fun x : child => rank K < rank x.1) (concat (map fst p2)).
Proof.
  intros HF Hok Hinc Hl. destruct Hnew as (HK & _).
  destruct (last_le_split K kids (map fst parts) c (forest_starts _ _ _ _ HF) Hok Hinc HK Hl) as
    (k1 & d & k2 & r1 & run & r2 & -> & Er & Elen & E1 & E2 & E3).
  apply map_eq_app in Er as (p1 & p' & -> & <- & Er). destruct p' as [|[run' ads] p2]; [done|]. injection Er as -> <-.
  rewrite length_map in Elen. apply Forall2_app_inv in HF as [HF1 HF2]; [|done].
  apply Forall2_cons in HF2 as [[Hd Hst] HF2]. cbn in Hd, Hst.
  rewrite map_app, concat_app in Hok, Hinc. cbn [map concat fst] in Hok, Hinc.
  apply Forall_app in Hok as [Hok1 Hok]. apply Forall_app in Hok as [Hok2 Hok3].
  destruct (increasing_app _ _ _ Hinc) as (_ & I2 & I3). destruct (increasing_app _ _ _ I2) as (I4 & _ & _).
  destruct (last_le_spec K run c (finite_key K HK) Hok2 I4 E2) as (Hin & Hle & _).
  exists k1, d, k2, p1, run, ads, p2. split_and!; try done.
  - apply Forall_forall. intros x Hx. cbn. pose proof (I3 x c Hx (proj2 (elem_of_app _ _ _) (or_introl Hin))). lia.
  - apply last_le_None in E3. apply Forall_forall. intros x Hx.
    pose proof (proj1 (Forall_forall _ _) E3 x Hx) as E. cbn in E.
    destruct (proj1 (Forall_forall _ _) Hok3 x Hx) as (Kx & _). apply finite_key in Kx, HK.
    rewrite dle_rank in E by done. by apply Z.leb_gt in E.
Qed.

(** An upsert below the chosen child of a level is an upsert in the level. *)
Definition upserts_at (f g : nat) ns : Prop := forall a cs addrs c,
  tree (S f) ns a cs addrs -> NoDup addrs -> reach_at ns addrs K -> last_le K cs = Some c ->
  exists code ns', upsert_node (S g) ns (ptr a.2) node a.2 = Ok (code, ns', a.2) /\
    upserted (S f) ns a cs addrs c code ns'.

Lemma forest_upsert f g ns kids parts c :
  upserts_at f g ns -> forest (S f) ns kids parts ->
  Forall child_ok (concat (map fst parts)) -> increasing_from None (concat (map fst parts)) ->
  NoDup (concat (map snd parts)) -> reach_at ns (concat (map snd parts)) K ->
  last_le K (concat (map fst parts)) = Some c ->
  exists d code ns' parts', last_le K kids = Some d /\ type d.2 = 1 /\
    upsert_node (S g) ns (ptr d.2) node d.2 = Ok (code, ns', d.2) /\
    touches (concat (map snd parts)) ns ns' /\ 1 <= code <= 3 /\ (code = 1 <-> rank K = rank c.1) /\
    forest (S f) ns' kids parts' /\ map snd parts' = map snd parts /\
    concat (map fst parts') = if code =? 3 then concat (map fst parts) else put_child new (concat (map fst parts)).
Proof.
  intros IH HF H1 H2 Hnd Hr Hl.
  destruct (level_split (S f) ns kids parts c HF H1 H2 Hl) as
    (k1 & d & k2 & p1 & run & ads & p2 & -> & -> & HF1 & Hd & Hst & HF2 & E1 & E2 & Hrun1 & Hrun2 & Hlow & Hhigh).
  rewrite map_app, concat_app in Hnd, Hr |- *. cbn [map concat snd] in Hnd, Hr |- *.
  apply NoDup_app in Hnd as (_ & Hd1 & Hnd). apply NoDup_app in Hnd as (Hnd & Hd2 & _).
  assert (Had : forall b, b ∈ ads -> b ∈ concat (map snd p1) ++ ads ++ concat (map snd p2)).
  { intros b Hb. apply elem_of_app. right. apply elem_of_app. by left. }
  destruct (IH d run ads c Hd Hnd) as (code & ns' & Eu & Htouch & Hc1 & Hc2 & Hd'); [|exact E2|].
  { intros b m Hb. by apply Hr, Had. }
  cbn [tree] in Hd. destruct Hd as (Htd & _).
  set (run' := if code =? 3 then run else put_child new run) in *.
  exists d, code, ns', (p1 ++ (run', ads) :: p2). split; [exact E1|]. split; [exact Htd|]. split; [exact Eu|].
  split; [by eapply touches_weaken|]. split; [exact Hc1|]. split; [exact Hc2|]. split; [|split; [by rewrite !map_app|]].
  - apply Forall2_app; [|constructor; [split; [exact Hd'|]|]].
    + apply (forest_frame _ ns); [done|]. intros b Hb. apply (touches_other _ _ _ _ Htouch). intros Hb'.
      apply (Hd1 b Hb). apply elem_of_app. by left.
    + cbn [fst]. unfold run'. destruct (code =? 3); [done|]. by apply (starts_put d run new c).
    + apply (forest_frame _ ns); [done|]. intros b Hb. apply (touches_other _ _ _ _ Htouch). intros Hb'. by apply (Hd2 b Hb').
  - rewrite !map_app, !concat_app. cbn [map concat fst]. unfold run'. destruct (code =? 3); [done|].
    by rewrite put_child_after, put_child_before.
Qed.

Lemma tree_upsert f g ns : (f <= g)%nat -> upserts_at f g ns.
Proof.
  revert g. induction f as [|f IH]; intros g Hg a cs addrs c Htree Hnd Hr Hl; [by apply tree_upsert_leaf|].
  destruct g as [|g]; [lia|]. cbn [tree] in Htree.
  destruct Htree as (Ht & Hi & H1 & H2 & n & kids & parts & En & Elv & Em & Hok & K1 & K2 & HF & -> & ->).
  change (forest (S f) ns kids parts) in HF. apply NoDup_cons in Hnd as [Hna Hnd].
  destruct (forest_upsert f g ns kids parts c (IH g ltac:(lia)) HF H1 H2 Hnd) as
    (d & code & ns' & parts' & E1 & Htd & Eu & Htouch & Hc1 & Hc2 & HF' & Esnd & Efst); [|exact Hl|].
  { intros b m Hb. by apply Hr, list_elem_of_further. }
  destruct (Hr (ptr a.2) n (list_elem_of_here _ _) En) as [Hline [p Hp]].
  destruct (upsert_search (S g) ns a.2 n kids d p En Hok K1 K2 Em Hline Hp E1) as (i & Ei & ->).
  rewrite Eu, Htd. cbn [Z.eqb Pos.eqb]. mstep.
  assert (Ena : ns' !! ptr a.2 = Some n) by (by rewrite (touches_other _ _ _ _ Htouch)).
  rewrite Ena. mstep. rewrite list_insert_id by done.
  assert (Eset : <[ptr a.2 := set_slots n (inner_slots n)]> ns' = ns').
  { apply insert_id. rewrite Ena. by destruct n. }
  rewrite Eset. exists code, ns'. split; [done|].
  split; [eapply touches_weaken; [exact Htouch|]; intros b; apply list_elem_of_further|]. split; [done|]. split; [done|].
  cbn [tree]. split; [done|]. split; [done|].
  split; [destruct (code =? 3); [done|by apply put_child_ok]|].
  split; [destruct (code =? 3); [done|by apply put_child_from]|].
  exists n, kids, parts'. rewrite Esnd, Efst. by split_and!.
Qed.
End TreeUpsert.
