(* ===== verification/Relock.v ===== *)
(** * Changes of a leaf's slot in the tree (core/index/utils.h, InnerSlot; inner_node.h)

    A split locks the slot of its leaf, which is in an inner node, and releases the slot
    at the same place when the new leaves are in: a change of the lock bits of one slot in
    use leaves the tree as it is but for that child. *)

From S2P Require Import Prelude Doubles Rounding Slots InnerNode Routing InnerTree InnerUpsert.
Open Scope Z_scope.

Lemma increasing_keys lo (cs cs' : list child) :
  map fst cs' = map fst cs -> increasing_from lo cs -> increasing_from lo cs'.
Proof.
  revert lo cs'. induction cs as [|c cs IH]; intros lo [|c' cs'] E; try done. injection E as E1 E2.
  intros [H1 H2]. split; rewrite E1; [done|by apply IH].
Qed.

Lemma increasing_lower lo l1 c l2 d :
  increasing_from lo (l1 ++ c :: l2) -> d ∈ l1 ++ l2 -> rank d.1 <> rank c.1.
Proof.
  intros Hi Hd. apply increasing_app in Hi as (_ & Hi & Hlt). apply elem_of_app in Hd as [Hd|Hd].
  - specialize (Hlt d c Hd (list_elem_of_here _ _)). lia.
  - destruct Hi as [_ Hi]. pose proof (increasing_from_lower _ _ _ Hi Hd). lia.
Qed.

(** ** One node *)

Section SetSlot.
Variables (s s' : InnerSlot).
Hypothesis Hkey : min_key s' = min_key s.
Hypothesis Hused : is_free s = false.

Lemma still_used : is_free s' = false.
Proof. unfold is_free in *. by rewrite Hkey. Qed.

Lemma child_set (c : child) : child_ok c -> c.2 = s -> child_ok (c.1, s').
Proof. intros (K & E & _) Ec. split; [done|]. split; [cbn; congruence|apply still_used]. Qed.

Lemma node_set n kids i :
  node_ok n kids -> Forall child_ok kids -> increasing_from None kids -> inner_slots n !! i = Some s ->
  exists k1 k k2, kids = k1 ++ k :: k2 /\ k.2 = s /\
    node_ok (set_slots n (<[i := s']> (inner_slots n))) (k1 ++ (k.1, s') :: k2).
Proof.
  intros Hok Hk Hinc Hi. pose proof still_used as Hf'.
  destruct (no_used _ _ Hok i s (conj Hi Hused)) as (k & Hin & Ek).
  apply list_elem_of_split in Hin as (k1 & k2 & ->). exists k1, k, k2. split; [done|]. split; [done|].
  assert (Kk : child_ok k) by (apply (proj1 (Forall_forall _ _) Hk), middle_in). destruct Kk as (Kf & Em & _).
  assert (Hother : forall d, d ∈ k1 ++ k2 -> d ∈ k1 ++ k :: k2 /\ d.2 <> s).
  { intros d Hd. split; [apply elem_of_app; apply elem_of_app in Hd as [Hd|Hd]; [by left|right; by apply list_elem_of_further]|].
    intros Ed. apply (increasing_lower None k1 k k2 d Hinc Hd).
    assert (Hd' : d ∈ k1 ++ k :: k2).
    { apply elem_of_app; apply elem_of_app in Hd as [Hd|Hd]; [by left|right; by apply list_elem_of_further]. }
    destruct (proj1 (Forall_forall _ _) Hk d Hd') as (_ & E & _). congruence. }
  assert (Hlen : (i < length (inner_slots n))%nat) by (by eapply lookup_lt_Some).
  assert (Hsame : forall j, used (inner_slots n) j s -> j = i).
  { intros j [Hj Hjf]. destruct (Nat.lt_total j i) as [Hlt|[?|Hlt]]; [|done|].
    - pose proof (lay_sorted _ _ (no_layout _ _ Hok) j i s s Hlt (conj Hj Hjf) (conj Hi Hused)). lia.
    - pose proof (lay_sorted _ _ (no_layout _ _ Hok) i j s s Hlt (conj Hi Hused) (conj Hj Hjf)). lia. }
  split; cbn [set_slots inner_slots in_block_number].
  - apply Hok.
  - rewrite length_insert. apply Hok.
  - apply (layout_replace (pred_of n) _ i s); [apply Hok|done| |done|by rewrite Hkey|by rewrite Hkey].
    rewrite Hkey, Ek, Em. by apply finite_key.
  - intros j t [Hj Hjf]. destruct (decide (j = i)) as [->|Hne].
    + rewrite list_lookup_insert_eq in Hj by done. injection Hj as <-. exists (k.1, s'). split; [apply middle_in|done].
    + rewrite list_lookup_insert_ne in Hj by done. destruct (no_used _ _ Hok j t (conj Hj Hjf)) as (d & Hd & ->).
      exists d. split; [|done]. apply elem_of_app in Hd as [Hd|Hd]; [apply elem_of_app; by left|].
      apply elem_of_cons in Hd as [->|Hd]; [|apply elem_of_app; right; by apply list_elem_of_further].
      exfalso. apply Hne, Hsame. rewrite Ek. by split.
  - intros d Hd. assert (Hd' : d = (k.1, s') \/ d ∈ k1 ++ k2).
    { apply elem_of_app in Hd as [Hd|Hd]; [right; apply elem_of_app; by left|].
      apply elem_of_cons in Hd as [->|Hd]; [by left|right; apply elem_of_app; by right]. }
    destruct Hd' as [->|Hd'].
    + exists i. split; [by rewrite list_lookup_insert_eq|done].
    + destruct (Hother d Hd') as [Hd1 Hd2]. destruct (no_done _ _ Hok d Hd1) as (j & Hj & Hjf). exists j. split; [|done].
      rewrite list_lookup_insert_ne; [done|]. intros ->. apply Hd2. congruence.
Qed.

(** ** The tree *)

Hypothesis Htype : type s = 0.
Hypothesis Htype' : type s' = 0.

(** The slot at place [i] of the node at [b] is the slot of a child; with its new value the
    tree has the new slot there. *)
Definition sets_child (f : nat) (ns ns' : gmap Z InnerNode) (b : Z) : Prop := forall a cs addrs,
  tree f ns a cs addrs -> NoDup addrs -> b ∈ addrs ->
  exists l1 c l2, cs = l1 ++ c :: l2 /\ c.2 = s /\ tree f ns' a (l1 ++ (c.1, s') :: l2) addrs.

Lemma starts_set a l1 (c : child) l2 : starts a (l1 ++ c :: l2) -> starts a (l1 ++ (c.1, s') :: l2).
Proof.
  intros (c0 & rest & E & Hs). destruct l1 as [|d l1]; cbn in E |- *; injection E as <- <-.
  - by exists (c.1, s'), l2.
  - by exists d, (l1 ++ (c.1, s') :: l2).
Qed.

Lemma forest_set f ns ns' b kids parts :
  sets_child f ns ns' b -> (forall x, x <> b -> ns' !! x = ns !! x) ->
  forest f ns kids parts -> NoDup (concat (map snd parts)) -> b ∈ concat (map snd parts) ->
  exists l1 c l2 parts', concat (map fst parts) = l1 ++ c :: l2 /\ c.2 = s /\ forest f ns' kids parts' /\
    map snd parts' = map snd parts /\ concat (map fst parts') = l1 ++ (c.1, s') :: l2.
Proof.
  intros Hset Hsame HF Hnd Hb. apply list_elem_of_In, in_concat in Hb as (ads & Hads & Hb).
  apply list_elem_of_In in Hads, Hb. apply list_elem_of_fmap in Hads as (part & -> & Hpart).
  apply list_elem_of_split in Hpart as (p1 & p2 & ->).
  apply Forall2_app_inv_r in HF as (k1 & k' & HF1 & HF2 & ->).
  apply Forall2_cons_inv_r in HF2 as (d & k2 & [Hd Hst] & HF2 & ->).
  rewrite map_app, concat_app in Hnd. cbn [map concat] in Hnd.
  apply NoDup_app in Hnd as (_ & Hd1 & Hnd). apply NoDup_app in Hnd as (Hnd & Hd2 & _).
  destruct (Hset d part.1 part.2 Hd Hnd Hb) as (l1 & c & l2 & E1 & E2 & Ht).
  exists (concat (map fst p1) ++ l1), c, (l2 ++ concat (map fst p2)), (p1 ++ (l1 ++ (c.1, s') :: l2, part.2) :: p2).
  rewrite !map_app, !concat_app. cbn [map concat fst snd]. rewrite E1.
  split; [by rewrite <- !app_assoc|]. split; [done|]. split; [|split; [done|by rewrite <- !app_assoc]].
  apply Forall2_app; [|constructor].
  - apply (forest_frame _ ns); [done|]. intros x Hx. apply Hsame. intros ->. apply (Hd1 b Hx), elem_of_app. by left.
  - split; [done|]. cbn [fst]. apply starts_set. by rewrite <- E1.
  - apply (forest_frame _ ns); [done|]. intros x Hx. apply Hsame. intros ->. by apply (Hd2 b Hb).
Qed.

Lemma tree_set f ns b n i :
  ns !! b = Some n -> inner_slots n !! i = Some s ->
  sets_child f ns (<[b := set_slots n (<[i := s']> (inner_slots n))]> ns) b.
Proof.
  intros Hn Hi. set (ns' := <[b := _]> ns). assert (Hsame : forall x, x <> b -> ns' !! x = ns !! x).
  { intros x Hx. by apply lookup_insert_ne. }
  induction f as [|f IH]; intros a cs addrs Ht Hnd Hb; cbn [tree] in Ht.
  { destruct Ht as (_ & _ & ->). by apply elem_of_nil in Hb. }
  destruct Ht as (Ht & Hidle & H1 & H2 & m & kids & parts & Em & Elv & Emod & Hok & K1 & K2 & HF & -> & ->).
  change (forest f ns kids parts) in HF. apply NoDup_cons in Hnd as [Hna Hnd].
  destruct (decide (b = ptr a.2)) as [->|Hne].
  - rewrite Hn in Em. injection Em as <-. destruct (node_set n kids i Hok K1 K2 Hi) as (k1 & k & k2 & -> & Ek & Hok').
    destruct f as [|f].
    2:{ exfalso. apply Forall2_app_inv_l in HF as (p1 & p' & _ & HF & ->).
        apply Forall2_cons_inv_l in HF as (part & p2 & [(Hk & _) _] & _ & ->). rewrite Ek in Hk. congruence. }
    apply forest_0 in HF as [-> Hkt]. destruct (leaf_parts (k1 ++ k :: k2)) as [El1 El2]. rewrite El1, El2 in *.
    assert (Kk : child_ok (k.1, s')) by (apply child_set; [apply (proj1 (Forall_forall _ _) K1), middle_in|done]).
    assert (K1' : Forall child_ok (k1 ++ (k.1, s') :: k2)).
    { apply Forall_app in K1 as [? K1]. apply Forall_cons in K1 as [_ ?]. apply Forall_app. split; [done|by constructor]. }
    assert (K2' : increasing_from None (k1 ++ (k.1, s') :: k2)) by (eapply increasing_keys; [|exact K2]; by rewrite !map_app).
    exists k1, k, k2. split; [done|]. split; [done|]. cbn [tree]. split_and!; [done..|].
    exists (set_slots n (<[i := s']> (inner_slots n))), (k1 ++ (k.1, s') :: k2), (map (fun x : child => ([x], [])) (k1 ++ (k.1, s') :: k2)).
    destruct (leaf_parts (k1 ++ (k.1, s') :: k2)) as [-> ->]. unfold ns'. rewrite lookup_insert_eq. split_and!; try done.
    change (forest 0 ns' (k1 ++ (k.1, s') :: k2) (map (fun x : child => ([x], [])) (k1 ++ (k.1, s') :: k2))). apply forest_0.
    split; [done|]. apply Forall_app in Hkt as [? Hkt]. apply Forall_cons in Hkt as [_ ?]. apply Forall_app. split; [done|by constructor].
  - apply elem_of_cons in Hb as [->|Hb]; [done|].
    destruct (forest_set f ns ns' b kids parts IH Hsame HF Hnd Hb) as (l1 & c & l2 & parts' & E1 & E2 & HF' & Esnd & Efst).
    exists l1, c, l2. split; [done|]. split; [done|]. rewrite E1 in H1, H2. cbn [tree]. split; [done|]. split; [done|]. split.
    { apply Forall_app in H1 as [? H1]. apply Forall_cons in H1 as [Hc ?]. apply Forall_app. split; [done|].
      constructor; [by apply child_set|done]. }
    split; [eapply increasing_keys; [|exact H2]; by rewrite !map_app|].
    exists m, kids, parts'. rewrite Esnd, Efst, Hsame by done. by split_and!.
Qed.
End SetSlot.

(** ** Slots that are not locked *)

(** When no leaf's slot is locked, no slot in use of a node of the tree is. *)
Lemma tree_idle f ns a cs addrs b n i s :
  tree f ns a cs addrs -> Forall (fun c : child => idle c.2) cs -> b ∈ addrs -> ns !! b = Some n ->
  used (inner_slots n) i s -> idle s.
Proof.
  revert a cs addrs. induction f as [|f IH]; intros a cs addrs Ht Hidle Hb Hn Hu; cbn [tree] in Ht.
  { destruct Ht as (_ & _ & ->). by apply elem_of_nil in Hb. }
  destruct Ht as (Ht & _ & H1 & H2 & m & kids & parts & Em & _ & _ & Hok & K1 & K2 & HF & -> & ->).
  assert (Hpart : forall part, part ∈ parts -> Forall (fun c : child => idle c.2) part.1).
  { intros part Hin. apply Forall_forall. intros c Hc. apply (proj1 (Forall_forall _ _) Hidle).
    apply list_elem_of_In, in_concat. exists part.1. split; apply list_elem_of_In; [|done]. apply list_elem_of_fmap. by exists part. }
  apply elem_of_cons in Hb as [->|Hb].
  - rewrite Hn in Em. injection Em as <-. destruct (no_used _ _ Hok i s Hu) as (k & Hk & ->).
    apply list_elem_of_lookup in Hk as [j Hj]. destruct (Forall2_lookup_l _ _ _ _ _ HF Hj) as (part & Hp & [Hk _]).
    apply list_elem_of_lookup_2 in Hp. destruct f as [|f].
    + destruct Hk as (_ & E & _). specialize (Hpart part Hp). rewrite E in Hpart. by apply Forall_cons in Hpart as [? _].
    + by destruct Hk as (_ & ? & _).
  - apply list_elem_of_In, in_concat in Hb as (ads & Hads & Hb). apply list_elem_of_In in Hads, Hb.
    apply list_elem_of_fmap in Hads as (part & -> & Hp). pose proof Hp as Hp'. apply list_elem_of_lookup in Hp as [j Hj].
    destruct (Forall2_lookup_r _ _ _ _ _ HF Hj) as (k & _ & [Hk _]). apply (IH k part.1 part.2 Hk); [by apply Hpart|done..].
Qed.
