(* ===== verification/PlinIndex.v ===== *)
(** * The index (core/index/plin_index.h)

    [PlinIndex] owns the metadata record, the leaves and inner nodes by address,
    and the leaf table that maps a logical position to a leaf.  Each operation is
    the member function run by one thread: [retry] loops get the fuel the caller
    gives them and every pointer chase one unit per node.  An upsert that fills a
    leaf splits it before it returns; in the program a detached thread does so
    (BACKGROUND_SPLIT), which is the same sequence of steps run later.  Flushes,
    logging to files and the three-second pause of a rebuild have no effect. *)

From S2P Require Import Prelude Doubles Slots.
From S2P Require Segmentation CacheModel LeafNode InnerNode BPlus BPlusMap.
#[local] Existing Instance Segmentation.x87.
#[export] Existing Instance BPlusMap.btree_overflow.
#[export] Existing Instance BPlusMap.btree_overflow_laws.

Abbreviation Leaf := LeafNode.Leaf.
Abbreviation InnerNode := InnerNode.InnerNode.
Abbreviation Param := CacheModel.Param.
Abbreviation t_record := CacheModel.t_record.
Abbreviation slot_ref := InnerNode.slot_ref.

Section PlinIndex.
Context {T : Type} `{LeafNode.OverflowTree T}.

Record split_log : Type := mkLog {
  log_leaf : Z;
  log_left_sibling : Z;
  log_right_sibling : Z;
  left_node : Z;
  right_node : Z;
  log_locked : Z
}.

Record plin_metadata : Type := mkMeta {
  plin_min_key : double;
  plin_max_key : double;
  left_buffer : T;
  right_buffer : T;
  leaf_number : Z;
  orphan_number : Z;
  left_buffer_number : Z;
  right_buffer_number : Z;
  root_number : Z;
  plin_level : Z;
  smo_lock : Z;
  global_version : Z;
  rebuilding : Z;
  roots : list InnerSlot;
  logs : list split_log;
  abandoned_nodes : list Z
}.

Record PlinIndex : Type := mkPlin {
  plin : plin_metadata;
  leaves : gmap Z (Leaf T);
  inners : gmap Z InnerNode;
  next_address : Z;
  local_table : list t_record;
  parameter : list (list Param);
  valid_leaf : Z;
  split_times : Z;
  rebuild_times : Z;
  table_min_key : double;
  table_max_key : double
}.

Definition set_left_node (p : split_log) (x : Z) : split_log :=
  mkLog (log_leaf p) (log_left_sibling p) (log_right_sibling p) x (right_node p)
    (log_locked p).
Definition set_right_node (p : split_log) (x : Z) : split_log :=
  mkLog (log_leaf p) (log_left_sibling p) (log_right_sibling p) (left_node p) x (log_locked p).
Definition set_log_locked (p : split_log) (x : Z) : split_log :=
  mkLog (log_leaf p) (log_left_sibling p) (log_right_sibling p) (left_node p) (right_node p) x.
Definition set_plin_min_key (p : plin_metadata) (x : double) : plin_metadata :=
  mkMeta x (plin_max_key p) (left_buffer p) (right_buffer p) (leaf_number p) (orphan_number p)
    (left_buffer_number p) (right_buffer_number p) (root_number p) (plin_level p) (smo_lock p)
    (global_version p) (rebuilding p) (roots p) (logs p) (abandoned_nodes p).
Definition set_plin_max_key (p : plin_metadata) (x : double) : plin_metadata :=
  mkMeta (plin_min_key p) x (left_buffer p) (right_buffer p) (leaf_number p) (orphan_number p)
    (left_buffer_number p) (right_buffer_number p) (root_number p) (plin_level p) (smo_lock p)
    (global_version p) (rebuilding p) (roots p) (logs p) (abandoned_nodes p).
Definition set_left_buffer (p : plin_metadata) (x : T) : plin_metadata :=
  mkMeta (plin_min_key p) (plin_max_key p) x (right_buffer p) (leaf_number p)
    (orphan_number p) (left_buffer_number p) (right_buffer_number p) (root_number p)
    (plin_level p) (smo_lock p) (global_version p) (rebuilding p) (roots p) (logs p)
    (abandoned_nodes p).
Definition set_right_buffer (p : plin_metadata) (x : T) : plin_metadata :=
  mkMeta (plin_min_key p) (plin_max_key p) (left_buffer p) x (leaf_number p) (orphan_number p)
    (left_buffer_number p) (right_buffer_number p) (root_number p) (plin_level p) (smo_lock p)
    (global_version p) (rebuilding p) (roots p) (logs p) (abandoned_nodes p).
Definition set_leaf_number (p : plin_metadata) (x : Z) : plin_metadata :=
  mkMeta (plin_min_key p) (plin_max_key p) (left_buffer p) (right_buffer p) x
    (orphan_number p) (left_buffer_number p) (right_buffer_number p) (root_number p)
    (plin_level p) (smo_lock p) (global_version p) (rebuilding p) (roots p) (logs p)
    (abandoned_nodes p).
Definition set_orphan_number (p : plin_metadata) (x : Z) : plin_metadata :=
  mkMeta (plin_min_key p) (plin_max_key p) (left_buffer p) (right_buffer p) (leaf_number p) x
    (left_buffer_number p) (right_buffer_number p) (root_number p) (plin_level p) (smo_lock p)
    (global_version p) (rebuilding p) (roots p) (logs p) (abandoned_nodes p).
Definition set_left_buffer_number (p : plin_metadata) (x : Z) : plin_metadata :=
  mkMeta (plin_min_key p) (plin_max_key p) (left_buffer p) (right_buffer p) (leaf_number p)
    (orphan_number p) x (right_buffer_number p) (root_number p) (plin_level p) (smo_lock p)
    (global_version p) (rebuilding p) (roots p) (logs p) (abandoned_nodes p).
Definition set_right_buffer_number (p : plin_metadata) (x : Z) : plin_metadata :=
  mkMeta (plin_min_key p) (plin_max_key p) (left_buffer p) (right_buffer p) (leaf_number p)
    (orphan_number p) (left_buffer_number p) x (root_number p) (plin_level p) (smo_lock p)
    (global_version p) (rebuilding p) (roots p) (logs p) (abandoned_nodes p).
Definition set_root_number (p : plin_metadata) (x : Z) : plin_metadata :=
  mkMeta (plin_min_key p) (plin_max_key p) (left_buffer p) (right_buffer p) (leaf_number p)
    (orphan_number p) (left_buffer_number p) (right_buffer_number p) x (plin_level p)
    (smo_lock p) (global_version p) (rebuilding p) (roots p) (logs p) (abandoned_nodes p).
Definition set_plin_level (p : plin_metadata) (x : Z) : plin_metadata :=
  mkMeta (plin_min_key p) (plin_max_key p) (left_buffer p) (right_buffer p) (leaf_number p)
    (orphan_number p) (left_buffer_number p) (right_buffer_number p) (root_number p) x
    (smo_lock p) (global_version p) (rebuilding p) (roots p) (logs p) (abandoned_nodes p).
Definition set_smo_lock (p : plin_metadata) (x : Z) : plin_metadata :=
  mkMeta (plin_min_key p) (plin_max_key p) (left_buffer p) (right_buffer p) (leaf_number p)
    (orphan_number p) (left_buffer_number p) (right_buffer_number p) (root_number p)
    (plin_level p) x (global_version p) (rebuilding p) (roots p) (logs p) (abandoned_nodes p).
Definition set_global_version (p : plin_metadata) (x : Z) : plin_metadata :=
  mkMeta (plin_min_key p) (plin_max_key p) (left_buffer p) (right_buffer p) (leaf_number p)
    (orphan_number p) (left_buffer_number p) (right_buffer_number p) (root_number p)
    (plin_level p) (smo_lock p) x (rebuilding p) (roots p) (logs p) (abandoned_nodes p).
Definition set_rebuilding (p : plin_metadata) (x : Z) : plin_metadata :=
  mkMeta (plin_min_key p) (plin_max_key p) (left_buffer p) (right_buffer p) (leaf_number p)
    (orphan_number p) (left_buffer_number p) (right_buffer_number p) (root_number p)
    (plin_level p) (smo_lock p) (global_version p) x (roots p) (logs p) (abandoned_nodes p).
Definition set_roots (p : plin_metadata) (x : list InnerSlot) : plin_metadata :=
  mkMeta (plin_min_key p) (plin_max_key p) (left_buffer p) (right_buffer p) (leaf_number p)
    (orphan_number p) (left_buffer_number p) (right_buffer_number p) (root_number p)
    (plin_level p) (smo_lock p) (global_version p) (rebuilding p) x (logs p)
    (abandoned_nodes p).
Definition set_logs (p : plin_metadata) (x : list split_log) : plin_metadata :=
  mkMeta (plin_min_key p) (plin_max_key p) (left_buffer p) (right_buffer p) (leaf_number p)
    (orphan_number p) (left_buffer_number p) (right_buffer_number p) (root_number p)
    (plin_level p) (smo_lock p) (global_version p) (rebuilding p) (roots p) x
    (abandoned_nodes p).
Definition set_abandoned_nodes (p : plin_metadata) (x : list Z) : plin_metadata :=
  mkMeta (plin_min_key p) (plin_max_key p) (left_buffer p) (right_buffer p) (leaf_number p)
    (orphan_number p) (left_buffer_number p) (right_buffer_number p) (root_number p)
    (plin_level p) (smo_lock p) (global_version p) (rebuilding p) (roots p) (logs p) x.
Definition set_plin (p : PlinIndex) (x : plin_metadata) : PlinIndex :=
  mkPlin x (leaves p) (inners p) (next_address p) (local_table p) (parameter p) (valid_leaf p)
    (split_times p) (rebuild_times p) (table_min_key p) (table_max_key p).
Definition set_leaves (p : PlinIndex) (x : gmap Z (Leaf T)) : PlinIndex :=
  mkPlin (plin p) x (inners p) (next_address p) (local_table p) (parameter p) (valid_leaf p)
    (split_times p) (rebuild_times p) (table_min_key p) (table_max_key p).
Definition set_inners (p : PlinIndex) (x : gmap Z InnerNode) : PlinIndex :=
  mkPlin (plin p) (leaves p) x (next_address p) (local_table p) (parameter p) (valid_leaf p)
    (split_times p) (rebuild_times p) (table_min_key p) (table_max_key p).
Definition set_next_address (p : PlinIndex) (x : Z) : PlinIndex :=
  mkPlin (plin p) (leaves p) (inners p) x (local_table p) (parameter p) (valid_leaf p)
    (split_times p) (rebuild_times p) (table_min_key p) (table_max_key p).
Definition set_local_table (p : PlinIndex) (x : list t_record) : PlinIndex :=
  mkPlin (plin p) (leaves p) (inners p) (next_address p) x (parameter p) (valid_leaf p)
    (split_times p) (rebuild_times p) (table_min_key p) (table_max_key p).
Definition set_parameter (p : PlinIndex) (x : list (list Param)) : PlinIndex :=
  mkPlin (plin p) (leaves p) (inners p) (next_address p) (local_table p) x (valid_leaf p)
    (split_times p) (rebuild_times p) (table_min_key p) (table_max_key p).
Definition set_valid_leaf (p : PlinIndex) (x : Z) : PlinIndex :=
  mkPlin (plin p) (leaves p) (inners p) (next_address p) (local_table p) (parameter p) x
    (split_times p) (rebuild_times p) (table_min_key p) (table_max_key p).
Definition set_split_times (p : PlinIndex) (x : Z) : PlinIndex :=
  mkPlin (plin p) (leaves p) (inners p) (next_address p) (local_table p) (parameter p)
    (valid_leaf p) x (rebuild_times p) (table_min_key p) (table_max_key p).
Definition set_rebuild_times (p : PlinIndex) (x : Z) : PlinIndex :=
  mkPlin (plin p) (leaves p) (inners p) (next_address p) (local_table p) (parameter p)
    (valid_leaf p) (split_times p) x (table_min_key p) (table_max_key p).
Definition set_table_min_key (p : PlinIndex) (x : double) : PlinIndex :=
  mkPlin (plin p) (leaves p) (inners p) (next_address p) (local_table p) (parameter p)
    (valid_leaf p) (split_times p) (rebuild_times p) x (table_max_key p).
Definition set_table_max_key (p : PlinIndex) (x : double) : PlinIndex :=
  mkPlin (plin p) (leaves p) (inners p) (next_address p) (local_table p) (parameter p)
    (valid_leaf p) (split_times p) (rebuild_times p) (table_min_key p) x.

Definition P (A : Type) : Type := PlinIndex -> res (A * PlinIndex).
#[export] Instance P_ret : MRet P := fun A a h => Ok (a, h).
#[export] Instance P_bind : MBind P := fun A B f m h =>
  match m h with Ok (a, h') => f a h' | Err e => Err e end.
Definition get {A} (f : PlinIndex -> A) : P A := fun h => Ok (f h, h).
Definition put (f : PlinIndex -> PlinIndex) : P unit := fun h => Ok (tt, f h).
Definition lift {A} (m : res A) : P A := fun h => a ← m; Ok (a, h).
Definition fail {A} (e : fault) : P A := fun _ => Err e.
Definition meta {A} (f : plin_metadata -> A) : P A := get (fun h => f (plin h)).
Definition put_meta (f : plin_metadata -> plin_metadata) : P unit :=
  put (fun h => set_plin h (f (plin h))).

(** Run an operation of the leaves. *)
Definition on_leaves {A} (m : gmap Z (Leaf T) -> res (A * gmap Z (Leaf T))) : P A := fun h =>
  '(a, l) ← m (leaves h); Ok (a, set_leaves h l).
Definition leaf_fuel : P nat := get (fun h => S (size (leaves h))).
Definition inner_fuel : P nat := get (fun h => S (size (inners h))).
Definition ld_leaf (a : Z) : P (Leaf T) := fun h => l ← of_opt UB (leaves h !! a); Ok (l, h).
Definition modify_leaf (a : Z) (f : Leaf T -> Leaf T) : P unit := fun h =>
  l ← of_opt UB (leaves h !! a); Ok (tt, set_leaves h (<[a := f l]> (leaves h))).

(** [new] of a node: the next address. *)
Definition fresh_address : P Z := fun h =>
  Ok (next_address h, set_next_address h (next_address h + 1)).

(** ** Slot references *)

Definition read_slot (r : slot_ref) : P InnerSlot := fun h =>
  match r with
  | InnerNode.RootSlot i => s ← zload (roots (plin h)) i; Ok (s, h)
  | InnerNode.NodeSlot a i =>
      n ← of_opt UB (inners h !! a); s ← zload (InnerNode.inner_slots n) i; Ok (s, h)
  end.
Definition write_slot (r : slot_ref) (s : InnerSlot) : P unit := fun h =>
  match r with
  | InnerNode.RootSlot i =>
      rs ← zstore (roots (plin h)) i s; Ok (tt, set_plin h (set_roots (plin h) rs))
  | InnerNode.NodeSlot a i =>
      n ← of_opt UB (inners h !! a);
      ss ← zstore (InnerNode.inner_slots n) i s;
      Ok (tt, set_inners h (<[a := InnerNode.set_slots n ss]> (inners h)))
  end.
Definition modify_slot (r : slot_ref) (f : InnerSlot -> InnerSlot) : P unit :=
  s ← read_slot r; write_slot r (f s).

(** ** Routing *)

(** [while (i < root_number && key >= roots[i].min_key) ++i;] then [--i], which
    wraps for a key below every root. *)
Definition root_index (m : plin_metadata) (key : double) : res Z :=
  let i := prefix_len (fun s => dle (min_key s) key) (take (Z.to_nat (root_number m)) (roots m)) in
  match i with O => Err UB | S j => Ok (Z.of_nat j) end.

(** The accelerator of the leaf for a key. *)
Definition find_root (key : double) : P Z := fun h =>
  i ← root_index (plin h) key; Ok (i, h).
Definition route (key : double) : P slot_ref :=
  i ← find_root key;
  acc ← read_slot (InnerNode.RootSlot i);
  if type acc =? 1 then
    fuel ← inner_fuel;
    h ← get inners;
    lift (InnerNode.find_leaf_node fuel h (ptr acc) key acc)
  else mret (InnerNode.RootSlot i).

Definition inside (m : plin_metadata) (key : double) : bool :=
  dle (plin_min_key m) key && dle key (plin_max_key m).
Definition strictly_inside (m : plin_metadata) (key : double) : bool :=
  dlt (plin_min_key m) key && dlt key (plin_max_key m).

(** ** find *)

Fixpoint find_in_leaves (fuel : nat) (key : double) : P (option (Z * Z)) :=
  match fuel with
  | O => fail OutOfFuel
  | S fuel' =>
      r ← route key;
      acc ← read_slot r;
      if check_read_lock acc then
        lf ← leaf_fuel;
        gv ← meta global_version;
        '(ret, v) ← on_leaves (LeafNode.find lf (ptr acc) key gv (Some acc));
        if ret =? 1 then v ← lift (of_opt UB v); mret (Some (v, ptr acc))
        else if ret =? 0 then mret None
        else find_in_leaves fuel' key
      else find_in_leaves fuel' key
  end.

Definition find_in_buffer_net (key : double) : P (option Z) :=
  m ← meta id;
  if dlt key (plin_min_key m) then lift (LeafNode.ot_find key (left_buffer m))
  else lift (LeafNode.ot_find key (right_buffer m)).

(** [find(key, payload)] *)
Definition find (fuel : nat) (key : double) : P (option Z) :=
  m ← meta id;
  if inside m key then
    r ← find_in_leaves fuel key; mret (fst <$> r)
  else find_in_buffer_net key.

(** [find(key, payload, leaf)]: no buffers. *)
Definition find_with_leaf (fuel : nat) (key : double) : P (option (Z * Z)) :=
  m ← meta id;
  if inside m key then find_in_leaves fuel key else mret None.

(** [find_through_net(key, payload, logic_id)]: the payload argument keeps what
    the first [find] left in it when the leaf does not have the key. *)
Definition find_through_net (fuel : nat) (key : double) (payload logic_id : Z) : P (Z * Z) :=
  r ← find fuel key;
  let payload := default payload r in
  n ← meta leaf_number;
  let k := if logic_id <? 0 then 0 else logic_id in
  let k := if u32 (n - 1) <? u32 k then i32 (n - 1) else k in
  table ← get local_table;
  rec ← lift (zload table k);
  m ← meta id;
  if inside m key then
    l ← ld_leaf (CacheModel.addr rec);
    if LeafNode.leaf_check_read_lock l None then
      lf ← leaf_fuel;
      '(ret, v) ← on_leaves (LeafNode.find lf (CacheModel.addr rec) key (global_version m) None);
      mret (ret, default payload v)
    else fail OutOfFuel
  else mret (0, payload).

(** ** range_query *)

Definition range_query (lower upper : double) : P (list (double * Z)) :=
  m ← meta id;
  '(below, lo) ← (if dlt lower (plin_min_key m)
                 then l ← lift (LeafNode.ot_range lower upper (left_buffer m));
                      mret (l, plin_min_key m)
                 else mret ([], lower));
  '(above, hi) ← (if dlt (plin_max_key m) upper
                  then l ← lift (LeafNode.ot_range lo upper (right_buffer m));
                       mret (l, plin_max_key m)
                  else mret ([], upper));
  if dle (plin_min_key m) hi && dle lo (plin_max_key m) then
    r ← route lo;
    acc ← read_slot r;
    lf ← leaf_fuel;
    mid ← on_leaves (LeafNode.range_query lf (ptr acc) lo hi true (Some acc));
    mret (below ++ above ++ mid)
  else mret (below ++ above).

(** ** Segments and models *)

Record Segment : Type := mkSegment {
  seg_first_key : double;
  seg_slope : double;
  seg_intercept : double;
  seg_number : Z
}.

Definition segment_of (cs : Segmentation.CanonicalSegment) : Segment :=
  let k := Segmentation.first cs in
  let '(sl, ic) := Segmentation.get_floating_point_segment (T := long_double) cs k in
  mkSegment k (Segmentation.double_of_long_double sl) (Segmentation.double_of_long_double ic)
    (Segmentation.number cs).

Definition segments_of (keys : list double) (eps : Z) : res (list Segment) :=
  '(_, cs) ← Segmentation.make_segmentation (T := long_double) (Segmentation.in_fun keys)
               (length keys) eps;
  Ok (map segment_of cs).

(** [number / (ratio * slots) + extra], converted to [uint64_t]. *)
Definition leaf_blocks (number : Z) : res Z :=
  to_uint 64 (dadd (ddiv (double_of_Z number) LeafNode.leaf_fill) (double_of_Z 3)).
Definition inner_blocks (extra number : Z) : res Z :=
  to_uint 64 (dadd (dadd (ddiv (double_of_Z number)
    (dmul INNER_NODE_INIT_RATIO (double_of_Z InnerNode.InnerSlotsPerBlock))) (double_of_Z 1))
    (double_of_Z extra)).

(** [new InnerSlot[n]] leaves [info] unset; the node constructors overwrite every
    bit of it. *)
Definition unset_slot : InnerSlot := mkSlot (double_of_Z 0) 0 (double_of_Z 0) (double_of_Z 0) 0.

(** The leaves of the segments, from position [start] on, each with [prev] its
    predecessor: their slots, with the first key of the data each was given.  That is
    the key a split records ([keys[start_pos]]); a bulk load records the segment's
    [first_key], the same key by [make_segmentation_tiles]. *)
Fixpoint build_leaves (segs : list Segment) (data : list (double * Z)) (start : nat)
    (prev gv : Z) : P (list (double * InnerSlot)) :=
  match segs with
  | [] => mret []
  | s :: segs' =>
      bn ← lift (leaf_blocks (seg_number s));
      a ← fresh_address;
      let number := Z.to_nat (seg_number s) in
      '(l, acc) ← lift (LeafNode.new_leaf a unset_slot bn data number start
                          (seg_slope s) (seg_intercept s) gv prev 0);
      _ ← put (fun h => set_leaves h (<[a := l]> (leaves h)));
      kv ← lift (of_opt UB (data !! start));
      rest ← build_leaves segs' data (start + number) a gv;
      mret ((kv.1, acc) :: rest)
  end.

(** [leaf_nodes[i]->set_next(leaf_nodes[i + 1])] along the new leaves. *)
Fixpoint link_next (addrs : list Z) : P unit :=
  match addrs with
  | a :: ((b :: _) as rest) =>
      _ ← modify_leaf a (fun l => LeafNode.set_next l b); link_next rest
  | _ => mret tt
  end.

(** One level of inner nodes over [children]; [extra] is 3 in [bulk_load] and 2
    in [rebuild_inner_nodes]. *)
Fixpoint build_level (segs : list Segment) (children : list (double * InnerSlot)) (start : nat)
    (lvl extra : Z) : P (list (double * InnerSlot) * list Param) :=
  match segs with
  | [] => mret ([], [])
  | s :: segs' =>
      bn ← lift (inner_blocks extra (seg_number s));
      a ← fresh_address;
      let number := Z.to_nat (seg_number s) in
      '(n, acc) ← lift (InnerNode.new_inner a unset_slot bn children number start
                          (seg_slope s) (seg_intercept s) lvl);
      _ ← put (fun h => set_inners h (<[a := n]> (inners h)));
      '(accs, ps) ← build_level segs' children (start + number) lvl extra;
      let p := CacheModel.mkParam (seg_first_key s) (slope acc) (double_of_float (intercept acc)) bn in
      mret ((seg_first_key s, acc) :: accs, p :: ps)
  end.

(** [while (level == 0 || last_n > ROOT_SIZE)]: the top level's slots, the number
    of levels and the parameters from level 1 up. *)
Fixpoint build_levels (fuel : nat) (children : list (double * InnerSlot)) (lvl extra : Z)
    : P (list (double * InnerSlot) * Z * list (list Param)) :=
  match fuel with
  | O => fail OutOfFuel
  | S fuel' =>
      if (lvl =? 0) || (ROOT_SIZE <? Z.of_nat (length children)) then
        segs ← lift (segments_of (map fst children) EPSILON_INNER_NODE);
        '(accs, ps) ← build_level segs children 0 (lvl + 1) extra;
        '(top, n, rest) ← build_levels fuel' accs (lvl + 1) extra;
        mret (top, n, ps :: rest)
      else mret (children, lvl, [])
  end.

(** The root array: the slots, the rest free. *)
Definition fill_roots (top : list InnerSlot) (old : list InnerSlot) : list InnerSlot :=
  top ++ map (fun s => mkSlot FREE_FLAG (ptr s) (slope s) (intercept s) (info s))
           (drop (length top) old).

(** ** bulk_load *)

(** The leaves, the levels above them and the root of segmented data. *)
Definition load_segments (segs : list Segment) (data : list (double * Z)) : P unit :=
  gv ← meta global_version;
  accs ← build_leaves segs data 0 0 gv;
  (* with no data, [last_n - 1] wraps and the linking loop leaves its arrays *)
  _ ← (if (length accs =? 0)%nat then fail UB else mret tt);
  _ ← put (fun h => set_local_table h (local_table h ++
        map (fun ka => CacheModel.mkRecord ka.1 (ptr ka.2) true) accs));
  _ ← link_next (map (fun ka => ptr ka.2) accs);
  _ ← put_meta (fun m => set_leaf_number m (u32 (Z.of_nat (length accs))));
  '(top, lvl, ps) ← build_levels (S (S (length accs))) accs 0 3;
  _ ← put (fun h => set_parameter h ps);
  k0 ← lift (of_opt UB (head data));
  kn ← lift (of_opt UB (last data));
  _ ← put (fun h => set_table_min_key (set_table_max_key h kn.1) k0.1);
  put_meta (fun m =>
    let m := set_plin_min_key m k0.1 in
    let m := set_plin_max_key m kn.1 in
    let m := set_root_number m (Z.of_nat (length top)) in
    let m := set_plin_level m lvl in
    let m := set_global_version m 0 in
    set_roots m (fill_roots (map snd top) (roots m))).

Definition bulk_load (data : list (double * Z)) : P unit :=
  segs ← lift (segments_of (map fst data) EPSILON_LEAF_NODE);
  load_segments segs data.

(** ** The leaf table *)

Fixpoint erase_first (a : Z) (t : list t_record) : list t_record :=
  match t with
  | [] => []
  | r :: t' => if CacheModel.addr r =? a then t' else r :: erase_first a t'
  end.
(** Insertion at [std::lower_bound]. *)
Definition table_insert (t : list t_record) (r : t_record) : list t_record :=
  let i := prefix_len (fun x => dlt (CacheModel.rkey x) (CacheModel.rkey r)) t in
  take i t ++ r :: drop i t.
Definition pess_insert_tabel (a : Z) (round : list t_record) : P unit :=
  put (fun h => set_local_table h (fold_left table_insert round (erase_first a (local_table h)))).

(** ** upsert_node and debug *)

Definition upsert_node (node : InnerSlot) : P Z :=
  i ← find_root (min_key node);
  acc ← read_slot (InnerNode.RootSlot i);
  fuel ← inner_fuel;
  h ← get inners;
  '(code, h, acc) ← lift (InnerNode.upsert_node fuel h (ptr acc) node acc);
  _ ← put (fun p => set_inners p h);
  _ ← write_slot (InnerNode.RootSlot i) acc;
  _ ← (if 1 <? code then put_meta (fun m => set_leaf_number m (u32 (leaf_number m + 1))) else mret tt);
  _ ← (if 2 <? code then put_meta (fun m => set_orphan_number m (u32 (orphan_number m + 1))) else mret tt);
  mret code.

Definition get_leftmost_leaf : P Z :=
  m ← meta id;
  s ← lift (zload (roots m) 0);
  fuel ← inner_fuel;
  h ← get inners;
  lift (InnerNode.get_leftmost_leaf fuel h (ptr s)).

(** The addresses along the leaf chain. *)
Fixpoint leaf_chain (fuel : nat) (a : Z) : P (list Z) :=
  match fuel with
  | O => fail OutOfFuel
  | S fuel' =>
      if a =? 0 then mret []
      else
        l ← ld_leaf a;
        rest ← leaf_chain fuel' (LeafNode.lf_next l);
        mret (a :: rest)
  end.

(** [debug]: the length of the chain. *)
Definition debug : P Z :=
  a ← get_leftmost_leaf;
  f ← leaf_fuel;
  c ← leaf_chain f a;
  mret (Z.of_nat (length c)).

(** ** Locks of the index *)

(** [get_write_lock]: waits until the readers have left; [try_get_read_lock]. *)
Definition smo_write_lock : P bool :=
  v ← meta smo_lock;
  if negb (Z.land v lockSet =? 0) then mret false
  else
    _ ← put_meta (fun m => set_smo_lock m (Z.lor v lockSet));
    if Z.land v lockMask =? 0 then mret true else fail OutOfFuel.
Definition smo_try_read_lock : P bool :=
  v ← meta smo_lock;
  if negb (Z.land v lockSet =? 0) then mret false
  else _ ← put_meta (fun m => set_smo_lock m (u32 (v + 1))); mret true.
Definition smo_release_read : P unit :=
  put_meta (fun m => set_smo_lock m (u32 (smo_lock m - 1))).
Definition smo_release_write : P unit := put_meta (fun m => set_smo_lock m 0).

Definition try_split_lock (a : Z) : P bool := fun h =>
  l ← of_opt UB (leaves h !! a);
  let '(got, l) := LeafNode.try_get_split_lock l in
  Ok (got, set_leaves h (<[a := l]> (leaves h))).
Definition release_leaf (a : Z) : P unit := modify_leaf a LeafNode.leaf_release_lock.

Definition modify_log (i : Z) (f : split_log -> split_log) : P unit := fun h =>
  l ← zload (logs (plin h)) i;
  ls ← zstore (logs (plin h)) i (f l);
  Ok (tt, set_plin h (set_logs (plin h) ls)).

(** First log that is not locked; with all [LOG_NUMBER] taken the loop waits. *)
Definition take_log : P Z :=
  ls ← meta logs;
  let i := prefix_len (fun l => negb (Z.land (log_locked l) 1 =? 0)) ls in
  if (i <? length ls)%nat then
    _ ← modify_log (Z.of_nat i) (fun l => set_log_locked l (Z.lor (log_locked l) 1));
    mret (Z.of_nat i)
  else fail OutOfFuel.

(** ** rebuild_inner_nodes *)

(** [get_info] of [n] leaves along the chain. *)
Fixpoint leaf_infos (n : nat) (a : Z) : P (list (double * InnerSlot)) :=
  match n with
  | O => mret []
  | S n' =>
      l ← ld_leaf a;
      s ← lift (LeafNode.get_info a l unset_slot);
      rest ← leaf_infos n' (LeafNode.lf_next l);
      mret ((LeafNode.lf_first_key l, s) :: rest)
  end.

Definition destroy_roots (rs : list InnerSlot) : P unit := fun h =>
  i ← foldlM (fun i s => InnerNode.destroy (S (size i)) i (ptr s)) (inners h) rs;
  Ok (tt, set_inners h i).

Definition rebuild_inner_nodes : P unit :=
  got ← smo_write_lock;
  if negb got then mret tt
  else
    n ← meta leaf_number;
    a ← get_leftmost_leaf;
    infos ← leaf_infos (Z.to_nat n) a;
    '(top, lvl, ps) ← build_levels (S (S (length infos))) infos 0 2;
    _ ← put (fun h => set_parameter h ps);
    old ← meta (fun m => take (Z.to_nat (root_number m)) (roots m));
    _ ← put_meta (fun m =>
      let m := set_root_number m (Z.of_nat (length top)) in
      let m := set_plin_level m lvl in
      let m := set_orphan_number m 0 in
      let m := set_roots m (fill_roots (map snd top) (roots m)) in
      set_rebuilding m 0);
    _ ← put (fun h => set_rebuild_times h (rebuild_times h + 2));
    _ ← destroy_roots old;
    smo_release_write.

(** ** split *)

(** The locks of a split: the leaf and both neighbours, which must exist. *)
Definition lock_siblings (a left right : Z) : P bool :=
  got ← smo_try_read_lock;
  if negb got then mret false
  else
    got ← try_split_lock a;
    if negb got then _ ← smo_release_read; mret false
    else
      got ← (if left =? 0 then mret false else try_split_lock left);
      if negb got then _ ← release_leaf a; _ ← smo_release_read; mret false
      else
        got ← (if right =? 0 then mret false else try_split_lock right);
        if negb got then
          _ ← release_leaf left; _ ← release_leaf a; _ ← smo_release_read; mret false
        else mret true.

(** [abandoned_nodes]: with two or more, the oldest goes and the leaf is pushed
    twice. *)
Definition push_abandoned (l : list Z) (a : Z) : list Z :=
  (if (2 <=? length l)%nat then drop 1 l ++ [a] else l) ++ [a].

(** A lock of the leaf: in the accelerator, or in the leaf itself when it is an orphan. *)
Definition on_lock (a : Z) (accelerator : option slot_ref) (fs : InnerSlot -> InnerSlot) (fl : Leaf T -> Leaf T) : P unit :=
  match accelerator with Some r => modify_slot r fs | None => modify_leaf a fl end.

(** [upsert_node] of the slots of the new leaves. *)
Fixpoint upsert_nodes (accs : list (double * InnerSlot)) : P unit :=
  match accs with
  | [] => mret tt
  | ka :: accs' => _ ← upsert_node ka.2; upsert_nodes accs'
  end.

(** The second half of a split, once the new leaves (from [first] to [last]) are linked:
    readers are kept out, the neighbours lead to the new leaves, the inner nodes get
    their slots, and the locks are released. *)
Definition finish_split (a : Z) (accelerator : option slot_ref) (left right i : Z)
    (accs : list (double * InnerSlot)) (first last : Z) : P unit :=
  let extra := Z.of_nat (length accs) - 1 in
  _ ← on_lock a accelerator get_read_lock LeafNode.leaf_get_read_lock;
  _ ← (match accelerator with
       | Some _ => mret tt
       | None => modify_log i (fun l => set_log_locked l (u32 (log_locked l + 4)))
       end);
  _ ← modify_log i (fun l => set_log_locked (set_right_node (set_left_node l first) last)
                              (u32 (log_locked l + 2)));
  _ ← modify_leaf left (fun l => LeafNode.set_next l first);
  _ ← modify_leaf right (fun l => LeafNode.set_prev l last);
  _ ← modify_leaf a LeafNode.set_abandoned;
  _ ← put_meta (fun m => set_abandoned_nodes m (push_abandoned (abandoned_nodes m) a));
  _ ← (match accelerator with
       | Some _ => upsert_nodes accs
       | None => put_meta (fun m => set_orphan_number m (u32 (orphan_number m + extra)))
       end);
  _ ← debug;
  _ ← pess_insert_tabel a (map (fun ka => CacheModel.mkRecord ka.1 (ptr ka.2) true) accs);
  _ ← on_lock a accelerator release_lock LeafNode.leaf_release_lock;
  _ ← smo_release_read;
  _ ← release_leaf left;
  _ ← release_leaf right;
  _ ← modify_log i (fun l => set_log_locked l 0);
  put (fun h => set_split_times h (split_times h + 1)).

(** The body of [split] once the locks are held. *)
Definition split_locked (a : Z) (accelerator : option slot_ref) (left right : Z) : P unit :=
  _ ← on_lock a accelerator get_write_lock LeafNode.leaf_get_write_lock;
  i ← take_log;
  _ ← modify_log i (fun l => mkLog a left right (left_node l) (right_node l) (log_locked l));
  gv ← meta global_version;
  data ← on_leaves (LeafNode.get_data a gv);
  segs ← lift (segments_of (map fst data) EPSILON_LEAF_NODE);
  (* with no segment, [last_n - 1] wraps *)
  _ ← (match segs with [] => fail UB | _ => mret tt end);
  accs ← build_leaves segs data 0 left gv;
  let addrs := map (fun ka => ptr ka.2) accs in
  first ← lift (of_opt UB (head addrs));
  last ← lift (of_opt UB (last addrs));
  _ ← put (fun h => set_valid_leaf h (valid_leaf h + (Z.of_nat (length accs) - 1)));
  _ ← link_next addrs;
  _ ← modify_leaf last (fun l => LeafNode.set_next l right);
  finish_split a accelerator left right i accs first last.

Definition too_many_orphans (m : plin_metadata) : bool :=
  dlt MAX_ORPHAN_RATIO (ddiv (double_of_Z (orphan_number m)) (double_of_Z (leaf_number m))).

Definition split (a : Z) (accelerator : option slot_ref) : P unit :=
  l ← ld_leaf a;
  let left := LeafNode.lf_prev l in
  let right := LeafNode.lf_next l in
  got ← lock_siblings a left right;
  if negb got then mret tt
  else
    _ ← split_locked a accelerator left right;
    m ← meta id;
    if too_many_orphans m then rebuild_inner_nodes else mret tt.

(** ** upsert *)

Fixpoint upsert_in_leaves (fuel : nat) (key : double) (payload : Z) : P unit :=
  match fuel with
  | O => fail OutOfFuel
  | S fuel' =>
      r ← route key;
      acc ← read_slot r;
      m ← meta id;
      if (ptr acc =? 0) || negb (rebuilding m =? 0) then upsert_in_leaves fuel' key payload
      else
        l ← ld_leaf (ptr acc);
        if negb (LeafNode.check_split_lock l) then upsert_in_leaves fuel' key payload
        else
          lf ← leaf_fuel;
          '(code, to_split) ← on_leaves (LeafNode.upsert lf (ptr acc) key payload (global_version m) (Some acc));
          _ ← (if code =? 5 then s ← lift (of_opt UB to_split); split s (Some r)
               else if code =? 6 then s ← lift (of_opt UB to_split); split s None
               else mret tt);
          if code =? 7 then upsert_in_leaves fuel' key payload else mret tt
  end.

(** Payloads of keys outside, and of the bounds themselves, go to a buffer. *)
Definition upsert (fuel : nat) (key : double) (payload : Z) : P unit :=
  m ← meta id;
  if strictly_inside m key then upsert_in_leaves fuel key payload
  else if dlt key (plin_min_key m) then
    '(ret, t) ← lift (LeafNode.ot_upsert key payload (left_buffer m));
    _ ← put_meta (fun m => set_left_buffer m t);
    if ret =? 4 then put_meta (fun m => set_left_buffer_number m (u32 (left_buffer_number m + 1)))
    else mret tt
  else
    '(ret, t) ← lift (LeafNode.ot_upsert key payload (right_buffer m));
    _ ← put_meta (fun m => set_right_buffer m t);
    if ret =? 4 then put_meta (fun m => set_right_buffer_number m (u32 (right_buffer_number m + 1)))
    else mret tt.

(** ** remove *)

Fixpoint remove_in_leaves (fuel : nat) (key : double) : P unit :=
  match fuel with
  | O => fail OutOfFuel
  | S fuel' =>
      r ← route key;
      acc ← read_slot r;
      lf ← leaf_fuel;
      gv ← meta global_version;
      code ← on_leaves (LeafNode.remove lf (ptr acc) key gv (Some acc));
      if code =? 3 then remove_in_leaves fuel' key else mret tt
  end.

Definition remove (fuel : nat) (key : double) : P unit :=
  m ← meta id;
  if strictly_inside m key then remove_in_leaves fuel key
  else if dlt key (plin_min_key m) then
    '(gone, t) ← lift (LeafNode.ot_delete key (left_buffer m));
    _ ← put_meta (fun m => set_left_buffer m t);
    if (gone : bool) then put_meta (fun m => set_left_buffer_number m (u32 (left_buffer_number m - 1)))
    else mret tt
  else
    '(gone, t) ← lift (LeafNode.ot_delete key (right_buffer m));
    _ ← put_meta (fun m => set_right_buffer m t);
    if (gone : bool) then put_meta (fun m => set_right_buffer_number m (u32 (right_buffer_number m - 1)))
    else mret tt.

(** ** Construction and destruction *)

Definition new_plin : PlinIndex :=
  let slot := mkSlot (double_of_Z 0) 0 (double_of_Z 0) (double_of_Z 0) 0 in
  mkPlin
    (mkMeta (double_of_Z 0) (double_of_Z 0) LeafNode.ot_new LeafNode.ot_new 0 0 0 0 0 0 0 0 0
       (replicate (Z.to_nat ROOT_SIZE) slot) (replicate (Z.to_nat LOG_NUMBER) (mkLog 0 0 0 0 0 0)) [])
    ∅ ∅ 1 [] [] 0 0 0 (double_of_Z 0) (double_of_Z 0).

Definition get_parent (node : InnerSlot) : P slot_ref :=
  i ← find_root (min_key node);
  mret (InnerNode.RootSlot i).

Definition destroy : P unit :=
  a ← get_leftmost_leaf;
  f ← leaf_fuel;
  chain ← leaf_chain f a;
  _ ← put (fun h => set_leaves h (foldr (fun a l => delete a l) (leaves h) chain));
  rs ← meta (fun m => take (Z.to_nat (root_number m)) (roots m));
  destroy_roots rs.
End PlinIndex.

(** ** Frames: what an operation leaves alone *)

Section Frame.
Context {T : Type} `{LeafNode.OverflowTree T} {B : Type} (f : PlinIndex (T := T) -> B).

(** A successful run does not change [f]. *)
Definition keeps {A} (m : P A) : Prop := forall h a h', m h = Ok (a, h') -> f h' = f h.

Lemma keeps_spec {A} (m : P A) h a h' : keeps m -> m h = Ok (a, h') -> f h' = f h.
Proof. intros Hm. apply Hm. Qed.
Lemma keeps_ret {A} (a : A) : keeps (mret a).
Proof. intros h b h' [= _ <-]. done. Qed.
Lemma keeps_bind {A C} (m : P A) (k : A -> P C) :
  keeps m -> (forall a, keeps (k a)) -> keeps (m ≫= k).
Proof.
  intros Hm Hk h c h' E. unfold mbind, P_bind in E. destruct (m h) as [[a h1]|] eqn:E1; [|done].
  rewrite (Hk a _ _ _ E). by apply (Hm _ _ _ E1).
Qed.
Lemma keeps_get {A} (g : PlinIndex -> A) : keeps (get g).
Proof. intros h a h' [= _ <-]. done. Qed.
Lemma keeps_meta {A} (g : plin_metadata -> A) : keeps (meta g).
Proof. apply keeps_get. Qed.
Lemma keeps_lift {A} (m : res A) : keeps (lift m).
Proof. intros h a h' E. unfold lift in E. destruct m; [|done]. by injection E as _ <-. Qed.
Lemma keeps_fail {A} e : keeps (fail (A := A) e).
Proof. intros h a h' E. done. Qed.
Lemma keeps_put g : (forall h, f (g h) = f h) -> keeps (put g).
Proof. intros Hg h a h2 [= <- <-]. apply Hg. Qed.
Lemma keeps_ld_leaf a : keeps (ld_leaf a).
Proof. intros h l h' E. unfold ld_leaf in E. destruct (leaves h !! a); [|done]. by injection E as _ <-. Qed.

Hypothesis f_leaves : forall h l, f (set_leaves h l) = f h.
Hypothesis f_inners : forall h i, f (set_inners h i) = f h.
Hypothesis f_roots : forall h r, f (set_plin h (set_roots (plin h) r)) = f h.
Hypothesis f_next : forall h n, f (set_next_address h n) = f h.
Hypothesis f_logs : forall h l, f (set_plin h (set_logs (plin h) l)) = f h.

Lemma keeps_on_leaves {A} (m : gmap Z (LeafNode.Leaf T) -> res (A * gmap Z (LeafNode.Leaf T))) :
  keeps (on_leaves m).
Proof.
  intros h a h' E. unfold on_leaves in E. destruct (m (leaves h)) as [[x l]|]; [|done].
  injection E as _ <-. apply f_leaves.
Qed.
Lemma keeps_modify_leaf a g : keeps (modify_leaf a g).
Proof.
  intros h u h' E. unfold modify_leaf in E. destruct (leaves h !! a); [|done].
  injection E as _ <-. apply f_leaves.
Qed.
Lemma keeps_try_split_lock a : keeps (try_split_lock a).
Proof.
  intros h u h' E. unfold try_split_lock in E. destruct (leaves h !! a) as [l|]; [|done].
  mstep in E. destruct (LeafNode.try_get_split_lock l). injection E as _ <-. apply f_leaves.
Qed.
Lemma keeps_read_slot r : keeps (read_slot r).
Proof.
  intros h s h' E. destruct r as [i|a i]; cbn in E.
  - destruct (zload (roots (plin h)) i); [|done]. by injection E as _ <-.
  - destruct (inners h !! a) as [n|]; [|done]. mstep in E.
    destruct (zload (InnerNode.inner_slots n) i); [|done]. by injection E as _ <-.
Qed.
Lemma keeps_write_slot r s : keeps (write_slot r s).
Proof.
  intros h u h' E. destruct r as [i|a i]; cbn in E.
  - destruct (zstore (roots (plin h)) i s); [|done]. injection E as _ <-. apply f_roots.
  - destruct (inners h !! a) as [n|]; [|done]. mstep in E.
    destruct (zstore (InnerNode.inner_slots n) i s); [|done]. injection E as _ <-. apply f_inners.
Qed.
Lemma keeps_fresh : keeps fresh_address.
Proof. intros h a h' [= _ <-]. apply f_next. Qed.
Lemma keeps_modify_log i g : keeps (modify_log i g).
Proof.
  intros h u h' E. unfold modify_log in E. destruct (zload (logs (plin h)) i); [|done]. mstep in E.
  destruct (zstore (logs (plin h)) i (g a)); [|done]. injection E as _ <-. apply f_logs.
Qed.
End Frame.

(** Goals [keeps f m] for straight-line code. *)
Create HintDb frame.
#[export] Hint Resolve keeps_ret keeps_get keeps_meta keeps_lift keeps_fail keeps_ld_leaf
  keeps_on_leaves keeps_modify_leaf keeps_try_split_lock keeps_read_slot keeps_write_slot
  keeps_fresh keeps_modify_log : frame.

Ltac keep_step :=
  match goal with
  | |- keeps _ (_ ≫= _) => apply keeps_bind; [|intros ?]
  | |- keeps _ (if ?b then _ else _) => destruct b
  | |- keeps _ (match ?x with _ => _ end) => destruct x
  | |- keeps _ (let _ := _ in _) => cbv zeta
  | |- keeps _ (put _) => apply keeps_put; intros; reflexivity
  | |- keeps _ (put_meta _) => apply keeps_put; intros; reflexivity
  | |- keeps _ _ => solve [eauto with frame]
  end.
Ltac keep := repeat keep_step.

Section LeafNumber.
Context {T : Type} `{LeafNode.OverflowTree T}.
Abbreviation leafnum := (fun h : PlinIndex (T := T) => leaf_number (plin h)).

Lemma keeps_build_leaves segs data start prev gv :
  keeps leafnum (build_leaves segs data start prev gv).
Proof. revert start prev. induction segs as [|s segs IH]; intros start prev; cbn; keep. Qed.
Lemma keeps_link_next l : keeps leafnum (link_next l).
Proof.
  induction l as [|a l IH]; [apply keeps_ret|]. destruct l as [|b l]; [apply keeps_ret|].
  apply keeps_bind; [keep|intros _; exact IH].
Qed.
Lemma keeps_leaf_chain fuel a : keeps leafnum (leaf_chain fuel a).
Proof. revert a. induction fuel as [|fuel IH]; intros a; cbn; keep. Qed.
Lemma keeps_debug : keeps leafnum debug.
Proof. unfold debug, get_leftmost_leaf, leaf_fuel, inner_fuel. keep. apply keeps_leaf_chain. Qed.

Lemma keeps_take_log : keeps leafnum take_log.
Proof. unfold take_log. keep. Qed.
Lemma keeps_pess a round : keeps leafnum (pess_insert_tabel a round).
Proof. unfold pess_insert_tabel. keep. Qed.
Lemma keeps_release a : keeps leafnum (release_leaf a).
Proof. unfold release_leaf. keep. Qed.
Lemma keeps_modify_slot r g : keeps leafnum (modify_slot r g).
Proof. unfold modify_slot. keep. Qed.
End LeafNumber.
#[export] Hint Resolve keeps_build_leaves keeps_link_next keeps_leaf_chain keeps_debug
  keeps_take_log keeps_pess keeps_release keeps_modify_slot : frame.

(** A split of an orphan (a leaf reached through its neighbour, without a
    slot in the inner nodes) adds leaves to the chain and counts the extra ones
    as orphans, but never in [leaf_number]; [rebuild_inner_nodes] indexes the
    first [leaf_number] leaves of the chain and leaves the last ones out. *)
Theorem orphan_split_keeps_leaf_number {T} `{LeafNode.OverflowTree T} (a left right : Z)
    (h h' : PlinIndex (T := T)) :
  split_locked a None left right h = Ok (tt, h') ->
  leaf_number (plin h') = leaf_number (plin h).
Proof.
  apply (keeps_spec (fun h => leaf_number (plin h))).
  unfold split_locked, finish_split, on_lock, smo_release_read. keep.
Qed.

(** ** A small index *)

Definition demo_keys : list Z := [10; 20; 30; 40; 110; 120; 130; 140; 210; 220; 230; 240].
Definition demo_segment (k start : Z) : Segment :=
  mkSegment (double_of_Z k) (double_of_ratio 1 10) (double_of_Z start) 4.
Definition demo_load : res (unit * PlinIndex (T := BPlus.btree_plus)) :=
  load_segments [demo_segment 10 0; demo_segment 110 4; demo_segment 210 8]
    (LeafNode.zdata demo_keys) new_plin.
Definition demo_index : PlinIndex (T := BPlus.btree_plus) := Eval vm_compute in
  match demo_load with Ok (_, h) => h | Err _ => new_plin end.
Definition no_leaf : Leaf BPlus.btree_plus :=
  LeafNode.mkLeaf (double_of_Z 0) (double_of_Z 0) 0 0 0 (double_of_Z 0) 0 0 0 false [].
Definition demo_leaf (a : Z) : Leaf BPlus.btree_plus := default no_leaf (leaves demo_index !! a).
Definition after (m : P (T := BPlus.btree_plus) unit) (h : PlinIndex) : PlinIndex :=
  match m h with Ok (_, h) => h | Err _ => new_plin end.

Lemma orphan_split_keeps_leaf_number_witness :
  leaf_number (plin (after (split_locked 2 None 1 3) demo_index)) = 3.
Proof.
  transitivity (leaf_number (plin demo_index)); [|vm_compute; reflexivity].
  apply (orphan_split_keeps_leaf_number 2 1 3). vm_compute. reflexivity.
Defined.

(** ** Keys outside the leaves *)

(** A change of the metadata that no search in the leaves can see. *)
Section Stable.
Context {T : Type} `{LeafNode.OverflowTree T}.
Variable g : plin_metadata (T := T) -> plin_metadata (T := T).
Hypothesis g_roots : forall m, roots (g m) = roots m.
Hypothesis g_root_number : forall m, root_number (g m) = root_number m.
Hypothesis g_global_version : forall m, global_version (g m) = global_version m.

Definition moved (h : PlinIndex (T := T)) : PlinIndex := set_plin h (g (plin h)).
Definition stable {A} (m : P A) : Prop := forall h,
  m (moved h) = match m h with Ok (a, h') => Ok (a, moved h') | Err e => Err e end.

Lemma stable_ret {A} (a : A) : stable (mret a).
Proof. done. Qed.
Lemma stable_fail {A} e : stable (fail (A := A) e).
Proof. done. Qed.
Lemma stable_bind {A C} (m : P A) (k : A -> P C) :
  stable m -> (forall a, stable (k a)) -> stable (m ≫= k).
Proof.
  intros Hm Hk h. unfold mbind, P_bind. rewrite (Hm h). destruct (m h) as [[a h1]|]; [|done].
  apply Hk.
Qed.
Lemma stable_get {A} (q : PlinIndex -> A) : (forall h, q (moved h) = q h) -> stable (get q).
Proof. intros Hq h. unfold get. by rewrite Hq. Qed.
Lemma stable_lift {A} (m : res A) : stable (lift m).
Proof. intros h. unfold lift. by destruct m. Qed.
Lemma stable_on_leaves {A} (m : gmap Z (LeafNode.Leaf T) -> res (A * gmap Z (LeafNode.Leaf T))) :
  stable (on_leaves m).
Proof. intros h. unfold on_leaves. cbn. destruct (m (leaves h)) as [[a l]|]; done. Qed.
Lemma stable_find_root k : stable (find_root k).
Proof.
  intros h. unfold find_root, root_index. cbn. rewrite g_roots, g_root_number.
  by destruct (prefix_len _ _).
Qed.
Lemma stable_read_slot r : stable (read_slot r).
Proof.
  intros h. destruct r as [i|a i]; cbn.
  - rewrite g_roots. by destruct (zload (roots (plin h)) i).
  - destruct (inners h !! a) as [n|]; [|done]. mstep. by destruct (zload (InnerNode.inner_slots n) i).
Qed.
Lemma stable_route k : stable (route k).
Proof.
  unfold route. apply stable_bind; [apply stable_find_root|intros i].
  apply stable_bind; [apply stable_read_slot|intros acc]. destruct (_ =? _); [|done].
  apply stable_bind; [by apply stable_get|intros fuel].
  apply stable_bind; [by apply stable_get|intros h]. apply stable_lift.
Qed.
Lemma stable_find_in_leaves fuel k : stable (find_in_leaves fuel k).
Proof.
  induction fuel as [|fuel IH]; [done|]. cbn [find_in_leaves].
  apply stable_bind; [apply stable_route|intros r].
  apply stable_bind; [apply stable_read_slot|intros acc]. destruct (check_read_lock acc); [|done].
  apply stable_bind; [by apply stable_get|intros lf].
  apply stable_bind; [apply stable_get; intros h; apply g_global_version|intros gv].
  apply stable_bind; [apply stable_on_leaves|intros [ret v]].
  destruct (ret =? 1); [apply stable_bind; [apply stable_lift|done]|]. by destruct (ret =? 0).
Qed.
End Stable.

(** An upsert of a key outside, of the smallest or of the largest loaded key
    goes to a buffer, and no search inside the loaded range can see it: [find]
    includes both bounds and [upsert] excludes them, so that updating the
    smallest or the largest key leaves its old payload in place. *)
Theorem bound_upsert_is_invisible {T} `{LeafNode.OverflowTree T} (h h' : PlinIndex (T := T))
    (k q : double) (v : Z) (fuel : nat) :
  strictly_inside (plin h) k = false -> inside (plin h) q = true ->
  upsert fuel k v h = Ok (tt, h') ->
  forall r h1, find fuel q h = Ok (r, h1) -> exists h1', find fuel q h' = Ok (r, h1').
Proof.
  intros Hout Hin E r h1 Ef.
  assert (exists g, h' = moved g h /\ (forall m, roots (g m) = roots m) /\
    (forall m, root_number (g m) = root_number m) /\ (forall m, global_version (g m) = global_version m) /\
    (forall m q, inside (g m) q = inside m q)) as (g & -> & G1 & G2 & G3 & G4).
  { cbv [upsert meta get mbind P_bind id lift put_meta put res_bind] in E. rewrite Hout in E.
    destruct (dlt k (plin_min_key (plin h))).
    - destruct (LeafNode.ot_upsert k v _) as [[ret t]|]; [|done].
      cbn in E. destruct (ret =? 4); cbn in E; injection E as <-;
        [exists (fun m => set_left_buffer_number (set_left_buffer m t) (u32 (left_buffer_number m + 1)))
        |exists (fun m => set_left_buffer m t)]; done.
    - destruct (LeafNode.ot_upsert k v _) as [[ret t]|]; [|done].
      cbn in E. destruct (ret =? 4); cbn in E; injection E as <-;
        [exists (fun m => set_right_buffer_number (set_right_buffer m t) (u32 (right_buffer_number m + 1)))
        |exists (fun m => set_right_buffer m t)]; done. }
  unfold find, meta, get, id in *. cbv [mbind P_bind] in *. cbn [plin moved set_plin] in *.
  rewrite Hin in Ef. rewrite G4, Hin.
  rewrite (stable_find_in_leaves g G1 G2 G3).
  destruct (find_in_leaves fuel q h) as [[x h2]|]; [|done]. eexists.
  injection Ef as <- <-. done.
Qed.

Lemma bound_upsert_is_invisible_witness :
  exists h1', find 1 (double_of_Z 240) (after (upsert 1 (double_of_Z 240) 99) demo_index)
    = Ok (Some 241, h1').
Proof.
  refine (bound_upsert_is_invisible demo_index (after (upsert 1 (double_of_Z 240) 99) demo_index)
    (double_of_Z 240) (double_of_Z 240) 99 1 _ _ _ (Some 241)
    (match find 1 (double_of_Z 240) demo_index with Ok (_, h) => h | Err _ => demo_index end) _);
    vm_compute; reflexivity.
Defined.

(** ** The leaf table *)

(** In key order; the keys are numbers. *)
Definition table_ok (t : list t_record) : Prop :=
  Forall (fun r => is_key (CacheModel.rkey r) = true) t /\
  forall i j a b, (i < j)%nat -> t !! i = Some a -> t !! j = Some b ->
    rank (CacheModel.rkey a) <= rank (CacheModel.rkey b).

Lemma table_ok_cons r t :
  table_ok (r :: t) <-> is_key (CacheModel.rkey r) = true /\ table_ok t /\
    Forall (fun x => rank (CacheModel.rkey r) <= rank (CacheModel.rkey x)) t.
Proof.
  unfold table_ok. rewrite Forall_cons. split.
  - intros [[H1 H2] H3]. split_and!; try done.
    + intros i j a b Hij. apply (H3 (S i) (S j)). lia.
    + apply Forall_lookup. intros i x Hi. apply (H3 0%nat (S i)); [lia|done|done].
  - intros (H1 & [H2 H3] & H4). split; [done|]. intros [|i] [|j] a b Hij Ha Hb; try lia.
    + injection Ha as <-. by apply (proj1 (Forall_lookup _ _) H4 j).
    + apply (H3 i j); [lia|done|done].
Qed.

Lemma table_insert_cons x t r :
  table_insert (x :: t) r =
  if dlt (CacheModel.rkey x) (CacheModel.rkey r) then x :: table_insert t r else r :: x :: t.
Proof. unfold table_insert. cbn. by destruct (dlt _ _). Qed.

Lemma table_insert_ok t r :
  table_ok t -> is_key (CacheModel.rkey r) = true ->
  table_ok (table_insert t r) /\ table_insert t r ≡ₚ r :: t.
Proof.
  intros Ht Hr. induction t as [|x t IH].
  { split; [|done]. by apply table_ok_cons. }
  apply table_ok_cons in Ht as (Hx & Ht & Hle). destruct (IH Ht) as [IH1 IH2].
  rewrite table_insert_cons, dlt_rank by done.
  destruct (Z.ltb_spec (rank (CacheModel.rkey x)) (rank (CacheModel.rkey r))) as [Hlt|Hge].
  - split.
    + apply table_ok_cons. split_and!; try done. rewrite IH2. constructor; [lia|done].
    + rewrite IH2. apply Permutation_swap.
  - split; [|done]. apply table_ok_cons. split_and!; try done; [by apply table_ok_cons|].
    constructor; [lia|]. eapply Forall_impl; [exact Hle|]. cbn. lia.
Qed.

Lemma erase_first_ok a t : table_ok t -> table_ok (erase_first a t).
Proof.
  induction t as [|r t IH]; [done|]. intros (Hr & Ht & Hle)%table_ok_cons. cbn.
  destruct (CacheModel.addr r =? a); [done|]. apply table_ok_cons. split_and!; [done|by apply IH|].
  assert (Hsub : forall l, Forall (fun x => rank (CacheModel.rkey r) <= rank (CacheModel.rkey x)) l ->
    Forall (fun x => rank (CacheModel.rkey r) <= rank (CacheModel.rkey x)) (erase_first a l)).
  { induction l as [|y l IHl]; [done|]. intros [H1 H2]%Forall_cons. cbn.
    destruct (CacheModel.addr y =? a); [done|]. constructor; [done|by apply IHl]. }
  by apply Hsub.
Qed.

(** After a split, the leaf table is still in key order and holds exactly
    the old records without the split leaf's, and the records of the new
    leaves: a logical position keeps meaning "the leaf in this place of the key
    order". *)
Theorem pess_insert_tabel_sorted {T} `{LeafNode.OverflowTree T} (a : Z) (round : list t_record)
    (h h' : PlinIndex (T := T)) :
  table_ok (local_table h) -> Forall (fun r => is_key (CacheModel.rkey r) = true) round ->
  pess_insert_tabel a round h = Ok (tt, h') ->
  table_ok (local_table h') /\ local_table h' ≡ₚ round ++ erase_first a (local_table h).
Proof.
  intros Ht Hr [= <-]. cbn [local_table set_local_table].
  pose proof (erase_first_ok a _ Ht) as He. revert He.
  generalize (erase_first a (local_table h)). induction Hr as [|r round Hk Hr IH]; intros t He; [done|].
  cbn [fold_left]. destruct (table_insert_ok t r He Hk) as [H1 H2].
  destruct (IH _ H1) as [H3 H4]. split; [done|]. rewrite H4, H2. symmetry. apply Permutation_middle.
Qed.

Definition demo_record (k a : Z) : t_record := CacheModel.mkRecord (double_of_Z k) a true.

Lemma pess_insert_tabel_sorted_witness :
  table_ok (local_table (after (pess_insert_tabel 2 [demo_record 110 8; demo_record 130 9]) demo_index)).
Proof.
  refine (proj1 (pess_insert_tabel_sorted 2 [demo_record 110 8; demo_record 130 9] demo_index _ _ _ _)).
  - split.
    + vm_compute. repeat constructor.
    + intros i j a b Hij Ha Hb.
      assert (Hj : (j < 3)%nat) by (apply lookup_lt_Some in Hb; vm_compute in Hb; lia).
      destruct i as [|[|i]], j as [|[|[|j]]]; try lia; vm_compute in Ha, Hb;
        injection Ha as <-; injection Hb as <-; vm_compute; discriminate.
  - repeat constructor.
  - reflexivity.
Defined.

(** ** Locks of a split *)

(** One step of evaluation that leaves the lock operations of a leaf folded. *)
Ltac step := cbn -[LeafNode.try_get_split_lock LeafNode.leaf_release_lock LeafNode.set_locked].

(** The first and the last leaf are never split: without a neighbour on
    either side [split] gives back every lock it took and changes nothing. *)
Theorem edge_leaf_never_splits {T} `{LeafNode.OverflowTree T} (h : PlinIndex (T := T)) (a : Z)
    (l : Leaf T) (acc : option slot_ref) :
  leaves h !! a = Some l -> LeafNode.lf_locked l = 0 -> smo_lock (plin h) = 0 ->
  LeafNode.lf_prev l = 0 \/
  (LeafNode.lf_next l = 0 /\ LeafNode.lf_prev l <> a /\
   exists p, leaves h !! LeafNode.lf_prev l = Some p /\ LeafNode.lf_locked p = 0) ->
  split a acc h = Ok (tt, h).
Proof.
  intros Hl Hul Hsmo Hside.
  destruct h as [pm lv inn na lt pr vl st rt k0 k1], pm as [mk xk lb rb ln on lbn rbn rn lvl sl gv rb0 rts lgs ab].
  cbn [plin leaves smo_lock] in *. subst sl.
  assert (Hres : forall b (l : Leaf T), LeafNode.lf_locked l = 0 ->
    LeafNode.leaf_release_lock (LeafNode.set_locked l b) = l).
  { intros b [] E. cbn in *. subst. done. }
  assert (Hgot : forall (l : Leaf T), LeafNode.lf_locked l = 0 ->
    LeafNode.try_get_split_lock l = (true, LeafNode.set_locked l 1)).
  { intros l0 E. unfold LeafNode.try_get_split_lock. by rewrite E. }
  unfold split, lock_siblings, smo_try_read_lock, try_split_lock, ld_leaf.
  cbv [mbind P_bind meta get put_meta put smo_release_read release_leaf modify_leaf].
  step. rewrite Hl. step. change (Z.land 0 lockSet =? 0) with true. step. rewrite Hl. step.
  rewrite (Hgot l Hul). step.
  destruct Hside as [Hp|(Hn & Hne & p & Hp & Hup)].
  - rewrite Hp. step. rewrite lookup_insert_eq. step.
    rewrite Hres by done. rewrite insert_insert_eq, (insert_id lv a l Hl). done.
  - destruct (Z.eqb_spec (LeafNode.lf_prev l) 0) as [Ep|Ep].
    + step. rewrite lookup_insert_eq. step.
      rewrite Hres by done. rewrite insert_insert_eq, (insert_id lv a l Hl). done.
    + step. rewrite lookup_insert_ne by done. rewrite Hp. step. rewrite (Hgot p Hup). step.
      rewrite Hn. step. rewrite lookup_insert_eq. step. rewrite (Hres 1 p) by done.
      rewrite insert_insert_eq. rewrite (insert_id (<[a := LeafNode.set_locked l 1]> lv) (LeafNode.lf_prev l) p)
        by (by rewrite lookup_insert_ne).
      rewrite lookup_insert_eq. step. rewrite (Hres 1 l) by done. rewrite insert_insert_eq, (insert_id lv a l Hl). done.
Qed.

Lemma edge_leaf_never_splits_witness : split 1 None demo_index = Ok (tt, demo_index).
Proof.
  refine (edge_leaf_never_splits demo_index 1
    (demo_leaf 1) None _ _ _ _);
    [vm_compute; reflexivity..|left; vm_compute; reflexivity].
Defined.

(** ** Upserts and finds *)

(** The left buffer is a map: after an upsert of a key below the loaded
    range, a search below the range finds the new payload for that key and for
    every other key what the buffer held. *)
Theorem left_buffer_upsert_find {T} `{LeafNode.OverflowTreeLaws T} (h : PlinIndex (T := T))
    (m : gmap Z Z) (k q : double) (v : Z) (fuel : nat) :
  LeafNode.ot_rep (left_buffer (plin h)) m -> is_key (plin_min_key (plin h)) = true ->
  is_key (plin_max_key (plin h)) = true ->
  is_key k = true -> is_key q = true -> v <> 0 ->
  rank k < rank (plin_min_key (plin h)) -> rank q < rank (plin_min_key (plin h)) ->
  exists h', upsert fuel k v h = Ok (tt, h') /\
    find fuel q h' = Ok ((if rank q =? rank k then Some v else m !! rank q), h') /\
    left_buffer_number (plin h') =
      (if decide (is_Some (m !! rank k)) then left_buffer_number (plin h)
       else u32 (left_buffer_number (plin h) + 1)).
Proof.
  intros Hm Kmin Kmax Kk Kq Hv Hk Hq.
  assert (E1 : strictly_inside (plin h) k = false).
  { unfold strictly_inside. rewrite dlt_rank by done.
    by destruct (Z.ltb_spec (rank (plin_min_key (plin h))) (rank k)); [lia|]. }
  assert (E2 : dlt k (plin_min_key (plin h)) = true) by (rewrite dlt_rank by done; by apply Z.ltb_lt).
  assert (E3 : inside (plin h) q = false).
  { unfold inside. rewrite dle_rank by done.
    by destruct (Z.leb_spec (rank (plin_min_key (plin h))) (rank q)); [lia|]. }
  assert (E4 : dlt q (plin_min_key (plin h)) = true) by (rewrite dlt_rank by done; by apply Z.ltb_lt).
  destruct (LeafNode.ot_upsert_ok _ m k v Hm Kk Hv) as (t & Eu & Ht).
  cbv [upsert meta get mbind P_bind id lift put_meta put]. rewrite E1, E2, Eu. mstep.
  assert (Hval : <[rank k := v]> m !! rank q = if rank q =? rank k then Some v else m !! rank q).
  { destruct (Z.eqb_spec (rank q) (rank k)) as [->|]; [apply lookup_insert_eq|].
    by rewrite lookup_insert_ne. }
  destruct (decide (is_Some (m !! rank k))); cbn [Z.eqb Pos.eqb]; eexists; (split; [done|]).
  all: unfold find, find_in_buffer_net; cbv [meta get mbind P_bind id lift];
    change (inside _ q) with (inside (plin h) q); rewrite E3;
    cbn [plin set_plin set_left_buffer set_left_buffer_number plin_min_key left_buffer
         left_buffer_number]; rewrite E4; rewrite (LeafNode.ot_find_ok _ _ q Ht Kq); mstep;
    by rewrite Hval.
Qed.

Lemma left_buffer_upsert_find_witness :
  exists h', upsert 1 (double_of_Z 3) 77 demo_index = Ok (tt, h') /\
    left_buffer_number (plin h') = 1.
Proof.
  destruct (left_buffer_upsert_find demo_index ∅ (double_of_Z 3) (double_of_Z 4) 77 1)
    as (h' & E & _ & En).
  - apply BPlusMap.represents_new.
  - vm_compute. reflexivity.
  - vm_compute. reflexivity.
  - reflexivity.
  - reflexivity.
  - discriminate.
  - vm_compute. reflexivity.
  - vm_compute. reflexivity.
  - exists h'. split; [exact E|]. rewrite En. vm_compute. reflexivity.
Defined.

(** What a search needs to find its leaf: an accelerator that agrees with the leaf,
    which owns the key and predicts its block. *)
Section AtLeaf.
Context {T : Type} `{LeafNode.OverflowTreeLaws T}.

Record at_leaf (h : PlinIndex (T := T)) (k : double) (r : slot_ref) (acc : InnerSlot)
    (l : Leaf T) (ms : list (gmap Z Z)) (block : Z) : Prop := {
  al_key : is_key k = true;
  al_storable : LeafNode.storable k;
  al_min : is_key (plin_min_key (plin h)) = true;
  al_max : is_key (plin_max_key (plin h)) = true;
  al_route : route k h = Ok (r, h);
  al_slot : read_slot r h = Ok (acc, h);
  al_leaf : leaves h !! ptr acc = Some l;
  al_ok : LeafNode.leaf_ok l ms;
  al_agrees : LeafNode.agrees l (Some acc);
  al_owns : LeafNode.owns (leaves h) l k;
  al_block : LeafNode.predicts l k block
}.

(** Routing does not look at the leaves. *)
Lemma route_set_leaves k (h : PlinIndex (T := T)) r ls :
  route k h = Ok (r, h) -> route k (set_leaves h ls) = Ok (r, set_leaves h ls).
Proof.
  unfold route, find_root, inner_fuel. cbv [mbind P_bind get lift].
  cbn [plin inners set_leaves]. destruct (root_index (plin h) k) as [i|]; [|done]. mstep.
  cbn [read_slot plin set_leaves]. destruct (zload (roots (plin h)) i) as [s|]; [|done]. mstep.
  destruct (type s =? 1); [|by intros [= <-]]. cbn [inners set_leaves].
  destruct (InnerNode.find_leaf_node _ _ _ _ _); [|done]. mstep. by intros [= <-].
Qed.
Lemma read_slot_set_leaves r (h : PlinIndex (T := T)) s ls :
  read_slot r h = Ok (s, h) -> read_slot r (set_leaves h ls) = Ok (s, set_leaves h ls).
Proof.
  destruct r as [i|a i]; cbn [read_slot plin inners set_leaves].
  - destruct (zload (roots (plin h)) i); [|done]. mstep. by intros [= ->].
  - destruct (inners h !! a) as [n|]; [|done]. mstep.
    destruct (zload (InnerNode.inner_slots n) i); [|done]. mstep. by intros [= ->].
Qed.

Lemma at_leaf_next h k r acc l ms block l' ms' :
  at_leaf h k r acc l ms block -> LeafNode.same_frame l l' -> LeafNode.leaf_ok l' ms' ->
  LeafNode.lf_next l <> ptr acc ->
  at_leaf (set_leaves h (<[ptr acc := l']> (leaves h))) k r acc l' ms' block.
Proof.
  intros [K1 K2 K3 K4 K5 K6 K7 K8 K9 K10 K11] Hs Hok Hne. split; try done.
  - by apply route_set_leaves.
  - by apply read_slot_set_leaves.
  - apply lookup_insert_eq.
  - by eapply LeafNode.agrees_frame.
  - by eapply LeafNode.owns_frame.
  - unfold LeafNode.predicts in *. destruct Hs as (-> & -> & -> & _). done.
Qed.

(** A search ends at that leaf. *)
Lemma index_find_at f h k r acc l ms block :
  at_leaf h k r acc l ms block -> inside (plin h) k = true ->
  exists l', find (S f) k h = Ok (LeafNode.value_in ms block k, set_leaves h (<[ptr acc := l']> (leaves h))) /\
    LeafNode.same_frame l l' /\ LeafNode.leaf_ok l' ms /\ LeafNode.same_count l l'.
Proof.
  intros [K1 K2 K3 K4 K5 K6 K7 K8 K9 K10 K11] Hin.
  destruct (LeafNode.find_spec (size (leaves h)) (leaves h) (ptr acc) l ms k (global_version (plin h))
    (Some acc) block K8 K7 K9 K10 K11 K2) as (l' & Ef & Hs & Hok & Hb).
  exists l'. split; [|done]. cbv [find meta get mbind P_bind id]. rewrite Hin. cbn [find_in_leaves].
  cbv [meta get mbind P_bind id leaf_fuel on_leaves lift]. rewrite K5, K6.
  destruct K9 as (_ & Hr & _). cbn [LeafNode.leaf_check_read_lock] in Hr. rewrite Hr, Ef.
  by destruct (LeafNode.value_in ms block k).
Qed.

(** An upsert that does not fill the leaf ends there as well. *)
(** An upsert stores the pair in the leaf of the key, and splits the leaf when it is full. *)
Lemma index_upsert_any f h k v r acc l ms block :
  at_leaf h k r acc l ms block -> strictly_inside (plin h) k = true -> v <> 0 -> ptr acc <> 0 ->
  rebuilding (plin h) = 0 ->
  exists (full : bool) l' m,
    upsert (S f) k v h = (if full then split (ptr acc) (Some r) else mret tt) (set_leaves h (<[ptr acc := l']> (leaves h))) /\
    (full = true -> LeafNode.lf_number_to_split l < u64 (LeafNode.lf_overflow_number l + 1)) /\
    ms !! Z.to_nat block = Some m /\ LeafNode.same_frame l l' /\
    LeafNode.leaf_ok l' (<[Z.to_nat block := <[rank k := v]> m]> ms) /\ LeafNode.same_budget l l'.
Proof.
  intros [K1 K2 K3 K4 K5 K6 K7 K8 K9 K10 K11] Hin Hv Hptr Hreb.
  destruct (LeafNode.upsert_spec (size (leaves h)) (leaves h) (ptr acc) l ms k v
    (global_version (plin h)) (Some acc) block K8 K7 K9 K10 K11 K2 Hv)
    as (code & sp & l' & m & Eu & Hc & Hc4 & Hs & Hm & Hok' & Hb).
  exists (code =? 5), l', m. split; [|split; [|done]].
  - cbv [upsert meta get mbind P_bind id]. rewrite Hin. cbn [upsert_in_leaves].
    cbv [meta get mbind P_bind id leaf_fuel on_leaves ld_leaf lift]. rewrite K5, K6, Hreb.
    destruct (Z.eqb_spec (ptr acc) 0); [done|]. cbn [orb negb Z.eqb]. rewrite K7. mstep.
    unfold LeafNode.check_split_lock. rewrite (LeafNode.lo_unlocked _ _ K8).
    change (negb (negb (Z.testbit 0 0))) with false. cbv beta iota. rewrite Eu. mstep.
    destruct (Z.eqb_spec code 5) as [->|Hne].
    + destruct (Hc4 ltac:(lia)) as (_ & -> & _). mstep. cbn [Z.eqb Pos.eqb].
      match goal with |- context [split ?x ?y ?z] => destruct (split x y z) as [[[] ?]|] end; done.
    + assert (code <= 4) by (destruct (Z.le_gt_cases code 4) as [|Hgt]; [done|]; destruct (Hc4 ltac:(lia)) as (_ & _ & E); done).
      destruct (Z.eqb_spec code 6); [lia|]. cbn. destruct (Z.eqb_spec code 7); [lia|]. done.
  - intros ->%Z.eqb_eq. apply (Hc4 ltac:(lia)).
Qed.

Lemma index_upsert_at f h k v r acc l ms block :
  at_leaf h k r acc l ms block -> strictly_inside (plin h) k = true -> v <> 0 -> ptr acc <> 0 ->
  rebuilding (plin h) = 0 -> u64 (LeafNode.lf_overflow_number l + 1) <= LeafNode.lf_number_to_split l ->
  exists l' m, upsert (S f) k v h = Ok (tt, set_leaves h (<[ptr acc := l']> (leaves h))) /\
    ms !! Z.to_nat block = Some m /\ LeafNode.same_frame l l' /\
    LeafNode.leaf_ok l' (<[Z.to_nat block := <[rank k := v]> m]> ms) /\ LeafNode.same_budget l l'.
Proof.
  intros Hat Hin Hv Hptr Hreb Hroom.
  destruct (index_upsert_any f h k v r acc l ms block Hat Hin Hv Hptr Hreb) as (full & l' & m & E & Hfull & Hrest).
  exists l', m. split; [|exact Hrest]. destruct full; [|exact E]. specialize (Hfull eq_refl). lia.
Qed.
End AtLeaf.

(** An upsert inside the range that does not fill its leaf succeeds at the
    first try, and a search of the same key then returns the new payload. *)
Theorem upsert_then_find {T} `{LeafNode.OverflowTreeLaws T} (h : PlinIndex (T := T)) (k : double)
    (v block : Z) (r : slot_ref) (acc : InnerSlot) (l : Leaf T) (ms : list (gmap Z Z)) :
  strictly_inside (plin h) k = true -> is_key k = true -> v <> 0 -> rebuilding (plin h) = 0 ->
  is_key (plin_min_key (plin h)) = true -> is_key (plin_max_key (plin h)) = true ->
  route k h = Ok (r, h) -> read_slot r h = Ok (acc, h) -> ptr acc <> 0 ->
  leaves h !! ptr acc = Some l -> LeafNode.leaf_ok l ms -> LeafNode.agrees l (Some acc) ->
  LeafNode.lf_next l <> ptr acc -> LeafNode.owns (leaves h) l k -> LeafNode.predicts l k block ->
  LeafNode.storable k ->
  u64 (LeafNode.lf_overflow_number l + 1) <= LeafNode.lf_number_to_split l ->
  exists h' h'', upsert 1 k v h = Ok (tt, h') /\ find 1 k h' = Ok (Some v, h'').
Proof.
  intros Hin Kk Hv Hreb Kmin Kmax Hroute Hslot Hptr Hl Hok Hag Hne Hown Hpred Hst Hroom.
  assert (Hat : at_leaf h k r acc l ms block) by done.
  destruct (index_upsert_at 0 h k v r acc l ms block Hat Hin Hv Hptr Hreb Hroom)
    as (l' & m & Eu & Hm & Hs & Hok' & _).
  pose proof (at_leaf_next _ _ _ _ _ _ _ _ _ Hat Hs Hok' Hne) as Hat'.
  destruct (index_find_at 0 _ k r acc l' _ block Hat') as (l2 & Ef & _).
  { cbn [plin set_leaves]. unfold inside, strictly_inside in *.
    rewrite !dlt_rank in Hin by done. rewrite !dle_rank by done. zb.
    apply andb_true_iff. split; apply Z.leb_le; lia. }
  eexists _, _. split; [exact Eu|]. rewrite Ef. unfold LeafNode.value_in.
  rewrite list_lookup_insert_eq by (by eapply lookup_lt_Some). cbn. by rewrite lookup_insert_eq.
Qed.

Definition demo_leaf2 : Leaf BPlus.btree_plus := demo_leaf 2.
Definition demo_acc2 : InnerSlot :=
  match read_slot (InnerNode.NodeSlot 4 16) demo_index with Ok (s, _) => s | Err _ => unset_slot end.

Lemma demo_leaf2_ok :
  LeafNode.leaf_ok demo_leaf2 (map LeafNode.block_map (LeafNode.blocks demo_leaf2)).
Proof. apply LeafNode.leaf_ok_plain. vm_compute. reflexivity. Qed.

Lemma upsert_then_find_witness :
  exists h' h'', upsert 1 (double_of_Z 120) 55 demo_index = Ok (tt, h') /\
    find 1 (double_of_Z 120) h' = Ok (Some 55, h'').
Proof.
  apply (upsert_then_find demo_index (double_of_Z 120) 55 1 (InnerNode.NodeSlot 4 16) demo_acc2
    demo_leaf2 (map LeafNode.block_map (LeafNode.blocks demo_leaf2)));
    try exact demo_leaf2_ok.
  - vm_compute. reflexivity.
  - reflexivity.
  - discriminate.
  - vm_compute. reflexivity.
  - vm_compute. reflexivity.
  - vm_compute. reflexivity.
  - vm_compute. reflexivity.
  - vm_compute. reflexivity.
  - vm_compute. discriminate.
  - vm_compute. reflexivity.
  - vm_compute. split; [reflexivity|split; reflexivity].
  - vm_compute. discriminate.
  - right. exists (demo_leaf 3). split; vm_compute; reflexivity.
  - vm_compute. reflexivity.
  - vm_compute. split; [reflexivity|discriminate].
  - vm_compute. discriminate.
Defined.
