(* ===== verification/Levels.v ===== *)
(** * Levels of inner nodes over the leaves (core/index/plin_index.h)

    The loop that [bulk_load] and [rebuild_inner_nodes] share builds levels of inner nodes
    over consecutive runs of the level below, until at most [ROOT_SIZE] nodes are left.
    What it leaves is a forest over the leaves' slots; a search of any key in reach of its
    models ends at the last leaf whose first key is at most the key, and [upsert_node]
    puts a leaf into the forest. *)

From S2P Require Import Prelude Doubles Rounding Slots Routing InnerTree InnerUpsert PlinIndex.
From S2P Require Segmentation CacheModel LeafNode InnerNode.
#[local] Existing Instance Segmentation.x87.
Open Scope Z_scope.

(** ** Segments *)

(** The segments are consecutive, none is empty, and they end with the keys. *)
Fixpoint seg_tiles (keys : list double) (s e : nat) (segs : list Segment) : Prop :=
  match segs with
  | [] => s = e
  | c :: cs => 0 < seg_number c /\ keys !! s = Some (seg_first_key c) /\
               seg_tiles keys (s + Z.to_nat (seg_number c)) e cs
  end.

Lemma segments_of_tiles keys eps segs :
  Segmentation.increasing keys -> keys <> [] -> segments_of keys eps = Ok segs ->
  seg_tiles keys 0 (length keys) segs.
Proof.
  intros Hinc Hne H. assert (Hnd : Segmentation.nondecreasing keys).
  { destruct Hinc as [H1 H2]. split; [done|]. intros i k k' Hk Hk'. pose proof (H2 i k k' Hk Hk'). lia. }
  destruct (Segmentation.make_segmentation_spec (T := long_double) keys eps Hnd Hne) as (cs & E & Ht).
  apply (Segmentation.increasing_tiling _ _ Hinc) in Ht.
  unfold segments_of in H. rewrite E in H. mstep in H. injection H as <-.
  revert Ht. generalize 0%nat. clear E. induction cs as [|c cs IH]; intros s Ht; [done|].
  cbn [map seg_tiles Segmentation.tiles] in *. destruct Ht as (H1 & H2 & H3). unfold segment_of at 1 2 3.
  destruct (Segmentation.get_floating_point_segment c (Segmentation.first c)) as [a b].
  cbn [seg_number seg_first_key]. split_and!; [done|done|by apply IH].
Qed.

Lemma seg_tiles_le keys s e segs : seg_tiles keys s e segs -> (s <= e)%nat.
Proof.
  revert s. induction segs as [|c cs IH]; intros s H; cbn in H; [lia|].
  destruct H as (_ & _ & H). specialize (IH _ H). lia.
Qed.

Lemma seg_tiles_length keys s e segs : seg_tiles keys s e segs -> (length segs <= e - s)%nat.
Proof.
  revert s. induction segs as [|c cs IH]; intros s H; cbn in *; [lia|].
  destruct H as (Hn & _ & H). specialize (IH _ H). pose proof (seg_tiles_le _ _ _ _ H). lia.
Qed.

(** The keys of a level increase. *)
Lemma increasing_lookup lo (cs : list child) i c d :
  InnerNode.increasing_from lo cs -> cs !! i = Some c -> cs !! S i = Some d -> rank c.1 < rank d.1.
Proof.
  revert lo cs. induction i as [|i IH]; intros lo cs H Hc Hd; destruct cs as [|x cs]; try done.
  - destruct H as [_ H], cs as [|y cs]; [done|]. cbn in Hc, Hd. simplify_eq. apply H.
  - destruct H as [_ H]. by apply (IH (Some (rank x.1)) cs).
Qed.
Lemma level_increasing (cs : list child) :
  Forall InnerNode.child_ok cs -> InnerNode.increasing_from None cs -> Segmentation.increasing (map fst cs).
Proof.
  intros Hok Hinc. split.
  - apply Forall_map. eapply Forall_impl; [exact Hok|]. intros c (K & _). by apply finite_key.
  - intros i k k'. rewrite !list_lookup_fmap. destruct (cs !! i) as [c|] eqn:E; [|done].
    destruct (cs !! S i) as [d|] eqn:E'; [|done]. intros [= <-] [= <-]. by eapply increasing_lookup.
Qed.

(** ** Block counts *)

(** [2 ^ 28] keys are the bound of this development: the counts stay below [2 ^ 29], the
    width of their field. *)
Definition max_keys : Z := 2 ^ 28.

Lemma leaf_blocks_range n bn : 0 <= n <= max_keys -> leaf_blocks n = Ok bn -> 3 <= bn < 2 ^ 29.
Proof.
  intros Hn H. unfold leaf_blocks in H.
  set (f x := dadd (ddiv x LeafNode.leaf_fill) (double_of_Z 3)).
  pose proof (to_uint_between 64 f 0 n max_keys 3 35791397 bn) as K.
  destruct K; [|..|lia].
  - intros x y Hx Hy Hle. apply dadd_mono; [by apply ddiv_key..|done|by apply ddiv_mono].
  - intros x Hx. apply dadd_key; [by apply ddiv_key|done].
  - done.
  - vm_compute. reflexivity.
  - vm_compute. reflexivity.
  - done.
Qed.

(** [bulk_load] allots at least four blocks; [rebuild_inner_nodes], with one block less,
    allots three to a node with one child. *)
Lemma inner_blocks_range extra n bn :
  extra = 3 \/ extra = 2 -> 0 <= n <= max_keys -> inner_blocks extra n = Ok bn -> extra + 1 <= bn < 2 ^ 29.
Proof.
  intros Hx Hn H. unfold inner_blocks in H.
  set (c := dmul INNER_NODE_INIT_RATIO (double_of_Z InnerNode.InnerSlotsPerBlock)) in H.
  assert (Hc : finite c = true) by (vm_compute; reflexivity).
  assert (Hc0 : 0 < sval c) by (vm_compute; reflexivity).
  set (f x := dadd (dadd (ddiv x c) (double_of_Z 1)) (double_of_Z extra)).
  pose proof (to_uint_between 64 f 0 n max_keys (extra + 1) (167772161 + extra) bn) as K.
  destruct K; [|destruct Hx as [-> | ->]..|lia].
  - intros x y Hx' Hy Hle. apply dadd_mono; [apply dadd_key; [by apply ddiv_key|done]..| |].
    + by destruct Hx as [-> | ->].
    + apply dadd_mono; [by apply ddiv_key..|done|by apply ddiv_mono].
  - intros x Hx'. apply dadd_key; [|done]. apply dadd_key; [by apply ddiv_key|done].
  - intros x Hx'. apply dadd_key; [|done]. apply dadd_key; [by apply ddiv_key|done].
  - done.
  - done.
  - vm_compute. reflexivity.
  - vm_compute. reflexivity.
  - vm_compute. reflexivity.
  - vm_compute. reflexivity.
  - done.
  - done.
Qed.

Section Levels.
Context {T : Type} `{LeafNode.OverflowTreeLaws T}.
Implicit Type h : PlinIndex (T := T).

Lemma P_bind_ok {A B} (m : P (T := T) A) (k : A -> P B) h b h' :
  (m ≫= k) h = Ok (b, h') <-> exists a h1, m h = Ok (a, h1) /\ k a h1 = Ok (b, h').
Proof.
  unfold mbind, P_bind. destruct (m h) as [[a h1]|e]; split.
  - intros E. by exists a, h1.
  - by intros (a' & h2 & [= <- <-] & E).
  - done.
  - by intros (a' & h2 & E & _).
Qed.
Lemma lift_ok {A} (m : res A) h a h' : lift m h = Ok (a, h') <-> m = Ok a /\ h' = h.
Proof. unfold lift. destruct m; cbn; naive_solver. Qed.

(** ** Levels *)

(** Addresses at and after [next_address] are free. *)
Definition fresh_inners h : Prop := forall a, is_Some (inners h !! a) -> a < next_address h.

(** Only inner nodes were added. *)
Definition adds_inners h h' : Prop :=
  exists ns nx, h' = set_next_address (set_inners h ns) nx /\ inners h ⊆ ns /\ next_address h <= nx /\
    forall a, a < next_address h -> ns !! a = inners h !! a.

Lemma adds_inners_refl h : adds_inners h h.
Proof. exists (inners h), (next_address h). split; [by destruct h|]. split; [done|]. split; [lia|done]. Qed.
Lemma adds_inners_trans h1 h2 h3 : adds_inners h1 h2 -> adds_inners h2 h3 -> adds_inners h1 h3.
Proof.
  intros (ns & nx & -> & H1 & H2 & H5) (ns' & nx' & -> & H3 & H4 & H6). exists ns', nx'. cbn in *.
  split; [done|]. split; [by etransitivity|]. split; [lia|]. intros a Ha. rewrite H6 by lia. by apply H5.
Qed.
Lemma adds_inners_sub h h' : adds_inners h h' -> inners h ⊆ inners h'.
Proof. by intros (ns & nx & -> & Hs & _). Qed.
Lemma adds_inners_next h h' : adds_inners h h' -> next_address h <= next_address h'.
Proof. by intros (ns & nx & -> & _ & Hs & _). Qed.
Lemma adds_inners_old h h' a : adds_inners h h' -> a < next_address h -> inners h' !! a = inners h !! a.
Proof. intros (ns & nx & -> & _ & _ & Hs). apply Hs. Qed.

(** From the address [lo] on, every model is a finite line that does not fall, and every
    node has at least four blocks. *)
Definition lined (lo : Z) (ns : gmap Z InnerNode) : Prop :=
  forall a n, lo <= a -> ns !! a = Some n -> InnerNode.line n = true.
Definition wide (lo : Z) (ns : gmap Z InnerNode) : Prop :=
  forall a n, lo <= a -> ns !! a = Some n -> 4 <= InnerNode.in_block_number n.

(** The spare blocks of [bulk_load], or those of [rebuild_inner_nodes] when no node has a
    single child. *)
Definition spare (extra lo : Z) (ns : gmap Z InnerNode) : Prop := extra = 3 \/ extra = 2 /\ wide lo ns.

Lemma lined_sub lo lo' ns ns' : ns ⊆ ns' -> lo <= lo' -> lined lo ns' -> lined lo' ns.
Proof. intros Hs Hl H' a n Ha Hn. apply (H' a); [lia|]. by eapply lookup_weaken. Qed.
Lemma spare_sub extra lo lo' ns ns' : ns ⊆ ns' -> lo <= lo' -> spare extra lo ns' -> spare extra lo' ns.
Proof.
  intros Hs Hl [->|[-> Hw]]; [by left|right; split; [done|]].
  intros a n Ha Hn. apply (Hw a); [lia|]. by eapply lookup_weaken.
Qed.

Lemma spare_blocks extra ns a n s acc bn cs number start sl ic lvl :
  spare extra a ns -> 0 <= seg_number s <= max_keys -> inner_blocks extra (seg_number s) = Ok bn ->
  InnerNode.new_inner a unset_slot bn cs number start sl ic lvl = Ok (n, acc) -> ns !! a = Some n -> 4 <= bn < 2 ^ 29.
Proof.
  intros Hx Hs Hb E Ha. pose proof (inner_blocks_range extra (seg_number s) bn) as Hr.
  destruct Hx as [->|[-> Hw]]; [specialize (Hr ltac:(by left) Hs Hb); lia|].
  specialize (Hr ltac:(by right) Hs Hb). split; [|lia]. specialize (Hw a n ltac:(lia) Ha).
  rewrite (new_inner_blocks _ _ _ _ _ _ _ _ _ _ _ E) in Hw. rewrite u32_small in Hw by lia. lia.
Qed.

Lemma add_inner h n :
  fresh_inners h ->
  let h' := set_inners (set_next_address h (next_address h + 1)) (<[next_address h := n]> (inners h)) in
  adds_inners h h' /\ fresh_inners h'.
Proof.
  intros Hfr. assert (Hnone : inners h !! next_address h = None).
  { destruct (inners h !! next_address h) eqn:Ea; [|done]. pose proof (Hfr (next_address h) ltac:(by eexists)). lia. }
  split.
  - exists (<[next_address h := n]> (inners h)), (next_address h + 1). split; [done|]. split; [by apply insert_subseteq|].
    split; [lia|]. intros a Ha. cbn. apply lookup_insert_ne. lia.
  - intros a [n' Hn']. cbn in *. destruct (decide (a = next_address h)) as [->|Hne]; [lia|].
    rewrite lookup_insert_ne in Hn' by done. pose proof (Hfr a ltac:(by eexists)). lia.
Qed.

(** The steps of one round of the loop. *)
Lemma build_level_step s segs (cs : list child) start lvl extra h accs ps h' :
  build_level (s :: segs) cs start lvl extra h = Ok ((accs, ps), h') ->
  exists bn n acc accs' ps', inner_blocks extra (seg_number s) = Ok bn /\
    InnerNode.new_inner (next_address h) unset_slot bn cs (Z.to_nat (seg_number s)) start
      (seg_slope s) (seg_intercept s) lvl = Ok (n, acc) /\
    accs = (seg_first_key s, acc) :: accs' /\
    build_level segs cs (start + Z.to_nat (seg_number s)) lvl extra
      (set_inners (set_next_address h (next_address h + 1)) (<[next_address h := n]> (inners h))) = Ok ((accs', ps'), h').
Proof.
  cbn [build_level]. intros E. apply P_bind_ok in E as (bn & h1 & E1 & E). apply lift_ok in E1 as [Ebn ->].
  apply P_bind_ok in E as (a & h1 & E1 & E). unfold fresh_address in E1. injection E1 as <- <-.
  apply P_bind_ok in E as ([n acc] & h2 & E2 & E). apply lift_ok in E2 as [En ->].
  apply P_bind_ok in E as ([] & h3 & E3 & E). unfold put in E3. injection E3 as <-.
  apply P_bind_ok in E as ([accs' ps'] & h4 & E4 & E). injection E as <- _ <-.
  by exists bn, n, acc, accs', ps'.
Qed.

Lemma build_level_adds segs (cs : list child) start lvl extra h accs ps h' :
  build_level segs cs start lvl extra h = Ok ((accs, ps), h') -> fresh_inners h -> adds_inners h h' /\ fresh_inners h'.
Proof.
  revert start h accs ps h'. induction segs as [|s segs IH]; intros start h accs ps h' E Hfr.
  { injection E as _ _ <-. split; [apply adds_inners_refl|done]. }
  apply build_level_step in E as (bn & n & acc & accs' & ps' & _ & _ & _ & E).
  destruct (add_inner h n Hfr) as [H1 H2]. destruct (IH _ _ _ _ _ E H2) as [H3 H4].
  split; [by eapply adds_inners_trans|done].
Qed.

Lemma build_levels_adds fuel (cs : list child) lvl extra h r h' :
  build_levels fuel cs lvl extra h = Ok (r, h') -> fresh_inners h -> adds_inners h h' /\ fresh_inners h'.
Proof.
  revert cs lvl h r h'. induction fuel as [|fuel IH]; intros cs lvl h r h' E Hfr; [done|].
  cbn [build_levels] in E. destruct (_ || _); [|injection E as _ <-; split; [apply adds_inners_refl|done]].
  apply P_bind_ok in E as (segs & h0 & E0 & E). apply lift_ok in E0 as [_ ->].
  apply P_bind_ok in E as ([accs ps] & h1 & E1 & E). apply P_bind_ok in E as ([[top n] rest] & h2 & E2 & E).
  injection E as _ <-. destruct (build_level_adds _ _ _ _ _ _ _ _ _ E1 Hfr) as [H1 H2].
  destruct (IH _ _ _ _ _ E2 H2) as [H3 H4]. split; [by eapply adds_inners_trans|done].
Qed.

Lemma build_level_ok segs (cs : list child) start lvl extra h accs ps h' :
  build_level segs cs start lvl extra h = Ok ((accs, ps), h') ->
  seg_tiles (map fst cs) start (length cs) segs -> Z.of_nat (length cs) <= max_keys -> fresh_inners h ->
  spare extra (next_address h) (inners h') ->
  exists runs, concat runs = drop start cs /\ Forall2 (over lvl (inners h')) accs runs /\
    length accs = length segs /\
    Forall (fun c => next_address h <= ptr c.2) accs /\ NoDup (map (fun c => ptr c.2) accs) /\
    (forall b, is_Some (inners h' !! b) -> next_address h <= b -> b ∈ map (fun c => ptr c.2) accs).
Proof.
  revert start h accs ps h'. induction segs as [|s segs IH]; intros start h accs ps h' E Ht Hlen Hfr Hsp.
  { injection E as <- <- <-. cbn in Ht. exists []. rewrite Ht, drop_all. split_and!; try done; try constructor.
    intros b Hb Hle. pose proof (Hfr b Hb). lia. }
  cbn [seg_tiles] in Ht. destruct Ht as (Hpos & Hk & Ht). pose proof (seg_tiles_le _ _ _ _ Ht) as Hle.
  apply build_level_step in E as (bn & n & acc & accs' & ps' & Ebn & En & -> & E).
  destruct (add_inner h n Hfr) as [_ Hfr']. destruct (build_level_adds _ _ _ _ _ _ _ _ _ E Hfr') as [Hadd _].
  destruct (IH (start + Z.to_nat (seg_number s))%nat _ _ _ _ E Ht Hlen Hfr') as (runs & R1 & R2 & R3 & R6 & R7 & R8).
  { eapply (spare_sub _ (next_address h)); [reflexivity|cbn; lia|done]. }
  assert (Hn4 : inners h' !! next_address h = Some n).
  { eapply lookup_weaken; [|by apply adds_inners_sub]. apply lookup_insert_eq. }
  assert (Hbn : 4 <= bn < 2 ^ 29) by (eapply (spare_blocks extra (inners h')); [done| |exact Ebn|exact En|exact Hn4]; lia).
  destruct (Routing.new_inner_slot _ _ _ _ _ _ _ _ _ _ _ Hbn En) as (c0 & Hc0 & Hmin & Hptr & _).
  assert (Hk0 : c0.1 = seg_first_key s).
  { rewrite list_lookup_fmap, Hc0 in Hk. cbn in Hk. by injection Hk as <-. }
  set (run := InnerNode.slice (Z.to_nat (seg_number s)) start cs). cbn in R6.
  exists (run :: runs). split_and!; [| |cbn; lia|constructor; [cbn [snd]; lia|eapply Forall_impl; [exact R6|]; cbn; lia]| |].
  - cbn [concat]. rewrite R1. unfold run, InnerNode.slice. rewrite <- drop_drop. apply take_drop.
  - constructor; [|done]. split.
    + exists n, unset_slot, bn, cs, (Z.to_nat (seg_number s)), start, (seg_slope s), (seg_intercept s).
      cbn [snd]. rewrite Hptr. split_and!; (done || lia).
    + unfold run, InnerNode.slice. rewrite (drop_S _ _ _ Hc0).
      destruct (Z.to_nat (seg_number s)) as [|m] eqn:Em; [lia|]. by exists c0, (take m (drop (S start) cs)).
  - cbn [map]. constructor; [|done]. cbn [snd]. rewrite Hptr. intros Hin.
    apply list_elem_of_fmap in Hin as (c & Hc & Hcin). pose proof (proj1 (Forall_forall _ _) R6 c Hcin). cbn in *. lia.
  - intros b Hb Hle'. cbn [map snd]. rewrite Hptr. destruct (decide (b = next_address h)) as [->|Hne]; [apply list_elem_of_here|].
    apply list_elem_of_further, R8; [done|cbn; lia].
Qed.

(** The level [kids], at height [f], over the leaves [cs]: its nodes are those in use from
    the address [lo] on, none twice. *)
Record grown (f : nat) (lo : Z) ns (kids cs : list child) : Prop := {
  gr_kids : Forall InnerNode.child_ok kids /\ InnerNode.increasing_from None kids;
  gr_forest : exists parts, forest f (ns) kids parts /\ concat (map fst parts) = cs /\
    NoDup (concat (map snd parts)) /\
    forall b, b ∈ concat (map snd parts) <-> is_Some (ns !! b) /\ lo <= b
}.

Lemma grown_leaves lo h (cs : list child) :
  Forall InnerNode.child_ok cs -> InnerNode.increasing_from None cs -> Forall (fun c : child => type c.2 = 0) cs ->
  fresh_inners h -> next_address h <= lo -> grown 0 lo (inners h) cs cs.
Proof.
  intros H1 H2 H3 Hfr Hlo. split; [done|]. exists (map (fun k : child => ([k], [])) cs). destruct (leaf_parts cs) as [-> ->].
  split; [by apply forest_0|]. split; [done|]. split; [constructor|]. intros b.
  split; [intros Hb; by apply elem_of_nil in Hb|]. intros [Hb Hle]. pose proof (Hfr b Hb). lia.
Qed.

Lemma grown_nodes f lo h kids cs : grown (S f) lo (inners h) kids cs -> Forall (fun c : child => type c.2 = 1) kids.
Proof.
  intros [_ (parts & HF & _)]. induction HF as [|k part kids parts [(Ht & _) _] HF IH]; by constructor.
Qed.

Lemma level_ok f lo segs (cs leaves_ : list child) extra h accs ps h' :
  segments_of (map fst cs) EPSILON_INNER_NODE = Ok segs ->
  build_level segs cs 0 (Z.of_nat (S f)) extra h = Ok ((accs, ps), h') ->
  cs <> [] -> grown f lo (inners h) cs leaves_ ->
  Forall InnerNode.child_ok leaves_ -> InnerNode.increasing_from None leaves_ ->
  Z.of_nat (length cs) <= max_keys -> fresh_inners h -> lo <= next_address h ->
  spare extra lo (inners h') -> lined lo (inners h') ->
  grown (S f) lo (inners h') accs leaves_ /\ accs <> [] /\ (length accs <= length cs)%nat.
Proof.
  intros Es E Hne [[Hok Hinc] (parts & HF & Hcs & Hnd & Hown)] H1 H2 Hlen Hfr Hnx Hsp Hline.
  pose proof (segments_of_tiles _ _ _ (level_increasing cs Hok Hinc) ltac:(by destruct cs) Es) as Hst.
  rewrite length_map in Hst. pose proof (seg_tiles_length _ _ _ _ Hst) as Hsl.
  destruct (build_level_ok segs cs 0 _ extra h accs ps h' E Hst Hlen Hfr (spare_sub _ _ _ _ _ (reflexivity _) Hnx Hsp))
    as (runs & R1 & R2 & R3 & R6 & R7 & R8).
  destruct (build_level_adds _ _ _ _ _ _ _ _ _ E Hfr) as [R4 _].
  rewrite drop_0 in R1. subst cs leaves_. destruct (level_children _ _ _ _ R2 Hok Hinc) as [A1 A2].
  assert (Hsn : segs <> []).
  { intros ->. cbn in Hst. destruct (concat runs); [by apply Hne|cbn in Hst; lia]. }
  destruct segs as [|s segs]; [done|]. cbn [length] in *.
  split; [|split; [by intros ->|lia]]. split; [done|].
  destruct (forest_concat f (inners h) runs parts HF) as (groups & <- & HG).
  assert (Hin : forall b, b ∈ concat (map snd (concat groups)) -> is_Some (inners h !! b)) by (intros b; by apply (forest_heap f _ (concat runs))).
  assert (HG' : Forall2 (forest f (inners h')) runs groups).
  { assert (HF' : forest f (inners h') (concat runs) (concat groups)).
    { apply (forest_frame f (inners h)); [done|]. intros b Hb. destruct (Hin b Hb) as [n Hn]. rewrite Hn.
      exact (lookup_weaken _ _ _ _ Hn (adds_inners_sub _ _ R4)). }
    clear -HG HF'. revert HF'. induction HG as [|run g runs groups Hg HG IH]; intros HF'; [constructor|].
    cbn [concat] in HF'. apply Forall2_app_inv in HF' as [HF1 HF2]; [by constructor; [|apply IH]|]. by eapply Forall2_length. }
  assert (Hl : length accs = length groups).
  { rewrite (Forall2_length _ _ _ R2). by eapply Forall2_length. }
  exists (zip_with group accs groups). split.
  { apply (group_forest f _ accs runs groups); try done. eapply Forall_impl; [exact R6|].
    intros c Hc n Hn. cbn beta in Hc. apply (Hline (ptr c.2)); [lia|done]. }
  split; [by apply group_children|].
  pose proof (group_addresses accs groups Hl) as HP. split.
  - rewrite HP. apply NoDup_app. split; [done|]. split; [|done]. intros b Hb Hb'.
    apply list_elem_of_fmap in Hb as (c & -> & Hc). pose proof (proj1 (Forall_forall _ _) R6 c Hc) as Hge. cbn in Hge.
    pose proof (Hfr _ (Hin _ Hb')). lia.
  - intros b. rewrite HP, elem_of_app, Hown. split.
    + intros [Hb|[[n Hb] Hle]].
      * apply list_elem_of_fmap in Hb as (c & -> & Hc). pose proof (proj1 (Forall_forall _ _) R6 c Hc) as Hge. cbn in Hge.
        split; [|lia]. apply list_elem_of_lookup in Hc as [i Hi]. destruct (Forall2_lookup_l _ _ _ _ _ R2 Hi) as (run & _ & [(n & _ & _ & _ & _ & _ & _ & _ & Hn & _) _]).
        by exists n.
      * split; [|done]. exists n. exact (lookup_weaken _ _ _ _ Hb (adds_inners_sub _ _ R4)).
    + intros [Hb Hle]. destruct (Z.lt_ge_cases b (next_address h)) as [Hlt|Hge]; [right|left; by apply R8].
      by rewrite <- (adds_inners_old _ _ _ R4 Hlt).
Qed.

Lemma build_levels_ok fuel f lo (cs leaves_ : list child) extra h top n ps h' :
  build_levels fuel cs (Z.of_nat f) extra h = Ok ((top, n, ps), h') ->
  cs <> [] -> grown f lo (inners h) cs leaves_ ->
  Forall InnerNode.child_ok leaves_ -> InnerNode.increasing_from None leaves_ ->
  Z.of_nat (length cs) <= max_keys -> fresh_inners h -> lo <= next_address h ->
  spare extra lo (inners h') -> lined lo (inners h') ->
  top <> [] /\ Z.of_nat (length top) <= ROOT_SIZE /\ exists g, grown (S g) lo (inners h') top leaves_.
Proof.
  revert f cs h top n ps h'.
  induction fuel as [|fuel IH]; intros f cs h top n ps h' E Hne Hg H1 H2 Hlen Hfr Hnx Hsp Hline; [done|].
  cbn [build_levels] in E. destruct ((Z.of_nat f =? 0) || (ROOT_SIZE <? Z.of_nat (length cs))) eqn:Ec.
  - apply P_bind_ok in E as (segs & h0 & E0 & E). apply lift_ok in E0 as [Es ->].
    apply P_bind_ok in E as ([accs ps1] & h1 & E1 & E).
    apply P_bind_ok in E as ([[top' n'] rest] & h2 & E2 & E).
    assert (Et : top' = top /\ h2 = h') by (by injection E). destruct Et as [-> ->].
    replace (Z.of_nat f + 1) with (Z.of_nat (S f)) in E1, E2 by lia.
    destruct (build_level_adds _ _ _ _ _ _ _ _ _ E1 Hfr) as [Ha1 Hf1].
    destruct (build_levels_adds _ _ _ _ _ _ _ E2 Hf1) as [Ha2 _]. pose proof (adds_inners_sub _ _ Ha2) as Hsub.
    destruct (level_ok f lo segs cs leaves_ extra h accs ps1 h1 Es E1 Hne Hg H1 H2 Hlen Hfr Hnx
      (spare_sub _ _ _ _ _ Hsub (Z.le_refl _) Hsp) (lined_sub _ _ _ _ Hsub (Z.le_refl _) Hline)) as (Hg' & Hne' & Hlen').
    pose proof (adds_inners_next _ _ Ha1). by apply (IH (S f) accs h1 top n' rest h'); try done; lia.
  - apply orb_false_iff in Ec as [E1 E2]. apply Z.eqb_neq in E1. apply Z.ltb_ge in E2.
    injection E as -> _ _ ->. destruct f as [|f]; [lia|]. split_and!; [done..|]. by exists f.
Qed.

(** ** The root *)

Lemma root_prefix q (top : list child) a :
  Forall InnerNode.child_ok top -> InnerNode.increasing_from None top -> finite q = true ->
  InnerNode.last_le q top = Some a ->
  exists j, prefix_len (fun s => dle (min_key s) q) (map snd top) = S j /\ top !! j = Some a.
Proof.
  intros Hok Hinc Hq. induction top as [|c top IH]; intros Hl; [done|].
  pose proof Hok as [(Kc & Em & _) Hok']%Forall_cons. pose proof Hinc as [_ Hinc'].
  apply increasing_weaken in Hinc'. rewrite last_le_cons in Hl. cbn [map prefix_len]. rewrite Em.
  destruct (InnerNode.last_le q top) as [d|] eqn:Ed.
  - injection Hl as ->. destruct (IH Hok' Hinc' eq_refl) as (j & -> & Hj).
    assert (Hfirst : dle c.1 q = true).
    { apply (last_le_first q c top a Hq Hok Hinc). by rewrite last_le_cons, Ed. }
    rewrite Hfirst. by exists (S j).
  - destruct (dle c.1 q); [|done]. injection Hl as <-. exists 0%nat. split; [|done]. f_equal.
    apply last_le_None in Ed. destruct top as [|d top]; [done|]. cbn [map prefix_len].
    apply Forall_cons in Hok' as [(_ & Ed' & _) _]. apply Forall_cons in Ed as [Ed _]. by rewrite Ed', Ed.
Qed.

(** A query in reach of the models ends at the slot of the last of the children [cs]
    whose key is at most the query. *)
Definition routes h (cs : list child) : Prop :=
  forall q c, finite q = true -> in_reach (inners h) q -> InnerNode.last_le q cs = Some c ->
    exists r, route q h = Ok (r, h) /\ read_slot r h = Ok (c.2, h).

(** The root array holds the top level of a forest over the leaves' slots [cs], and every
    inner node in use is a node of the forest. *)
Record rooted h (cs : list child) : Prop := {
  rt_children : Forall InnerNode.child_ok cs /\ InnerNode.increasing_from None cs;
  rt_fresh : fresh_inners h;
  rt_top : exists f lo top, take (Z.to_nat (root_number (plin h))) (roots (plin h)) = map snd top /\
    grown (S f) lo (inners h) top cs /\ forall b, is_Some (inners h !! b) -> lo <= b
}.

Lemma root_at h (top : list child) q a :
  take (Z.to_nat (root_number (plin h))) (roots (plin h)) = map snd top ->
  Forall InnerNode.child_ok top -> InnerNode.increasing_from None top -> finite q = true ->
  InnerNode.last_le q top = Some a ->
  exists j, find_root q h = Ok (Z.of_nat j, h) /\ roots (plin h) !! j = Some a.2.
Proof.
  intros Er Hok Hinc Hq Ha. destruct (root_prefix q top a Hok Hinc Hq Ha) as (j & Ep & Hj).
  exists j. unfold find_root, root_index. rewrite Er, Ep. split; [done|].
  assert (Hj' : map snd top !! j = Some a.2) by (by rewrite list_lookup_fmap, Hj).
  rewrite <- Er in Hj'. by apply lookup_take_Some in Hj' as [Hj' _].
Qed.

(** The fuel of a search, one more than the nodes there are, is enough. *)
Lemma grown_height f lo h top cs : grown f lo (inners h) top cs -> cs <> [] -> (f <= size (inners h))%nat.
Proof.
  intros [_ (parts & HF & <- & Hnd & _)] Hne.
  etransitivity; [|apply (heap_count (inners h) _ Hnd); intros b; by apply (forest_heap f _ top)].
  destruct HF as [|k part top parts [Hk (c0 & rest & Ec & _)] HF]; [done|].
  cbn [map concat]. rewrite length_app. pose proof (tree_height _ _ _ _ _ Hk) as Hle.
  rewrite Ec in Hle. specialize (Hle ltac:(done)). lia.
Qed.

(** The search ends in a node, at the slot of the child. *)
Lemma rooted_leads h cs q c :
  rooted h cs -> finite q = true -> in_reach (inners h) q -> InnerNode.last_le q cs = Some c ->
  exists b k n, route q h = Ok (InnerNode.NodeSlot b k, h) /\ inners h !! b = Some n /\
    zload (InnerNode.inner_slots n) k = Ok c.2.
Proof.
  intros [[Hok Hinc] _ (f & lo & top & Er & Hg & Hall)] Hq Hr Hc.
  assert (Hne : cs <> []) by (by intros ->). pose proof (grown_height _ _ _ _ _ Hg Hne) as Hf.
  destruct Hg as [[T1 T2] (parts & HF & <- & _)].
  destruct (last_le_runs q top (map fst parts) c (forest_starts _ _ _ _ HF) Hok Hinc Hq Hc) as (i & a & run & Ei & Ep & Ea & El).
  rewrite list_lookup_fmap in Ep. destruct (parts !! i) as [[run' ads]|] eqn:Eparts; [|discriminate Ep]. injection Ep as <-.
  destruct (Forall2_lookup_lr _ _ _ _ _ _ HF Ei Eparts) as [Ht _]. cbn [fst snd] in Ht, El.
  pose proof (tree_leads _ _ _ _ _ _ _ Ht Hq Hr El) as Hl. pose proof Ht as (Hta & _).
  destruct (root_at h top q a Er T1 T2 Hq Ea) as (j & Ej & Hj).
  unfold leads in Hl. rewrite Hta in Hl. cbn [Z.eqb Pos.eqb] in Hl. destruct Hl as (b & k & n & E1 & E2 & E3).
  exists b, k, n. split; [|done]. unfold route, inner_fuel. cbv [mbind P_bind get lift]. rewrite Ej.
  cbn [read_slot]. rewrite (zload_nat _ _ _ Hj). mstep. rewrite Hta. cbn [Z.eqb Pos.eqb].
  rewrite (find_leaf_node_mono (S f) (S (size (inners h))) (inners h) (inners h) _ _ _ _ ltac:(lia) (reflexivity _) E1).
  by mstep.
Qed.

Lemma rooted_routes h cs : rooted h cs -> routes h cs.
Proof.
  intros Hroot q c Hq Hr Hc. destruct (rooted_leads h cs q c Hroot Hq Hr Hc) as (b & k & n & E1 & E2 & E3).
  exists (InnerNode.NodeSlot b k). split; [done|]. cbn [read_slot]. rewrite E2. mstep. by rewrite E3.
Qed.

(** ** upsert_node *)

(** The counters after an upsert that answered [code]. *)
Definition counted (code : Z) (m : plin_metadata (T := T)) : plin_metadata :=
  let m := if 1 <? code then set_leaf_number m (u32 (leaf_number m + 1)) else m in
  if 2 <? code then set_orphan_number m (u32 (orphan_number m + 1)) else m.

Lemma roots_counted code m : roots (counted code m) = roots m /\ root_number (counted code m) = root_number m.
Proof. unfold counted. by destruct (1 <? code), (2 <? code). Qed.

Lemma touches_reach addrs ns ns' q : touches addrs ns ns' -> in_reach ns q -> in_reach ns' q.
Proof.
  intros Ht Hr a n' Hn'. specialize (Ht a). destruct (ns !! a) as [n|] eqn:E; [|congruence].
  destruct Ht as (n1 & E1 & (Em & _) & _). assert (n1 = n') as -> by congruence. injection Em as M1 M2 M3.
  destruct (Hr a n E) as [Hl Hp]. unfold InnerNode.line, InnerNode.pred_of in *. by rewrite M1, M2, M3.
Qed.

Lemma touches_dom addrs ns ns' a : touches addrs ns ns' -> is_Some (ns' !! a) <-> is_Some (ns !! a).
Proof.
  intros Ht. specialize (Ht a). destruct (ns !! a); [|by rewrite Ht]. destruct Ht as (n' & -> & _). split; by eexists.
Qed.

Lemma upsert_node_ok h (cs : list child) node c :
  rooted h cs -> InnerNode.child_ok (min_key node, node) -> type node = 0 ->
  in_reach (inners h) (min_key node) -> InnerNode.last_le (min_key node) cs = Some c ->
  exists code ns', upsert_node node h = Ok (code, set_plin (set_inners h ns') (counted code (plin h))) /\
    1 <= code <= 3 /\ (code = 1 <-> rank (min_key node) = rank c.1) /\
    rooted (set_plin (set_inners h ns') (counted code (plin h)))
      (if code =? 3 then cs else put_child (min_key node, node) cs) /\
    exists addrs, touches addrs (inners h) ns'.
Proof.
  intros [[Hok Hinc] Hfr (f & lo & top & Er & Hg & Hall)] Hnew Htype Hr Hc.
  assert (Hne : cs <> []) by (by intros ->). pose proof (grown_height _ _ _ _ _ Hg Hne) as Hf.
  destruct Hg as [[T1 T2] (parts & HF & <- & Hnd & Hown)].
  destruct (forest_upsert node Hnew f (size (inners h)) (inners h) top parts c) as
    (a & code & ns' & parts' & Ea & Hta & Eu & Ht & Hc1 & Hc2 & HF' & Esnd & Efst); try done.
  { apply tree_upsert; [exact Hnew|exact Htype|lia]. }
  { intros b n _. apply Hr. }
  destruct (root_at h top (min_key node) a Er T1 T2 (proj1 Hnew) Ea) as (j & Ej & Hj).
  exists code, ns'. pose proof (roots_counted code (plin h)) as [R1 R2]. split; [|split; [done|split; [done|split]]].
  - unfold upsert_node, inner_fuel. cbv [mbind P_bind get lift mret P_ret put]. rewrite Ej.
    cbn [read_slot]. rewrite (zload_nat _ _ _ Hj). mstep. rewrite Eu. mstep.
    cbn [write_slot plin set_inners]. rewrite (zstore_nat _ _ _ (lookup_lt_Some _ _ _ Hj)). mstep.
    rewrite list_insert_id by done. unfold put_meta, put, counted.
    assert (Em : set_roots (plin h) (roots (plin h)) = plin h) by (by destruct (plin h)). rewrite Em.
    destruct (1 <? code), (2 <? code); reflexivity.
  - split.
    + destruct (code =? 3); [done|]. split; [by apply put_child_ok|by apply put_child_from].
    + intros b Hb. apply (Hfr b). by rewrite <- (touches_dom _ _ _ b Ht).
    + exists f, lo, top. cbn [plin set_plin]. rewrite R1, R2. split; [done|].
      split; [split; [done|]; exists parts'; cbn [inners set_plin set_inners]; rewrite Esnd; split_and!; try done|];
        intros b; cbn [inners set_plin set_inners]; rewrite (touches_dom _ _ _ b Ht); [apply Hown|apply Hall].
  - by exists (concat (map snd parts)).
Qed.
End Levels.
