(* ===== verification/SplitLevels.v ===== *)
(** * The inner levels during a split (core/index/plin_index.h, split)

    A split locks the slot of its leaf, puts the slots of the new leaves into the levels
    one by one, and releases the place where the old slot was.  Unless one of the new
    leaves became an orphan, the levels are then the forest over the old slots with the
    new ones in the place of the old. *)

From S2P Require Import Prelude Doubles Rounding Slots Routing InnerTree InnerUpsert Relock PlinIndex Levels.
From S2P Require LeafNode InnerNode.
Open Scope Z_scope.

(** ** Touched nodes *)

Lemma same_model_trans (n1 n2 n3 : InnerNode.InnerNode) : same_model n1 n2 -> same_model n2 n3 -> same_model n1 n3.
Proof.
  intros (M1 & L1 & U1) (M2 & L2 & U2). split; [congruence|]. split; [congruence|].
  intros i s Hs. destruct (U1 i s Hs) as [s' Hs']. by apply (U2 i s').
Qed.

(** Nodes may have changed, not their models. *)
Definition retouched (ns ns' : gmap Z InnerNode.InnerNode) : Prop := exists addrs, touches addrs ns ns'.

Lemma retouched_node ns ns' b n : retouched ns ns' -> ns !! b = Some n -> exists n', ns' !! b = Some n' /\ same_model n n'.
Proof. intros [addrs Ht] Hn. specialize (Ht b). rewrite Hn in Ht. destruct Ht as (n' & E & Hm & _). by exists n'. Qed.

#[export] Instance retouched_preorder : PreOrder retouched.
Proof.
  split.
  - intros ns. exists []. intros b. destruct (ns !! b) as [n|] eqn:E; [|done]. exists n. split; [done|]. split; [apply same_model_refl|done].
  - intros n1 n2 n3 [a1 H1] [a2 H2]. exists (a1 ++ a2). intros b. specialize (H1 b). specialize (H2 b).
    destruct (n1 !! b) as [n|]; [|by rewrite H1 in H2]. destruct H1 as (n' & E1 & M1 & F1). rewrite E1 in H2.
    destruct H2 as (n'' & E2 & M2 & F2). exists n''. split; [done|]. split; [by eapply same_model_trans|].
    intros Hb. rewrite elem_of_app in Hb. rewrite F2, F1; tauto.
Qed.

Lemma retouched_reach ns ns' q : retouched ns ns' -> in_reach ns q -> in_reach ns' q.
Proof. intros [addrs Ht]. by eapply touches_reach. Qed.

Section SplitLevels.
Context {T : Type} `{LeafNode.OverflowTreeLaws T}.
Implicit Type h : PlinIndex (T := T).

(** ** The place of a slot *)

(** The place [r] is in a node, and the slot [s] there is in use. *)
Definition at_slot h (r : slot_ref) (s : InnerSlot) : Prop :=
  exists b i n, r = InnerNode.NodeSlot b (Z.of_nat i) /\ inners h !! b = Some n /\ InnerNode.used (InnerNode.inner_slots n) i s.

Lemma at_slot_read h r s : at_slot h r s -> read_slot r h = Ok (s, h).
Proof.
  intros (b & i & n & -> & Hn & Hi & _). cbn [read_slot]. rewrite Hn. mstep. by rewrite (zload_nat _ _ _ Hi).
Qed.

Lemma route_slot h cs q c r :
  rooted h cs -> finite q = true -> in_reach (inners h) q -> InnerNode.last_le q cs = Some c ->
  route q h = Ok (r, h) -> at_slot h r c.2.
Proof.
  intros Hroot Hq Hr Hc E. destruct (rooted_leads h cs q c Hroot Hq Hr Hc) as (b & k & n & E1 & E2 & E3).
  rewrite E in E1. injection E1 as ->. apply of_opt_ok in E3. unfold zlookup in E3.
  destruct (Z.ltb_spec k 0) as [|Hk]; [done|]. exists b, (Z.to_nat k), n. split; [by rewrite Z2Nat.id|]. split; [done|]. split; [done|].
  apply last_le_Some in Hc as [Hc _]. apply (proj1 (Forall_forall _ _) (proj1 (rt_children _ _ Hroot)) c Hc).
Qed.

Lemma slot_child_eq (cs : list child) c d :
  Forall InnerNode.child_ok cs -> c ∈ cs -> d ∈ cs -> c.2 = d.2 -> c = d.
Proof.
  intros Hok Hc Hd E. destruct (proj1 (Forall_forall _ _) Hok c Hc) as (_ & E1 & _).
  destruct (proj1 (Forall_forall _ _) Hok d Hd) as (_ & E2 & _). destruct c, d. cbn in *. congruence.
Qed.

(** A new value of a leaf's slot, with the same key. *)
Lemma write_slot_ok h cs r c s' :
  rooted h cs -> c ∈ cs -> at_slot h r c.2 -> min_key s' = min_key c.2 -> type c.2 = 0 -> type s' = 0 ->
  exists ns' l1 l2, write_slot r s' h = Ok (tt, set_inners h ns') /\ cs = l1 ++ c :: l2 /\
    rooted (set_inners h ns') (l1 ++ (c.1, s') :: l2) /\ retouched (inners h) ns' /\ at_slot (set_inners h ns') r s'.
Proof.
  intros Hroot Hin (b & i & n & -> & Hn & Hi) Ek Ht Ht'.
  assert (Hf' : InnerNode.is_free s' = false) by (apply (still_used c.2); [done|apply Hi]).
  assert (Hi' : InnerNode.used (<[i := s']> (InnerNode.inner_slots n)) i s').
  { split; [|done]. apply list_lookup_insert_eq. by eapply lookup_lt_Some, Hi. }
  set (n' := InnerNode.set_slots n (<[i := s']> (InnerNode.inner_slots n))).
  assert (Hsm : same_model n n').
  { split; [done|]. split; [done|]. intros j t [Hj Hfj]. destruct (decide (j = i)) as [->|Hne]; [by exists s'|].
    exists t. split; [|done]. cbn. by rewrite list_lookup_insert_ne. }
  pose proof (touches_node _ b n n' Hn Hsm) as Htn.
  destruct Hroot as [[Hok Hinc] Hfr (f & lo & top & Er & [Htop (parts & HF & Ecs & Hnd & Hown)] & Hall)].
  assert (Hb : b ∈ concat (map snd parts)) by (apply Hown; split; [by eexists|apply Hall; by eexists]).
  destruct (forest_set c.2 s' (S f) (inners h) (<[b := n']> (inners h)) b top parts) as (l1 & d & l2 & parts' & E1 & E2 & HF' & Esnd & Efst).
  { apply (tree_set c.2 s' Ek ltac:(apply Hi) Ht Ht' (S f) (inners h) b n i Hn). apply Hi. }
  { intros x Hx. by apply lookup_insert_ne. }
  { done. } { done. } { done. }
  rewrite Ecs in E1. assert (d = c) as -> by (apply (slot_child_eq cs); [done|rewrite E1; apply middle_in|done|done]).
  exists (<[b := n']> (inners h)), l1, l2. split.
  { cbn [write_slot]. rewrite Hn. mstep. rewrite zstore_nat by (eapply lookup_lt_Some, Hi). by mstep. }
  split; [done|]. split; [|split; [by exists [b]|]].
  - split.
    + rewrite E1 in Hok, Hinc. split; [|eapply increasing_keys; [|exact Hinc]; by rewrite !map_app].
      apply Forall_app in Hok as [? Hok]. apply Forall_cons in Hok as [Hc ?]. apply Forall_app. split; [done|]. constructor; [|done].
      by apply (child_set c.2 s' Ek (proj2 Hi) c Hc).
    + intros x Hx. apply Hfr. by rewrite <- (touches_dom _ _ _ x Htn).
    + exists f, lo, top. split; [done|]. split; [split; [done|]; exists parts'; rewrite Esnd; split_and!; try done|];
        intros x; cbn [inners set_inners]; rewrite (touches_dom _ _ _ x Htn); [apply Hown|apply Hall].
  - exists b, i, n'. split; [done|]. split; [apply lookup_insert_eq|exact Hi'].
Qed.

(** Releasing a place in use, with no slot of a leaf locked, changes nothing. *)
Lemma release_slot_ok h cs r s :
  rooted h cs -> Forall (fun c : child => idle c.2) cs -> at_slot h r s -> modify_slot r release_lock h = Ok (tt, h).
Proof.
  intros [_ _ (f & lo & top & Er & [_ (parts & HF & Ecs & Hnd & Hown)] & Hall)] Hidle Hat.
  pose proof (at_slot_read _ _ _ Hat) as Eread. destruct Hat as (b & i & n & -> & Hn & Hi).
  assert (Hb : b ∈ concat (map snd parts)) by (apply Hown; split; [by eexists|apply Hall; by eexists]).
  assert (Es : idle s).
  { apply list_elem_of_In, in_concat in Hb as (ads & Hads & Hb). apply list_elem_of_In in Hads, Hb.
    apply list_elem_of_fmap in Hads as (part & -> & Hp). pose proof Hp as Hp'. apply list_elem_of_lookup in Hp as [j Hj].
    destruct (Forall2_lookup_r _ _ _ _ _ HF Hj) as (k & _ & [Hk _]).
    apply (tree_idle (S f) (inners h) k part.1 part.2 b n i s Hk); [|done|done|done].
    apply Forall_forall. intros c Hc. apply (proj1 (Forall_forall _ _) Hidle). rewrite <- Ecs.
    apply list_elem_of_In, in_concat. exists part.1. split; apply list_elem_of_In; [|done]. apply list_elem_of_fmap. by exists part. }
  unfold modify_slot, mbind, P_bind. rewrite Eread, Es. cbn [write_slot]. rewrite Hn. mstep.
  rewrite zstore_nat by (eapply lookup_lt_Some, Hi). mstep. rewrite list_insert_id by apply Hi.
  assert (InnerNode.set_slots n (InnerNode.inner_slots n) = n) as -> by (by destruct n). rewrite insert_id by done. by destruct h.
Qed.

(** The children of a forest are slots of leaves. *)
Lemma tree_types f ns a cs addrs : tree f ns a cs addrs -> Forall (fun c : child => type c.2 = 0) cs.
Proof.
  revert a cs addrs. induction f as [|f IH]; intros a cs addrs Ht; cbn [tree] in Ht.
  { destruct Ht as (Ht & -> & _). by constructor. }
  destruct Ht as (_ & _ & _ & _ & n & kids & parts & _ & _ & _ & _ & _ & _ & HF & -> & _).
  apply Forall_concat, Forall_map. clear -IH HF. induction HF as [|k part kids parts [Hk _] HF IH']; [constructor|].
  constructor; [by apply (IH k _ part.2)|done].
Qed.

Lemma rooted_types h cs : rooted h cs -> Forall (fun c : child => type c.2 = 0) cs.
Proof.
  intros [_ _ (f & lo & top & _ & [_ (parts & HF & <- & _)] & _)]. apply Forall_concat, Forall_map.
  clear -HF. induction HF as [|k part kids parts [Hk _] HF IH']; [constructor|]. constructor; [by apply (tree_types (S f) (inners h) k _ part.2)|done].
Qed.

(** ** The levels as the rest of the index leaves them *)

(** What the levels are made of, and the count of orphans. *)
Definition top h := (inners h, roots (plin h), root_number (plin h), orphan_number (plin h)).

Lemma rooted_top h h' cs : top h' = top h -> next_address h <= next_address h' -> rooted h cs -> rooted h' cs.
Proof.
  intros [= E1 E2 E3 _] Hn [R1 R2 R3]. split; [done| |by rewrite E1, E2, E3].
  intros a Ha. rewrite E1 in Ha. specialize (R2 a Ha). lia.
Qed.

Lemma at_slot_top h h' r s : top h' = top h -> at_slot h r s -> at_slot h' r s.
Proof. intros [= E _ _ _] (b & i & n & H1 & H2 & H3). exists b, i, n. by rewrite E. Qed.

Lemma at_slot_touched h h' r s : retouched (inners h) (inners h') -> at_slot h r s -> exists s', at_slot h' r s'.
Proof.
  intros Ht (b & i & n & -> & Hn & Hi). destruct (retouched_node _ _ b n Ht Hn) as (n' & Hn' & _ & _ & Hu).
  destruct (Hu i s Hi) as [s' Hs']. by exists s', b, i, n'.
Qed.

(** ** The slots of the new leaves *)

Lemma last_le_between (l1 l2 : list child) c q :
  Forall InnerNode.child_ok (l1 ++ c :: l2) -> finite q = true -> rank c.1 <= rank q ->
  Forall (fun d : child => rank q < rank d.1) l2 -> InnerNode.last_le q (l1 ++ c :: l2) = Some c.
Proof.
  intros Hok Hq Hc Hl2. apply Forall_app in Hok as [_ Hok]. apply Forall_cons in Hok as [(Kc & _) Hok].
  assert (E2 : InnerNode.last_le q l2 = None).
  { apply last_le_None. apply Forall_forall. intros d Hd. destruct (proj1 (Forall_forall _ _) Hok d Hd) as (Kd & _).
    rewrite dle_rank by (by apply finite_key). apply Z.leb_gt. by apply (proj1 (Forall_forall _ _) Hl2). }
  rewrite last_le_app. cbn [InnerNode.last_le]. rewrite last_le_cons, E2, dle_rank by (by apply finite_key).
  by rewrite (proj2 (Z.leb_le _ _) Hc).
Qed.

(** A slot that is put into the levels next to the leaf before it. *)
Lemma put_after h l1 c l2 d :
  rooted h (l1 ++ c :: l2) -> InnerNode.child_ok d -> type d.2 = 0 -> in_reach (inners h) d.1 ->
  rank c.1 <= rank d.1 -> Forall (fun e : child => rank d.1 < rank e.1) l2 ->
  exists code h', upsert_node d.2 h = Ok (code, h') /\ retouched (inners h) (inners h') /\
    next_address h' = next_address h /\
    (rank d.1 = rank c.1 -> orphan_number (plin h') = orphan_number (plin h) /\ rooted h' (l1 ++ d :: l2)) /\
    (rank c.1 < rank d.1 ->
      orphan_number (plin h') = orphan_number (plin h) /\ rooted h' (l1 ++ c :: d :: l2) \/
      orphan_number (plin h') = u32 (orphan_number (plin h) + 1) /\ rooted h' (l1 ++ c :: l2)).
Proof.
  intros Hroot Hd Ht Hr Hc Hl2. pose proof Hd as (Kd & Ed & _).
  pose proof (rt_children _ _ Hroot) as [Hok Hinc].
  assert (Hl1 : Forall (fun e : child => rank e.1 < rank c.1) l1).
  { apply increasing_app in Hinc as (_ & _ & Hlt). apply Forall_forall. intros e He. apply Hlt; [done|by left]. }
  assert (Eput : put_child d (l1 ++ c :: l2) = l1 ++ (if rank c.1 <? rank d.1 then [c; d] else [d]) ++ l2).
  { rewrite put_child_after by (eapply Forall_impl; [exact Hl1|]; cbn; lia).
    change (c :: l2) with ([c] ++ l2). rewrite put_child_before by done. cbn [put_child app].
    destruct (Z.ltb_spec (rank c.1) (rank d.1)); [done|]. by rewrite (proj2 (Z.eqb_eq _ _)) by lia. }
  assert (Ed' : d = (min_key d.2, d.2)) by (destruct d; cbn in *; by rewrite Ed).
  destruct (upsert_node_ok h (l1 ++ c :: l2) d.2 c Hroot) as (code & ns & E & Hcode & H1 & Hroot' & Htn).
  { by rewrite <- Ed'. } { done. } { by rewrite Ed. }
  { rewrite Ed. by apply last_le_between. }
  rewrite <- Ed', Eput in Hroot'. rewrite Ed in H1.
  exists code, (set_plin (set_inners h ns) (counted code (plin h))). split; [exact E|]. split; [exact Htn|]. split; [done|]. split.
  - intros Eq. apply H1 in Eq as Ecode. rewrite Ecode in *. cbn [Z.eqb Pos.eqb] in Hroot'.
    rewrite (proj2 (Z.ltb_ge (rank c.1) (rank d.1))) in Hroot' by lia. by split.
  - intros Hlt. assert (Hne : code <> 1) by (intros E1%H1; lia). rewrite (proj2 (Z.ltb_lt _ _) Hlt) in Hroot'.
    assert (code = 2 \/ code = 3) as [-> | ->] by lia; cbn [Z.eqb Pos.eqb] in Hroot'; [left|right]; by split.
Qed.

(** The slots are put in one after the other; if the count of orphans stays, all are in. *)
Lemma upsert_nodes_ok accs h h' l1 c l2 :
  upsert_nodes accs h = Ok (tt, h') ->
  rooted h (l1 ++ c :: l2) -> Forall InnerNode.child_ok accs -> Forall (fun d : child => type d.2 = 0) accs ->
  InnerNode.increasing_from (Some (rank c.1)) accs -> Forall (fun d : child => in_reach (inners h) d.1) accs ->
  (forall d e, d ∈ accs -> e ∈ l2 -> rank d.1 < rank e.1) ->
  0 <= orphan_number (plin h) -> orphan_number (plin h) + Z.of_nat (length accs) < 2 ^ 32 ->
  retouched (inners h) (inners h') /\ next_address h' = next_address h /\
  orphan_number (plin h) <= orphan_number (plin h') /\
  (orphan_number (plin h') = orphan_number (plin h) -> rooted h' (l1 ++ c :: accs ++ l2)).
Proof.
  revert h l1 c. induction accs as [|d accs IH]; intros h l1 c E Hroot Hok Ht Hinc Hr Hl2 Ho Hb.
  { injection E as <-. split; [done|]. split; [done|]. split; [lia|done]. }
  apply Forall_cons in Hok as [Hd Hok], Ht as [Hdt Ht], Hr as [Hdr Hr]. destruct Hinc as [Hlt Hinc].
  assert (Hdl2 : Forall (fun e : child => rank d.1 < rank e.1) l2).
  { apply Forall_forall. intros e He. apply Hl2; [by left|done]. }
  destruct (put_after h l1 c l2 d Hroot Hd Hdt Hdr ltac:(lia) Hdl2) as (code & h1 & E1 & Ht1 & Hn1 & _ & Hcase).
  cbn [upsert_nodes] in E. apply P_bind_ok in E as (code' & h1' & E1' & E). rewrite E1 in E1'. injection E1' as <- <-.
  assert (Hr1 : Forall (fun d : child => in_reach (inners h1) d.1) accs).
  { eapply Forall_impl; [exact Hr|]. intros e. by apply retouched_reach. }
  assert (Hl2' : forall e x, e ∈ accs -> x ∈ l2 -> rank e.1 < rank x.1) by (intros e x He; apply Hl2; by right).
  cbn [length] in Hb. destruct (Hcase Hlt) as [[Eo Hroot1]|[Eo Hroot1]].
  - assert (El : l1 ++ c :: d :: l2 = (l1 ++ [c]) ++ d :: l2) by (by rewrite <- app_assoc). rewrite El in Hroot1.
    destruct (IH h1 (l1 ++ [c]) d E Hroot1 Hok Ht Hinc Hr1 Hl2') as (K1 & K2 & K3 & K4); [lia..|].
    split; [by etransitivity|]. split; [congruence|]. split; [lia|]. intros Eq. rewrite Eo in K4. specialize (K4 Eq).
    by rewrite <- app_assoc in K4.
  - unfold u32 in Eo. rewrite Z.mod_small in Eo by lia.
    assert (Hinc' : InnerNode.increasing_from (Some (rank c.1)) accs).
    { destruct accs as [|e accs]; [done|]. destruct Hinc as [He Hinc]. split; [lia|done]. }
    destruct (IH h1 l1 c E Hroot1 Hok Ht Hinc' Hr1 Hl2') as (K1 & K2 & K3 & K4); [lia..|].
    split; [by etransitivity|]. split; [congruence|]. split; lia.
Qed.
End SplitLevels.
