(* ===== verification/BulkLoad.v ===== *)
(** * Bulk loading (core/index/plin_index.h, bulk_load)

    What [bulk_load] builds: leaves over consecutive runs of the data, chained, and
    levels of inner nodes over consecutive runs of the level below, until at most
    [ROOT_SIZE] nodes are left.  A search of a key between the loaded bounds then ends
    at the leaf whose run the key belongs to. *)

From S2P Require Import Prelude Doubles Rounding Slots Routing InnerTree PlinIndex Levels.
From S2P Require Segmentation CacheModel LeafNode InnerNode.
#[local] Existing Instance Segmentation.x87.
Open Scope Z_scope.

(** A key and its payload. *)
Abbreviation datum := (double * Z)%type.

Section BulkLoad.
Context {T : Type} `{LeafNode.OverflowTreeLaws T}.
Implicit Type h : PlinIndex (T := T).

(** ** Leaves *)

(** Data that can be loaded: finite keys other than the mark of a free slot, and payloads
    that are not null, the keys increasing. *)
Definition loadable (kv : datum) : Prop :=
  finite kv.1 = true /\ rank kv.1 <> rank FREE_FLAG /\ kv.2 <> 0.

Lemma loadable_storable kv : loadable kv -> LeafNode.storable kv.1 /\ kv.2 <> 0.
Proof. intros (H1 & H2 & H3). split; [|done]. split; [by apply finite_key|done]. Qed.

Definition fresh_leaves h : Prop := forall a, is_Some (leaves h !! a) -> a < next_address h.

(** Only leaves were added. *)
Definition adds_leaves h h' : Prop :=
  exists ls nx, h' = set_next_address (set_leaves h ls) nx /\ leaves h ⊆ ls /\ next_address h <= nx.

Lemma adds_leaves_refl h : adds_leaves h h.
Proof. exists (leaves h), (next_address h). split; [by destruct h|]. split; [done|lia]. Qed.
Lemma adds_leaves_trans h1 h2 h3 : adds_leaves h1 h2 -> adds_leaves h2 h3 -> adds_leaves h1 h3.
Proof.
  intros (ns & nx & -> & H1 & H2) (ns' & nx' & -> & H3 & H4). exists ns', nx'. cbn in *.
  split; [done|]. split; [by etransitivity|lia].
Qed.

(** The maps of a leaf's blocks hold a run of the data, wherever the model puts it. *)
Definition holds (l : Leaf T) (ms : list (gmap Z Z)) (run : list datum) : Prop :=
  forall k block, LeafNode.predicts l k block ->
    (forall v, (k, v) ∈ run -> LeafNode.value_in ms block k = Some v) /\
    (Forall (fun kv => rank kv.1 <> rank k) run -> LeafNode.value_in ms block k = None).

(** The leaf of a child was built from a run of the data; its successor is [next]. *)
Definition leaf_over (ls : gmap Z (Leaf T)) (c : child) (run : list datum) (next : Z) : Prop :=
  exists l ms, ls !! ptr c.2 = Some l /\ LeafNode.leaf_ok l ms /\ LeafNode.agrees l (Some c.2) /\
    LeafNode.lf_first_key l = c.1 /\ LeafNode.lf_next l = next /\ holds l ms run.

(** The slot of a leaf. *)
Definition slot_over (c : child) (run : list datum) : Prop :=
  InnerNode.child_ok c /\ (type c.2 = 0 /\ idle c.2) /\ exists kv rest, run = kv :: rest /\ kv.1 = c.1.

Lemma leaf_over_mono ls ls' c run next : ls ⊆ ls' -> leaf_over ls c run next -> leaf_over ls' c run next.
Proof. intros Hs (l & ms & H1 & H2). exists l, ms. split; [by eapply lookup_weaken|done]. Qed.

(** The ranks of increasing keys differ. *)
Lemma increasing_ranks keys i j k k' :
  Segmentation.increasing keys -> (i < j)%nat -> keys !! i = Some k -> keys !! j = Some k' -> rank k < rank k'.
Proof.
  intros [_ Hi] Hij. revert k'. induction Hij as [|j Hij IH]; intros k' Hk Hk'.
  - by apply (Hi i).
  - destruct (lookup_lt_is_Some_2 keys j) as [kj Hj]; [apply lookup_lt_Some in Hk'; lia|].
    pose proof (IH kj Hk Hj). pose proof (Hi j kj k' Hj Hk'). lia.
Qed.

Lemma increasing_NoDup (data : list datum) n start :
  Segmentation.increasing (map fst data) ->
  NoDup (map (fun kv : datum => rank kv.1) (take n (drop start data))).
Proof.
  intros Hi. apply NoDup_alt. intros i j x Hx Hy.
  rewrite !list_lookup_fmap, !lookup_take, !lookup_drop in Hx, Hy.
  destruct (decide (i < n)%nat), (decide (j < n)%nat); try done.
  destruct (data !! (start + i)%nat) as [a|] eqn:Ea; [|done]. destruct (data !! (start + j)%nat) as [b|] eqn:Eb; [|done].
  cbn in Hx, Hy. injection Hx as <-. injection Hy as Hy.
  assert (Ka : map fst data !! (start + i)%nat = Some a.1) by (by rewrite list_lookup_fmap, Ea).
  assert (Kb : map fst data !! (start + j)%nat = Some b.1) by (by rewrite list_lookup_fmap, Eb).
  destruct (Nat.lt_total i j) as [Hlt|[->|Hlt]]; [|done|].
  - pose proof (increasing_ranks _ (start + i) (start + j) _ _ Hi ltac:(lia) Ka Kb). lia.
  - pose proof (increasing_ranks _ (start + j) (start + i) _ _ Hi ltac:(lia) Kb Ka). lia.
Qed.
(** The leaf before place [i] of a chain that starts after [first]. *)
Definition prev_at (first : Z) (accs : list child) (i : nat) : Z :=
  match i with O => first | S j => match accs !! j with Some c => ptr c.2 | None => 0 end end.

(** Each leaf of the chain has the one before it as its predecessor. *)
Definition backed (ls : gmap Z (Leaf T)) (first : Z) (accs : list child) : Prop :=
  forall i c, accs !! i = Some c -> LeafNode.lf_prev <$> ls !! ptr c.2 = Some (prev_at first accs i).

Lemma build_leaves_ok segs (data : list datum) start prev gv h accs h' :
  build_leaves segs data start prev gv h = Ok (accs, h') ->
  seg_tiles (map fst data) start (length data) segs ->
  Segmentation.increasing (map fst data) -> Forall loadable data ->
  Z.of_nat (length data) <= max_keys -> fresh_leaves h ->
  exists runs, concat runs = drop start data /\ Forall2 slot_over accs runs /\
    Forall2 (fun c run => leaf_over (leaves h') c run 0) accs runs /\
    length accs = length segs /\ adds_leaves h h' /\ fresh_leaves h' /\
    Forall (fun c => next_address h <= ptr c.2) accs /\ NoDup (map (fun c => ptr c.2) accs) /\
    backed (leaves h') prev accs.
Proof.
  intros E Ht Hinc Hall Hlen. revert start prev h accs h' E Ht.
  induction segs as [|s segs IH]; intros start prev h accs h' E Ht Hfr.
  { injection E as <- <-. cbn in Ht. exists []. rewrite Ht, drop_all.
    split_and!; first [done | constructor | apply adds_leaves_refl | intros [] ? ?; done]. }
  cbn [seg_tiles] in Ht. destruct Ht as (Hpos & Hk & Ht). pose proof (seg_tiles_le _ _ _ _ Ht) as Hle.
  cbn [build_leaves] in E. apply P_bind_ok in E as (bn & h1 & E1 & E). apply lift_ok in E1 as [Ebn ->].
  apply P_bind_ok in E as (a & h1 & E1 & E). unfold fresh_address in E1. injection E1 as <- <-.
  apply P_bind_ok in E as ([l acc] & h2 & E2 & E). apply lift_ok in E2 as [En ->].
  apply P_bind_ok in E as ([] & h3 & E3 & E). unfold put in E3. injection E3 as <-.
  apply P_bind_ok in E as (kv & h3 & E3 & E). apply lift_ok in E3 as [Ekv ->]. apply of_opt_ok in Ekv.
  apply P_bind_ok in E as (accs' & h4 & E4 & E). injection E as <- <-.
  assert (Hbn : 3 <= bn < 2 ^ 29) by (apply (leaf_blocks_range (seg_number s)); [lia|done]).
  set (run := take (Z.to_nat (seg_number s)) (drop start data)) in *.
  assert (Hrun : Forall loadable run) by (by apply Forall_take, Forall_drop).
  destruct (LeafNode.new_leaf_inv _ _ _ _ _ _ _ _ _ _ _ kv l acc Hbn Ekv En) as
    (ms & N1 & N2 & N3 & N4 & N5 & N6 & N7 & N8 & N9 & N10 & N11).
  { eapply Forall_impl; [exact Hrun|]. apply loadable_storable. }
  { by apply increasing_NoDup. }
  assert (Hfr1 : fresh_leaves (set_leaves (set_next_address h (next_address h + 1)) (<[next_address h := l]> (leaves h)))).
  { intros a [l' Hl']. cbn in *. destruct (decide (a = next_address h)) as [->|Hne]; [lia|].
    rewrite lookup_insert_ne in Hl' by done. pose proof (Hfr a ltac:(by eexists)). lia. }
  destruct (IH _ _ _ _ _ E4 Ht Hfr1) as (runs & R1 & R2 & R3 & R4 & R5 & R6 & R7 & R8 & R9). cbn in R7.
  assert (Hnone : leaves h !! next_address h = None).
  { destruct (leaves h !! next_address h) eqn:Ea; [|done]. pose proof (Hfr (next_address h) ltac:(by eexists)). lia. }
  pose proof R5 as (ls & nx & -> & Hsub & Hnx). cbn in Hsub, Hnx.
  exists (run :: runs). split; [|split; [|split; [|split; [|split; [|split; [|split; [|split]]]]]]].
  - cbn [concat]. rewrite R1. unfold run. rewrite <- drop_drop. apply take_drop.
  - constructor; [|done]. unfold run. rewrite (drop_S _ _ _ Ekv).
    destruct (Z.to_nat (seg_number s)) as [|m] eqn:Em; [lia|]. cbn [take].
    destruct (proj1 (Forall_lookup _ _) Hall _ _ Ekv) as (F1 & F2 & F3).
    split; [|split; [split; [done|by eapply LeafNode.new_leaf_idle]|by exists kv, (take m (drop (S start) data))]].
    split; [done|]. split; [done|]. cbn [snd]. unfold InnerNode.is_free. rewrite N4.
    rewrite deq_rank; [by apply Z.eqb_neq|by apply finite_key|done].
  - constructor; [|done]. exists l, ms. cbn [fst snd leaves set_leaves set_next_address] in *. rewrite N5.
    split; [eapply lookup_weaken; [apply lookup_insert_eq|done]|].
    split; [done|]. split; [done|]. split; [done|]. split; [done|].
    intros k block Hp. split; [intros v Hv; by apply N10|by apply N11].
  - cbn. lia.
  - eapply adds_leaves_trans; [|exact R5].
    exists (<[next_address h := l]> (leaves h)), (next_address h + 1). split; [done|]. split; [by apply insert_subseteq|lia].
  - done.
  - constructor; [cbn; lia|]. eapply Forall_impl; [exact R7|]. cbn. lia.
  - cbn [map]. constructor; [|done]. cbn [snd]. rewrite N5. intros Hin.
    apply list_elem_of_fmap in Hin as (c & Hc & Hcin). pose proof (proj1 (Forall_forall _ _) R7 c Hcin). cbn in *. lia.
  - intros [|i] c Hc.
    + injection Hc as <-. cbn [snd prev_at]. rewrite N5. cbn [leaves set_leaves set_next_address].
      rewrite (lookup_weaken _ ls _ _ (lookup_insert_eq _ _ _) Hsub). cbn. by rewrite N9.
    + specialize (R9 i c Hc). cbn in R9 |- *. rewrite R9. destruct i as [|i]; [cbn; by rewrite N5|done].
Qed.

(** ** Links *)

Definition next_at (accs : list child) (i : nat) : Z :=
  match accs !! S i with Some c => ptr c.2 | None => 0 end.

Lemma leaf_over_link ls c run next :
  leaf_over ls c run 0 -> next <> 0 ->
  exists l, ls !! ptr c.2 = Some l /\ leaf_over (<[ptr c.2 := LeafNode.set_next l next]> ls) c run next.
Proof.
  intros (l & ms & H1 & [O1 O2 O3 O4 O5 O6] & H3 & H4 & H5 & H6) Hn. exists l. split; [done|].
  exists (LeafNode.set_next l next), ms. unfold LeafNode.set_next. destruct (Z.eqb_spec next 0) as [|_]; [done|].
  split; [apply lookup_insert_eq|]. by split.
Qed.

(** What the links leave of a leaf. *)
Lemma link_next_keeps {X} (fld : Leaf T -> X) addrs h h' b :
  (forall l n, fld (LeafNode.set_next l n) = fld l) -> link_next addrs h = Ok (tt, h') ->
  fld <$> leaves h' !! b = fld <$> leaves h !! b.
Proof.
  intros Hf. revert h. induction addrs as [|a addrs IH]; intros h E; [by injection E as <-|].
  destruct addrs as [|x addrs]; [by injection E as <-|]. cbn [link_next] in E.
  apply P_bind_ok in E as ([] & h1 & E1 & E). rewrite (IH h1 E). unfold modify_leaf in E1.
  destruct (leaves h !! a) as [l|] eqn:El; [|done]. mstep in E1. injection E1 as <-. cbn [leaves set_leaves].
  destruct (decide (b = a)) as [->|Hne]; [rewrite lookup_insert_eq, El; cbn; by rewrite Hf|by rewrite lookup_insert_ne].
Qed.

Lemma link_next_ok accs (runs : list (list datum)) h h' :
  link_next (map (fun c : child => ptr c.2) accs) h = Ok (tt, h') ->
  NoDup (map (fun c : child => ptr c.2) accs) -> Forall (fun c : child => ptr c.2 <> 0) accs ->
  Forall2 (fun c run => leaf_over (leaves h) c run 0) accs runs ->
  (exists ls, h' = set_leaves h ls /\ dom ls = dom (leaves h) /\
     forall a, a ∉ map (fun c : child => ptr c.2) accs -> ls !! a = leaves h !! a) /\
  forall i c run, accs !! i = Some c -> runs !! i = Some run -> leaf_over (leaves h') c run (next_at accs i).
Proof.
  intros E Hnd Hnz HF. revert h h' E HF. revert Hnd Hnz.
  revert runs; induction accs as [|c accs IH]; intros runs Hnd Hnz h h' E HF.
  { injection E as <-. split; [|intros i c run Hc; by destruct i]. exists (leaves h). by destruct h. }
  destruct (Forall2_cons_inv_l _ _ _ _ HF) as (run & runs' & Hc & HF' & ->).
  destruct accs as [|d accs].
  { injection E as <-. split; [exists (leaves h); by destruct h|].
    intros [|i] c' run' Ha Hr; [|by destruct i]. injection Ha as <-. by injection Hr as <-. }
  cbn [map link_next] in E. apply P_bind_ok in E as ([] & h1 & E1 & E).
  apply Forall_cons in Hnz as [Hnz1 Hnz]. apply NoDup_cons in Hnd as [Hni Hnd].
  change (ptr c.2 ∉ map (fun c : child => ptr c.2) (d :: accs)) in Hni.
  pose proof (proj1 (proj1 (Forall_cons _ _ _) Hnz)) as Hd.
  destruct (leaf_over_link _ _ _ _ Hc Hd) as (l & Hl & Hover).
  unfold modify_leaf in E1. rewrite Hl in E1. mstep in E1. injection E1 as <-.
  set (ls1 := <[ptr c.2 := LeafNode.set_next l (ptr d.2)]> (leaves h)) in *.
  assert (Hother : forall c' run', c' ∈ (d :: accs) -> leaf_over (leaves h) c' run' 0 -> leaf_over ls1 c' run' 0).
  { intros c' run' Hin (l' & ms & H1 & H2). exists l', ms. unfold ls1.
    rewrite lookup_insert_ne; [by split|]. intros Eq. apply Hni. rewrite Eq. apply list_elem_of_fmap. by exists c'. }
  destruct (IH runs' Hnd Hnz (set_leaves h ls1) h' E) as [(ls & -> & Hdom & Hout) Hi].
  { apply Forall2_same_length_lookup_2; [by eapply Forall2_length|]. intros i c' run' H1 H2.
    apply Hother; [by eapply list_elem_of_lookup_2|]. by eapply (Forall2_lookup_lr _ _ _ _ _ _ HF'). }
  split.
  - exists ls. split; [done|]. cbn [leaves set_leaves] in *. split.
    + rewrite Hdom. unfold ls1. apply dom_insert_lookup_L. by eexists.
    + intros a Ha. change (a ∉ ptr c.2 :: map (fun c : child => ptr c.2) (d :: accs)) in Ha. apply not_elem_of_cons in Ha as [Ha1 Ha]. rewrite Hout by done.
      unfold ls1. by rewrite lookup_insert_ne.
  - intros [|i] c' run' Ha Hr; [|by apply Hi]. injection Ha as <-. injection Hr as <-.
    destruct Hover as (l' & ms & H1 & H2). exists l', ms. split; [|done]. cbn [leaves set_leaves] in *.
    by rewrite Hout.
Qed.
(** ** bulk_load *)

Lemma increasing_app_inv (k1 k2 : list double) :
  Segmentation.increasing (k1 ++ k2) -> Segmentation.increasing k2.
Proof.
  intros [H1 H2]. split; [by apply Forall_app in H1 as [_ H1]|]. intros i k k' Hk Hk'.
  apply (H2 (length k1 + i)%nat).
  - rewrite lookup_app_r by lia. replace (_ + _ - _)%nat with i by lia. done.
  - rewrite lookup_app_r by lia. replace (_ - _)%nat with (S i) by lia. done.
Qed.

Lemma slots_increasing (accs : list child) runs :
  Forall2 slot_over accs runs -> Segmentation.increasing (map fst (concat runs)) ->
  Forall InnerNode.child_ok accs /\ InnerNode.increasing_from None accs.
Proof.
  intros HF. induction HF as [|a run accs runs Ha HF IH]; intros Hinc; [by split|].
  cbn [concat] in Hinc. rewrite map_app in Hinc. destruct (IH (increasing_app_inv _ _ Hinc)) as [I1 I2].
  destruct Ha as (Hok & _ & kv & rest & -> & Ek). split; [by constructor|]. split; [done|].
  destruct HF as [|b run' accs runs Hb HF]; [done|]. destruct I2 as [_ I2]. split; [|done].
  destruct Hb as (_ & _ & kv' & rest' & -> & Ek'). rewrite <- Ek, <- Ek'.
  rewrite <- map_app in Hinc. apply (increasing_ranks _ 0 (S (length rest)) _ _ Hinc); [lia|done|].
  rewrite list_lookup_fmap. cbn [concat].
  by rewrite (list_lookup_middle (kv :: rest) (rest' ++ concat runs) kv').
Qed.

(** What [bulk_load] leaves: [cs] are the slots of the leaves, [runs] the data each was
    given. *)
Record loaded h (data : list datum) (cs : list child) (runs : list (list datum)) : Prop := {
  ld_data : concat runs = data;
  ld_slots : Forall2 slot_over cs runs;
  ld_children : Forall InnerNode.child_ok cs /\ InnerNode.increasing_from None cs;
  ld_leaves : forall i c run, cs !! i = Some c -> runs !! i = Some run ->
    leaf_over (leaves h) c run (next_at cs i);
  ld_addresses : NoDup (map (fun c : child => ptr c.2) cs) /\ Forall (fun c : child => ptr c.2 <> 0) cs;
  ld_backed : backed (leaves h) 0 cs;
  ld_rooted : lined 0 (inners h) -> rooted h cs;
  ld_fresh : fresh_leaves h /\ 0 < next_address h;
  ld_table : local_table h = map (fun c : child => CacheModel.mkRecord c.1 (ptr c.2) true) cs;
  ld_number : leaf_number (plin h) = u32 (Z.of_nat (length cs)) /\ Z.of_nat (length cs) <= max_keys;
  ld_bounds : exists k0 kn, head data = Some k0 /\ last data = Some kn /\
    plin_min_key (plin h) = k0.1 /\ plin_max_key (plin h) = kn.1
}.

Lemma loaded_routes h data cs runs : loaded h data cs runs -> routes h cs.
Proof.
  intros Hld q c Hq Hr Hc. apply (rooted_routes h cs); [|done|done|done].
  apply (ld_rooted _ _ _ _ Hld). intros a n _ Hn. by destruct (Hr a n Hn).
Qed.

Lemma load_ok (data : list datum) h0 h :
  bulk_load data h0 = Ok (tt, h) ->
  Forall loadable data -> Segmentation.increasing (map fst data) -> Z.of_nat (length data) <= max_keys ->
  fresh_leaves h0 -> inners h0 = ∅ -> 0 < next_address h0 -> local_table h0 = [] ->
  (exists cs runs, loaded h data cs runs) /\ rebuilding (plin h) = rebuilding (plin h0) /\
  left_buffer (plin h) = left_buffer (plin h0) /\ right_buffer (plin h) = right_buffer (plin h0) /\
  rebuild_times h = rebuild_times h0 /\ smo_lock (plin h) = smo_lock (plin h0).
Proof.
  intros E Hall Hinc Hlen Hfl Hfi Hna Htab. unfold bulk_load, load_segments in E.
  apply P_bind_ok in E as (segs & h1 & E1 & E). apply lift_ok in E1 as [Es ->].
  apply P_bind_ok in E as (gv & h1 & E1 & E). unfold meta, get in E1. injection E1 as <- <-.
  apply P_bind_ok in E as (cs & h1 & El & E).
  apply P_bind_ok in E as ([] & h2 & E2 & E).
  destruct (Nat.eqb_spec (length cs) 0) as [|Hcs]; [done|]. injection E2 as <-.
  apply P_bind_ok in E as ([] & h2 & E2 & E). unfold put in E2. injection E2 as <-.
  apply P_bind_ok in E as ([] & h2 & En & E).
  apply P_bind_ok in E as ([] & h3 & E3 & E). unfold put_meta, put in E3. injection E3 as <-.
  apply P_bind_ok in E as ([[top lvl] ps] & h3 & Et & E).
  apply P_bind_ok in E as ([] & h4 & E4 & E). unfold put in E4. injection E4 as <-.
  apply P_bind_ok in E as (k0 & h4 & E4 & E). apply lift_ok in E4 as [Ek0 ->]. apply of_opt_ok in Ek0.
  apply P_bind_ok in E as (kn & h4 & E4 & E). apply lift_ok in E4 as [Ekn ->]. apply of_opt_ok in Ekn.
  apply P_bind_ok in E as ([] & h4 & E4 & E). unfold put in E4. injection E4 as <-.
  unfold put_meta, put in E. injection E as <-.
  assert (Hne : map fst data <> []) by (by destruct data).
  pose proof (segments_of_tiles _ _ _ Hinc Hne Es) as Ht. rewrite length_map in Ht.
  destruct (build_leaves_ok segs data 0 0 _ h0 cs h1 El Ht Hinc Hall Hlen Hfl)
    as (runs & R1 & R2 & R3 & R4 & R5 & R6 & R7 & R8 & R9).
  rewrite drop_0 in R1. rewrite <- R1 in Hinc. destruct (slots_increasing cs runs R2 Hinc) as [C1 C2].
  assert (Hnz : Forall (fun c : child => ptr c.2 <> 0) cs) by (eapply Forall_impl; [exact R7|]; cbn; lia).
  destruct R5 as (ls & nx & -> & _ & Hnx).
  destruct (link_next_ok cs runs _ h2 En R8 Hnz R3) as [(ls' & -> & Hdom & _) Hlinks].
  pose proof (seg_tiles_length _ _ _ _ Ht) as Hsl.
  assert (C0 : Forall (fun c : child => type c.2 = 0) cs).
  { clear -R2. induction R2 as [|c run cs runs (_ & [Hc _] & _) R2 IH]; by constructor. }
  match type of Et with build_levels _ _ _ _ ?hh = _ => set (h1 := hh) in * end.
  assert (Hf1 : fresh_inners h1) by (intros a [n Hn]; cbn in Hn; rewrite Hfi in Hn; by rewrite lookup_empty in Hn).
  pose proof (build_levels_adds _ _ _ _ _ _ _ Et Hf1) as [Hadd Hf3].
  assert (Hroot : lined 0 (inners h3) -> Z.of_nat (length top) <= ROOT_SIZE /\ exists g, grown (S g) (next_address h1) (inners h3) top cs).
  { intros Hline.
    destruct (build_levels_ok _ 0 (next_address h1) cs cs 3 h1 top lvl ps h3 Et) as (_ & B2 & g & Hg); try done; try lia.
    - by intros ->.
    - apply grown_leaves; done || lia.
    - by left.
    - eapply lined_sub; [reflexivity| |exact Hline]. cbn. lia.
    - split; [done|]. by exists g. }
  assert (Hold : forall b, is_Some (inners h3 !! b) -> next_address h1 <= b).
  { intros b Hb. destruct (Z.lt_ge_cases b (next_address h1)) as [Hlt|]; [|done].
    rewrite (adds_inners_old _ _ _ Hadd Hlt) in Hb. cbn in Hb. rewrite Hfi in Hb. destruct Hb as [n Hn]. by rewrite lookup_empty in Hn. }
  destruct Hadd as (ns & nx' & -> & _ & Hnx' & _). unfold h1 in Hnx', Hold, Hroot, Hf3 |- *. clear h1 Et Hf1.
  cbn in Hnx'. split; [|done]. exists cs, runs. split; try (cbn; done).
  - intros i c Hc. specialize (R9 i c Hc). cbn [leaves set_plin set_table_min_key set_table_max_key set_parameter set_next_address
      set_inners set_leaves]. rewrite <- R9.
    exact (link_next_keeps LeafNode.lf_prev _ _ _ _ (fun l n => ltac:(unfold LeafNode.set_next; by destruct (n =? 0))) En).
  - intros Hline. destruct (Hroot Hline) as (B2 & g & Hg). split; [done|exact Hf3|].
    exists g, nx, top. cbn [plin set_plin set_plin_min_key set_plin_max_key set_root_number set_plin_level set_global_version
      set_roots roots root_number set_table_min_key set_table_max_key set_parameter]. split; [|split; [exact Hg|exact Hold]].
    unfold fill_roots. rewrite Nat2Z.id. rewrite take_app_length'; [done|by rewrite length_map].
  - split; [|cbn; lia]. intros a Ha. cbn [leaves set_leaves set_inners set_next_address set_local_table set_parameter set_plin
      set_table_min_key set_table_max_key next_address] in *.
    assert (Ha' : is_Some (ls !! a)) by (by apply elem_of_dom; rewrite <- Hdom; apply elem_of_dom).
    pose proof (R6 a Ha'). cbn in *. lia.
  - cbn. by rewrite Htab.
  - cbn. split; [done|lia].
  - cbn. exists k0, kn. done.
Qed.
End BulkLoad.
