(* ===== verification/IndexMap.v ===== *)
(** * The loaded index is a map (core/index/plin_index.h, bulk_load, upsert, find)

    After [bulk_load], and as long as no leaf fills up, a sequence of upserts and
    searches behaves as a finite map from keys to payloads does: wherever the models
    route a key and whether its block's slots, an overflow tree or a buffer holds it.

    [reach] and [room] are the two conditions on the loaded index, as boolean functions:
    the models stay within 64-bit positions at both ends of the key range, and every
    leaf can take that many more overflowing keys before it is split. *)

From S2P Require Import Prelude Doubles Rounding Slots Routing InnerTree PlinIndex Levels BulkLoad.
From S2P Require Segmentation LeafNode InnerNode BPlus.
Open Scope Z_scope.

Section IndexMap.
Context {T : Type} `{LeafNode.OverflowTreeLaws T}.
Implicit Type h : PlinIndex (T := T).

(** ** Keys of a level *)

Lemma last_le_index q (cs : list child) c :
  InnerNode.last_le q cs = Some c ->
  exists i, cs !! i = Some c /\ forall j d, (i < j)%nat -> cs !! j = Some d -> dle d.1 q = false.
Proof.
  induction cs as [|x cs IH]; [done|]. rewrite last_le_cons. destruct (InnerNode.last_le q cs) as [d|] eqn:E.
  - intros [= ->]. destruct (IH eq_refl) as (i & Hi & Hlt). exists (S i). split; [done|].
    intros [|j] d Hj Hd; [lia|]. apply (Hlt j); [lia|done].
  - destruct (dle x.1 q); [|done]. intros [= <-]. exists 0%nat. split; [done|].
    intros [|j] d Hj Hd; [lia|]. apply last_le_None in E. by apply (proj1 (Forall_lookup _ _) E j).
Qed.

Lemma last_le_rank q q' (cs : list child) :
  Forall InnerNode.child_ok cs -> is_key q = true -> is_key q' = true -> rank q = rank q' ->
  InnerNode.last_le q cs = InnerNode.last_le q' cs.
Proof.
  intros Hok Hq Hq' E. induction Hok as [|c cs (Kc & _) _ IH]; [done|]. apply finite_key in Kc.
  rewrite !last_le_cons, IH. by rewrite !dle_rank, E by done.
Qed.

(** A key of the data is routed to the leaf that was built from its run. *)
Lemma last_le_data (cs : list child) runs i c run (kv : datum) :
  Forall2 slot_over cs runs -> Segmentation.increasing (map fst (concat runs)) ->
  Forall (fun kv : datum => finite kv.1 = true) (concat runs) ->
  cs !! i = Some c -> runs !! i = Some run -> kv ∈ run -> InnerNode.last_le kv.1 cs = Some c.
Proof.
  intros HF. revert i. induction HF as [|a r cs runs Ha HF IH]; intros i Hinc Hfin Hc Hr Hin; [by destruct i|].
  destruct (slots_increasing _ _ (List.Forall2_cons _ _ Ha HF) Hinc) as [Hok Hlt].
  cbn [concat] in Hinc, Hfin. rewrite map_app in Hinc. apply Forall_app in Hfin as [Hf1 Hf2].
  rewrite last_le_cons. destruct i as [|i].
  - injection Hc as ->. injection Hr as ->. destruct Ha as (Hac & _ & kv0 & rest & -> & Ek0).
    assert (Kv : is_key kv.1 = true) by (apply finite_key; by apply (proj1 (Forall_forall _ _) Hf1)).
    assert (Hle : dle c.1 kv.1 = true).
    { destruct Hac as (Kc & _). rewrite dle_rank by (done || by apply finite_key). apply Z.leb_le. rewrite <- Ek0.
      apply elem_of_cons in Hin as [->|Hin]; [lia|]. apply list_elem_of_lookup in Hin as [j Hj].
      apply Z.lt_le_incl, (increasing_ranks _ 0 (S j) _ _ Hinc); [lia|done|].
      rewrite <- map_app, list_lookup_fmap. cbn. by rewrite (lookup_app_l_Some _ _ _ _ Hj). }
    assert (En : InnerNode.last_le kv.1 cs = None); [|by rewrite En, Hle].
    apply last_le_None. apply Forall_lookup. intros j d Hd.
    destruct (Forall2_lookup_l _ _ _ _ _ HF Hd) as (rd & Hrd & (Kd & _) & _ & kvd & restd & -> & Ekd).
    rewrite dle_rank by (done || by apply finite_key). apply Z.leb_gt. rewrite <- Ekd.
    apply list_elem_of_lookup in Hin as [x Hx].
    assert (Hdin : kvd ∈ concat runs).
    { apply list_elem_of_In, in_concat. exists (kvd :: restd). split; [|by left].
      apply list_elem_of_In. by eapply list_elem_of_lookup_2. }
    apply list_elem_of_lookup in Hdin as [y Hy].
    apply (increasing_ranks _ x (length (kv0 :: rest) + y) _ _ Hinc).
    + apply lookup_lt_Some in Hx. lia.
    + rewrite <- map_app, list_lookup_fmap. by rewrite (lookup_app_l_Some _ _ _ _ Hx).
    + rewrite <- map_app, list_lookup_fmap, lookup_app_r by lia.
      replace (_ + y - _)%nat with y by lia. by rewrite Hy.
  - rewrite (IH i); [done|by eapply increasing_app_inv|done..].
Qed.
(** ** Models in reach, leaves with room *)

(** Both ends of the range are finite and every model is a line that does not fall, in
    64-bit range at both. *)
Definition reach h : bool :=
  let lo := plin_min_key (plin h) in
  let hi := plin_max_key (plin h) in
  finite lo && finite hi &&
  forallb (fun al => steady LeafNode.LeafSlotsPerBlock (LeafNode.lf_slope al.2) (LeafNode.lf_intercept al.2) lo hi)
    (map_to_list (leaves h)) &&
  forallb (fun an => steady InnerNode.InnerSlotsPerBlock (InnerNode.in_slope an.2) (InnerNode.in_intercept an.2) lo hi)
    (map_to_list (inners h)).

(** [n] more keys fit into the overflow trees of a leaf before it is split; both counters
    are words. *)
Definition fits (n : Z) (l : Leaf T) : bool :=
  (0 <=? LeafNode.lf_overflow_number l) &&
  ((n <=? 0) || (LeafNode.lf_overflow_number l + n <=? LeafNode.lf_number_to_split l)) &&
  (LeafNode.lf_number_to_split l <? 2 ^ 64).
Definition room (n : Z) h : bool := forallb (fun al => fits n al.2) (map_to_list (leaves h)).

Lemma forallb_lookup {A} (f : Z * A -> bool) (m : gmap Z A) a x :
  forallb f (map_to_list m) = true -> m !! a = Some x -> f (a, x) = true.
Proof.
  intros Hf Hx. rewrite forallb_forall in Hf. apply Hf, list_elem_of_In. by apply elem_of_map_to_list.
Qed.

Definition in_keys h (q : double) : Prop :=
  finite q = true /\ rank (plin_min_key (plin h)) <= rank q <= rank (plin_max_key (plin h)).

Definition good_model h (l : Leaf T) : Prop :=
  steady LeafNode.LeafSlotsPerBlock (LeafNode.lf_slope l) (LeafNode.lf_intercept l)
    (plin_min_key (plin h)) (plin_max_key (plin h)) = true.

Lemma good_predicts h l q :
  finite (plin_min_key (plin h)) = true -> finite (plin_max_key (plin h)) = true ->
  good_model h l -> in_keys h q -> exists block, LeafNode.predicts l q block.
Proof.
  intros Hmin Hmax Hg [Hq Hr].
  destruct (steady_position LeafNode.LeafSlotsPerBlock eq_refl eq_refl q _ _ _ _ Hg Hmin Hq Hmax Hr) as [p Hp].
  unfold LeafNode.predicts, LeafNode.predict_block. unfold position in Hp. rewrite Hp. mstep.
  destruct (p <? 0); [by eexists|]. destruct (_ <? p); by eexists.
Qed.

Lemma good_rank h l q q' b b' :
  good_model h l -> finite q = true -> finite q' = true -> rank q = rank q' ->
  LeafNode.predicts l q b -> LeafNode.predicts l q' b' -> b = b'.
Proof.
  unfold good_model, steady. intros Hg Hq Hq' E H1 H2.
  apply andb_true_iff in Hg as [Hg _]. apply andb_true_iff in Hg as [Hr Hu].
  apply bind_ok in H1 as (p & Hp & H1), H2 as (p' & Hp' & H2).
  pose proof (position_mono LeafNode.LeafSlotsPerBlock eq_refl eq_refl q q' _ _ p p' Hr Hu Hq Hq' ltac:(lia) Hp Hp').
  pose proof (position_mono LeafNode.LeafSlotsPerBlock eq_refl eq_refl q' q _ _ p' p Hr Hu Hq' Hq ltac:(lia) Hp' Hp).
  assert (p' = p) as -> by lia. rewrite H1 in H2. by injection H2.
Qed.

Lemma reach_in_reach h q : reach h = true -> in_keys h q -> in_reach (inners h) q.
Proof.
  intros Hr [Hq Hb] a n Hn. unfold reach in Hr.
  apply andb_true_iff in Hr as [Hr H4]. apply andb_true_iff in Hr as [Hr H3]. apply andb_true_iff in Hr as [H1 H2].
  pose proof (forallb_lookup _ _ _ _ H4 Hn) as Hs. cbn [snd] in Hs. split.
  - unfold steady in Hs. apply andb_true_iff in Hs as [Hs _]. apply Hs.
  - destruct (steady_position InnerNode.InnerSlotsPerBlock eq_refl eq_refl q _ _ _ _ Hs H1 Hq H2 Hb) as [p Hp].
    unfold InnerNode.pred_of, InnerNode.node_pred, InnerNode.predict_block. unfold position in Hp. rewrite Hp. mstep.
    destruct (p <? 0); [by eexists|]. destruct (_ <? p); by eexists.
Qed.

(** ** The invariant *)

(** The keys of the leaf's blocks are routed to it, and their payloads are not null. *)
Definition only (cs : list child) h (c : child) (ms : list (gmap Z Z)) : Prop := forall m q v,
  m ∈ ms -> LeafNode.storable q -> m !! rank q = Some v -> in_keys h q /\ InnerNode.last_le q cs = Some c /\ v <> 0.

(** The leaf at place [i] of the level [cs], with room for [n] keys: the maps of its
    blocks agree with [M] on the keys that are routed to it. *)
Record leaf_in (cs : list child) (n : Z) h (M : gmap Z Z) (i : nat) (c : child) (l : Leaf T)
    (ms : list (gmap Z Z)) : Prop := {
  li_at : leaves h !! ptr c.2 = Some l;
  li_ok : LeafNode.leaf_ok l ms;
  li_agrees : LeafNode.agrees l (Some c.2);
  li_next : LeafNode.lf_next l = next_at cs i;
  li_first : LeafNode.lf_first_key l = c.1;
  li_fits : fits n l = true;
  li_model : good_model h l;
  li_values : forall q block, in_keys h q -> LeafNode.storable q -> InnerNode.last_le q cs = Some c ->
    LeafNode.predicts l q block -> LeafNode.value_in ms block q = M !! rank q;
  li_prev : LeafNode.lf_prev l = prev_at 0 cs i;
  li_idle : idle c.2;
  li_only : only cs h c ms
}.

(** The index holds the map [M], with room for [n] more keys in every leaf. *)
Record map_ok (cs : list child) (n : Z) h (M : gmap Z Z) : Prop := {
  mo_min : finite (plin_min_key (plin h)) = true;
  mo_max : finite (plin_max_key (plin h)) = true;
  mo_order : rank (plin_min_key (plin h)) <= rank (plin_max_key (plin h));
  mo_rebuilding : rebuilding (plin h) = 0;
  mo_children : Forall InnerNode.child_ok cs /\ InnerNode.increasing_from None cs;
  mo_first : exists c, cs !! 0%nat = Some c /\ c.1 = plin_min_key (plin h);
  mo_addresses : NoDup (map (fun c : child => ptr c.2) cs) /\ Forall (fun c : child => ptr c.2 <> 0) cs;
  mo_routes : forall q c, in_keys h q -> InnerNode.last_le q cs = Some c ->
    exists r, route q h = Ok (r, h) /\ read_slot r h = Ok (c.2, h);
  mo_leaves : forall i c, cs !! i = Some c -> exists l ms, leaf_in cs n h M i c l ms;
  mo_left : exists m, LeafNode.ot_rep (left_buffer (plin h)) m /\
    forall q, is_key q = true -> rank q < rank (plin_min_key (plin h)) -> m !! rank q = M !! rank q;
  mo_right : exists m, LeafNode.ot_rep (right_buffer (plin h)) m /\
    forall q, is_key q = true -> rank (plin_max_key (plin h)) < rank q -> m !! rank q = M !! rank q;
  mo_live : Forall (fun c : child => rank c.1 <= rank (plin_max_key (plin h)) /\ is_Some (M !! rank c.1)) cs
}.
Lemma fits_spec n l :
  fits n l = true <-> 0 <= LeafNode.lf_overflow_number l /\
    (n <= 0 \/ LeafNode.lf_overflow_number l + n <= LeafNode.lf_number_to_split l) /\ LeafNode.lf_number_to_split l < 2 ^ 64.
Proof. unfold fits. rewrite !andb_true_iff, orb_true_iff, !Z.leb_le, Z.ltb_lt. tauto. Qed.

Lemma fits_le n n' l : n' <= n -> fits n l = true -> fits n' l = true.
Proof. rewrite !fits_spec. lia. Qed.

(** A search key is in one leaf, which owns it and predicts a block for it. *)
Lemma map_at cs n h M q :
  map_ok cs n h M -> in_keys h q -> LeafNode.storable q ->
  exists i c l ms r block, cs !! i = Some c /\ InnerNode.last_le q cs = Some c /\
    leaf_in cs n h M i c l ms /\ at_leaf h q r c.2 l ms block.
Proof.
  intros Hm Hq Hs. destruct Hm as [Hmin Hmax _ _ [Hok _] (c0 & Hc0 & Ec0) _ Hroute Hleaf _ _ _].
  pose proof (finite_key q (proj1 Hq)) as Kq.
  destruct (InnerNode.last_le q cs) as [c|] eqn:El.
  2:{ apply last_le_None in El. pose proof (proj1 (Forall_lookup _ _) El _ _ Hc0) as E. cbn in E.
      rewrite Ec0, dle_rank in E by (done || by apply finite_key). apply Z.leb_gt in E. destruct Hq. lia. }
  destruct (last_le_index q cs c El) as (i & Hi & Hafter).
  destruct (Hleaf i c Hi) as (l & ms & Hl). destruct (Hroute q c Hq El) as (r & Hr & Hslot).
  destruct (good_predicts h l q Hmin Hmax (li_model _ _ _ _ _ _ _ _ Hl) Hq) as [block Hb].
  exists i, c, l, ms, r, block. split; [done|]. split; [done|]. split; [done|].
  pose proof Hl as [L1 L2 L3 L4 L5 L6 L7 L8 L9 L10 L11].
  split; try done; [by apply finite_key..|].
  unfold LeafNode.owns. rewrite L4. unfold next_at. destruct (cs !! S i) as [d|] eqn:Ed; [|by left].
  right. destruct (Hleaf (S i) d Ed) as (ld & md & Hld). exists ld. split; [apply (li_at _ _ _ _ _ _ _ _ Hld)|].
  rewrite (li_first _ _ _ _ _ _ _ _ Hld). apply (Hafter (S i)); [lia|done].
Qed.

Lemma addresses_inj (cs : list child) i j c d :
  NoDup (map (fun c : child => ptr c.2) cs) -> cs !! i = Some c -> cs !! j = Some d -> ptr c.2 = ptr d.2 -> i = j.
Proof.
  intros Hn Hi Hj E. apply (NoDup_lookup _ i j (ptr c.2) Hn); rewrite list_lookup_fmap; [by rewrite Hi|].
  by rewrite Hj, E.
Qed.

(** A new version of one leaf, for a map that differs from the old one at most on the
    keys of that leaf. *)
Lemma map_put cs n n' h M M' i c l ms l' ms' :
  map_ok cs n h M -> cs !! i = Some c -> leaf_in cs n h M i c l ms ->
  LeafNode.same_frame l l' -> LeafNode.leaf_ok l' ms' -> fits n' l' = true -> n' <= n ->
  (forall q block, in_keys h q -> LeafNode.storable q -> InnerNode.last_le q cs = Some c ->
    LeafNode.predicts l q block -> LeafNode.value_in ms' block q = M' !! rank q) ->
  (forall q c', in_keys h q -> InnerNode.last_le q cs = Some c' -> c' <> c -> M' !! rank q = M !! rank q) ->
  (forall q, is_key q = true -> rank q < rank (plin_min_key (plin h)) \/ rank (plin_max_key (plin h)) < rank q ->
    M' !! rank q = M !! rank q) ->
  only cs h c ms' -> (forall r, is_Some (M !! r) -> is_Some (M' !! r)) ->
  map_ok cs n' (set_leaves h (<[ptr c.2 := l']> (leaves h))) M'.
Proof.
  intros Hm Hi Hl Hs Hok' Hf Hn Hin Hother Hout Honly Hmore.
  destruct Hm as [Hmin Hmax Hord Hreb Hch Hfirst [Hnd Hnz] Hroute Hleaf (ml & Hlr & Hlm) (mr & Hrr & Hrm) Hlive].
  split; try done; cbn [plin set_leaves].
  - intros q d Hq Hd. destruct (Hroute q d Hq Hd) as (r & R1 & R2).
    exists r. split; [by apply route_set_leaves|by apply read_slot_set_leaves].
  - intros j d Hj. destruct (decide (j = i)) as [->|Hne].
    + assert (d = c) as -> by congruence. exists l', ms'. destruct Hl as [L1 L2 L3 L4 L5 L6 L7 L8 L9 L10 L11].
      pose proof Hs as (E1 & E2 & E3 & E4 & E5 & E6 & E7).
      split; [apply lookup_insert_eq|done|by eapply LeafNode.agrees_frame|congruence|congruence|done| | |congruence|done|done].
      * unfold good_model in *. cbn [plin set_leaves]. by rewrite E1, E2.
      * intros q block Hq Hst Hc Hp. apply Hin; try done. unfold LeafNode.predicts in *. by rewrite <- E1, <- E2, <- E3.
    + destruct (Hleaf j d Hj) as (ld & md & [L1 L2 L3 L4 L5 L6 L7 L8 L9 L10 L11]). exists ld, md.
      assert (Hp : ptr c.2 <> ptr d.2) by (intros E; apply Hne; by eapply (addresses_inj cs j i d c)).
      split; try done.
      * cbn [leaves set_leaves]. by rewrite lookup_insert_ne.
      * by eapply fits_le.
      * intros q block Hq Hst Hc Hpq. rewrite (L8 q block) by done. symmetry. apply (Hother q d); [done|done|]. intros ->. by apply Hp.
  - exists ml. split; [done|]. intros q Kq Hq. rewrite (Hlm q Kq Hq). symmetry. apply Hout; [done|by left].
  - exists mr. split; [done|]. intros q Kq Hq. rewrite (Hrm q Kq Hq). symmetry. apply Hout; [done|by right].
  - eapply Forall_impl; [exact Hlive|]. intros x [Hx Hs']. split; [exact Hx|by apply Hmore].
Qed.
(** ** Operations *)

(** The levels above the leaves, their lock and the bounds of the index are the same. *)
Definition same_top h h' : Prop :=
  inners h' = inners h /\ next_address h' = next_address h /\
  roots (plin h') = roots (plin h) /\ root_number (plin h') = root_number (plin h) /\
  leaf_number (plin h') = leaf_number (plin h) /\ smo_lock (plin h') = smo_lock (plin h) /\
  plin_min_key (plin h') = plin_min_key (plin h) /\ plin_max_key (plin h') = plin_max_key (plin h).

#[export] Instance same_top_preorder : PreOrder same_top.
Proof. unfold same_top. split; [done|]. intros h1 h2 h3 H1 H2. destruct_and!. split_and!; congruence. Qed.

Lemma inside_keys h q :
  finite (plin_min_key (plin h)) = true -> finite (plin_max_key (plin h)) = true -> finite q = true ->
  if inside (plin h) q then in_keys h q
  else rank q < rank (plin_min_key (plin h)) \/ rank (plin_max_key (plin h)) < rank q.
Proof.
  intros Hmin Hmax Hq. unfold inside, in_keys. rewrite !dle_rank by (by apply finite_key).
  destruct (Z.leb_spec (rank (plin_min_key (plin h))) (rank q)),
    (Z.leb_spec (rank q) (rank (plin_max_key (plin h)))); cbn; (split; [done|lia]) || lia.
Qed.

Lemma strictly_keys h q :
  finite (plin_min_key (plin h)) = true -> finite (plin_max_key (plin h)) = true -> finite q = true ->
  strictly_inside (plin h) q = true -> in_keys h q.
Proof.
  intros Hmin Hmax Hq Hin. split; [done|]. unfold strictly_inside in Hin. rewrite !dlt_rank in Hin by (by apply finite_key).
  apply andb_true_iff in Hin as [H1 H2]. apply Z.ltb_lt in H1, H2. lia.
Qed.

(** A search answers what the map holds and keeps it. *)
Lemma map_find f cs n h M q :
  map_ok cs n h M -> finite q = true -> LeafNode.storable q ->
  exists ls, find (S f) q h = Ok (M !! rank q, set_leaves h ls) /\ map_ok cs n (set_leaves h ls) M /\ dom ls = dom (leaves h).
Proof.
  intros Hm Hq Hs. pose proof Hm as [Hmin Hmax Hord _ _ _ _ _ _ (ml & Hlr & Hlm) (mr & Hrr & Hrm) Hlive].
  pose proof (inside_keys h q Hmin Hmax Hq) as Hk. pose proof (finite_key q Hq) as Kq.
  destruct (inside (plin h) q) eqn:Ei.
  - destruct (map_at cs n h M q Hm Hk Hs) as (i & c & l & ms & r & block & Hi & Hc & Hl & Ha).
    destruct (index_find_at f h q r c.2 l ms block Ha Ei) as (l' & Ef & Hsf & Hok' & [Hc1 Hc2]).
    pose proof (li_values _ _ _ _ _ _ _ _ Hl) as Hv.
    rewrite (Hv q block Hk Hs Hc (al_block _ _ _ _ _ _ _ Ha)) in Ef.
    eexists. split; [exact Ef|]. split.
    + apply (map_put cs n n h M M i c l ms l' ms); try done; [|apply Hl].
      unfold fits. rewrite Hc1, Hc2. apply Hl.
    + apply dom_insert_lookup_L. exists l. apply (li_at _ _ _ _ _ _ _ _ Hl).
  - assert (Eh : set_leaves h (leaves h) = h) by (by destruct h).
    exists (leaves h). rewrite Eh. split; [|by split]. unfold find, find_in_buffer_net. cbv [meta get mbind P_bind id lift].
    rewrite Ei. rewrite dlt_rank by (done || by apply finite_key).
    destruct (Z.ltb_spec (rank q) (rank (plin_min_key (plin h)))).
    + rewrite (LeafNode.ot_find_ok _ _ q Hlr Kq). mstep. by rewrite Hlm.
    + rewrite (LeafNode.ot_find_ok _ _ q Hrr Kq). mstep. rewrite Hrm; [done|done|lia].
Qed.

(** A change of the buffers, for a map that differs from the old one outside the
    loaded range only. *)
Lemma map_buffers cs n h M M' g :
  map_ok cs n h M ->
  (forall m, roots (g m) = roots m) -> (forall m, root_number (g m) = root_number m) ->
  (forall m, plin_min_key (g m) = plin_min_key m) -> (forall m, plin_max_key (g m) = plin_max_key m) ->
  (forall m, rebuilding (g m) = rebuilding m) ->
  (exists m, LeafNode.ot_rep (left_buffer (g (plin h))) m /\
    forall q, is_key q = true -> rank q < rank (plin_min_key (plin h)) -> m !! rank q = M' !! rank q) ->
  (exists m, LeafNode.ot_rep (right_buffer (g (plin h))) m /\
    forall q, is_key q = true -> rank (plin_max_key (plin h)) < rank q -> m !! rank q = M' !! rank q) ->
  (forall q, in_keys h q -> M' !! rank q = M !! rank q) ->
  (forall r, is_Some (M !! r) -> is_Some (M' !! r)) ->
  map_ok cs n (moved g h) M'.
Proof.
  intros [Hmin Hmax Hord Hreb Hch Hfirst Hadr Hroute Hleaf _ _ Hlive] G1 G2 G3 G4 G5 Hl Hr Hin Hmore.
  assert (Hk : forall q, in_keys (moved g h) q <-> in_keys h q).
  { intros q. unfold in_keys, moved. cbn [plin set_plin]. by rewrite G3, G4. }
  assert (Eg : plin (moved g h) = g (plin h)) by done.
  split; rewrite ?Eg, ?G3, ?G4, ?G5; try done.
  - intros q c Hq Hc. apply Hk in Hq. destruct (Hroute q c Hq Hc) as (r & R1 & R2). exists r.
    by rewrite (stable_route g G1 G2), (stable_read_slot g G1), R1, R2.
  - intros i c Hi. destruct (Hleaf i c Hi) as (l & ms & [L1 L2 L3 L4 L5 L6 L7 L8 L9 L10 L11]). exists l, ms.
    split; try done.
    + unfold good_model in *. by rewrite Eg, G3, G4.
    + intros q block Hq Hs Hc Hp. apply Hk in Hq. rewrite (L8 q block) by done. symmetry. by apply Hin.
    + intros m q v Hm Hq Hv. destruct (L11 m q v Hm Hq Hv) as (K1 & K2 & K3). split; [by apply Hk|done].
  - eapply Forall_impl; [exact Hlive|]. intros x [Hx Hs']. split; [exact Hx|by apply Hmore].
Qed.

Lemma fits_budget n n' l l' :
  fits n l = true -> LeafNode.same_budget l l' -> n' <= 0 \/ 0 < n' < n -> fits n' l' = true.
Proof.
  rewrite !fits_spec. intros (H1 & H2 & H3) [E1 E2] Hn. rewrite E1.
  destruct E2 as [-> | ->]; [lia|]. destruct Hn as [Hn|Hn].
  - unfold u64. pose proof (Z.mod_pos_bound (LeafNode.lf_overflow_number l + 1) (2 ^ 64)). lia.
  - unfold u64. rewrite Z.mod_small by lia. lia.
Qed.

(** The maps of a leaf after an upsert. *)
Lemma upserted_values cs n h M i c l ms k v block m :
  leaf_in cs n h M i c l ms -> finite k = true -> LeafNode.predicts l k block ->
  ms !! Z.to_nat block = Some m ->
  forall q bq, in_keys h q -> LeafNode.storable q -> InnerNode.last_le q cs = Some c -> LeafNode.predicts l q bq ->
    LeafNode.value_in (<[Z.to_nat block := <[rank k := v]> m]> ms) bq q = <[rank k := v]> M !! rank q.
Proof.
  intros [_ _ _ _ _ _ Hg Hv _ _ _] Hk Hb Hm q bq Hq Hs Hc Hp.
  destruct (Z.eq_dec (rank q) (rank k)) as [E|E].
  - rewrite (good_rank h l q k bq block) by (done || apply Hq). unfold LeafNode.value_in.
    rewrite list_lookup_insert_eq by (by eapply lookup_lt_Some). cbn. by rewrite E, !lookup_insert_eq.
  - rewrite lookup_insert_ne by done. rewrite <- (Hv q bq Hq Hs Hc Hp). unfold LeafNode.value_in.
    destruct (decide (Z.to_nat bq = Z.to_nat block)) as [Eb|Eb].
    + rewrite Eb, list_lookup_insert_eq by (by eapply lookup_lt_Some). rewrite Hm. cbn. by rewrite lookup_insert_ne.
    + by rewrite list_lookup_insert_ne.
Qed.

Lemma insert_more (M : gmap Z Z) k v r : is_Some (M !! r) -> is_Some (<[k := v]> M !! r).
Proof. destruct (decide (r = k)) as [->|Hne]; [rewrite lookup_insert_eq; by eexists|by rewrite lookup_insert_ne]. Qed.

(** They still hold keys of the leaf only. *)
Lemma upserted_only cs h c ms k v j m :
  only cs h c ms -> Forall InnerNode.child_ok cs -> ms !! j = Some m -> in_keys h k -> InnerNode.last_le k cs = Some c ->
  v <> 0 -> only cs h c (<[j := <[rank k := v]> m]> ms).
Proof.
  intros Ho Hok Hm [Hk Hr] Hc Hv m' q w Hin Hq Hw. apply list_elem_of_lookup in Hin as [x Hx].
  assert (Hold : forall y m0, ms !! y = Some m0 -> m0 !! rank q = Some w -> in_keys h q /\ InnerNode.last_le q cs = Some c /\ w <> 0).
  { intros y m0 Hy. apply Ho; [by eapply list_elem_of_lookup_2|done]. }
  destruct (decide (x = j)) as [->|Hne]; [|rewrite list_lookup_insert_ne in Hx by done; by eapply Hold].
  rewrite list_lookup_insert_eq in Hx by (by eapply lookup_lt_Some). injection Hx as <-.
  destruct (Z.eq_dec (rank q) (rank k)) as [E|E]; [|rewrite lookup_insert_ne in Hw by done; by eapply Hold].
  rewrite E, lookup_insert_eq in Hw. injection Hw as <-. pose proof (finite_key k Hk) as Kk. pose proof (finite_rank k Hk).
  split; [split; [apply rank_finite; [apply Hq|lia]|by rewrite E]|]. split; [|done].
  by rewrite (last_le_rank q k cs Hok (proj1 Hq) Kk E).
Qed.

(** An upsert inside the range: the pair goes to the leaf of its key, which is split when it
    is full. *)
Lemma map_upsert_any f cs n n' h M k v :
  map_ok cs n h M -> n' <= n -> n' <= 0 \/ 0 < n' < n -> finite k = true -> LeafNode.storable k -> v <> 0 ->
  strictly_inside (plin h) k = true ->
  exists (full : bool) i c r l',
    let h1 := set_leaves h (<[ptr c.2 := l']> (leaves h)) in
    upsert (S f) k v h = (if full then split (ptr c.2) (Some r) else mret tt) h1 /\
    (full = true -> n <= 0) /\ cs !! i = Some c /\ InnerNode.last_le k cs = Some c /\ route k h = Ok (r, h) /\
    map_ok cs n' h1 (<[rank k := v]> M).
Proof.
  intros Hm Hn Hn' Hk Hs Hv Hin. pose proof Hm as [Hmin Hmax Hord Hreb [Hok _] _ [Hnd Hnz] _ _ _ _ _].
  pose proof (finite_key k Hk) as Kk. pose proof (strictly_keys h k Hmin Hmax Hk Hin) as Hkeys.
  destruct (map_at cs _ h M k Hm Hkeys Hs) as (i & c & l & ms & r & block & Hi & Hc & Hl & Ha).
  pose proof (li_fits _ _ _ _ _ _ _ _ Hl) as Hf.
  destruct (index_upsert_any f h k v r c.2 l ms block Ha Hin Hv) as (full & l' & m & Eu & Hfull & Hm' & Hsf & Hok' & Hb).
  { by apply (proj1 (Forall_lookup _ _) Hnz i). }
  { done. }
  exists full, i, c, r, l'. split; [exact Eu|]. split.
  { intros E. specialize (Hfull E). apply fits_spec in Hf as (H1 & H2 & H3). destruct H2 as [H2|H2]; [done|].
    destruct (Z.le_gt_cases n 0); [done|]. unfold u64 in Hfull. rewrite Z.mod_small in Hfull; lia. }
  split; [done|]. split; [done|]. split; [apply (al_route _ _ _ _ _ _ _ Ha)|].
  apply (map_put cs n n' h M _ i c l ms l' _ Hm Hi Hl Hsf Hok').
  - by eapply fits_budget.
  - lia.
  - eapply (upserted_values cs _ h M i); [exact Hl|done|apply (al_block _ _ _ _ _ _ _ Ha)|done].
  - intros q c' Hq Hc' Hne. rewrite lookup_insert_ne; [done|]. intros E. apply Hne.
    rewrite (last_le_rank q k cs Hok) in Hc' by (done || by apply finite_key, Hq). congruence.
  - intros q Kq Hq. rewrite lookup_insert_ne; [done|]. intros E. destruct Hkeys. lia.
  - by apply (upserted_only cs h c ms k v _ m (li_only _ _ _ _ _ _ _ _ Hl)).
  - intros r'. apply insert_more.
Qed.

Lemma map_upsert_inside f cs n h M k v :
  map_ok cs (n + 1) h M -> 0 <= n -> finite k = true -> LeafNode.storable k -> v <> 0 ->
  strictly_inside (plin h) k = true ->
  exists h', upsert (S f) k v h = Ok (tt, h') /\ map_ok cs n h' (<[rank k := v]> M) /\ same_top h h'.
Proof.
  intros Hm Hn Hk Hs Hv Hin.
  destruct (map_upsert_any f cs (n + 1) n h M k v Hm) as (full & i & c & r & l' & E & Hfull & _ & _ & _ & Hm'); try done; try lia.
  eexists. split; [|by split]. rewrite E. destruct full; [specialize (Hfull eq_refl); lia|done].
Qed.
(** A buffer after an upsert agrees with the new map where the old one did with the old. *)
Lemma buffer_insert (m M : gmap Z Z) k v (P : Z -> Prop) :
  (forall q, is_key q = true -> P (rank q) -> m !! rank q = M !! rank q) ->
  forall q, is_key q = true -> P (rank q) -> <[rank k := v]> m !! rank q = <[rank k := v]> M !! rank q.
Proof.
  intros Hm q Kq Hq. destruct (Z.eq_dec (rank q) (rank k)) as [->|E]; [by rewrite !lookup_insert_eq|].
  rewrite !lookup_insert_ne by done. by apply Hm.
Qed.

Lemma map_upsert_outside f cs n h M k v :
  map_ok cs n h M -> finite k = true -> v <> 0 ->
  rank k < rank (plin_min_key (plin h)) \/ rank (plin_max_key (plin h)) < rank k ->
  exists h', upsert (S f) k v h = Ok (tt, h') /\ map_ok cs n h' (<[rank k := v]> M) /\ same_top h h' /\ leaves h' = leaves h.
Proof.
  intros Hm Hk Hv Hout. pose proof Hm as [Hmin Hmax Hord _ _ _ _ _ _ (ml & Hlr & Hlm) (mr & Hrr & Hrm) Hlive].
  pose proof (finite_key k Hk) as Kk. pose proof (finite_key _ Hmin) as Kmin. pose proof (finite_key _ Hmax) as Kmax.
  assert (Ein : strictly_inside (plin h) k = false).
  { unfold strictly_inside. rewrite !dlt_rank by done. apply andb_false_iff.
    destruct Hout; [left|right]; apply Z.ltb_ge; lia. }
  assert (Hframe : forall q, in_keys h q -> <[rank k := v]> M !! rank q = M !! rank q).
  { intros q [_ Hq]. apply lookup_insert_ne. lia. }
  cbv [upsert meta get mbind P_bind id lift put_meta put]. rewrite Ein, dlt_rank by done.
  destruct (Z.ltb_spec (rank k) (rank (plin_min_key (plin h)))) as [Hlt|Hge].
  - destruct (LeafNode.ot_upsert_ok _ ml k v Hlr Kk Hv) as (t & -> & Ht). mstep.
    assert (K : forall x, map_ok cs n (moved (fun m => set_left_buffer_number (set_left_buffer m t) (x m)) h)
      (<[rank k := v]> M)).
    { intros x. apply (map_buffers cs n h M _ (fun m => set_left_buffer_number (set_left_buffer m t) (x m)) Hm);
        try done; cbn.
      - exists (<[rank k := v]> ml). split; [done|]. by apply (buffer_insert ml M k v (fun r => r < _)).
      - exists mr. split; [done|]. intros q Kq Hq. rewrite lookup_insert_ne; [by apply Hrm|]. intros E.
        destruct Hout; [lia|]. lia.
      - intros r. apply insert_more. }
    destruct (decide _); cbn [Z.eqb Pos.eqb].
    + eexists. split; [done|]. split; [|done]. apply (K left_buffer_number).
    + eexists. split; [done|]. split; [|done]. apply (K (fun m => u32 (left_buffer_number m + 1))).
  - destruct (LeafNode.ot_upsert_ok _ mr k v Hrr Kk Hv) as (t & -> & Ht). mstep.
    assert (K : forall x, map_ok cs n (moved (fun m => set_right_buffer_number (set_right_buffer m t) (x m)) h)
      (<[rank k := v]> M)).
    { intros x. apply (map_buffers cs n h M _ (fun m => set_right_buffer_number (set_right_buffer m t) (x m)) Hm);
        try done; cbn.
      - exists ml. split; [done|]. intros q Kq Hq. rewrite lookup_insert_ne; [by apply Hlm|]. intros E. lia.
      - exists (<[rank k := v]> mr). split; [done|]. by apply (buffer_insert mr M k v (fun r => _ < r)).
      - intros r. apply insert_more. }
    destruct (decide _); cbn [Z.eqb Pos.eqb].
    + eexists. split; [done|]. split; [|done]. apply (K right_buffer_number).
    + eexists. split; [done|]. split; [|done]. apply (K (fun m => u32 (right_buffer_number m + 1))).
Qed.

(** ** Sequences of operations *)

Inductive index_op : Type :=
| OpUpsert (k : double) (v : Z)
| OpFind (q : double).

(** The answers of the searches, in order. *)
Fixpoint run_index (fuel : nat) (os : list index_op) : P (T := T) (list (option Z)) :=
  match os with
  | [] => mret []
  | OpUpsert k v :: os => _ ← upsert fuel k v; run_index fuel os
  | OpFind q :: os => r ← find fuel q; rs ← run_index fuel os; mret (r :: rs)
  end.

(** The same of a finite map. *)
Fixpoint run_map (M : gmap Z Z) (os : list index_op) : list (option Z) :=
  match os with
  | [] => []
  | OpUpsert k v :: os => run_map (<[rank k := v]> M) os
  | OpFind q :: os => M !! rank q :: run_map M os
  end.

(** The map after the operations. *)
Fixpoint map_after (M : gmap Z Z) (os : list index_op) : gmap Z Z :=
  match os with
  | [] => M
  | OpUpsert k v :: os => map_after (<[rank k := v]> M) os
  | OpFind _ :: os => map_after M os
  end.

Fixpoint upserts (os : list index_op) : Z :=
  match os with
  | [] => 0
  | OpUpsert _ _ :: os => upserts os + 1
  | OpFind _ :: os => upserts os
  end.

Lemma upserts_pos os : 0 <= upserts os.
Proof. induction os as [|[|] os IH]; cbn; lia. Qed.

(** Finite keys that a slot can hold, payloads that are not null; a bound of the loaded
    range is not upserted, since [upsert] puts it where [find] does not look. *)
Definition op_ok (lo hi : double) (o : index_op) : Prop :=
  match o with
  | OpUpsert k v => finite k = true /\ LeafNode.storable k /\ v <> 0 /\ rank k <> rank lo /\ rank k <> rank hi
  | OpFind q => finite q = true /\ LeafNode.storable q
  end.

Lemma outside_keys h k :
  finite (plin_min_key (plin h)) = true -> finite (plin_max_key (plin h)) = true -> finite k = true ->
  rank k <> rank (plin_min_key (plin h)) -> rank k <> rank (plin_max_key (plin h)) -> strictly_inside (plin h) k = false ->
  rank k < rank (plin_min_key (plin h)) \/ rank (plin_max_key (plin h)) < rank k.
Proof.
  intros Hmin Hmax Hk Hl Hh E. unfold strictly_inside in E. rewrite !dlt_rank in E by (by apply finite_key).
  apply andb_false_iff in E as [E|E]; apply Z.ltb_ge in E; lia.
Qed.

Lemma run_index_ok f cs os n h M :
  map_ok cs (upserts os + n) h M -> 0 <= n -> Forall (op_ok (plin_min_key (plin h)) (plin_max_key (plin h))) os ->
  exists h', run_index (S f) os h = Ok (run_map M os, h') /\ map_ok cs n h' (map_after M os) /\ same_top h h'.
Proof.
  revert h M. induction os as [|o os IH]; intros h M Hm Hn Hall; [by exists h|].
  apply Forall_cons in Hall as [Ho Hall]. pose proof (upserts_pos os) as Hp.
  destruct o as [k v|q]; cbn [run_index run_map map_after upserts] in *; unfold mbind at 1, P_bind at 1.
  - destruct Ho as (Hk & Hs & Hv & Hl & Hh). replace (upserts os + 1 + n) with (upserts os + n + 1) in Hm by lia.
    assert (K : exists h', upsert (S f) k v h = Ok (tt, h') /\ map_ok cs (upserts os + n) h' (<[rank k := v]> M) /\ same_top h h').
    { destruct (strictly_inside (plin h) k) eqn:Ein; [apply map_upsert_inside; done || lia|].
      pose proof Hm as [Hmin Hmax _ _ _ _ _ _ _ _ _ _].
      assert (Hm' : map_ok cs (upserts os + n) h M).
      { destruct Hm as [M1 M2 M0 M3 M4 M5 M6 M7 M8 M9 M10 M11]. split; try done.
        intros i c Hi. destruct (M8 i c Hi) as (l & ms & [L1 L2 L3 L4 L5 L6 L7 L8 L9 L10 L11]). exists l, ms.
        split; try done. eapply (fits_le (upserts os + n + 1)); [lia|done]. }
      destruct (map_upsert_outside f cs (upserts os + n) h M k v Hm' Hk Hv (outside_keys h k Hmin Hmax Hk Hl Hh Ein)) as (h' & E & Hm2 & Ht & _).
      by exists h'. }
    destruct K as (h' & -> & Hm' & Ht). pose proof Ht as (_ & _ & _ & _ & _ & _ & E1 & E2).
    destruct (IH h' _ Hm' Hn) as (h2 & E & Hm2 & Ht2); [by rewrite E1, E2|].
    exists h2. split; [done|]. split; [done|]. by etransitivity.
  - destruct Ho as [Hq Hs]. destruct (map_find f cs _ h M q Hm Hq Hs) as (ls & -> & Hm' & _).
    destruct (IH (set_leaves h ls) M Hm' Hn Hall) as (h2 & E & Hm2 & Ht2).
    exists h2. unfold mbind, P_bind. rewrite E. split; [done|]. split; [done|]. exact Ht2.
Qed.
(** ** After a bulk load *)

Definition map_of (data : list datum) : gmap Z Z :=
  list_to_map (map (fun kv : datum => (rank kv.1, kv.2)) data).

Section Loaded.
Context (data : list datum) (k0 kn : datum).
Context (Hinc : Segmentation.increasing (map fst data)) (Hhead : head data = Some k0) (Hlast : last data = Some kn).

Lemma data_between kv : kv ∈ data -> rank k0.1 <= rank kv.1 <= rank kn.1.
Proof.
  intros Hin. apply list_elem_of_lookup in Hin as [i Hi].
  rewrite head_lookup in Hhead. rewrite last_lookup in Hlast.
  pose proof (lookup_lt_Some _ _ _ Hi) as Hlt.
  assert (K : forall j kv', data !! j = Some kv' -> map fst data !! j = Some kv'.1).
  { intros j kv' E. by rewrite list_lookup_fmap, E. }
  split.
  - destruct i as [|i]; [replace kv with k0 by congruence; lia|].
    pose proof (increasing_ranks _ 0 (S i) _ _ Hinc ltac:(lia) (K _ _ Hhead) (K _ _ Hi)). lia.
  - destruct (decide (i = pred (length data))) as [->|Hne]; [replace kv with kn by congruence; lia|].
    pose proof (increasing_ranks _ i (pred (length data)) _ _ Hinc ltac:(lia) (K _ _ Hi) (K _ _ Hlast)). lia.
Qed.

Lemma map_of_Some kv : kv ∈ data -> map_of data !! rank kv.1 = Some kv.2.
Proof.
  intros Hin. apply elem_of_list_to_map_1.
  - rewrite <- list_fmap_compose. pose proof (increasing_NoDup data (length data) 0 Hinc) as Hnd.
    rewrite drop_0, firstn_all in Hnd. exact Hnd.
  - apply list_elem_of_fmap. by exists kv.
Qed.

Lemma map_of_None r : (forall kv, kv ∈ data -> rank kv.1 <> r) -> map_of data !! r = None.
Proof.
  intros Hno. apply not_elem_of_list_to_map_1. rewrite <- list_fmap_compose. intros Hin.
  apply list_elem_of_fmap in Hin as (kv & E & Hkv). by apply (Hno kv Hkv).
Qed.
End Loaded.

(** A leaf holds the part of the data that is routed to it. *)
Lemma loaded_values h data cs runs i c run l ms :
  loaded h data cs runs -> Forall loadable data -> Segmentation.increasing (map fst data) ->
  cs !! i = Some c -> runs !! i = Some run -> holds l ms run -> good_model h l ->
  finite (plin_min_key (plin h)) = true -> finite (plin_max_key (plin h)) = true ->
  (forall kv, kv ∈ data -> in_keys h kv.1) ->
  forall q block, in_keys h q -> InnerNode.last_le q cs = Some c -> LeafNode.predicts l q block ->
    LeafNode.value_in ms block q = map_of data !! rank q.
Proof.
  intros [Hd Hsl [Hok _] _ [Hnd _] _ _ _ _ _ _] Hall Hinc Hc Hr Hh Hg Hmin Hmax Hkeys q block Hq Hlast Hp.
  assert (Hfin : Forall (fun kv : datum => finite kv.1 = true) data).
  { eapply Forall_impl; [exact Hall|]. by intros kv (K & _). }
  pose proof (finite_key q (proj1 Hq)) as Kq.
  assert (Hhome : forall kv, kv ∈ data -> rank kv.1 = rank q -> kv ∈ run).
  { intros kv Hkv E. rewrite <- Hd in Hkv. apply list_elem_of_In, in_concat in Hkv as (run' & Hrun' & Hkv).
    apply list_elem_of_In in Hrun', Hkv. apply list_elem_of_lookup in Hrun' as [j Hj].
    destruct (Forall2_lookup_r _ _ _ _ _ Hsl Hj) as (c' & Hc' & _). subst data.
    pose proof (last_le_data cs runs j c' run' kv Hsl Hinc Hfin Hc' Hj Hkv) as E1.
    assert (Kk : is_key kv.1 = true).
    { apply finite_key. apply (proj1 (Forall_forall _ _) Hfin). apply list_elem_of_In, in_concat. exists run'.
      split; apply list_elem_of_In; [by eapply list_elem_of_lookup_2|done]. }
    rewrite (last_le_rank kv.1 q cs Hok Kk Kq E), Hlast in E1. injection E1 as <-.
    pose proof (addresses_inj cs j i c c Hnd Hc' Hc eq_refl) as ->. congruence. }
  destruct (Hh q block Hp) as [_ Hnone].
  destruct (decide (Exists (fun kv : datum => rank kv.1 = rank q) data)) as [Hex|Hno].
  - apply Exists_exists in Hex as (kv & Hkv & E). pose proof (Hhome kv Hkv E) as Hrun.
    destruct (good_predicts h l kv.1 Hmin Hmax Hg (Hkeys kv Hkv)) as [bk Hbk].
    pose proof (good_rank h l kv.1 q bk block Hg (proj1 (Hkeys kv Hkv)) (proj1 Hq) E Hbk Hp) as ->.
    destruct (Hh kv.1 block Hbk) as [Hsome _]. specialize (Hsome kv.2 ltac:(by destruct kv)).
    rewrite <- E, (map_of_Some data Hinc kv Hkv), <- Hsome. unfold LeafNode.value_in. by rewrite E.
  - apply not_Exists_Forall in Hno; [|apply _]. pose proof (proj1 (Forall_forall _ _) Hno) as Hno'.
    rewrite map_of_None; [|exact Hno']. apply Hnone. apply Forall_forall. intros kv Hkv. apply Hno'.
    rewrite <- Hd. apply list_elem_of_In, in_concat. exists run.
    split; apply list_elem_of_In; [by eapply list_elem_of_lookup_2|done].
Qed.

(** And no other key: every entry of the leaf is one of its run. *)
Lemma run_entry h run l ms m q v :
  holds l ms run -> LeafNode.leaf_ok l ms -> good_model h l ->
  finite (plin_min_key (plin h)) = true -> finite (plin_max_key (plin h)) = true -> (forall kv, kv ∈ run -> in_keys h kv.1) ->
  m ∈ ms -> LeafNode.storable q -> m !! rank q = Some v ->
  in_keys h q /\ exists kv, kv ∈ run /\ rank kv.1 = rank q /\ kv.2 = v.
Proof.
  intros Hh Hlo Hg Hmin Hmax Hkeys Hm Hq Hv. apply list_elem_of_lookup in Hm as [b Hb].
  destruct (LeafNode.lo_placed _ _ Hlo b m Hb q v Hq Hv) as (k & Kk & E & Hp).
  assert (Ev : LeafNode.value_in ms (Z.of_nat b) k = Some v) by (unfold LeafNode.value_in; rewrite Nat2Z.id, Hb; cbn; by rewrite E).
  destruct (decide (Exists (fun kv : datum => rank kv.1 = rank k) run)) as [Hex|Hno].
  2:{ apply not_Exists_Forall in Hno; [|apply _]. destruct (Hh k (Z.of_nat b) Hp) as [_ Hnone]. by rewrite (Hnone Hno) in Ev. }
  apply Exists_exists in Hex as (kv & Hkv & Ek).
  destruct (Hkeys kv Hkv) as [Hf Hrange]. pose proof (finite_rank _ Hf) as Hb64.
  assert (Hfk : finite k = true) by (apply rank_finite; [done|lia]).
  assert (Hfq : finite q = true) by (apply rank_finite; [apply Hq|lia]).
  destruct (good_predicts h l kv.1 Hmin Hmax Hg (Hkeys kv Hkv)) as [b' Hb'].
  pose proof (good_rank h l kv.1 k b' (Z.of_nat b) Hg Hf Hfk Ek Hb' Hp) as ->.
  destruct (Hh kv.1 (Z.of_nat b) Hb') as [Hsome _]. specialize (Hsome kv.2 ltac:(by destruct kv)).
  split; [split; [done|lia]|]. exists kv. split; [done|]. split; [lia|].
  unfold LeafNode.value_in in *. rewrite Ek in Hsome. congruence.
Qed.

Lemma loaded_only h data cs runs i c run l ms :
  loaded h data cs runs -> Forall loadable data -> Segmentation.increasing (map fst data) ->
  cs !! i = Some c -> runs !! i = Some run -> holds l ms run -> LeafNode.leaf_ok l ms -> good_model h l ->
  finite (plin_min_key (plin h)) = true -> finite (plin_max_key (plin h)) = true ->
  (forall kv, kv ∈ data -> in_keys h kv.1) -> only cs h c ms.
Proof.
  intros [Hd Hsl [Hok _] _ _ _ _ _ _ _ _] Hall Hinc Hc Hr Hh Hlo Hg Hmin Hmax Hkeys m q v Hm Hq Hv.
  assert (Hin : forall kv, kv ∈ run -> kv ∈ data).
  { intros kv Hkv. rewrite <- Hd. apply list_elem_of_In, in_concat. exists run. split; apply list_elem_of_In; [by eapply list_elem_of_lookup_2|done]. }
  destruct (run_entry h run l ms m q v Hh Hlo Hg Hmin Hmax (fun kv Hkv => Hkeys kv (Hin kv Hkv)) Hm Hq Hv) as (Hqk & kv & Hkv & E & <-).
  split; [done|]. split; [|by apply (proj1 (Forall_forall _ _) Hall), Hin].
  rewrite <- (last_le_rank kv.1 q cs Hok (finite_key _ (proj1 (Hkeys kv (Hin kv Hkv)))) (proj1 Hq) E). subst data.
  apply (last_le_data cs runs i c run kv); try done. eapply Forall_impl; [exact Hall|]. by intros x (K & _).
Qed.

Lemma loaded_map_ok n h data cs runs :
  loaded h data cs runs -> Forall loadable data -> Segmentation.increasing (map fst data) ->
  reach h = true -> room n h = true -> rebuilding (plin h) = 0 ->
  left_buffer (plin h) = LeafNode.ot_new -> right_buffer (plin h) = LeafNode.ot_new ->
  map_ok cs n h (map_of data).
Proof.
  intros Hld Hall Hinc Hreach Hroom Hreb Hleft Hright.
  pose proof Hld as [Hd Hsl Hch Hlv Hadr Hback _ _ _ _ (k0 & kn & Hhead & Hlast & Emin & Emax)].
  pose proof (loaded_routes _ _ _ _ Hld) as Hroutes.
  pose proof Hreach as Hr. unfold reach in Hr. apply andb_true_iff in Hr as [Hr _].
  apply andb_true_iff in Hr as [Hr Hmodels]. apply andb_true_iff in Hr as [Hmin Hmax].
  pose proof (data_between data k0 kn Hinc Hhead Hlast) as Hbetween.
  assert (Hkeys : forall kv, kv ∈ data -> in_keys h kv.1).
  { intros kv Hkv. split; [by apply (proj1 (Forall_forall _ _) Hall)|]. rewrite Emin, Emax. by apply Hbetween. }
  assert (Hk0 : k0 ∈ data) by (rewrite head_lookup in Hhead; by eapply list_elem_of_lookup_2).
  assert (Hempty : forall q, rank q < rank k0.1 \/ rank kn.1 < rank q -> map_of data !! rank q = None).
  { intros q Hq. apply map_of_None. intros kv Hkv. pose proof (Hbetween kv Hkv). lia. }
  split; try done.
  - rewrite Emin, Emax. by apply Hbetween.
  - destruct Hsl as [|c run cs runs Hc Hsl]; [by rewrite <- Hd in Hhead|].
    exists c. split; [done|]. destruct Hc as (_ & _ & kv & rest & -> & Ek).
    rewrite <- Hd in Hhead. injection Hhead as <-. congruence.
  - intros q c Hq Hc. apply Hroutes; [apply Hq|by apply reach_in_reach|done].
  - intros i c Hi. destruct (Forall2_lookup_l _ _ _ _ _ Hsl Hi) as (run & Hrun & _).
    destruct (Hlv i c run Hi Hrun) as (l & ms & L1 & L2 & L3 & L4 & L5 & L6).
    assert (Hg : good_model h l) by (apply (forallb_lookup _ _ _ _ Hmodels L1)).
    destruct (Forall2_lookup_l _ _ _ _ _ Hsl Hi) as (run' & Hrun' & _ & [_ Hidle] & _).
    exists l, ms. split; try done; [apply (forallb_lookup _ _ _ _ Hroom L1)| | |].
    + intros q block Hq _. exact (loaded_values h data cs runs i c run l ms Hld Hall Hinc Hi Hrun L6 Hg Hmin Hmax Hkeys q block Hq).
    + pose proof (Hback i c Hi) as Hp. rewrite L1 in Hp. by injection Hp.
    + by apply (loaded_only h data cs runs i c run l ms).
  - exists ∅. rewrite Hleft. split; [apply LeafNode.ot_rep_new|]. intros q _ Hq.
    rewrite lookup_empty. symmetry. apply Hempty. left. congruence.
  - exists ∅. rewrite Hright. split; [apply LeafNode.ot_rep_new|]. intros q _ Hq.
    rewrite lookup_empty. symmetry. apply Hempty. right. congruence.
  - apply Forall_forall. intros c Hc. apply list_elem_of_lookup in Hc as [i Hi].
    destruct (Forall2_lookup_l _ _ _ _ _ Hsl Hi) as (run & Hrun & _ & _ & kv & rest & -> & <-).
    split; [rewrite Emax; apply Hbetween; rewrite <- Hd; apply list_elem_of_In, in_concat; exists (kv :: rest);
      split; [apply list_elem_of_In; by eapply list_elem_of_lookup_2|by left]|].
    exists kv.2. apply (map_of_Some data Hinc). rewrite <- Hd. apply list_elem_of_In, in_concat. exists (kv :: rest).
    split; [apply list_elem_of_In; by eapply list_elem_of_lookup_2|by left].
Qed.
Lemma loaded_rooted h data cs runs : loaded h data cs runs -> reach h = true -> rooted h cs.
Proof.
  intros Hld Hr. apply (ld_rooted _ _ _ _ Hld). intros a n _ Hn. unfold reach in Hr. apply andb_true_iff in Hr as [_ Hr].
  pose proof (forallb_lookup _ _ _ _ Hr Hn) as Hs. unfold steady in Hs. apply andb_true_iff in Hs as [Hs _]. exact Hs.
Qed.

(** A fresh index after a load. *)
Lemma bulk_load_map_ok n (data : list datum) h :
  Forall loadable data -> Segmentation.increasing (map fst data) -> Z.of_nat (length data) <= max_keys ->
  bulk_load data new_plin = Ok (tt, h) -> reach h = true -> room n h = true ->
  exists cs runs, loaded h data cs runs /\ map_ok cs n h (map_of data) /\ rebuild_times h = 0 /\ smo_lock (plin h) = 0.
Proof.
  intros Hall Hinc Hlen E Hreach Hroom.
  destruct (load_ok data new_plin h E Hall Hinc Hlen) as ((cs & runs & Hld) & Er & El & Eg & Et & Esm).
  - intros a [l Hl]. cbn in Hl. by rewrite lookup_empty in Hl.
  - done.
  - done.
  - done.
  - exists cs, runs. split; [done|]. split; [by apply (loaded_map_ok n h data cs runs)|done].
Qed.

(** ** A search in a given leaf *)

(** The place of the leaf table that [find_through_net] uses for [logic_id]. *)
Definition table_place h (logic_id : Z) : Z :=
  let n := leaf_number (plin h) in
  let k := if logic_id <? 0 then 0 else logic_id in
  if u32 (n - 1) <? u32 k then i32 (n - 1) else k.

(** The record at place [lid] of the leaf table is the last whose key is at most [k]. *)
Definition table_home h (lid : Z) (k : double) : bool :=
  (0 <=? lid) &&
  match local_table h !! Z.to_nat lid with
  | Some r =>
      dle (CacheModel.rkey r) k &&
      match local_table h !! S (Z.to_nat lid) with
      | Some r' => negb (dle (CacheModel.rkey r') k)
      | None => true
      end
  | None => false
  end.

Lemma last_le_at (cs : list child) i c k :
  Forall InnerNode.child_ok cs -> InnerNode.increasing_from None cs -> finite k = true ->
  cs !! i = Some c -> dle c.1 k = true -> (forall d, cs !! S i = Some d -> dle d.1 k = false) ->
  InnerNode.last_le k cs = Some c.
Proof.
  intros Hok Hinc Hk. revert i. induction Hok as [|x cs Hx Hok IH]; intros i Hc Hle Hnext; [done|].
  destruct Hinc as [_ Hinc]. rewrite last_le_cons. destruct i as [|i].
  - injection Hc as ->. rewrite Hle.
    assert (En : InnerNode.last_le k cs = None); [|by rewrite En].
    apply last_le_None. destruct cs as [|d cs]; [done|]. constructor; [by apply Hnext|].
    specialize (Hnext d eq_refl). pose proof Hok as [(Kd & _) Hok']%Forall_cons.
    rewrite dle_rank in Hnext by (by apply finite_key). apply Z.leb_gt in Hnext.
    destruct Hinc as [_ Hinc]. apply Forall_forall. intros e He.
    destruct (proj1 (Forall_forall _ _) Hok' e He) as (Ke & _).
    pose proof (InnerNode.increasing_from_lower _ _ _ Hinc He).
    rewrite dle_rank by (by apply finite_key). apply Z.leb_gt. lia.
  - rewrite (IH (increasing_weaken _ _ Hinc) i); [done|done|done|]. intros d Hd. by apply Hnext.
Qed.

(** The right leaf, searched without its accelerator, answers as the index does. *)
Lemma net_find f cs n h M k v lid answer :
  map_ok cs n h M -> local_table h = map (fun c : child => CacheModel.mkRecord c.1 (ptr c.2) true) cs ->
  in_keys h k -> LeafNode.storable k -> table_home h (table_place h lid) k = true -> M !! rank k = Some v ->
  exists ls, find_through_net (S f) k answer lid h = Ok ((1, v), set_leaves h ls) /\ map_ok cs n (set_leaves h ls) M.
Proof.
  intros Hm Htab Hk Hs Hhome Hv. pose proof Hm as [Hmin Hmax _ _ [Hok Hinc] _ _ _ _ _ _ _].
  destruct (map_find f cs n h M k Hm (proj1 Hk) Hs) as (ls & Ef & Hm1 & _). rewrite Hv in Ef.
  set (at_ := table_place h lid) in Hhome. unfold table_home in Hhome. apply andb_true_iff in Hhome as [Hid Hhome]. apply Z.leb_le in Hid.
  rewrite Htab, !list_lookup_fmap in Hhome. destruct (cs !! Z.to_nat at_) as [c|] eqn:Ec; [|done]. cbn in Hhome.
  apply andb_true_iff in Hhome as [Hle Hnext].
  assert (Hlast : InnerNode.last_le k cs = Some c).
  { apply (last_le_at cs (Z.to_nat at_)); try done; [apply Hk|]. intros d Hd. rewrite Hd in Hnext. cbn in Hnext.
    by apply negb_true_iff in Hnext. }
  destruct (map_at cs n (set_leaves h ls) M k Hm1 Hk Hs) as (i & c' & l & ms & r & block & Hi & Hc' & Hl & Ha).
  assert (c' = c) as -> by congruence.
  pose proof Ha as [_ _ _ _ _ _ A7 A8 A9 A10 A11].
  assert (Hag : LeafNode.agrees l None).
  { unfold LeafNode.agrees, LeafNode.leaf_check_read_lock, LeafNode.leaf_check_write_lock. by rewrite (LeafNode.lo_unlocked _ _ A8). }
  destruct (LeafNode.find_spec (size ls) ls (ptr c.2) l ms k (global_version (plin h)) None block A8 A7 Hag A10 A11 Hs)
    as (l' & El & Hsf & Hok' & [Hc1 Hc2]).
  pose proof (li_values _ _ _ _ _ _ _ _ Hl k block Hk Hs Hlast A11) as Ev. rewrite Ev, Hv in El.
  exists (<[ptr c.2 := l']> ls). split.
  - unfold find_through_net. unfold mbind, P_bind. rewrite Ef. cbn [default]. unfold meta, get.
    cbn [plin set_leaves local_table].
    change (if u32 (leaf_number (plin h) - 1) <? u32 (if lid <? 0 then 0 else lid)
      then i32 (leaf_number (plin h) - 1) else if lid <? 0 then 0 else lid) with at_.
    unfold lift. rewrite Htab. rewrite <- (Z2Nat.id at_) by lia.
    rewrite (zload_nat _ _ (CacheModel.mkRecord c.1 (ptr c.2) true)) by (by rewrite list_lookup_fmap, Ec). mstep.
    pose proof (inside_keys h k Hmin Hmax (proj1 Hk)) as Hin.
    destruct (inside (plin h) k) eqn:Ein; [|exfalso; destruct Hk; lia].
    unfold ld_leaf, id. cbn [CacheModel.addr leaves set_leaves plin] in A7 |- *. rewrite Ein. cbv beta.
    cbn [leaves set_leaves]. rewrite A7. mstep.
    destruct Hag as (_ & -> & _). unfold leaf_fuel, get, on_leaves. cbn [leaves set_leaves plin].
    rewrite El. done.
  - assert (E : set_leaves h (<[ptr c.2 := l']> ls) =
      set_leaves (set_leaves h ls) (<[ptr c.2 := l']> (leaves (set_leaves h ls)))) by done.
    rewrite E. apply (map_put cs n n _ M M i c l ms l' ms); try done.
    + unfold fits. rewrite Hc1, Hc2. apply Hl.
    + intros q bq. by apply Hl.
    + apply Hl.
Qed.
End IndexMap.

(** C2: the index refines a finite map while no leaf fills up.  Load at most 2^28 increasing
    finite keys with non-zero payloads into a fresh index whose models are then in reach and
    whose leaves have room for the upserts to come ([reach], [room]), then run upserts and
    searches of finite keys, where no upsert has payload 0 or is of the smallest or the
    largest loaded key ([op_ok], [loadable]: no key is the free mark, the largest double).  Every search
    answers the payload that was last loaded or upserted for its key, or nothing, in the
    leaves, their overflow trees or the buffers. *)
Theorem plin_refines_map {T} `{LeafNode.OverflowTreeLaws T} (data : list datum) (h : PlinIndex (T := T))
    (os : list index_op) (fuel : nat) :
  Forall loadable data -> Segmentation.increasing (map fst data) -> Z.of_nat (length data) <= max_keys ->
  bulk_load data new_plin = Ok (tt, h) -> reach h = true -> room (upserts os) h = true ->
  Forall (op_ok (plin_min_key (plin h)) (plin_max_key (plin h))) os ->
  exists h', run_index (S fuel) os h = Ok (run_map (map_of data) os, h').
Proof.
  intros Hall Hinc Hlen E Hreach Hroom Hos.
  destruct (bulk_load_map_ok (upserts os) data h Hall Hinc Hlen E Hreach Hroom) as (cs & runs & _ & Hm & _).
  rewrite <- (Z.add_0_r (upserts os)) in Hm.
  destruct (run_index_ok fuel cs os 0 h (map_of data) Hm (Z.le_refl 0) Hos) as (h' & E' & _). by exists h'.
Qed.

(** ** A loaded index *)

(** Two runs of different density: two leaves under one inner node. *)
Definition two_runs : list datum :=
  map (fun i => (double_of_Z i, i + 1)) (seqZ 1 600) ++
  map (fun i => (double_of_Z (1000000 + 1000 * i), i)) (seqZ 1 20).
Definition two_load : res (unit * PlinIndex (T := BPlus.btree_plus)) := bulk_load two_runs new_plin.
Definition the_index (r : res (unit * PlinIndex (T := BPlus.btree_plus))) : PlinIndex (T := BPlus.btree_plus) :=
  match r with Ok (_, h) => h | Err _ => new_plin end.
(** The index itself, so that it is computed once. *)
Definition two_leaves : PlinIndex (T := BPlus.btree_plus) := Eval vm_compute in the_index two_load.

(** An update, an insertion between two keys, a key below and a key above the range. *)
Definition some_ops : list index_op :=
  [OpFind (double_of_Z 25); OpUpsert (double_of_Z 25) 99; OpFind (double_of_Z 25);
   OpFind (double_of_Z 1000500); OpUpsert (double_of_Z 1000500) 7; OpFind (double_of_Z 1000500);
   OpUpsert (double_of_Z (-3)) 8; OpUpsert (double_of_Z 9000000) 9; OpFind (double_of_Z (-3));
   OpFind (double_of_Z 9000000); OpFind (double_of_Z 1002000); OpFind (double_of_Z 1001000)].

Definition loadable_b (kv : datum) : bool :=
  finite kv.1 && negb (rank kv.1 =? rank FREE_FLAG) && negb (kv.2 =? 0).
Lemma loadable_all data : forallb loadable_b data = true -> Forall loadable data.
Proof.
  intros Hb. rewrite forallb_forall in Hb. apply Forall_forall. intros kv Hkv%list_elem_of_In.
  specialize (Hb kv Hkv). unfold loadable_b in Hb. apply andb_true_iff in Hb as [Hb H3].
  apply andb_true_iff in Hb as [H1 H2]. apply negb_true_iff, Z.eqb_neq in H2, H3. done.
Qed.

Fixpoint increasing_b (keys : list double) : bool :=
  match keys with
  | k :: ((k' :: _) as rest) => is_key k && (rank k <? rank k') && increasing_b rest
  | [k] => is_key k
  | [] => true
  end.
Lemma increasing_all keys : increasing_b keys = true -> Segmentation.increasing keys.
Proof.
  induction keys as [|k keys IH]; [done|]. destruct keys as [|k' keys].
  - intros Hk. split; [by constructor|]. intros [|[|i]] a b Ha Hb; done.
  - intros Hb. change (is_key k && (rank k <? rank k') && increasing_b (k' :: keys) = true) in Hb.
    apply andb_true_iff in Hb as [Hb Hrest]. apply andb_true_iff in Hb as [Hk Hlt].
    destruct (IH Hrest) as [I1 I2]. split; [by constructor|]. intros [|i] a b Ha Hb.
    + cbn in Ha, Hb. injection Ha as <-. injection Hb as <-. by apply Z.ltb_lt.
    + by apply (I2 i).
Qed.

Lemma two_leaves_loaded : bulk_load two_runs new_plin = Ok (tt, two_leaves).
Proof. vm_compute. reflexivity. Qed.

Lemma some_ops_ok : Forall (op_ok (plin_min_key (plin two_leaves)) (plin_max_key (plin two_leaves))) some_ops.
Proof.
  assert (E : plin_min_key (plin two_leaves) = double_of_Z 1) by (vm_compute; reflexivity).
  assert (E' : plin_max_key (plin two_leaves) = double_of_Z 1020000) by (vm_compute; reflexivity).
  rewrite E, E'. repeat constructor; vm_compute; discriminate.
Qed.

Lemma plin_refines_map_witness :
  exists h', run_index 1 some_ops two_leaves =
    Ok ([Some 26; Some 99; None; Some 7; Some 8; Some 9; Some 2; Some 1], h').
Proof.
  destruct (plin_refines_map two_runs two_leaves some_ops 0) as (h' & E).
  - apply loadable_all. vm_compute. reflexivity.
  - apply increasing_all. vm_compute. reflexivity.
  - vm_compute. discriminate.
  - exact two_leaves_loaded.
  - vm_compute. reflexivity.
  - vm_compute. reflexivity.
  - exact some_ops_ok.
  - exists h'. rewrite E. f_equal.
Defined.
