(* ===== verification/Rebuild.v ===== *)
(** * The inner nodes after a change (core/index/plin_index.h, upsert_node,
    rebuild_inner_nodes)

    A leaf is put into the inner nodes by [upsert_node], unless its block is full: then it
    is an orphan, which only the leaf before it leads to.  [rebuild_inner_nodes] builds
    new levels over the chain of all the leaves, orphans included, and frees the old ones. *)

From S2P Require Import Prelude Doubles Rounding Slots Routing InnerTree InnerWalk InnerUpsert PlinIndex Levels BulkLoad IndexMap.
From S2P Require LeafNode InnerNode.
Open Scope Z_scope.

Section Rebuild.
Context {T : Type} `{LeafNode.OverflowTreeLaws T}.
Implicit Type h : PlinIndex (T := T).

(** ** The chain of leaves *)

(** The leaves from the address [a] on, along the links. *)
Fixpoint chain_from (ls : gmap Z (Leaf T)) (a : Z) (l : list (Z * Leaf T)) : Prop :=
  match l with
  | [] => True
  | (b, lf) :: rest => b = a /\ ls !! a = Some lf /\ chain_from ls (LeafNode.lf_next lf) rest
  end.

(** The slot that leads to a leaf. *)
Definition slot_for (c : child) (bl : Z * Leaf T) : Prop :=
  c.1 = LeafNode.lf_first_key bl.2 /\ min_key c.2 = c.1 /\ ptr c.2 = bl.1 /\ type c.2 = 0 /\
  LeafNode.agrees bl.2 (Some c.2) /\ idle c.2.

Definition linkable (bl : Z * Leaf T) : Prop :=
  0 <= LeafNode.lf_block_number bl.2 < 2 ^ 29 /\ finite (LeafNode.lf_first_key bl.2) = true /\
  rank (LeafNode.lf_first_key bl.2) <> rank FREE_FLAG.

Lemma leaf_slot_ok (bl : Z * Leaf T) :
  linkable bl -> exists s, LeafNode.get_info bl.1 bl.2 unset_slot = Ok s /\ slot_for (LeafNode.lf_first_key bl.2, s) bl /\
    InnerNode.is_free s = false.
Proof.
  intros (Hb & Hf & Hr). destruct (LeafNode.get_info_slot bl.1 bl.2 unset_slot Hb) as (s & E & Ha & E1 & E2 & E3).
  pose proof (LeafNode.get_info_idle _ _ _ _ E) as Hi. exists s. split; [done|]. split; [done|]. unfold InnerNode.is_free. rewrite E1, deq_rank; [by apply Z.eqb_neq|by apply finite_key|done].
Qed.

Lemma leaf_infos_ok h (l : list (Z * Leaf T)) a :
  chain_from (leaves h) a l -> Forall linkable l ->
  exists cs, leaf_infos (length l) a h = Ok (cs, h) /\ Forall2 slot_for cs l /\ Forall InnerNode.child_ok cs.
Proof.
  revert a. induction l as [|[b lf] l IH]; intros a Hc Hl; [exists []; by split|].
  destruct Hc as (-> & Hb & Hc). apply Forall_cons in Hl as [Hl1 Hl]. destruct (IH _ Hc Hl) as (cs & E & HF & Hok).
  destruct (leaf_slot_ok (a, lf) Hl1) as (s & Es & Hs & Hf). exists ((LeafNode.lf_first_key lf, s) :: cs).
  split; [|split; constructor; try done].
  - cbn [length leaf_infos]. unfold ld_leaf, lift. cbv [mbind P_bind mret P_ret]. rewrite Hb. mstep.
    cbn [fst snd] in Es. rewrite Es. mstep. by rewrite E.
  - split; [apply Hl1|]. by destruct Hs as (_ & ? & _).
Qed.

(** The first keys of the leaves along the chain. *)
Definition first_keys (l : list (Z * Leaf T)) : list double := map (fun bl => LeafNode.lf_first_key bl.2) l.

Lemma slots_for_keys (cs : list child) l : Forall2 slot_for cs l -> map fst cs = first_keys l.
Proof. induction 1 as [|c bl cs l (E & _) HF IH]; [done|]. cbn. by rewrite E, IH. Qed.

Lemma increasing_children (cs : list child) :
  Segmentation.increasing (map fst cs) -> InnerNode.increasing_from None cs.
Proof.
  induction cs as [|c cs IH]; intros Hi; [done|]. split; [done|]. pose proof (IH (increasing_app_inv [c.1] _ Hi)) as Hc.
  destruct cs as [|d cs]; [done|]. destruct Hc as [_ Hc]. split; [|done].
  apply (increasing_ranks _ 0 1 _ _ Hi); [lia|done|done].
Qed.

(** ** The leftmost leaf and the old nodes *)

Lemma leftmost_leaf_ok h (cs : list child) c :
  rooted h cs -> head cs = Some c -> get_leftmost_leaf h = Ok (ptr c.2, h).
Proof.
  intros [_ _ (f & lo & top & Er & Hg & _)] Hc.
  assert (Hne : cs <> []) by (by intros ->). pose proof (grown_height _ _ _ _ _ Hg Hne) as Hf.
  destruct Hg as [_ (parts & HF & <- & _)]. destruct HF as [|k part top parts [Hk Hst] HF]; [done|].
  pose proof (parts_nonempty (S f) (inners h) k part top parts c (List.Forall2_cons (R := fun k part => _) _ _ (conj Hk Hst) HF) Hc) as Hp.
  assert (Hz : zload (roots (plin h)) 0 = Ok k.2).
  { apply (zload_nat _ 0%nat). assert (E : map snd (k :: top) !! 0%nat = Some k.2) by done.
    rewrite <- Er in E. by apply lookup_take_Some in E as [E _]. }
  unfold get_leftmost_leaf, inner_fuel, meta, lift. cbv [mbind P_bind get id]. rewrite Hz. mstep.
  rewrite (tree_leftmost f (size (inners h)) (inners h) k part.1 part.2 c Hk Hp ltac:(lia)). done.
Qed.

(** Destroying the roots of a forest frees its nodes and no other. *)
Lemma destroy_roots_ok h f top parts :
  forest (S f) (inners h) top parts -> NoDup (concat (map snd parts)) ->
  exists ns, destroy_roots (map snd top) h = Ok (tt, set_inners h ns) /\ freed (concat (map snd parts)) (inners h) ns.
Proof.
  intros HF Hnd.
  destruct (forest_destroy (fun i s => InnerNode.destroy (S (size i)) i (ptr s)) (S f) (inners h) top parts) as (ns & E & Hf); [|done|done|].
  { intros ns a cs addrs Ht Hne Hn. apply (tree_destroy f (size ns) ns a cs addrs Ht Hn).
    pose proof (tree_height _ _ _ _ _ Ht Hne). pose proof (heap_count ns addrs Hn) as Hs.
    specialize (Hs (fun b => tree_heap _ _ _ _ _ b Ht)). lia. }
  exists ns. unfold destroy_roots. rewrite E. by mstep.
Qed.

(** ** rebuild_inner_nodes *)

(** The forest of a rooted index, with all its nodes. *)
Lemma rooted_forest h cs :
  rooted h cs -> exists f old parts,
    take (Z.to_nat (root_number (plin h))) (roots (plin h)) = map snd old /\ forest (S f) (inners h) old parts /\
    NoDup (concat (map snd parts)) /\ forall b, b ∈ concat (map snd parts) <-> is_Some (inners h !! b).
Proof.
  intros [_ _ (f & lo & old & Er & [_ (parts & HF & _ & Hnd & Hown)] & Hall)]. exists f, old, parts.
  split_and!; [done..|]. intros b. rewrite Hown. split; [by intros [? _]|]. intros Hb. split; [done|by apply Hall].
Qed.

(** Nodes that were added after the forest was built outlive it. *)
Lemma freed_old h h2 addrs ns lo :
  fresh_inners h -> lo = next_address h -> adds_inners h h2 ->
  (forall b, b ∈ addrs <-> is_Some (inners h !! b)) -> freed addrs (inners h2) ns ->
  (forall g top cs, grown g lo (inners h2) top cs -> grown g lo ns top cs) /\ (forall b, is_Some (ns !! b) -> lo <= b) /\
  (forall b n, lo <= b -> inners h2 !! b = Some n -> ns !! b = Some n).
Proof.
  intros Hfr -> Hadd Hold Hf.
  assert (Hkeep : forall b, next_address h <= b -> ns !! b = inners h2 !! b).
  { intros b Hb. rewrite Hf, decide_False; [done|]. intros Hin%Hold. pose proof (Hfr b Hin). lia. }
  split; [|split].
  - intros g top cs [Hk (parts & HF & Hcs & Hnd & Hown)]. split; [done|]. exists parts. split_and!; [|done|done|].
    + apply (forest_frame _ (inners h2)); [done|]. intros b Hb. apply Hkeep. by apply Hown in Hb as [_ Hb].
    + intros b. rewrite Hown. split; intros [Hb Hle]; (split; [|done]); [by rewrite Hkeep|by rewrite <- Hkeep].
  - intros b Hb. destruct (Z.lt_ge_cases b (next_address h)) as [Hlt|]; [exfalso|done].
    rewrite Hf, (adds_inners_old _ _ _ Hadd Hlt) in Hb. destruct (decide (b ∈ addrs)) as [|Hn]; [by destruct Hb|].
    by apply Hn, Hold.
  - intros b n Hb Hn. by rewrite Hkeep.
Qed.

(** What a rebuild leaves of the rest of the index. *)
Definition renewed h h' : Prop :=
  leaves h' = leaves h /\ smo_lock (plin h') = 0 /\ orphan_number (plin h') = 0 /\
  leaf_number (plin h') = leaf_number (plin h) /\ rebuilding (plin h') = 0 /\
  plin_min_key (plin h') = plin_min_key (plin h) /\ plin_max_key (plin h') = plin_max_key (plin h) /\
  left_buffer (plin h') = left_buffer (plin h) /\ right_buffer (plin h') = right_buffer (plin h).

(** The steps of a rebuild that finds the lock free. *)
Lemma rebuild_steps h (cs : list child) c0 (l : list (Z * Leaf T)) h' :
  rooted h cs -> head cs = Some c0 -> chain_from (leaves h) (ptr c0.2) l -> Forall linkable l ->
  leaf_number (plin h) = Z.of_nat (length l) -> smo_lock (plin h) = 0 -> rebuild_inner_nodes h = Ok (tt, h') ->
  let h1 := set_plin h (set_smo_lock (plin h) lockSet) in
  exists infos top lvl ps h2 addrs ns, Forall2 slot_for infos l /\ Forall InnerNode.child_ok infos /\
    build_levels (S (S (length infos))) infos 0 2 h1 = Ok ((top, lvl, ps), h2) /\ adds_inners h1 h2 /\ fresh_inners h2 /\
    (forall b, b ∈ addrs <-> is_Some (inners h1 !! b)) /\ freed addrs (inners h2) ns /\
    inners h' = ns /\ next_address h' = next_address h2 /\ root_number (plin h') = Z.of_nat (length top) /\
    roots (plin h') = fill_roots (map snd top) (roots (plin h)) /\ renewed h h'.
Proof.
  intros Hroot Hc Hchain Hlink Hnum Hlock E h1. pose proof (rt_fresh _ _ Hroot) as Hfr.
  unfold rebuild_inner_nodes in E. apply P_bind_ok in E as (got & h2 & E1 & E).
  assert (E1' : got = true /\ h2 = h1).
  { unfold smo_write_lock, meta, put_meta, put in E1. cbv [mbind P_bind get mret P_ret] in E1. rewrite Hlock in E1.
    cbn in E1. by injection E1 as <- <-. }
  destruct E1' as [-> ->]. cbn [negb] in E.
  assert (Hroot1 : rooted h1 cs) by (destruct Hroot as [R1 R2 R3]; by split).
  apply P_bind_ok in E as (n & h2 & E1' & E). injection E1' as <- <-.
  apply P_bind_ok in E as (a & h2 & E1' & E). rewrite (leftmost_leaf_ok h1 cs c0 Hroot1 Hc) in E1'. injection E1' as <- <-.
  destruct (leaf_infos_ok h1 l (ptr c0.2) Hchain Hlink) as (infos & Einf & Hslots & Hok).
  apply P_bind_ok in E as (infos' & h2 & E1' & E).
  change (leaf_number (plin h1)) with (leaf_number (plin h)) in E1'. rewrite Hnum, Nat2Z.id, Einf in E1'. injection E1' as <- <-.
  apply P_bind_ok in E as ([[top lvl] ps] & h2 & Et & E).
  pose proof (build_levels_adds _ _ _ _ _ _ _ Et Hfr) as [Hadd Hfr2].
  destruct (rooted_forest h1 cs Hroot1) as (f & old & parts & Eold & HF & Hnd & Hown).
  assert (HF2 : forest (S f) (inners h2) old parts).
  { apply (forest_frame _ (inners h1)); [done|]. intros b Hb. apply Hown in Hb. by rewrite (adds_inners_old _ _ _ Hadd (Hfr b Hb)). }
  exists infos, top, lvl, ps, h2, (concat (map snd parts)).
  apply P_bind_ok in E as ([] & h3 & E1' & E). injection E1' as <-.
  apply P_bind_ok in E as (rs & h3 & E1' & E). injection E1' as <- <-.
  apply P_bind_ok in E as ([] & h3 & E1' & E). injection E1' as <-.
  apply P_bind_ok in E as ([] & h3 & E1' & E). injection E1' as <-.
  apply P_bind_ok in E as ([] & h3 & E1' & E). unfold smo_release_write, put_meta, put in E. injection E as <-.
  pose proof Hadd as (ns2 & nx2 & Eh2 & _). subst h2. cbn in E1'. cbn in Eold. rewrite Eold in E1'.
  match type of E1' with destroy_roots _ ?hh = _ => destruct (destroy_roots_ok hh f old parts HF2 Hnd) as (ns & Ed & Hf) end.
  rewrite Ed in E1'. injection E1' as <-. exists ns. by split_and!.
Qed.

Lemma rebuild_ok h cs c0 (l : list (Z * Leaf T)) h' :
  rooted h cs -> head cs = Some c0 -> chain_from (leaves h) (ptr c0.2) l -> Forall linkable l ->
  Segmentation.increasing (first_keys l) -> l <> [] ->
  leaf_number (plin h) = Z.of_nat (length l) -> Z.of_nat (length l) <= max_keys ->
  smo_lock (plin h) = 0 -> rebuild_inner_nodes h = Ok (tt, h') ->
  (forall a n, inners h' !! a = Some n -> InnerNode.line n = true /\ 4 <= InnerNode.in_block_number n) ->
  exists cs', Forall2 slot_for cs' l /\ rooted h' cs' /\ renewed h h' /\
    forall b, is_Some (inners h' !! b) -> inners h !! b = None.
Proof.
  intros Hroot Hc Hchain Hlink Hinc Hne Hnum Hlen Hlock E Hgood. pose proof (rt_fresh _ _ Hroot) as Hfr.
  destruct (rebuild_steps h cs c0 l h' Hroot Hc Hchain Hlink Hnum Hlock E) as
    (infos & top & lvl & ps & h2 & addrs & ns & Hslots & Hok & Et & Hadd & Hfr2 & Hown & Hf & Ei & En & Ern & Er & Hnew).
  set (h1 := set_plin h _) in *. rewrite <- Ei in Hf.
  destruct (freed_old h1 h2 addrs (inners h') (next_address h1) Hfr eq_refl Hadd Hown Hf) as (Hgrown & Hall & Hkeep).
  pose proof (increasing_children infos ltac:(by rewrite (slots_for_keys _ _ Hslots))) as Hinc'.
  assert (Ht0 : Forall (fun c : child => type c.2 = 0) infos).
  { clear -Hslots. induction Hslots as [|c bl infos l (_ & _ & _ & Hc & _) Hs IH]; by constructor. }
  assert (Hnei : infos <> []) by (intros ->; by inversion Hslots; subst).
  pose proof (Forall2_length _ _ _ Hslots) as Hli.
  destruct (build_levels_ok _ 0 (next_address h1) infos infos 2 h1 top lvl ps h2 Et) as (_ & B2 & g & Hg); try done; try lia.
  - by apply grown_leaves.
  - right. split; [done|]. intros b n Hb Hn. by destruct (Hgood b n (Hkeep b n Hb Hn)).
  - intros b n Hb Hn. by destruct (Hgood b n (Hkeep b n Hb Hn)).
  - exists infos. split; [done|]. split; [|split; [done|intros b Hb; apply Hall in Hb]].
    + split; [done| |].
      * intros b [n Hb]. rewrite En. destruct (Hf b). rewrite Hf in Hb. destruct (decide (b ∈ addrs)); [done|]. apply Hfr2. by eexists.
      * exists g, (next_address h1), top. split; [|split; [by apply Hgrown|exact Hall]].
        rewrite Ern, Er, Nat2Z.id. unfold fill_roots. rewrite take_app_length'; [done|by rewrite length_map].
    + destruct (inners h !! b) eqn:Eb; [|done]. assert (is_Some (inners h !! b)) as Hb' by (by eexists). pose proof (Hfr b Hb').
      change (next_address h1) with (next_address h) in Hb. lia.
Qed.

(** ** A rebuild keeps the map *)

(** A leaf of the chain and the child that leads to it. *)
Definition leaf_of (ls : gmap Z (Leaf T)) (c : child) (bl : Z * Leaf T) : Prop :=
  bl.1 = ptr c.2 /\ ls !! bl.1 = Some bl.2 /\ LeafNode.lf_first_key bl.2 = c.1.

Lemma map_chain_from cs n h M :
  map_ok cs n h M -> forall cs2 cs1, cs = cs1 ++ cs2 ->
  exists l, Forall2 (leaf_of (leaves h)) cs2 l /\ Forall linkable l /\
    forall c, head cs2 = Some c -> chain_from (leaves h) (ptr c.2) l.
Proof.
  intros Hm cs2. pose proof (mo_children _ _ _ _ Hm) as [Hok _].
  induction cs2 as [|c cs2 IH]; intros cs1 E; [exists []; by split_and!|].
  destruct (IH (cs1 ++ [c])) as (l & HF & Hl & Hc); [by rewrite E, <- app_assoc|].
  assert (Hi : cs !! length cs1 = Some c) by (rewrite E; by apply list_lookup_middle).
  destruct (mo_leaves _ _ _ _ Hm _ c Hi) as (lf & ms & Hlf). exists ((ptr c.2, lf) :: l).
  pose proof (li_at _ _ _ _ _ _ _ _ Hlf) as L1. pose proof (li_first _ _ _ _ _ _ _ _ Hlf) as L5.
  split; [by constructor|]. split.
  - constructor; [|done]. destruct (proj1 (Forall_lookup _ _) Hok _ c Hi) as (Kc & Em & Ef).
    pose proof (LeafNode.lo_number _ _ (li_ok _ _ _ _ _ _ _ _ Hlf)). split; [cbn; lia|]. cbn [snd]. rewrite L5. split; [done|].
    unfold InnerNode.is_free in Ef. rewrite Em, deq_rank in Ef by (done || by apply finite_key). by apply Z.eqb_neq.
  - intros c' [= <-]. cbn [chain_from]. split; [done|]. split; [done|].
    rewrite (li_next _ _ _ _ _ _ _ _ Hlf). unfold next_at. rewrite E, lookup_app_r by lia.
    replace (S (length cs1) - length cs1)%nat with 1%nat by lia. destruct cs2 as [|d cs2]; [|by apply Hc].
    by inversion HF; subst.
Qed.

(** Two levels with the same keys, and the leaves at the same addresses. *)
Definition alike (c c' : child) : Prop := c'.1 = c.1 /\ ptr c'.2 = ptr c.2.

Lemma slots_alike ls (cs cs' : list child) l :
  Forall2 (leaf_of ls) cs l -> Forall2 slot_for cs' l -> Forall2 alike cs cs'.
Proof.
  intros HF. revert cs'. induction HF as [|c bl cs l (E1 & _ & E2) HF IH]; intros cs' HS; inversion HS as [|c' ? cs1 ? (S1 & _ & S2 & _) HS1]; subst; constructor.
  - split; congruence.
  - by apply IH.
Qed.

Lemma alike_addresses cs cs' : Forall2 alike cs cs' -> map (fun c : child => ptr c.2) cs' = map (fun c : child => ptr c.2) cs.
Proof. induction 1 as [|c c' cs cs' [_ E] HF IH]; [done|]. cbn. by rewrite E, IH. Qed.

Lemma alike_keys cs cs' : Forall2 alike cs cs' -> map fst cs' = map fst cs.
Proof. induction 1 as [|c c' cs cs' [E _] HF IH]; [done|]. cbn. by rewrite E, IH. Qed.

Lemma alike_next cs cs' i : Forall2 alike cs cs' -> next_at cs' i = next_at cs i.
Proof.
  intros HF. unfold next_at. destruct (proj1 (Forall2_lookup _ _ _) HF (S i)) as [c c' [_ E]|]; [exact E|done].
Qed.

Lemma alike_prev cs cs' i : Forall2 alike cs cs' -> prev_at 0 cs' i = prev_at 0 cs i.
Proof.
  intros HF. destruct i as [|i]; [done|]. cbn. destruct (proj1 (Forall2_lookup _ _ _) HF i) as [c c' [_ E]|]; [exact E|done].
Qed.

Lemma alike_sym cs cs' : Forall2 alike cs cs' -> Forall2 alike cs' cs.
Proof. induction 1 as [|c c' cs cs' [E1 E2] HF IH]; constructor; [by split|done]. Qed.

Lemma alike_last_le q cs cs' c' :
  Forall2 alike cs cs' -> InnerNode.last_le q cs' = Some c' ->
  exists i c, cs !! i = Some c /\ cs' !! i = Some c' /\ InnerNode.last_le q cs = Some c.
Proof.
  intros HF.
  assert (K : match InnerNode.last_le q cs, InnerNode.last_le q cs' with
    | Some c, Some c' => exists i, cs !! i = Some c /\ cs' !! i = Some c'
    | None, None => True | _, _ => False end).
  { induction HF as [|c d cs cs' [E _] HF IH]; [done|]. rewrite !last_le_cons, E.
    destruct (InnerNode.last_le q cs) as [x|], (InnerNode.last_le q cs') as [y|]; try done.
    - destruct IH as (i & H1 & H2). by exists (S i).
    - destruct (dle c.1 q); [by exists 0%nat|done]. }
  intros E. rewrite E in K. destruct (InnerNode.last_le q cs) as [c|] eqn:Ec; [|done].
  destruct K as (i & H1 & H2). by exists i, c.
Qed.

(** Nodes with a single child are left out: they would get three blocks. *)
Definition four_blocks h : bool :=
  forallb (fun an => 4 <=? InnerNode.in_block_number an.2) (map_to_list (inners h)).

Lemma reach_good h : reach h = true -> four_blocks h = true ->
  forall a n, inners h !! a = Some n -> InnerNode.line n = true /\ 4 <= InnerNode.in_block_number n.
Proof.
  intros Hr Hb a n Hn. split; [|apply Z.leb_le; exact (forallb_lookup _ _ _ _ Hb Hn)].
  unfold reach in Hr. apply andb_true_iff in Hr as [_ Hr]. pose proof (forallb_lookup _ _ _ _ Hr Hn) as Hs. cbn [snd] in Hs.
  unfold steady in Hs. apply andb_true_iff in Hs as [Hs _]. apply Hs.
Qed.

(** The slots of the new levels are those of the same leaves. *)
Lemma map_renewed cs cs' n h h' M l :
  map_ok cs n h M -> renewed h h' -> rooted h' cs' -> reach h' = true ->
  Forall2 (leaf_of (leaves h)) cs l -> Forall2 slot_for cs' l -> map_ok cs' n h' M.
Proof.
  intros Hm (R1 & _ & _ & _ & R2 & R3 & R4 & R5 & R6) Hroot Hreach HF HS.
  pose proof (slots_alike _ _ _ _ HF HS) as Ha. pose proof (alike_addresses _ _ Ha) as Eadr.
  destruct Hm as [Hmin Hmax Hord Hreb Hch (c0 & Hc0 & Ec0) [Hnd Hnz] _ Hleaf Hleft Hright Hlive].
  assert (Hk : forall q, in_keys h' q <-> in_keys h q) by (intros q; unfold in_keys; by rewrite R3, R4).
  split; rewrite ?R3, ?R4, ?R5, ?R6; try done.
  - apply (rt_children _ _ Hroot).
  - destruct (Forall2_lookup_l _ _ _ _ _ Ha Hc0) as (c' & Hc' & [E _]). exists c'. split; [done|congruence].
  - split; [by rewrite Eadr|]. clear -Ha Hnz. induction Ha as [|c c' cs cs' [_ E] Ha IH]; [constructor|].
    apply Forall_cons in Hnz as [H1 H2]. constructor; [by rewrite E|by apply IH].
  - intros q c Hq Hc. apply (rooted_routes h' cs' Hroot q c); [apply Hq|by apply reach_in_reach|done].
  - intros i c' Hi. destruct (Forall2_lookup_r _ _ _ _ _ Ha Hi) as (c & Hc & [E1 E2]).
    destruct (Hleaf i c Hc) as (lf & ms & [L1 L2 L3 L4 L5 L6 L7 L8 L9 _ L11]). exists lf, ms.
    destruct (Forall2_lookup_l _ _ _ _ _ HF Hc) as (bl & Hbl & (F1 & F2 & _)).
    destruct (Forall2_lookup_lr _ _ _ _ _ _ HS Hi Hbl) as (_ & _ & _ & _ & Hag & Hidle).
    assert (Elf : bl.2 = lf) by (rewrite F1 in F2; congruence). rewrite Elf in Hag.
    split; try done; [by rewrite R1, E2|by rewrite (alike_next cs cs')|congruence|by unfold good_model; rewrite R3, R4| |by rewrite (alike_prev cs cs')|].
    + intros q block Hq Hs Hlast Hp. destruct (alike_last_le q cs cs' c' Ha Hlast) as (j & d & J1 & J2 & J3).
      assert (j = i) as -> by (by eapply (addresses_inj cs' j i c' c'); [rewrite Eadr|..]).
      assert (d = c) as -> by congruence. apply L8; [by apply Hk|done..].
    + intros m q v Hm Hs Hv. destruct (L11 m q v Hm Hs Hv) as (K1 & K2 & K3). split; [by apply Hk|]. split; [|done].
      destruct (alike_last_le q cs' cs c (alike_sym _ _ Ha) K2) as (j & d & J1 & J2 & J3).
      assert (j = i) as -> by (by eapply (addresses_inj cs j i c c)). congruence.
  - clear -Ha Hlive. induction Ha as [|c c' cs cs' [E _] Ha IH]; [constructor|].
    apply Forall_cons in Hlive as [H1 H2]. constructor; [by rewrite E|by apply IH].
Qed.

Lemma map_rebuild cs n h M h' :
  map_ok cs n h M -> rooted h cs -> leaf_number (plin h) = Z.of_nat (length cs) -> Z.of_nat (length cs) <= max_keys ->
  smo_lock (plin h) = 0 -> rebuild_inner_nodes h = Ok (tt, h') -> reach h' = true -> four_blocks h' = true ->
  exists cs', map_ok cs' n h' M /\ rooted h' cs' /\ map fst cs' = map fst cs /\ renewed h h'.
Proof.
  intros Hm Hroot Hnum Hlen Hlock E Hreach Hfour.
  destruct (map_chain_from cs n h M Hm cs [] eq_refl) as (l & HF & Hl & Hchain).
  pose proof (mo_first _ _ _ _ Hm) as (c0 & Hc0 & _). pose proof (mo_children _ _ _ _ Hm) as [Hok Hinc].
  assert (Hhead : head cs = Some c0) by (by rewrite head_lookup).
  pose proof (Forall2_length _ _ _ HF) as Elen.
  assert (Ekeys : first_keys l = map fst cs).
  { clear -HF. induction HF as [|c bl cs l (_ & _ & E) HF IH]; [done|]. cbn. by rewrite E, <- IH. }
  destruct (rebuild_ok h cs c0 l h' Hroot Hhead (Hchain c0 Hhead) Hl) as (cs' & HS & Hroot' & Hnew & _); try done.
  - rewrite Ekeys. by apply level_increasing.
  - intros ->. by inversion HF; subst.
  - by rewrite <- Elen.
  - by rewrite <- Elen.
  - by apply reach_good.
  - exists cs'. split; [by apply (map_renewed cs cs' n h h' M l)|]. split; [done|]. split; [|done].
    apply alike_keys. by apply (slots_alike (leaves h) cs cs' l).
Qed.

Lemma rooted_same h h' cs : same_top h h' -> rooted h cs -> rooted h' cs.
Proof.
  intros (E1 & E2 & E3 & E4 & _) [R1 R2 R3]. split; [done| |by rewrite E1, E3, E4].
  intros a Ha. rewrite E1 in Ha. rewrite E2. by apply R2.
Qed.
End Rebuild.

(** C6: a leaf's slot is put into the levels.  When the index is the forest over the slots
    [cs] and the key of the new slot is in reach, [upsert_node] answers 1 (the key was
    there), 2 (inserted) or 3 (its block is full: the leaf is an orphan), counts the leaf
    and the orphan, and leaves a forest over the slots with the new one put in, or over
    the same ones after 3: every later search ends at the last slot whose key is at most
    the query. *)
Theorem upsert_node_inserts {T} `{LeafNode.OverflowTreeLaws T} (h : PlinIndex (T := T)) (cs : list child)
    (node : InnerSlot) (c : child) :
  rooted h cs -> InnerNode.child_ok (min_key node, node) -> type node = 0 ->
  in_reach (inners h) (min_key node) -> InnerNode.last_le (min_key node) cs = Some c ->
  exists code h', upsert_node node h = Ok (code, h') /\ 1 <= code <= 3 /\
    (code = 1 <-> rank (min_key node) = rank c.1) /\
    leaf_number (plin h') = (if 1 <? code then u32 (leaf_number (plin h) + 1) else leaf_number (plin h)) /\
    orphan_number (plin h') = (if 2 <? code then u32 (orphan_number (plin h) + 1) else orphan_number (plin h)) /\
    let cs' := if code =? 3 then cs else put_child (min_key node, node) cs in
    rooted h' cs' /\
    forall q d, finite q = true -> in_reach (inners h) q -> InnerNode.last_le q cs' = Some d ->
      exists r, route q h' = Ok (r, h') /\ read_slot r h' = Ok (d.2, h').
Proof.
  intros Hroot Hnew Htype Hr Hc. destruct (upsert_node_ok h cs node c Hroot Hnew Htype Hr Hc) as (code & ns & E & H1 & H2 & H3 & addrs & H4).
  exists code, (set_plin (set_inners h ns) (counted code (plin h))). split; [exact E|]. split; [exact H1|]. split; [exact H2|].
  split; [by cbn; unfold counted; destruct (1 <? code), (2 <? code)|].
  split; [by cbn; unfold counted; destruct (1 <? code), (2 <? code)|]. split; [exact H3|].
  intros q d Hq Hrq Hd. apply (rooted_routes _ _ H3 q d Hq); [by apply (touches_reach addrs _ _ _ H4)|exact Hd].
Qed.

(** C5: a rebuild of the inner nodes changes no answer.  Load at most 2^28 increasing finite
    keys with non-zero payloads, run upserts and searches, rebuild the inner nodes over the
    chain of leaves, run more: all searches answer as the finite map does.  The models are in
    reach after the load and after the rebuild, the leaves have room for all upserts ([room]),
    no new inner node has a single child, and the operations are on finite keys, with no
    upsert of payload 0 or of the smallest or the largest loaded key ([op_ok], [loadable]:
    no key is the free mark, the largest double). *)
Theorem rebuild_keeps_answers {T} `{LeafNode.OverflowTreeLaws T} (data : list datum) (h h1 h2 : PlinIndex (T := T))
    (os1 os2 : list index_op) (answers : list (option Z)) (fuel : nat) :
  Forall loadable data -> Segmentation.increasing (map fst data) -> Z.of_nat (length data) <= max_keys ->
  bulk_load data new_plin = Ok (tt, h) -> reach h = true -> room (upserts os1 + upserts os2) h = true ->
  Forall (op_ok (plin_min_key (plin h)) (plin_max_key (plin h))) (os1 ++ os2) ->
  run_index (S fuel) os1 h = Ok (answers, h1) ->
  rebuild_inner_nodes h1 = Ok (tt, h2) -> reach h2 = true -> four_blocks h2 = true ->
  answers = run_map (map_of data) os1 /\
  exists h3, run_index (S fuel) os2 h2 = Ok (run_map (map_after (map_of data) os1) os2, h3).
Proof.
  intros Hall Hinc Hlen E Hreach Hroom Hos E1 Ereb Hreach2 Hfour. apply Forall_app in Hos as [Hos1 Hos2].
  destruct (bulk_load_map_ok (upserts os1 + upserts os2) data h Hall Hinc Hlen E Hreach Hroom) as (cs & runs & Hld & Hm & _ & Hlock).
  destruct (run_index_ok fuel cs os1 (upserts os2) h (map_of data) Hm (upserts_pos os2) Hos1) as (h1' & E1' & Hm1 & Ht).
  rewrite E1 in E1'. injection E1' as -> <-. split; [done|].
  pose proof Ht as (_ & _ & _ & _ & T5 & T6 & T7 & T8). destruct (ld_number _ _ _ _ Hld) as [Hnum Hcs].
  pose proof (loaded_rooted h data cs runs Hld Hreach) as Hroot.
  destruct (map_rebuild cs (upserts os2) h1 (map_after (map_of data) os1) h2) as (cs' & Hm2 & _ & _ & Hnew); try done.
  - by apply (rooted_same h).
  - rewrite T5, Hnum. apply u32_small. unfold max_keys in Hcs. lia.
  - by rewrite T6.
  - destruct Hnew as (_ & _ & _ & _ & _ & N1 & N2 & _). rewrite <- (Z.add_0_r (upserts os2)) in Hm2.
    destruct (run_index_ok fuel cs' os2 0 h2 (map_after (map_of data) os1) Hm2 (Z.le_refl 0)) as (h3 & E3 & _); [|by exists h3].
    by rewrite N1, N2, T7, T8.
Qed.

(** ** The loaded index, rebuilt *)

Definition ran_ops : PlinIndex (T := BPlus.btree_plus) :=
  Eval vm_compute in match run_index 1 some_ops two_leaves with Ok (_, h) => h | Err _ => two_leaves end.
Definition rebuilt_leaves : PlinIndex (T := BPlus.btree_plus) :=
  Eval vm_compute in the_index (rebuild_inner_nodes ran_ops).
Definition more_ops : list index_op :=
  [OpFind (double_of_Z 25); OpUpsert (double_of_Z 26) 5; OpFind (double_of_Z 26); OpFind (double_of_Z 1000500);
   OpFind (double_of_Z (-3)); OpFind (double_of_Z 1002000)].

Lemma rebuild_keeps_answers_witness :
  rebuild_inner_nodes ran_ops = Ok (tt, rebuilt_leaves) /\
  exists h3, run_index 1 more_ops rebuilt_leaves = Ok ([Some 99; Some 5; Some 7; Some 8; Some 2], h3).
Proof.
  split; [vm_compute; reflexivity|].
  destruct (rebuild_keeps_answers two_runs two_leaves ran_ops rebuilt_leaves some_ops more_ops
    [Some 26; Some 99; None; Some 7; Some 8; Some 9; Some 2; Some 1] 0) as (_ & h3 & E).
  - apply loadable_all. vm_compute. reflexivity.
  - apply increasing_all. vm_compute. reflexivity.
  - vm_compute. discriminate.
  - exact two_leaves_loaded.
  - vm_compute. reflexivity.
  - vm_compute. reflexivity.
  - assert (E : plin_min_key (plin two_leaves) = double_of_Z 1) by (vm_compute; reflexivity).
    assert (E' : plin_max_key (plin two_leaves) = double_of_Z 1020000) by (vm_compute; reflexivity).
    rewrite E, E'. repeat constructor; vm_compute; discriminate.
  - vm_compute. reflexivity.
  - vm_compute. reflexivity.
  - vm_compute. reflexivity.
  - vm_compute. reflexivity.
  - exists h3. rewrite E. f_equal.
Defined.

(** A third leaf's slot, between the two leaves. *)
Definition third_slot : InnerSlot := (InnerNode.demo_child 5000 77).2.
Definition code_of (r : res (Z * PlinIndex (T := BPlus.btree_plus))) : Z := match r with Ok (c, _) => c | Err _ => 0 end.

Lemma upsert_node_inserts_witness :
  exists cs c h', rooted two_leaves cs /\ InnerNode.last_le (double_of_Z 5000) cs = Some c /\
    upsert_node third_slot two_leaves = Ok (2, h') /\ leaf_number (plin h') = 3 /\
    exists d, InnerNode.last_le (double_of_Z 6000) (put_child (double_of_Z 5000, third_slot) cs) = Some d /\
      exists r, route (double_of_Z 6000) h' = Ok (r, h') /\ read_slot r h' = Ok (d.2, h').
Proof.
  destruct (bulk_load_map_ok 0 two_runs two_leaves) as (cs & runs & Hld & Hm & _);
    [apply loadable_all; vm_compute; reflexivity|apply increasing_all; vm_compute; reflexivity|
     vm_compute; discriminate|exact two_leaves_loaded|vm_compute; reflexivity|vm_compute; reflexivity|].
  assert (Hreach : forall z, z = 1 \/ z = 5000 \/ z = 6000 -> in_reach (inners two_leaves) (double_of_Z z)).
  { intros z Hz. apply reach_in_reach; [vm_compute; reflexivity|].
    destruct Hz as [->|[->| ->]]; (split; [vm_compute; reflexivity|split; vm_compute; discriminate]). }
  assert (Hroot : rooted two_leaves cs).
  { apply (ld_rooted _ _ _ _ Hld). intros a n _ Hn. by destruct (Hreach 1 ltac:(by left) a n Hn). }
  assert (Hnew : InnerNode.child_ok (min_key third_slot, third_slot)) by (split; [|split]; vm_compute; reflexivity).
  pose proof (mo_children _ _ _ _ Hm) as [Hok Hinc]. pose proof (mo_first _ _ _ _ Hm) as (c0 & Hc0 & E0).
  assert (Hlast : forall z ds, 1 <= z -> Forall InnerNode.child_ok ds -> c0 ∈ ds -> exists c, InnerNode.last_le (double_of_Z z) ds = Some c).
  { intros z ds Hz Hds Hin. destruct (InnerNode.last_le (double_of_Z z) ds) as [c|] eqn:E; [by exists c|].
    apply last_le_None in E. pose proof (proj1 (Forall_forall _ _) E c0 Hin) as E'. cbn in E'. rewrite E0 in E'.
    rewrite dle_rank in E' by (apply double_of_Z_key || (vm_compute; reflexivity)). apply Z.leb_gt in E'.
    assert (rank (plin_min_key (plin two_leaves)) <= rank (double_of_Z z)) by (apply (double_of_Z_mono 1); lia). lia. }
  assert (Hin : c0 ∈ cs) by (by eapply list_elem_of_lookup_2).
  destruct (Hlast 5000 cs ltac:(lia) Hok Hin) as [c Hc].
  destruct (upsert_node_inserts two_leaves cs third_slot c Hroot Hnew) as (code & h' & E & _ & _ & Hn & _ & Hroot' & Hroute);
    [vm_compute; reflexivity|apply (Hreach 5000); lia|exact Hc|].
  assert (Ecode : code = 2).
  { assert (K : code_of (upsert_node third_slot two_leaves) = 2) by (vm_compute; reflexivity). rewrite E in K. exact K. }
  rewrite Ecode in E, Hn, Hroot', Hroute. exists cs, c, h'. split; [exact Hroot|]. split; [exact Hc|]. split; [exact E|].
  split; [rewrite Hn; vm_compute; reflexivity|].
  destruct (Hlast 6000 (put_child (double_of_Z 5000, third_slot) cs)) as [d Hd]; [lia|apply put_child_ok; [exact Hnew|exact Hok]| |].
  { apply (put_child_in None); [exact Hinc|]. right. split; [exact Hin|]. rewrite E0. vm_compute. discriminate. }
  exists d. split; [exact Hd|]. apply (Hroute (double_of_Z 6000) d); [vm_compute; reflexivity|apply Hreach; lia|exact Hd].
Defined.
