(* ===== verification/LeafSplit.v ===== *)
(** * What a split keeps (core/index/leaf_node.h get_data, plin_index.h split)

    A split collects the data of a full leaf from its slots and its overflow trees, in key
    order, cuts it into segments again and builds new leaves from them.  [get_data] returns
    every key of the leaf once, with its payload ([lists]); the new leaves hold it in runs
    ([runs_answer]); the steps after their construction touch only the leaf and its two
    neighbours ([finishes]).  So the leaves between the neighbours answer as the old leaf
    did. *)

From S2P Require Import Prelude Doubles Rounding Slots Routing PlinIndex Levels BulkLoad IndexMap.
From S2P Require Segmentation LeafNode InnerNode BPage BPlus BPlusTree BPlusMap.
From Stdlib Require Import Sorting.Sorted.
Open Scope Z_scope.

(** ** Lists of data *)

(** The list has one entry for each key that [f] gives a payload. *)
Record lists (f : double -> option Z) (os : list datum) : Prop := {
  ls_keys : Forall (fun kv => is_key kv.1 = true) os;
  ls_once : NoDup (map (fun kv : datum => rank kv.1) os);
  ls_holds : forall k v, LeafNode.storable k ->
    f k = Some v <-> exists kv, kv ∈ os /\ rank kv.1 = rank k /\ kv.2 = v
}.

Lemma lists_perm f os os' : os ≡ₚ os' -> lists f os -> lists f os'.
Proof.
  intros Hp [H1 H2 H3]. split; [by rewrite <- Hp|by rewrite <- Hp|].
  intros k v Hk. rewrite (H3 k v Hk). by setoid_rewrite Hp.
Qed.

(** What an overflow tree returns as its data. *)
Class OverflowDataLaws (T : Type) `{LeafNode.OverflowTreeLaws T} := {
  ot_data_ok t m : LeafNode.ot_rep t m ->
    exists os, LeafNode.ot_data t = Ok os /\ lists (fun k => m !! rank k) os
}.

(** ** One block *)

Definition pair_of (s : LeafNode.DataSlot) : datum := (LeafNode.skey s, LeafNode.spayload s).

(** The mark of a deleted slot is the mark of a free one. *)
Lemma flagged_free s : LeafNode.flagged s = LeafNode.is_free s.
Proof.
  unfold LeafNode.flagged, LeafNode.is_free.
  assert (E : DELETE_FLAG = FREE_FLAG) by (vm_compute; reflexivity). rewrite E. apply orb_diag.
Qed.

Lemma merge_perm n ss os :
  (length ss + length os <= n)%nat -> Forall (fun s => LeafNode.is_free s = false) ss ->
  LeafNode.merge n ss os ≡ₚ map pair_of ss ++ os.
Proof.
  revert ss os. induction n as [|n IH]; intros ss os Hn Hf.
  { destruct ss, os; cbn in Hn; try lia. done. }
  assert (Hr : forall ss', Forall (fun s => LeafNode.is_free s = false) ss' -> LeafNode.rest_of ss' = ss').
  { intros [|s ss'] H; [done|]. apply Forall_cons in H as [H _]. cbn. by rewrite flagged_free, H. }
  destruct ss as [|s ss], os as [|o os]; cbn [LeafNode.merge]; [done| | |].
  - cbn [map app]. rewrite IH; [done|cbn in *; lia|constructor].
  - apply Forall_cons in Hf as [_ Hf]. rewrite Hr by exact Hf. rewrite IH; [done|cbn in *; lia|exact Hf].
  - destruct (dlt o.1 (LeafNode.skey s)).
    + rewrite IH; [|cbn in *; lia|exact Hf]. cbn [map app]. apply (Permutation_middle (pair_of s :: map pair_of ss) os o).
    + apply Forall_cons in Hf as [_ Hf]. rewrite Hr by exact Hf. rewrite IH; [done|cbn in *; lia|exact Hf].
Qed.

Lemma drop_flagged_used ss : Forall (fun s => LeafNode.is_free s = false) ss -> LeafNode.drop_flagged ss = ss.
Proof. intros [|s ss' Hs _]; [done|]. cbn. by rewrite flagged_free, Hs. Qed.

(** The slots in use of a block, then the data of its tree. *)
Definition used (ss : list LeafNode.DataSlot) : list LeafNode.DataSlot :=
  filter (fun s => LeafNode.flagged s = false) ss.

Lemma used_keys_map ss : LeafNode.used_keys ss = map (fun kv : datum => rank kv.1) (map pair_of (used ss)).
Proof.
  induction ss as [|s ss IH]; [done|]. rewrite LeafNode.used_keys_cons. unfold used. rewrite filter_cons.
  rewrite flagged_free. destruct (LeafNode.is_free s) eqn:E.
  - rewrite decide_False by done. exact IH.
  - rewrite decide_True by done. cbn [map]. f_equal. exact IH.
Qed.

Lemma used_all ss : LeafNode.find_slot LeafNode.is_free ss = None -> Forall (fun s => LeafNode.is_free s = false) ss.
Proof. intros Hf. apply LeafNode.find_slot_None in Hf. by apply find_first_None. Qed.

Lemma used_id ss : Forall (fun s => LeafNode.is_free s = false) ss -> used ss = ss.
Proof.
  intros Hf. unfold used. apply filter_all. eapply Forall_impl; [exact Hf|]. intros s Hs. cbn. by rewrite flagged_free.
Qed.

Section Blocks.
Context {T : Type} `{OverflowDataLaws T}.

Lemma block_data_ok gv (b : LeafNode.Block T) m :
  LeafNode.block_rep b m ->
  exists d b', LeafNode.block_data gv b = Ok (d, b') /\ lists (fun k => m !! rank k) d.
Proof.
  intros (_ & Hkeys & _ & mo & Ht & Hd & Hm). unfold LeafNode.block_data.
  rewrite LeafNode.check_global_version_tree. set (ss := sort_by LeafNode.skey (LeafNode.slots b)).
  assert (Hss : ss ≡ₚ LeafNode.slots b) by apply sort_by_perm.
  assert (Hdata : forall os, lists (fun k => mo !! rank k) os ->
    lists (fun k => m !! rank k) (map pair_of (used (LeafNode.slots b)) ++ os)).
  { intros os [O1 O2 O3].
    assert (Hin : forall kv, kv ∈ map pair_of (used (LeafNode.slots b)) ->
      exists s, s ∈ LeafNode.slots b /\ LeafNode.is_free s = false /\ kv = pair_of s).
    { intros kv (s & -> & Hs)%list_elem_of_fmap. unfold used in Hs. apply list_elem_of_filter in Hs as [Hf Hs].
      exists s. by rewrite flagged_free in Hf. }
    assert (Hks : forall s, s ∈ LeafNode.slots b -> is_key (LeafNode.skey s) = true)
      by (apply Forall_forall; exact Hkeys).
    assert (Hstor : forall s, s ∈ LeafNode.slots b -> LeafNode.is_free s = false -> LeafNode.storable (LeafNode.skey s)).
    { intros s Hs Hf. split; [by apply Hks|]. unfold LeafNode.is_free in Hf.
      rewrite deq_rank in Hf by (by rewrite ?Hks). by apply Z.eqb_neq in Hf. }
    split.
    - apply Forall_app. split; [|done]. apply Forall_forall. intros kv Hkv.
      destruct (Hin kv Hkv) as (s & Hs & _ & ->). by apply Hks.
    - rewrite map_app. apply NoDup_app. split; [rewrite <- used_keys_map; by apply (LeafNode.distinct_nodup _ mo)|].
      split; [|done]. intros r Hr Hr'. apply list_elem_of_fmap in Hr as (kv & -> & Hkv).
      destruct (Hin kv Hkv) as (s & Hs & Hf & ->). apply list_elem_of_fmap in Hr' as (kv' & E & Hkv').
      pose proof Hs as Hs'. apply list_elem_of_lookup in Hs' as [i Hi]. destruct (Hd i s Hi Hf) as [Hno _].
      pose proof (proj2 (O3 (LeafNode.skey s) kv'.2 (Hstor s Hs Hf)) ltac:(by exists kv')) as Hyes. congruence.
    - intros k v Hk. rewrite (Hm k Hk). setoid_rewrite elem_of_app.
      destruct (find_first (LeafNode.has_key k) (LeafNode.slots b)) as [s|] eqn:Ef.
      + apply find_first_Some in Ef as (Hs & Hhas). unfold LeafNode.has_key in Hhas.
        rewrite deq_rank in Hhas by (first [by destruct Hk|by apply Hks]). apply Z.eqb_eq in Hhas.
        assert (Hf : LeafNode.is_free s = false).
        { unfold LeafNode.is_free. rewrite deq_rank by (first [done|by apply Hks]). apply Z.eqb_neq.
          rewrite <- Hhas. by destruct Hk. }
        assert (Hus : pair_of s ∈ map pair_of (used (LeafNode.slots b))).
        { apply list_elem_of_fmap. exists s. split; [done|]. unfold used. apply list_elem_of_filter.
          by rewrite flagged_free. }
        apply list_elem_of_lookup in Hs as [i Hi]. destruct (Hd i s Hi Hf) as [Hno Huniq]. split.
        * intros [= <-]. exists (pair_of s). by split; [left|].
        * intros (kv & [Hkv|Hkv] & E & <-).
          -- destruct (Hin kv Hkv) as (s' & Hs' & Hf' & ->). apply list_elem_of_lookup in Hs' as [j Hj].
             cbn in E. pose proof (Huniq j s' Hj Hf' ltac:(congruence)) as ->. cbn. congruence.
          -- pose proof (proj2 (O3 (LeafNode.skey s) kv.2 (Hstor s (list_elem_of_lookup_2 _ _ _ Hi) Hf))
               ltac:(exists kv; split; [done|split; [congruence|done]])) as Hyes. congruence.
      + rewrite (O3 k v Hk). split; [intros (kv & ? & ?); exists kv; tauto|].
        intros (kv & [Hkv|Hkv] & E & Ev); [|by exists kv]. exfalso.
        destruct (Hin kv Hkv) as (s & Hs & _ & ->). rewrite find_first_None, Forall_forall in Ef.
        specialize (Ef s Hs). cbn in Ef, E. unfold LeafNode.has_key in Ef.
        rewrite deq_rank in Ef by (first [by destruct Hk|by apply Hks]). apply Z.eqb_neq in Ef. congruence. }
  destruct (LeafNode.overflow_tree (LeafNode.header b)) as [t|].
  - destruct Ht as [Hrep Hfull]. destruct (ot_data_ok t mo Hrep) as (os & -> & Hos). mstep.
    eexists _, _. split; [reflexivity|]. apply used_all in Hfull.
    assert (Hfull' : Forall (fun s => LeafNode.is_free s = false) ss) by (by rewrite Hss).
    eapply lists_perm; [|by apply (Hdata os)]. rewrite drop_flagged_used, merge_perm, used_id by done.
    by rewrite Hss.
  - mstep. eexists _, _. split; [reflexivity|]. subst mo.
    eapply lists_perm; [|apply (Hdata [])].
    + rewrite app_nil_r. unfold used. by rewrite Hss.
    + split; [constructor|constructor|]. intros k v _. rewrite lookup_empty. split; [done|].
      intros (kv & Hkv & _). by apply elem_of_nil in Hkv.
Qed.

(** Without the entries of the free mark. *)
Definition stored (os : list datum) : list datum := filter (fun kv => deq kv.1 FREE_FLAG = false) os.

Lemma stored_in os kv :
  Forall (fun kv : datum => is_key kv.1 = true) os ->
  kv ∈ stored os <-> kv ∈ os /\ LeafNode.storable kv.1.
Proof.
  intros Hk. unfold stored. rewrite list_elem_of_filter.
  assert (G : kv ∈ os -> deq kv.1 FREE_FLAG = false <-> LeafNode.storable kv.1).
  { intros Hin. pose proof (proj1 (Forall_forall _ _) Hk kv Hin) as K. cbn in K. unfold LeafNode.storable.
    rewrite deq_rank, Z.eqb_neq by done. tauto. }
  tauto.
Qed.

Lemma stored_app os os' : stored (os ++ os') = stored os ++ stored os'.
Proof. apply filter_app. Qed.

Lemma stored_lists f os : lists f os -> lists f (stored os).
Proof.
  intros [L1 L2 L3]. split.
  - apply Forall_forall. intros kv Hkv. apply (stored_in os kv L1) in Hkv as [Hkv _].
    by apply (proj1 (Forall_forall _ _) L1).
  - eapply sublist_NoDup; [exact L2|]. apply fmap_sublist. unfold stored. apply sublist_filter.
  - intros k v Hk. rewrite (L3 k v Hk). split; intros (kv & Hkv & E & Ev); exists kv.
    + split; [|done]. apply (stored_in os kv L1). split; [done|]. destruct Hk as [Kk Nk].
      split; [by apply (proj1 (Forall_forall _ _) L1)|congruence].
    + split; [by apply (stored_in os kv L1) in Hkv as [? _]|done].
Qed.

(** The payload that the first map with the key gives it. *)
Definition union_of (ms : list (gmap Z Z)) (k : double) : option Z := head (omap (fun m : gmap Z Z => m !! rank k) ms).

(** No key is in two of the maps. *)
Definition apart (ms : list (gmap Z Z)) : Prop :=
  forall i j m m' k, ms !! i = Some m -> ms !! j = Some m' -> LeafNode.storable k ->
    is_Some (m !! rank k) -> is_Some (m' !! rank k) -> i = j.

Lemma union_at ms i m k v :
  apart ms -> LeafNode.storable k -> ms !! i = Some m -> m !! rank k = Some v -> union_of ms k = Some v.
Proof.
  intros Ha Hk. revert i. induction ms as [|m0 ms IH]; intros [|i] Hi Hv; try done; unfold union_of; cbn [omap list_omap].
  - injection Hi as ->. by rewrite Hv.
  - cbn in Hi. destruct (m0 !! rank k) as [w|] eqn:E.
    + pose proof (Ha 0%nat (S i) m0 m k eq_refl Hi Hk ltac:(by eexists) ltac:(by eexists)). done.
    + apply (IH ltac:(intros a b x y q Hx Hy Hq Hxq Hyq; pose proof (Ha (S a) (S b) x y q Hx Hy Hq Hxq Hyq); lia) i Hi Hv).
Qed.

Lemma union_none ms k : Forall (fun m : gmap Z Z => m !! rank k = None) ms -> union_of ms k = None.
Proof. unfold union_of. induction 1 as [|m ms Hm _ IH]; [done|]. cbn. by rewrite Hm. Qed.

Lemma blocks_data_ok gv (bs : list (LeafNode.Block T)) ms :
  Forall2 LeafNode.block_rep bs ms -> apart ms ->
  exists ds bs', LeafNode.blocks_data gv bs = Ok (ds, bs') /\ lists (union_of ms) (stored ds) /\
    Forall (fun kv : datum => is_key kv.1 = true) ds.
Proof.
  intros HF. induction HF as [|b m bs ms Hb HF IH]; intros Ha.
  { exists [], []. split; [done|]. split; [|constructor]. split; [constructor|constructor|].
    intros k v _. split; [done|]. intros (kv & Hkv & _). by apply elem_of_nil in Hkv. }
  assert (Ha' : apart ms).
  { intros i j x y k Hi Hj Hk Hx Hy. pose proof (Ha (S i) (S j) x y k Hi Hj Hk Hx Hy). lia. }
  cbn [LeafNode.blocks_data]. destruct (block_data_ok gv b m Hb) as (d & b' & -> & Hd). mstep.
  destruct (IH Ha') as (ds & bs' & -> & Hds & Hks). mstep. exists (d ++ ds), (b' :: bs'). split; [done|].
  assert (Hks' : Forall (fun kv : datum => is_key kv.1 = true) (d ++ ds))
    by (apply Forall_app; split; [apply Hd|done]).
  split; [|done]. rewrite stored_app. pose proof (stored_lists _ _ Hd) as [D1 D2 D3]. destruct Hds as [E1 E2 E3].
  assert (Hfrom : forall kv, kv ∈ stored ds -> exists j x, ms !! j = Some x /\ x !! rank kv.1 = Some kv.2).
  { intros kv Hkv. assert (Hst : LeafNode.storable kv.1) by (apply (stored_in ds kv Hks) in Hkv as [_ ?]; done).
    pose proof (proj2 (E3 kv.1 kv.2 Hst) ltac:(by exists kv)) as Hu. unfold union_of in Hu.
    destruct (omap (fun m : gmap Z Z => m !! rank kv.1) ms) as [|w ws] eqn:Eo; [done|]. injection Hu as ->.
    assert (Hw : kv.2 ∈ omap (fun m : gmap Z Z => m !! rank kv.1) ms) by (rewrite Eo; apply list_elem_of_here).
    apply list_elem_of_omap in Hw as (x & Hx & Hw). apply list_elem_of_lookup in Hx as [j Hj]. by exists j, x. }
  split.
  - by apply Forall_app.
  - rewrite map_app. apply NoDup_app. split; [done|]. split; [|done]. intros r Hr Hr'.
    apply list_elem_of_fmap in Hr as (kv & -> & Hkv). apply list_elem_of_fmap in Hr' as (kv' & E & Hkv').
    assert (Hst : LeafNode.storable kv.1).
    { apply (stored_in d kv (ls_keys _ _ Hd)) in Hkv as [_ ?]. done. }
    pose proof (proj2 (D3 kv.1 kv.2 Hst) ltac:(by exists kv)) as Hm.
    destruct (Hfrom kv' Hkv') as (j & x & Hj & Hx). rewrite <- E in Hx.
    pose proof (Ha 0%nat (S j) m x kv.1 eq_refl Hj Hst ltac:(by eexists) ltac:(by eexists)). done.
  - intros k v Hk. setoid_rewrite elem_of_app.
    assert (Eu : union_of (m :: ms) k = match m !! rank k with Some w => Some w | None => union_of ms k end).
    { unfold union_of. cbn. by destruct (m !! rank k). }
    rewrite Eu. destruct (m !! rank k) as [w|] eqn:Em.
    + split.
      * intros [= ->]. destruct (proj1 (D3 k v Hk) Em) as (kv & Hkv & ?). exists kv. by split; [left|].
      * intros (kv & [Hkv|Hkv] & E & Ev).
        -- rewrite <- Em. apply (D3 k v Hk). by exists kv.
        -- destruct (Hfrom kv Hkv) as (j & x & Hj & Hx). rewrite E in Hx.
           pose proof (Ha 0%nat (S j) m x k eq_refl Hj Hk ltac:(by eexists) ltac:(by eexists)). done.
    + rewrite (E3 k v Hk). split; intros (kv & Hkv & E & Ev); exists kv; [by split; [right|]|].
      destruct Hkv as [Hkv|Hkv]; [|done]. exfalso.
      pose proof (proj2 (D3 k v Hk) ltac:(by exists kv)). congruence.
Qed.
End Blocks.

(** ** The data of a leaf *)

(** The two zeros have the same image under a model. *)
Lemma linear_zeros (s s' : bool) slope intercept :
  linear (SpecFloat.S754_zero s) slope intercept = linear (SpecFloat.S754_zero s') slope intercept.
Proof.
  unfold linear. destruct slope as [a|a| |a m e]; try reflexivity.
  all: destruct (double_of_float intercept) as [c|c| |c n f]; try reflexivity.
  all: destruct s, s', a; try reflexivity; try (destruct c; reflexivity).
Qed.

Lemma rank_zero x : is_key x = true -> rank x = 0 -> exists s, x = SpecFloat.S754_zero s.
Proof.
  intros Kx E. destruct (rank_inj x (SpecFloat.S754_zero false) Kx eq_refl E) as [->|_]; [by exists false|].
  destruct x as [s|s| |s m e]; [by exists s| |done|]; exfalso.
  - destruct s; vm_compute in E; discriminate.
  - cbn [is_key] in Kx. pose proof (valid_finite _ _ _ Kx). pose proof (rank_bound _ _ _ Kx). cbn [rank] in E.
    destruct s; lia.
Qed.

Lemma predict_rank k k' sl ic bn :
  is_key k = true -> is_key k' = true -> rank k = rank k' ->
  LeafNode.predict_block k sl ic bn = LeafNode.predict_block k' sl ic bn.
Proof.
  intros Kk Kk' E. destruct (rank_inj k k' Kk Kk' E) as [->|[E1 E2]]; [done|].
  destruct (rank_zero k Kk E1) as [s ->], (rank_zero k' Kk' E2) as [s' ->].
  unfold LeafNode.predict_block. by rewrite (linear_zeros s s').
Qed.

Section LeafData.
Context {T : Type} `{OverflowDataLaws T}.
Implicit Type l : LeafNode.Leaf T.

Lemma predicts_rank l k k' b b' :
  is_key k = true -> is_key k' = true -> rank k = rank k' ->
  LeafNode.predicts l k b -> LeafNode.predicts l k' b' -> b = b'.
Proof.
  unfold LeafNode.predicts. intros Kk Kk' E Hp Hp'. rewrite (predict_rank k k') in Hp by done. congruence.
Qed.

(** A key of a block's map is predicted there. *)
Lemma in_block l ms i m k v :
  LeafNode.leaf_ok l ms -> LeafNode.storable k -> ms !! i = Some m -> m !! rank k = Some v ->
  LeafNode.predicts l k (Z.of_nat i).
Proof.
  intros Hok Hk Hi Hv. destruct (LeafNode.lo_placed _ _ Hok i m Hi k v Hk Hv) as (k' & Kk' & E & Hp).
  unfold LeafNode.predicts in *. by rewrite <- (predict_rank k' k) by (done || apply Hk).
Qed.

Lemma leaf_apart l ms : LeafNode.leaf_ok l ms -> apart ms.
Proof.
  intros Hok i j m m' k Hi Hj Hk [v Hv] [v' Hv'].
  pose proof (in_block l ms i m k v Hok Hk Hi Hv) as P1. pose proof (in_block l ms j m' k v' Hok Hk Hj Hv') as P2.
  unfold LeafNode.predicts in *. rewrite P1 in P2. injection P2. lia.
Qed.

(** The payload of a key in a leaf. *)
Lemma union_value l ms k block :
  LeafNode.leaf_ok l ms -> LeafNode.storable k -> LeafNode.predicts l k block ->
  union_of ms k = LeafNode.value_in ms block k.
Proof.
  intros Hok Hk Hp. destruct (LeafNode.leaf_block l ms k block Hok Hp) as (b & m & Hb & _ & _ & Hm & _).
  unfold LeafNode.value_in. rewrite Hm. cbn. destruct (m !! rank k) as [v|] eqn:Ev.
  - by apply (union_at ms (Z.to_nat block) m k v (leaf_apart l ms Hok)).
  - apply union_none. apply Forall_lookup. intros j x Hj. destruct (x !! rank k) as [w|] eqn:Ew; [|done].
    pose proof (in_block l ms j x k w Hok Hk Hj Ew) as Hp'. unfold LeafNode.predicts in *. rewrite Hp in Hp'.
    injection Hp' as ->. rewrite Nat2Z.id in Hm. congruence.
Qed.

(** Data in key order. *)
Lemma sorted_increasing os :
  Forall (fun kv : datum => is_key kv.1 = true) os -> StronglySorted (not_above fst) os ->
  NoDup (map (fun kv : datum => rank kv.1) os) -> Segmentation.increasing (map fst os).
Proof.
  intros Hk Hs Hn. split; [by apply Forall_map|]. induction Hs as [|x os Hs IH Hx]; [done|].
  apply Forall_cons in Hk as [Kx Hk]. cbn [map] in Hn. apply NoDup_cons in Hn as [Hni Hn].
  intros [|i] k k' Hi Hi'; [|by apply (IH Hk Hn i)]. cbn in Hi, Hi'. injection Hi as <-.
  destruct os as [|y os]; [done|]. injection Hi' as <-. apply Forall_cons in Hx as [Hxy _].
  apply Forall_cons in Hk as [Ky _]. unfold not_above in Hxy. cbn in Ky.
  assert (Hle : rank x.1 <= rank y.1) by (rewrite dlt_rank in Hxy by done; by apply Z.ltb_ge in Hxy).
  assert (rank x.1 <> rank y.1); [|lia]. intros E. apply Hni. rewrite E. apply list_elem_of_here.
Qed.

Lemma sorted_filter {A} (R : A -> A -> Prop) (P : A -> Prop) `{!forall x, Decision (P x)} (xs : list A) :
  StronglySorted R xs -> StronglySorted R (filter P xs).
Proof.
  induction 1 as [|x xs Hs IH Hx]; [constructor|]. rewrite filter_cons. destruct (decide (P x)); [|done].
  constructor; [done|]. apply Forall_forall. intros y [_ Hy]%list_elem_of_filter.
  by apply (proj1 (Forall_forall _ _) Hx).
Qed.

(** [get_data] of a leaf, its locks held or not. *)
Lemma leaf_data_ok ls a l ms gv :
  ls !! a = Some l -> LeafNode.leaf_ok (LeafNode.leaf_release_lock l) ms ->
  exists data bs, LeafNode.get_data a gv ls = Ok (data, <[a := LeafNode.set_blocks l bs]> ls) /\
    lists (union_of ms) data /\ Segmentation.increasing (map fst data) /\
    Forall (fun kv : datum => LeafNode.storable kv.1) data.
Proof.
  intros Ha Hok. destruct (blocks_data_ok gv (LeafNode.blocks l) ms) as (ds & bs & E & Hl & Hk);
    [apply Hok|by apply (leaf_apart (LeafNode.leaf_release_lock l))|].
  exists (stored (sort_by fst ds)), bs. unfold LeafNode.get_data, mbind, LeafNode.L_bind, LeafNode.ldl, LeafNode.liftl, LeafNode.sdl.
  rewrite Ha. mstep. rewrite E. mstep. split; [done|].
  assert (Hp : stored (sort_by fst ds) ≡ₚ stored ds) by (unfold stored; by rewrite sort_by_perm).
  assert (Hls : lists (union_of ms) (stored (sort_by fst ds))) by (by apply (lists_perm _ (stored ds))).
  split; [done|]. split.
  - apply sorted_increasing; [apply Hls| |apply Hls]. unfold stored. by apply sorted_filter, sort_by_sorted.
  - apply Forall_forall. intros kv Hkv. rewrite Hp in Hkv. by apply (stored_in ds kv Hk) in Hkv as [_ ?].
Qed.
End LeafData.

(** The program's own tree. *)
Lemma recs_once rs : BPage.sorted_recs rs -> NoDup (map (fun r => rank (BPage.key r)) rs).
Proof.
  induction 1 as [|r rs Hr _ IH]; [constructor|]. cbn [map]. apply NoDup_cons. split; [|done].
  intros (r' & E & Hr')%list_elem_of_fmap. pose proof (proj1 (Forall_forall _ _) Hr r' Hr'). cbn in *. lia.
Qed.

Lemma recs_find rs r k :
  BPage.sorted_recs rs -> BPage.keys_ok rs -> is_key k = true -> r ∈ rs -> rank (BPage.key r) = rank k ->
  BPage.find_key k rs = Some r.
Proof.
  intros Hs Hk Kk Hr E. unfold BPage.find_key. induction Hs as [|x rs Hx _ IH]; [by apply elem_of_nil in Hr|].
  apply Forall_cons in Hk as [Kx Hk]. cbn [find_first]. rewrite deq_rank by done.
  apply elem_of_cons in Hr as [->|Hr]; [by rewrite E, Z.eqb_refl|].
  pose proof (proj1 (Forall_forall _ _) Hx r Hr). cbn in *. rewrite (proj2 (Z.eqb_neq _ _)) by lia. by apply IH.
Qed.

#[export] Instance btree_data_laws : OverflowDataLaws BPlus.btree_plus.
Proof.
  constructor. intros t m (g & Hwf & Hm). pose proof Hwf as [[_ _ _ _ Ho] _].
  apply BPlusTree.flatten_ordered in Ho as (Hs & K & _). exists (BPlusMap.bindings (BPlusTree.flatten g)).
  change (LeafNode.ot_data t) with (fst <$> BPlus.get_data t). rewrite (BPlusMap.get_data_ok t g Hwf).
  split; [done|]. unfold BPlusMap.bindings. split.
  - by apply Forall_map.
  - rewrite map_map. by apply recs_once.
  - intros k v Hk. rewrite <- (Hm k (proj1 Hk)). split.
    + destruct (BPage.find_key k (BPlusTree.flatten g)) as [r|] eqn:Ef; [|done]. intros [= <-].
      apply find_first_Some in Ef as (Hr & E). exists (BPage.key r, BPage.val r).
      split; [apply list_elem_of_fmap; by exists r|].
      rewrite deq_rank in E by (first [apply Hk|by apply (proj1 (Forall_forall _ _) K)]). apply Z.eqb_eq in E. by split.
    + intros (kv & (r & -> & Hr)%list_elem_of_fmap & E & <-). cbn in E |- *.
      by rewrite (recs_find _ r k Hs K (proj1 Hk) Hr E).
Qed.

(** ** The new leaves *)

Section NewLeaves.
Context {T : Type} `{OverflowDataLaws T}.

(** The payloads of a leaf can be written to new leaves: the keys are finite, no payload is
    null, and there are at most [max_keys] of them. *)
Record splittable (ms : list (gmap Z Z)) : Prop := {
  sp_values : forall k v, LeafNode.storable k -> union_of ms k = Some v -> finite k = true /\ v <> 0;
  sp_count : Z.of_nat (sum_list (map size ms)) <= max_keys
}.

Lemma union_in ms k v : union_of ms k = Some v -> exists m, m ∈ ms /\ m !! rank k = Some v.
Proof.
  unfold union_of. induction ms as [|m ms IH]; [done|]. cbn. destruct (m !! rank k) as [w|] eqn:E.
  - intros [= <-]. exists m. by split; [left|].
  - intros Hv. destruct (IH Hv) as (x & Hx & ?). exists x. by split; [right|].
Qed.

Lemma data_loadable ms data :
  lists (union_of ms) data -> Forall (fun kv : datum => LeafNode.storable kv.1) data -> splittable ms ->
  Forall loadable data /\ Z.of_nat (length data) <= max_keys.
Proof.
  intros [L1 L2 L3] Hst [Hv Hc].
  assert (Hhas : forall kv, kv ∈ data -> union_of ms kv.1 = Some kv.2).
  { intros kv Hkv. apply L3; [by apply (proj1 (Forall_forall _ _) Hst)|by exists kv]. }
  split.
  - apply Forall_forall. intros kv Hkv. pose proof (proj1 (Forall_forall _ _) Hst kv Hkv) as Hk. cbn in Hk.
    destruct (Hv kv.1 kv.2 Hk (Hhas kv Hkv)). split; [done|]. by split; [apply Hk|].
  - etransitivity; [|exact Hc]. apply inj_le. rewrite <- (length_map (fun kv : datum => rank kv.1) data).
    assert (E : sum_list (map size ms) = length (concat (map (fun m : gmap Z Z => (map_to_list m).*1) ms))).
    { clear. induction ms as [|m ms IH]; [done|]. cbn [map concat]. rewrite length_app, <- IH, length_fmap. cbn. by rewrite <- length_map_to_list. }
    rewrite E. apply submseteq_length, NoDup_submseteq; [done|].
    intros r (kv & -> & Hkv)%list_elem_of_fmap. destruct (union_in ms kv.1 kv.2 (Hhas kv Hkv)) as (m & Hm & Hr).
    apply list_elem_of_In, in_concat. exists (map_to_list m).*1. split.
    + apply in_map_iff. exists m. split; [done|]. by apply list_elem_of_In.
    + apply list_elem_of_In, list_elem_of_fmap. exists (rank kv.1, kv.2). split; [done|]. by apply elem_of_map_to_list.
Qed.

(** The leaf at the slot holds exactly the payload [f k] under [k]. *)
Definition answers (ls : gmap Z (Leaf T)) (f : double -> option Z) (k : double) (c : child) : Prop :=
  exists l ms, ls !! ptr c.2 = Some l /\ LeafNode.leaf_ok l ms /\ LeafNode.agrees l (Some c.2) /\
    forall block, LeafNode.predicts l k block -> LeafNode.value_in ms block k = f k.

(** A key that is in no run is not in the list; a run that has the key is the run of the
    chosen leaf. *)
Section RunValues.
Variables (f : double -> option Z) (accs : list child) (runs : list (list datum)) (k : double).
Hypothesis Hl : lists f (concat runs).
Hypothesis Hinc : Segmentation.increasing (map fst (concat runs)).
Hypothesis Hall : Forall loadable (concat runs).
Hypothesis Hsl : Forall2 slot_over accs runs.
Hypothesis Hk : LeafNode.storable k.
Hypothesis Hfk : finite k = true.

Lemma runs_finite : Forall (fun kv : datum => finite kv.1 = true) (concat runs).
Proof. eapply Forall_impl; [exact Hall|]. by intros kv (K & _). Qed.

Lemma run_home kv :
  kv ∈ concat runs -> rank kv.1 = rank k ->
  exists j c run, accs !! j = Some c /\ runs !! j = Some run /\ kv ∈ run /\ InnerNode.last_le k accs = Some c.
Proof.
  intros Hkv E. destruct (slots_increasing accs runs Hsl Hinc) as [Hok _].
  pose proof (finite_key _ (proj1 (Forall_forall _ _) runs_finite kv Hkv)) as Kv.
  apply list_elem_of_In, in_concat in Hkv as (run & Hrun & Hkv). apply list_elem_of_In in Hrun, Hkv.
  apply list_elem_of_lookup in Hrun as [j Hj]. destruct (Forall2_lookup_r _ _ _ _ _ Hsl Hj) as (c & Hc & _).
  exists j, c, run. split_and!; [done..|]. rewrite <- (last_le_rank kv.1 k accs Hok Kv (finite_key k Hfk) E).
  apply (last_le_data accs runs j c run kv); try done. apply runs_finite.
Qed.

Lemma run_absent : (forall kv, kv ∈ concat runs -> rank kv.1 <> rank k) -> f k = None.
Proof.
  intros Hno. destruct (f k) as [v|] eqn:Ef; [|done]. apply (ls_holds _ _ Hl k v Hk) in Ef as (kv & Hkv & E & _).
  by destruct (Hno kv Hkv).
Qed.

Lemma run_value i c run (l : Leaf T) ms block :
  NoDup (map (fun c : child => ptr c.2) accs) -> InnerNode.last_le k accs = Some c ->
  accs !! i = Some c -> runs !! i = Some run -> holds l ms run -> LeafNode.predicts l k block ->
  LeafNode.value_in ms block k = f k.
Proof.
  intros Hnd Ec Hi Hr Hh Hp. destruct (decide (Exists (fun kv : datum => rank kv.1 = rank k) run)) as [Hex|Hex].
  - apply Exists_exists in Hex as (kv & Hkv & E).
    assert (Hin : kv ∈ concat runs).
    { apply list_elem_of_In, in_concat. exists run. split; apply list_elem_of_In; [|done]. by eapply list_elem_of_lookup_2. }
    pose proof (finite_key _ (proj1 (Forall_forall _ _) runs_finite kv Hin)) as Kv.
    assert (Hp' : LeafNode.predicts l kv.1 block).
    { unfold LeafNode.predicts in *. rewrite (predict_rank kv.1 k); [done|done|by apply finite_key|done]. }
    destruct (Hh kv.1 block Hp') as [Hsome _]. specialize (Hsome kv.2 ltac:(by destruct kv)).
    unfold LeafNode.value_in in *. rewrite E in Hsome. rewrite Hsome. symmetry. apply (ls_holds _ _ Hl k _ Hk).
    by exists kv.
  - apply not_Exists_Forall in Hex; [|apply _]. destruct (Hh k block Hp) as [_ Hnone]. rewrite (Hnone Hex).
    symmetry. apply run_absent. intros kv Hkv E. destruct (run_home kv Hkv E) as (j & c' & run' & Hj & Hr' & Hkv' & Ec').
    rewrite Ec in Ec'. injection Ec' as <-.
    pose proof (addresses_inj accs j i c c Hnd Hj Hi eq_refl) as ->.
    by apply (proj1 (Forall_forall _ _) Hex kv); [congruence|].
Qed.

(** The leaves built from runs of listed data answer for the whole list. *)
Lemma runs_answer ls nx :
  NoDup (map (fun c : child => ptr c.2) accs) ->
  (forall i c run, accs !! i = Some c -> runs !! i = Some run -> leaf_over ls c run (nx i)) ->
  match InnerNode.last_le k accs with Some c => answers ls f k c | None => f k = None end.
Proof.
  intros Hnd Hover. destruct (InnerNode.last_le k accs) as [c|] eqn:Ec.
  - destruct (last_le_index k accs c Ec) as (i & Hi & _).
    destruct (Forall2_lookup_l _ _ _ _ _ Hsl Hi) as (run & Hr & _).
    destruct (Hover i c run Hi Hr) as (l & ms & L1 & L2 & L3 & _ & _ & Hh). exists l, ms. split_and!; [done..|].
    intros block Hp. by apply (run_value i c run l ms block).
  - apply run_absent. intros kv Hkv E. destruct (run_home kv Hkv E) as (j & c & run & _ & _ & _ & E'). congruence.
Qed.
End RunValues.
End NewLeaves.

(** ** The steps of a split *)

Section SplitFrames.
Context {T : Type} `{LeafNode.OverflowTree T}.
Implicit Type h : PlinIndex (T := T).

(** A run of [m] ends with [f] at [v]. *)
Definition sets {A B} (f : PlinIndex (T := T) -> B) (v : B) (m : P A) : Prop :=
  forall h a h', m h = Ok (a, h') -> f h' = v.
Lemma sets_later {A B C} (f : PlinIndex (T := T) -> B) v (m : P A) (k : A -> P C) :
  (forall a, sets f v (k a)) -> sets f v (m ≫= k).
Proof. intros Hk h c h' (a & h1 & _ & E)%P_bind_ok. by eapply Hk. Qed.
Lemma sets_now {A B C} (f : PlinIndex (T := T) -> B) v (m : P A) (k : A -> P C) :
  sets f v m -> (forall a, keeps f (k a)) -> sets f v (m ≫= k).
Proof. intros Hm Hk h c h' (a & h1 & E1 & E)%P_bind_ok. rewrite (Hk _ _ _ _ E). by eapply Hm. Qed.

(** Part of the state: the leaves and the next address, and what is in the leaf at [b]. *)
Definition of_leaves {X} (g : gmap Z (Leaf T) -> Z -> X) h : X := g (leaves h) (next_address h).
Definition at_leaf {X} (fld : Leaf T -> X) (b : Z) (ls : gmap Z (Leaf T)) (_ : Z) : option X := fld <$> ls !! b.

Lemma keeps_field {X} (fld : Leaf T -> X) b x g :
  (forall l, fld (g l) = fld l) -> keeps (of_leaves (at_leaf fld b)) (modify_leaf x g).
Proof.
  intros Hg h u h' E. unfold modify_leaf in E. destruct (leaves h !! x) as [l|] eqn:El; [|done].
  mstep in E. injection E as _ <-. unfold of_leaves, at_leaf. cbn. destruct (decide (b = x)) as [->|Hne].
  - rewrite lookup_insert_eq, El. cbn. by rewrite Hg.
  - by rewrite lookup_insert_ne.
Qed.
Lemma keeps_other {X} (fld : Leaf T -> X) b x g : b <> x -> keeps (of_leaves (at_leaf fld b)) (modify_leaf x g).
Proof.
  intros Hne h u h' E. unfold modify_leaf in E. destruct (leaves h !! x) as [l|]; [|done].
  mstep in E. injection E as _ <-. unfold of_leaves, at_leaf. cbn. by rewrite lookup_insert_ne.
Qed.
Lemma sets_field {X} (fld : Leaf T -> X) b g v :
  (forall l, fld (g l) = v) -> sets (of_leaves (at_leaf fld b)) (Some v) (modify_leaf b g).
Proof.
  intros Hg h u h' E. unfold modify_leaf in E. destruct (leaves h !! b) as [l|]; [|done].
  mstep in E. injection E as _ <-. unfold of_leaves, at_leaf. cbn. rewrite lookup_insert_eq. cbn. by rewrite Hg.
Qed.

Lemma keeps_find_root {B} (f : PlinIndex (T := T) -> B) k : keeps f (find_root k).
Proof. intros h i h' E. unfold find_root in E. destruct (root_index (plin h) k); [|done]. by injection E as _ <-. Qed.

(** The steps that leave the leaves alone, for any [f] of the leaves and the next address. *)
Lemma quiet_chain {X} (g : gmap Z (Leaf T) -> Z -> X) fuel a : keeps (of_leaves g) (leaf_chain fuel a).
Proof. revert a. induction fuel as [|fuel IH]; intros a; cbn; keep. Qed.
Lemma quiet_debug {X} (g : gmap Z (Leaf T) -> Z -> X) : keeps (of_leaves g) debug.
Proof. unfold debug, get_leftmost_leaf, leaf_fuel, inner_fuel. keep. apply quiet_chain. Qed.
Lemma quiet_take_log {X} (g : gmap Z (Leaf T) -> Z -> X) : keeps (of_leaves g) take_log.
Proof. unfold take_log. keep. Qed.
Lemma quiet_slot {X} (g : gmap Z (Leaf T) -> Z -> X) r s : keeps (of_leaves g) (modify_slot r s).
Proof. unfold modify_slot. keep. Qed.
Lemma quiet_pess {X} (g : gmap Z (Leaf T) -> Z -> X) a round : keeps (of_leaves g) (pess_insert_tabel a round).
Proof. unfold pess_insert_tabel. keep. Qed.
Lemma quiet_upsert {X} (g : gmap Z (Leaf T) -> Z -> X) s : keeps (of_leaves g) (upsert_node s).
Proof. unfold upsert_node, inner_fuel. keep. apply keeps_find_root. Qed.
Lemma quiet_upserts {X} (g : gmap Z (Leaf T) -> Z -> X) accs : keeps (of_leaves g) (upsert_nodes accs).
Proof. induction accs as [|ka accs IH]; cbn [upsert_nodes]; keep. apply quiet_upsert. Qed.
End SplitFrames.

Section Links.
Context {T : Type}.
Implicit Type l : Leaf T.
Lemma next_set l n : n <> 0 -> LeafNode.lf_next (LeafNode.set_next l n) = n.
Proof. unfold LeafNode.set_next. by destruct (Z.eqb_spec n 0). Qed.
Lemma prev_set l n : n <> 0 -> LeafNode.lf_prev (LeafNode.set_prev l n) = n.
Proof. unfold LeafNode.set_prev. by destruct (Z.eqb_spec n 0). Qed.
Lemma next_set_prev l n : LeafNode.lf_next (LeafNode.set_prev l n) = LeafNode.lf_next l.
Proof. unfold LeafNode.set_prev. by destruct (n =? 0). Qed.
Lemma prev_set_next l n : LeafNode.lf_prev (LeafNode.set_next l n) = LeafNode.lf_prev l.
Proof. unfold LeafNode.set_next. by destruct (n =? 0). Qed.
Lemma key_set_next l n : LeafNode.lf_first_key (LeafNode.set_next l n) = LeafNode.lf_first_key l.
Proof. unfold LeafNode.set_next. by destruct (n =? 0). Qed.
Lemma key_set_prev l n : LeafNode.lf_first_key (LeafNode.set_prev l n) = LeafNode.lf_first_key l.
Proof. unfold LeafNode.set_prev. by destruct (n =? 0). Qed.
End Links.

#[local] Hint Resolve next_set_prev prev_set_next key_set_prev key_set_next keeps_field keeps_other quiet_debug quiet_take_log quiet_slot quiet_pess quiet_upsert quiet_upserts : frame.

Section SplitSteps.
Context {T : Type} `{LeafNode.OverflowTree T}.
Implicit Type h : PlinIndex (T := T).

(** The second half of a split touches the leaf and its two neighbours only, and sets the
    two links that lead to the new leaves. *)
Record finishes (a left right first last : Z) (m : P (T := T) unit) : Prop := {
  fin_other b : b <> a -> b <> left -> b <> right -> keeps (of_leaves (at_leaf id b)) m;
  fin_key b : keeps (of_leaves (at_leaf LeafNode.lf_first_key b)) m;
  fin_left : first <> 0 -> sets (of_leaves (at_leaf LeafNode.lf_next left)) (Some first) m;
  fin_right : last <> 0 -> sets (of_leaves (at_leaf LeafNode.lf_prev right)) (Some last) m
}.

Lemma finish_finishes a acc left right i accs first last :
  finishes a left right first last (finish_split a acc left right i accs first last).
Proof.
  unfold finish_split, on_lock, smo_release_read, release_leaf. cbv zeta. split.
  - intros b Ha Hl Hr. keep.
  - intros b. keep.
  - intros Hn. repeat (first [apply sets_now; [apply sets_field; intros l; by apply next_set|intros _; solve [keep]]
      |apply sets_later; intros ?]).
  - intros Hn. repeat (first [apply sets_now; [apply sets_field; intros l; by apply prev_set|intros _; solve [keep]]
      |apply sets_later; intros ?]).
Qed.

(** The inner nodes, and the metadata but for the logs. *)
Definition meta_of h := (inners h, set_logs (plin h) []).

Lemma meta_take_log : keeps (T := T) meta_of take_log.
Proof. unfold take_log. keep. Qed.
Lemma meta_build segs data start prev gv : keeps (T := T) meta_of (build_leaves segs data start prev gv).
Proof. revert start prev. induction segs as [|s segs IH]; intros start prev; cbn; keep. Qed.
Lemma meta_link addrs : keeps (T := T) meta_of (link_next addrs).
Proof.
  induction addrs as [|a addrs IH]; [apply keeps_ret|]. destruct addrs as [|b addrs]; [apply keeps_ret|].
  apply keeps_bind; [keep|intros _; exact IH].
Qed.

Lemma locks_first a acc h ha :
  on_lock a acc get_write_lock LeafNode.leaf_get_write_lock h = Ok (tt, ha) ->
  (leaves ha = leaves h \/
    exists l, leaves h !! a = Some l /\ leaves ha = <[a := LeafNode.leaf_get_write_lock l]> (leaves h)) /\
  next_address ha = next_address h.
Proof.
  unfold on_lock. destruct acc as [r|]; intros E.
  - assert (K : keeps (T := T) (of_leaves pair) (modify_slot r get_write_lock)) by keep.
    pose proof (K _ _ _ E) as [= -> ->]. by split; [left|].
  - unfold modify_leaf in E. destruct (leaves h !! a) as [l|]; [|done]. mstep in E. injection E as <-.
    split; [right; by exists l|done].
Qed.

Lemma split_steps a acc left right h h' :
  split_locked a acc left right h = Ok (tt, h') ->
  exists ha h1 i gv data ls segs accs h2 h3 h4 n c0 cn,
    on_lock a acc get_write_lock LeafNode.leaf_get_write_lock h = Ok (tt, ha) /\
    of_leaves pair h1 = of_leaves pair ha /\ meta_of h4 = meta_of ha /\
    LeafNode.get_data a gv (leaves h1) = Ok (data, ls) /\
    segments_of (map fst data) EPSILON_LEAF_NODE = Ok segs /\
    build_leaves segs data 0 left gv (set_leaves h1 ls) = Ok (accs, h2) /\
    head accs = Some c0 /\ last accs = Some cn /\
    link_next (map (fun ka : child => ptr ka.2) accs) (set_valid_leaf h2 n) = Ok (tt, h3) /\
    modify_leaf (ptr cn.2) (fun l => LeafNode.set_next l right) h3 = Ok (tt, h4) /\
    finish_split a acc left right i accs (ptr c0.2) (ptr cn.2) h4 = Ok (tt, h').
Proof.
  unfold split_locked. cbv zeta. intros E.
  apply P_bind_ok in E as ([] & ha & Ea & E). apply P_bind_ok in E as (i & hb & Eb & E).
  apply P_bind_ok in E as ([] & hc & Ec & E). apply P_bind_ok in E as (gv & hd & [= <- <-] & E).
  apply P_bind_ok in E as (data & he & Ee & E). apply P_bind_ok in E as (segs & hf & Ef & E).
  apply P_bind_ok in E as ([] & hg & Eg & E). apply P_bind_ok in E as (accs & h2 & E2 & E).
  apply P_bind_ok in E as (x0 & h2' & Eh & E). apply P_bind_ok in E as (xn & h2'' & El & E).
  apply P_bind_ok in E as ([] & hp & Ep & E). apply P_bind_ok in E as ([] & h3 & E3 & E).
  apply P_bind_ok in E as ([] & h4 & E4 & E).
  apply lift_ok in Ef as [Ef ->]. apply lift_ok in Eh as [Eh ->]. apply lift_ok in El as [El ->].
  apply of_opt_ok in Eh, El. injection Ep as <-.
  assert (hg = he) as -> by (destruct segs; [done|by injection Eg]).
  unfold on_leaves in Ee. destruct (LeafNode.get_data a (global_version (plin hc)) (leaves hc)) as [[d ls]|] eqn:Ed; [|done].
  mstep in Ee. injection Ee as -> <-.
  destruct (head accs) as [c0|] eqn:Ec0; [|by destruct accs].
  destruct (last accs) as [cn|] eqn:Ecn; [|apply last_None in Ecn; by subst].
  assert (x0 = ptr c0.2) as -> by (destruct accs; [done|]; injection Ec0 as ->; by injection Eh).
  assert (xn = ptr cn.2) as ->.
  { change (last ((fun ka : child => ptr ka.2) <$> accs) = Some xn) in El. rewrite fmap_last, Ecn in El. by injection El. }
  assert (Q : of_leaves pair hc = of_leaves pair ha).
  { assert (K : keeps (of_leaves pair) ((i ← take_log; modify_log i (fun l =>
      mkLog a left right (left_node l) (right_node l) (log_locked l))) : P (T := T) unit)) by keep.
    apply (K ha tt). unfold mbind at 1, P_bind. by rewrite Eb. }
  assert (Qm : meta_of h4 = meta_of ha).
  { assert (K1 : keeps meta_of (modify_leaf (T := T) (ptr cn.2) (fun l => LeafNode.set_next l right))) by keep.
    assert (K2 : keeps (T := T) meta_of (modify_log i (fun l =>
      mkLog a left right (left_node l) (right_node l) (log_locked l)))) by keep.
    rewrite (K1 _ _ _ E4), (meta_link _ _ _ _ E3).
    transitivity (meta_of h2); [done|]. rewrite (meta_build _ _ _ _ _ _ _ _ E2).
    transitivity (meta_of hc); [done|]. by rewrite (K2 _ _ _ Ec), (meta_take_log _ _ _ Eb). }
  eexists ha, hc, i, _, data, ls, segs, accs, h2, h3, h4, _, c0, cn.
  split_and!; [exact Ea|exact Q|exact Qm|exact Ed|exact Ef|exact E2|exact Ec0|exact Ecn|exact E3|exact E4|exact E].
Qed.
End SplitSteps.

(** ** After a split *)

Section AfterSplit.
Context {T : Type} `{OverflowDataLaws T}.
Implicit Type h : PlinIndex (T := T).

(** The address after the [i]-th of the new leaves. *)
Definition next_to (accs : list child) (right : Z) (i : nat) : Z :=
  match accs !! S i with Some c => ptr c.2 | None => right end.

(** The new leaves at [accs] hold the [runs]; the neighbours lead to them. *)
Record resplit h h' (left right : Z) (accs : list child) (runs : list (list datum)) : Prop := {
  rs_slots : Forall2 slot_over accs runs;
  rs_leaves : forall i c run, accs !! i = Some c -> runs !! i = Some run ->
    leaf_over (leaves h') c run (next_to accs right i);
  rs_some : accs <> [];
  rs_once : NoDup (map (fun c : child => ptr c.2) accs);
  rs_left c : head accs = Some c -> LeafNode.lf_next <$> leaves h' !! left = Some (ptr c.2);
  rs_key b : is_Some (leaves h !! b) ->
    LeafNode.lf_first_key <$> leaves h' !! b = LeafNode.lf_first_key <$> leaves h !! b;
  rs_right c : last accs = Some c -> LeafNode.lf_prev <$> leaves h' !! right = Some (ptr c.2)
}.

Lemma leaf_over_right ls c run next :
  leaf_over ls c run 0 ->
  exists l, ls !! ptr c.2 = Some l /\ leaf_over (<[ptr c.2 := LeafNode.set_next l next]> ls) c run next.
Proof.
  intros Ho. destruct (decide (next = 0)) as [->|Hn]; [|by apply leaf_over_link].
  destruct Ho as (l & ms & K1 & K2). exists l. split; [done|]. unfold LeafNode.set_next. cbn.
  rewrite insert_id by done. by exists l, ms.
Qed.

Lemma leaf_over_same ls ls' c run next :
  leaf_over ls c run next -> ls' !! ptr c.2 = ls !! ptr c.2 -> leaf_over ls' c run next.
Proof. intros (l & ms & K1 & K2) E. exists l, ms. by rewrite E. Qed.

(** The slot of leaf [a] as its write lock leaves it. *)
Lemma locked_leaf h h1 a l ms :
  (leaves h1 = leaves h \/
   exists l, leaves h !! a = Some l /\ leaves h1 = <[a := LeafNode.leaf_get_write_lock l]> (leaves h)) ->
  leaves h !! a = Some l -> LeafNode.leaf_ok (LeafNode.leaf_release_lock l) ms ->
  (exists l1, leaves h1 !! a = Some l1 /\ LeafNode.leaf_ok (LeafNode.leaf_release_lock l1) ms) /\
  dom (leaves h1) = dom (leaves h) /\
  forall b, LeafNode.lf_first_key <$> leaves h1 !! b = LeafNode.lf_first_key <$> leaves h !! b.
Proof.
  intros [->|(l' & Hl' & ->)] Hl Hok; [split; [by exists l|done]|]. split; [|split].
  - rewrite lookup_insert_eq. eexists. split; [done|]. simplify_eq. exact Hok.
  - by apply dom_insert_lookup_L.
  - intros b. destruct (decide (b = a)) as [->|Hne]; [by rewrite lookup_insert_eq, Hl'|by rewrite lookup_insert_ne].
Qed.

(** What the first half of a split leaves at [h4]: the old leaves, and the new ones with
    their links back. *)
Record built h h4 (a left : Z) (accs : list child) : Prop := {
  bu_old b : is_Some (leaves h !! b) -> b <> a -> leaves h4 !! b = leaves h !! b;
  bu_key b : is_Some (leaves h !! b) ->
    LeafNode.lf_first_key <$> leaves h4 !! b = LeafNode.lf_first_key <$> leaves h !! b;
  bu_new : Forall (fun c : child => next_address h <= ptr c.2) accs;
  bu_back : backed (leaves h4) left accs;
  bu_fresh : fresh_leaves h4;
  bu_next : next_address h <= next_address h4
}.

Section Built.
Variables (h h1 h2 h3 h4 : PlinIndex (T := T)) (ls0 : gmap Z (Leaf T)) (a left right n : Z).
Variables (accs : list child) (runs : list (list datum)) (cn : child).
Hypothesis Hfr : fresh_leaves h.
Hypothesis Hadd : adds_leaves (set_leaves h1 ls0) h2.
Hypothesis Hnx : next_address h1 = next_address h.
Hypothesis Hdom : dom ls0 = dom (leaves h).
Hypothesis Hnew : Forall (fun c : child => next_address h <= ptr c.2) accs.
Hypothesis Hnd : NoDup (map (fun c : child => ptr c.2) accs).
Hypothesis Elink : link_next (map (fun c : child => ptr c.2) accs) (set_valid_leaf h2 n) = Ok (tt, h3).
Hypothesis Hout : exists ls, h3 = set_leaves (set_valid_leaf h2 n) ls /\ dom ls = dom (leaves h2) /\
  forall b, b ∉ map (fun c : child => ptr c.2) accs -> ls !! b = leaves h2 !! b.
Hypothesis Hcn : last accs = Some cn.
Hypothesis Elast : modify_leaf (ptr cn.2) (fun l => LeafNode.set_next l right) h3 = Ok (tt, h4).

Lemma last_modified :
  exists l, leaves h3 !! ptr cn.2 = Some l /\ h4 = set_leaves h3 (<[ptr cn.2 := LeafNode.set_next l right]> (leaves h3)).
Proof.
  unfold modify_leaf in Elast. destruct (leaves h3 !! ptr cn.2) as [l|]; [|done]. mstep in Elast. injection Elast as <-. by exists l.
Qed.

Lemma built_old b : is_Some (leaves h !! b) -> leaves h4 !! b = ls0 !! b.
Proof.
  intros Hb. pose proof (Hfr b Hb) as Hlt. destruct last_modified as (l & _ & ->). cbn [leaves set_leaves].
  assert (Hne : forall c, c ∈ accs -> ptr c.2 <> b).
  { intros c Hc. pose proof (proj1 (Forall_forall _ _) Hnew c Hc) as Hp. cbn in Hp. lia. }
  rewrite lookup_insert_ne by (apply Hne; by apply last_Some_elem_of).
  destruct Hout as (ls & -> & _ & Ho). cbn [leaves set_leaves]. rewrite Ho.
  2:{ intros (c & E & Hc)%list_elem_of_fmap. by apply (Hne c Hc). }
  destruct Hadd as (lsb & nx & -> & Hsub & _). cbn in Hsub |- *.
  apply elem_of_dom in Hb. rewrite <- Hdom in Hb. apply elem_of_dom in Hb as [lb Hlb].
  by rewrite Hlb, (lookup_weaken _ _ _ _ Hlb Hsub).
Qed.

Lemma built_ok :
  fresh_leaves h2 -> backed (leaves h2) left accs ->
  (forall b, is_Some (leaves h !! b) -> b <> a -> ls0 !! b = leaves h !! b) ->
  (forall b, LeafNode.lf_first_key <$> ls0 !! b = LeafNode.lf_first_key <$> leaves h !! b) ->
  built h h4 a left accs.
Proof.
  intros Hfr2 Hback Hold Hkey. destruct last_modified as (l & Hl & E4). destruct Hout as (ls & E3 & Hdom3 & _).
  assert (Hnext : next_address h4 = next_address h2) by (by rewrite E4, E3). split.
  - intros b Hb Hne. rewrite built_old by done. by apply Hold.
  - intros b Hb. rewrite built_old by done. apply Hkey.
  - exact Hnew.
  - intros i c Hc. specialize (Hback i c Hc). rewrite <- Hback.
    transitivity (LeafNode.lf_prev <$> leaves h3 !! ptr c.2).
    + rewrite E4. cbn [leaves set_leaves]. destruct (decide (ptr c.2 = ptr cn.2)) as [->|Hne]; [|by rewrite lookup_insert_ne].
      rewrite lookup_insert_eq, Hl. cbn. by rewrite prev_set_next.
    + exact (link_next_keeps LeafNode.lf_prev _ _ _ _ prev_set_next Elink).
  - intros b Hb. rewrite Hnext. apply Hfr2. apply elem_of_dom. rewrite <- Hdom3. apply elem_of_dom in Hb.
    rewrite E4 in Hb. cbn [leaves set_leaves] in Hb. rewrite dom_insert_lookup_L in Hb by (by eexists).
    by rewrite E3 in Hb.
  - rewrite Hnext. destruct Hadd as (lsb & nx & -> & _ & Hle). cbn in Hle |- *. by rewrite Hnx in Hle.
Qed.

(** The last of the new leaves is linked to the right neighbour. *)
Lemma linked_right :
  Forall2 slot_over accs runs ->
  (forall i c run, accs !! i = Some c -> runs !! i = Some run -> leaf_over (leaves h3) c run (next_at accs i)) ->
  forall i c run, accs !! i = Some c -> runs !! i = Some run -> leaf_over (leaves h4) c run (next_to accs right i).
Proof.
  intros R2 Hlink. assert (Hlast : accs !! pred (length accs) = Some cn) by (by rewrite <- last_lookup).
  destruct (Forall2_lookup_l _ _ _ _ _ R2 Hlast) as (runn & Hrunn & _).
  pose proof (Hlink _ _ _ Hlast Hrunn) as Hn. unfold next_at in Hn.
  pose proof (lookup_lt_Some _ _ _ Hlast) as Hlt. rewrite (lookup_ge_None_2 accs) in Hn by lia.
  destruct (leaf_over_right _ _ _ right Hn) as (ln & Hln & Hover). destruct last_modified as (l & Hl & ->).
  rewrite Hln in Hl. injection Hl as <-. cbn [leaves set_leaves].
  intros i c run Hc Hr. destruct (decide (i = pred (length accs))) as [->|Hi].
  - simplify_eq. unfold next_to. by rewrite lookup_ge_None_2 by lia.
  - assert (Hlt' : (S i < length accs)%nat) by (apply lookup_lt_Some in Hc; lia).
    destruct (lookup_lt_is_Some_2 accs (S i) Hlt') as [d Hd].
    pose proof (Hlink i c run Hc Hr) as Hi'. unfold next_at in Hi'. unfold next_to. rewrite Hd in Hi' |- *.
    eapply leaf_over_same; [exact Hi'|]. rewrite lookup_insert_ne; [done|]. intros Eq.
    apply Hi. symmetry. by apply (addresses_inj accs _ _ cn c Hnd Hlast Hc).
Qed.
End Built.

(** The second half of the split. *)
Lemma finish_resplit h h4 h' a left right i accs runs c0 cn acc :
  finish_split a acc left right i accs (ptr c0.2) (ptr cn.2) h4 = Ok (tt, h') ->
  built h h4 a left accs -> fresh_leaves h -> 0 < next_address h ->
  is_Some (leaves h !! a) -> is_Some (leaves h !! left) -> is_Some (leaves h !! right) ->
  Forall2 slot_over accs runs -> NoDup (map (fun c : child => ptr c.2) accs) ->
  head accs = Some c0 -> last accs = Some cn ->
  (forall i c run, accs !! i = Some c -> runs !! i = Some run -> leaf_over (leaves h4) c run (next_to accs right i)) ->
  resplit h h' left right accs runs.
Proof.
  intros E [_ Hkey Hnew _ _ _] Hfr Hpos Ha Hleft Hright R2 Hnd E0 En Hover.
  destruct (finish_finishes (T := T) a acc left right i accs (ptr c0.2) (ptr cn.2)) as [F1 F4 F2 F3].
  assert (Hin : forall c, c ∈ accs -> ptr c.2 <> 0 /\ forall x, is_Some (leaves h !! x) -> ptr c.2 <> x).
  { intros c Hc. pose proof (proj1 (Forall_forall _ _) Hnew c Hc) as Hp. cbn in Hp. split; [lia|].
    intros x Hx. pose proof (Hfr x Hx). lia. }
  split; [done| |by intros ->|done| | |].
  - intros j c run Hc Hr. eapply leaf_over_same; [by apply Hover|].
    destruct (Hin c (list_elem_of_lookup_2 _ _ _ Hc)) as [_ Hne].
    pose proof (F1 (ptr c.2) (Hne a Ha) (Hne left Hleft) (Hne right Hright) h4 tt h' E) as K.
    unfold of_leaves, at_leaf in K. by rewrite !option_fmap_id in K.
  - intros c Hc. rewrite E0 in Hc. injection Hc as <-. apply (F2 (proj1 (Hin c0 (head_Some_elem_of _ _ E0))) h4 tt h' E).
  - intros b Hb. rewrite <- Hkey by done. apply (F4 b h4 tt h' E).
  - intros c Hc. rewrite En in Hc. injection Hc as <-. apply (F3 (proj1 (Hin cn (last_Some_elem_of _ _ En))) h4 tt h' E).
Qed.

Lemma split_leaves a acc left right h h' l ms :
  leaves h !! a = Some l -> LeafNode.leaf_ok (LeafNode.leaf_release_lock l) ms ->
  (forall data, lists (union_of ms) data -> Forall (fun kv : datum => LeafNode.storable kv.1) data ->
    Forall loadable data /\ Z.of_nat (length data) <= max_keys) ->
  fresh_leaves h -> 0 < next_address h -> is_Some (leaves h !! left) -> is_Some (leaves h !! right) ->
  split_locked a acc left right h = Ok (tt, h') ->
  exists accs runs, resplit h h' left right accs runs /\ lists (union_of ms) (concat runs) /\
    Segmentation.increasing (map fst (concat runs)) /\ Forall loadable (concat runs) /\
    Z.of_nat (length (concat runs)) <= max_keys /\
    exists ha h4 i c0 cn, on_lock a acc get_write_lock LeafNode.leaf_get_write_lock h = Ok (tt, ha) /\
      meta_of h4 = meta_of ha /\ built h h4 a left accs /\ head accs = Some c0 /\ last accs = Some cn /\
      finish_split a acc left right i accs (ptr c0.2) (ptr cn.2) h4 = Ok (tt, h').
Proof.
  intros Hl Hok Hsp Hfr Hpos Hleft Hright E.
  destruct (split_steps a acc left right h h' E) as
    (ha & h1 & i & gv & data & ls & segs & accs & h2 & h3 & h4 & n & c0 & cn & Ea & Q & Qm & Eg & Es & Eb & E0 & En & Ek & Em & Et).
  destruct (locks_first a acc h ha Ea) as [Q1 Q2]. injection Q as Ql Qn. rewrite <- Ql in Q1. rewrite <- Qn in Q2.
  destruct (locked_leaf h h1 a l ms Q1 Hl Hok) as [(l1 & Hl1 & Hok1) [Hdom Hkey]].
  destruct (leaf_data_ok (leaves h1) a l1 ms gv Hl1 Hok1) as (data' & bs & Eg' & G1 & G2 & G3).
  rewrite Eg in Eg'. injection Eg' as <- ->.
  destruct (Hsp data G1 G3) as [Hload Hlen].
  assert (Hdom' : dom (<[a := LeafNode.set_blocks l1 bs]> (leaves h1)) = dom (leaves h))
    by (rewrite <- Hdom; by apply dom_insert_lookup_L).
  assert (Hne : data <> []).
  { intros ->. cbn in Es. injection Es as <-. cbn in Eb. injection Eb as <- _. done. }
  assert (Ht : seg_tiles (map fst data) 0 (length data) segs).
  { rewrite <- (length_map fst data). apply (segments_of_tiles _ EPSILON_LEAF_NODE); [done|by destruct data|done]. }
  destruct (build_leaves_ok segs data 0 left gv _ accs h2 Eb Ht G2 Hload Hlen) as
    (runs & R1 & R2 & R3 & _ & R5 & R6 & R7 & R8 & R9).
  { intros b Hb. apply elem_of_dom in Hb. cbn in Hb |- *. rewrite Hdom' in Hb. rewrite Q2. by apply Hfr, elem_of_dom. }
  cbn in R7. rewrite Q2 in R7. rewrite drop_0 in R1. subst data.
  assert (Hnz : Forall (fun c : child => ptr c.2 <> 0) accs) by (eapply Forall_impl; [exact R7|]; cbn; lia).
  destruct (link_next_ok accs runs (set_valid_leaf h2 n) h3 Ek R8 Hnz R3) as [Hout Hlink].
  set (ls0 := <[a := LeafNode.set_blocks l1 bs]> (leaves h1)) in *.
  assert (Hbuilt : built h h4 a left accs).
  { apply (built_ok h h1 h2 h3 h4 ls0 a left right n accs cn); try done.
    - intros b Hb Hba. unfold ls0. rewrite lookup_insert_ne by done.
      destruct Q1 as [->|(l' & _ & ->)]; [done|by rewrite lookup_insert_ne].
    - intros b. rewrite <- Hkey. unfold ls0. destruct (decide (b = a)) as [->|Hba]; [|by rewrite lookup_insert_ne].
      by rewrite lookup_insert_eq, Hl1. }
  exists accs, runs. split; [|split_and!; try done; by exists ha, h4, i, c0, cn].
  apply (finish_resplit h h4 h' a left right i accs runs c0 cn acc); try done.
  by apply (linked_right h3 h4 right accs runs cn R8 En Em).
Qed.

(** The leaves from [left] to [right] are linked. *)
Definition chained (ls : gmap Z (Leaf T)) (left : Z) (accs : list child) (right : Z) : Prop :=
  accs <> [] /\
  (forall c, head accs = Some c -> LeafNode.lf_next <$> ls !! left = Some (ptr c.2)) /\
  (forall i c, accs !! i = Some c -> LeafNode.lf_next <$> ls !! ptr c.2 = Some (next_to accs right i)) /\
  (forall c, last accs = Some c -> LeafNode.lf_prev <$> ls !! right = Some (ptr c.2)).

(** A search that starts at the child for [k] answers as one in the leaf [l] at [a] did. *)
Definition answers_kept (ls ls' : gmap Z (Leaf T)) (a : Z) (l : Leaf T) (accs : list child) (k : double) : Prop :=
  forall gv, exists before ls1,
    LeafNode.find 1 a k gv None (<[a := LeafNode.leaf_release_lock l]> ls) = Ok (before, ls1) /\
    match InnerNode.last_le k accs with
    | Some c => exists l', ls' !! ptr c.2 = Some l' /\
        forall block, LeafNode.predicts l' k block ->
          exists ls2, LeafNode.find 1 (ptr c.2) k gv (Some c.2) ls' = Ok (before, ls2)
    | None => before = (0, None)
    end.

Lemma resplit_chained h h' left right accs runs :
  resplit h h' left right accs runs -> chained (leaves h') left accs right.
Proof.
  intros R. split_and!; [apply R|apply R| |apply R]. intros i c Hc.
  destruct (Forall2_lookup_l _ _ _ _ _ (rs_slots _ _ _ _ _ _ R) Hc) as (run & Hr & _).
  destruct (rs_leaves _ _ _ _ _ _ R i c run Hc Hr) as (l & ms & El & _ & _ & _ & En & _). by rewrite El, <- En.
Qed.

(** A key of the old leaf lies before the leaf that follows its new one. *)
Lemma resplit_owns h h' (l0 l : Leaf T) left right accs runs i c k :
  resplit h h' left right accs runs -> InnerNode.increasing_from None accs -> Forall InnerNode.child_ok accs ->
  accs !! i = Some c -> (forall j d, (i < j)%nat -> accs !! j = Some d -> dle d.1 k = false) ->
  LeafNode.lf_next l0 = right -> LeafNode.owns (leaves h) l0 k ->
  LeafNode.lf_next l = next_to accs right i -> LeafNode.owns (leaves h') l k.
Proof.
  intros R Hinc Hok Hc Hafter Er Ho El. unfold LeafNode.owns. rewrite El. unfold next_to.
  destruct (accs !! S i) as [d|] eqn:Ed.
  - right. destruct (Forall2_lookup_l _ _ _ _ _ (rs_slots _ _ _ _ _ _ R) Ed) as (run & Hr & _).
    destruct (rs_leaves _ _ _ _ _ _ R (S i) d run Ed Hr) as (ld & ms & Eld & _ & _ & Ek & _).
    exists ld. split; [done|]. rewrite Ek. by apply (Hafter (S i)); [lia|].
  - rewrite <- Er. destruct Ho as [Ho|(n & Hn & Hlt)]; [by left|]. right.
    pose proof (rs_key _ _ _ _ _ _ R (LeafNode.lf_next l0) ltac:(by eexists)) as K. rewrite Hn in K. cbn in K.
    destruct (leaves h' !! LeafNode.lf_next l0) as [n'|]; [|done]. exists n'. split; [done|]. injection K as ->. exact Hlt.
Qed.
End AfterSplit.

(** C4: a split keeps what its leaf holds.  Once the locks are held, a split collects the data
    of the leaf, segments it, builds and links new leaves and gives them to the inner nodes.
    When it has returned, the new leaves form a chain between the two neighbours, and for
    every key that belongs to the old leaf a search from the new leaf with the last first key
    not above it gives the answer that a search in the old leaf gave: the same payload for a
    key that was in a slot or an overflow tree, and none for any other. *)
Theorem split_keeps_contents {T} `{OverflowDataLaws T} (a left right : Z) (acc : option slot_ref)
    (h h' : PlinIndex (T := T)) (l : Leaf T) (ms : list (gmap Z Z)) :
  leaves h !! a = Some l -> LeafNode.leaf_ok (LeafNode.leaf_release_lock l) ms -> splittable ms ->
  LeafNode.lf_next l = right -> is_Some (leaves h !! left) -> is_Some (leaves h !! right) ->
  fresh_leaves h -> 0 < next_address h ->
  split_locked a acc left right h = Ok (tt, h') ->
  exists accs, chained (leaves h') left accs right /\
    forall k block, LeafNode.storable k -> finite k = true -> LeafNode.owns (leaves h) l k ->
      LeafNode.predicts l k block -> answers_kept (leaves h) (leaves h') a l accs k.
Proof.
  intros Hl Hok Hsp Er Hleft Hright Hfr Hpos E.
  destruct (split_leaves a acc left right h h' l ms Hl Hok (fun data L S => data_loadable ms data L S Hsp) Hfr Hpos Hleft Hright E)
    as (accs & runs & R & D1 & D2 & D3 & _).
  exists accs. split; [by eapply resplit_chained|]. intros k block Hk Hf Ho Hp gv.
  destruct (slots_increasing accs runs (rs_slots _ _ _ _ _ _ R) D2) as [Cok Cinc].
  pose proof (runs_answer (union_of ms) accs runs k D1 D2 D3 (rs_slots _ _ _ _ _ _ R) Hk Hf (leaves h') (next_to accs right)
    (rs_once _ _ _ _ _ _ R) (rs_leaves _ _ _ _ _ _ R)) as Hans.
  destruct (LeafNode.find_spec 0 (<[a := LeafNode.leaf_release_lock l]> (leaves h)) a (LeafNode.leaf_release_lock l)
    ms k gv None block Hok) as (l1 & Ef & _).
  { by rewrite lookup_insert_eq. }
  { split_and!; done. }
  { destruct Ho as [Ho|(n & Hn & Hlt)]; [by left|]. right. cbn.
    destruct (decide (LeafNode.lf_next l = a)) as [Ea|Hne].
    - rewrite Ea, lookup_insert_eq. eexists. split; [done|]. rewrite Ea, Hl in Hn. by injection Hn as <-.
    - exists n. by rewrite lookup_insert_ne. }
  { exact Hp. } { exact Hk. }
  eexists _, _. split; [exact Ef|].
  rewrite <- (union_value (LeafNode.leaf_release_lock l) ms k block Hok Hk Hp).
  destruct (InnerNode.last_le k accs) as [c|] eqn:Ec; [|by rewrite Hans].
  destruct (last_le_index k accs c Ec) as (i & Hc & Hafter).
  destruct (Forall2_lookup_l _ _ _ _ _ (rs_slots _ _ _ _ _ _ R) Hc) as (run & Hr & _).
  destruct (rs_leaves _ _ _ _ _ _ R i c run Hc Hr) as (l' & ms' & El & _ & _ & _ & En & _).
  destruct Hans as (l'' & ms'' & El' & Hok' & Hag & Hv). rewrite El in El'. injection El' as <-.
  exists l'. split; [done|]. intros nb Hnb.
  destruct (LeafNode.find_spec 0 (leaves h') (ptr c.2) l' ms'' k gv (Some c.2) nb Hok' El Hag) as (l2 & Ef2 & _);
    [by eapply resplit_owns|done..|].
  rewrite (Hv nb Hnb) in Ef2. by eexists.
Qed.

(** ** On a small index *)

(** Every entry but the free mark's has the rank of a finite key and a payload that is not
    null. *)
Definition splittable_b (ms : list (gmap Z Z)) : bool :=
  forallb (fun m : gmap Z Z => forallb (fun rv : Z * Z => (rv.1 =? rank FREE_FLAG) || (Z.abs rv.1 <? 2 ^ 64) && negb (rv.2 =? 0)) (map_to_list m)) ms &&
  (Z.of_nat (sum_list (map size ms)) <=? max_keys).

Lemma splittable_all ms : splittable_b ms = true -> splittable ms.
Proof.
  unfold splittable_b. intros [Hb Hc%Z.leb_le]%andb_true_iff. split; [|done].
  intros k v [Kk Nk] (m & Hm & Hv)%union_in. rewrite forallb_forall in Hb.
  apply list_elem_of_In in Hm. specialize (Hb m Hm). cbn in Hb. rewrite forallb_forall in Hb.
  apply elem_of_map_to_list, list_elem_of_In in Hv. specialize (Hb _ Hv). cbn [fst snd] in Hb.
  apply orb_true_iff in Hb as [Hb%Z.eqb_eq|Hb]; [by destruct Nk|].
  apply andb_true_iff in Hb as [Hr%Z.ltb_lt Hn%negb_true_iff%Z.eqb_neq]. split; [by apply rank_finite|done].
Qed.

Definition fresh_b {T} `{LeafNode.OverflowTree T} (h : PlinIndex (T := T)) : bool :=
  forallb (fun al => al.1 <? next_address h) (map_to_list (leaves h)).
Lemma fresh_all {T} `{LeafNode.OverflowTree T} (h : PlinIndex (T := T)) : fresh_b h = true -> fresh_leaves h.
Proof. intros Hf a [l Hl]. by apply Z.ltb_lt, (forallb_lookup _ _ _ _ Hf Hl). Qed.

Definition split_demo : PlinIndex := Eval vm_compute in after (split_locked 2 None 1 3) demo_index.

Lemma split_keeps_contents_witness :
  exists accs, chained (leaves split_demo) 1 accs 3 /\
    answers_kept (leaves demo_index) (leaves split_demo) 2 (demo_leaf 2) accs (double_of_Z 120).
Proof.
  destruct (split_keeps_contents 2 1 3 None demo_index split_demo (demo_leaf 2)
    (map LeafNode.block_map (LeafNode.blocks (demo_leaf 2)))) as (accs & Hc & Hk).
  - vm_compute. reflexivity.
  - apply (LeafNode.leaf_ok_plain (LeafNode.leaf_release_lock (demo_leaf 2))). vm_compute. reflexivity.
  - apply splittable_all. vm_compute. reflexivity.
  - vm_compute. reflexivity.
  - eexists. vm_compute. reflexivity.
  - eexists. vm_compute. reflexivity.
  - apply fresh_all. vm_compute. reflexivity.
  - vm_compute. reflexivity.
  - vm_compute. reflexivity.
  - exists accs. split; [exact Hc|]. apply (Hk _ 1).
    + split; [reflexivity|]. vm_compute. discriminate.
    + vm_compute. reflexivity.
    + right. eexists. split; [vm_compute; reflexivity|]. vm_compute. reflexivity.
    + vm_compute. reflexivity.
Defined.
