(* ===== verification/SplitSteps.v ===== *)
(** * The steps of a split (core/index/plin_index.h, split)

    What the locks of the neighbours do, and what the second half of a split leaves in the
    levels (the new slots in the place of the old one, unless a new leaf is an orphan),
    in the metadata and in the leaves (the two neighbours but for one link each). *)

From S2P Require Import Prelude Doubles Rounding Slots Routing InnerTree InnerUpsert Relock PlinIndex Levels SplitLevels BulkLoad LeafSplit.
From S2P Require LeafNode InnerNode.
Open Scope Z_scope.

(** ** The second half of a split, in the levels *)

(** The equation that a run [E] leaves [f] as it was. *)
Abbreviation kept f E := (ltac:(match type of E with ?m ?x = Ok (?u, ?y) => exact (keeps_spec f m x u y ltac:(keep) E) end)) (only parsing).

Section SplitTop.
Context {T : Type} `{LeafNode.OverflowTreeLaws T}.
Implicit Type h : PlinIndex (T := T).

Lemma keeps_all {A B} (f : PlinIndex (T := T) -> B) (m : P A) : keeps id m -> keeps f m.
Proof. intros Hm h a h' E. by rewrite (Hm h a h' E : h' = h). Qed.

Lemma leaf_chain_pure fuel a : keeps (T := T) id (leaf_chain fuel a).
Proof. revert a. induction fuel as [|fuel IH]; intros a; cbn; keep. Qed.
Lemma debug_pure : keeps (T := T) id debug.
Proof. unfold debug, get_leftmost_leaf, leaf_fuel, inner_fuel. keep. apply leaf_chain_pure. Qed.
Lemma top_debug : keeps (T := T) top debug.
Proof. apply keeps_all, debug_pure. Qed.

(** The bounds, the buffers and the flag of a rebuild. *)
Definition settings h :=
  (plin_min_key (plin h), plin_max_key (plin h), left_buffer (plin h), right_buffer (plin h), rebuilding (plin h)).
Definition tops h := (top h, next_address h, (settings h, smo_lock (plin h))).

(** The steps of the second half, seen from the levels. *)
Lemma finish_levels a r left right i accs first last h h' :
  finish_split a (Some r) left right i accs first last h = Ok (tt, h') ->
  exists h1 h2 h3 h4 h5, modify_slot r get_read_lock h = Ok (tt, h1) /\ tops h2 = tops h1 /\
    upsert_nodes accs h2 = Ok (tt, h3) /\ tops h4 = tops h3 /\ modify_slot r release_lock h4 = Ok (tt, h5) /\
    tops h' = (top h5, next_address h5, (settings h5, u32 (smo_lock (plin h5) - 1))).
Proof.
  unfold finish_split, on_lock. cbv zeta. intros E.
  apply P_bind_ok in E as ([] & h1 & E1 & E). apply P_bind_ok in E as ([] & h1' & [= <-] & E).
  apply P_bind_ok in E as ([] & ha & Ea & E). apply P_bind_ok in E as ([] & hb & Eb & E).
  apply P_bind_ok in E as ([] & hc & Ec & E). apply P_bind_ok in E as ([] & hd & Ed & E).
  apply P_bind_ok in E as ([] & h2 & E2 & E). apply P_bind_ok in E as ([] & h3 & E3 & E).
  apply P_bind_ok in E as (dn & he & Ee & E). apply P_bind_ok in E as ([] & h4 & Ef & E).
  apply P_bind_ok in E as ([] & h5 & E5 & E). exists h1, h2, h3, h4, h5.
  assert (Ede : he = h3) by exact (debug_pure _ _ _ Ee). subst he.
  split; [done|]. split; [by rewrite (kept tops E2), (kept tops Ed), (kept tops Ec), (kept tops Eb), (kept tops Ea)|].
  split; [done|]. split; [unfold pess_insert_tabel in Ef; by rewrite (kept tops Ef)|]. split; [done|].
  apply P_bind_ok in E as ([] & h6 & E6 & E). injection E6 as <-. unfold release_leaf in E. by rewrite (kept tops E).
Qed.

Lemma increasing_unique (l1 l2 k1 k2 : list child) lo c :
  InnerNode.increasing_from lo (l1 ++ c :: l2) -> l1 ++ c :: l2 = k1 ++ c :: k2 -> l1 = k1 /\ l2 = k2.
Proof.
  revert lo k1. induction l1 as [|x l1 IH]; intros lo [|y k1] Hinc E; cbn in E; injection E.
  - intros ->. done.
  - intros E2 ->. destruct Hinc as [_ Hinc]. rewrite E2 in Hinc.
    pose proof (InnerNode.increasing_from_lower _ _ y Hinc ltac:(apply middle_in)). lia.
  - intros E2 ->. destruct Hinc as [_ Hinc]. pose proof (InnerNode.increasing_from_lower _ _ c Hinc ltac:(apply middle_in)). lia.
  - intros E2 ->. destruct Hinc as [_ Hinc]. by destruct (IH _ k1 Hinc E2) as [-> ->].
Qed.

(** A lock of the slot of a leaf. *)
Lemma lock_slot_ok h l1 c l2 r f h' :
  (forall s, min_key (f s) = min_key s) -> type c.2 = 0 -> type (f c.2) = 0 ->
  rooted h (l1 ++ c :: l2) -> at_slot h r c.2 -> modify_slot r f h = Ok (tt, h') ->
  rooted h' (l1 ++ (c.1, f c.2) :: l2) /\ at_slot h' r (f c.2) /\ retouched (inners h) (inners h') /\
  exists ns, h' = set_inners h ns.
Proof.
  intros Hf Ht Ht' Hroot Hat E. unfold modify_slot in E. apply P_bind_ok in E as (s & h0 & E0 & E).
  rewrite (at_slot_read _ _ _ Hat) in E0. injection E0 as <- <-.
  destruct (write_slot_ok h _ r c (f c.2) Hroot (middle_in _ _ _) Hat (Hf _) Ht Ht') as (ns & k1 & k2 & Ew & Ecs & Hroot' & Htn & Hat').
  rewrite Ew in E. injection E as <-. destruct (increasing_unique _ _ _ _ _ _ (proj2 (rt_children _ _ Hroot)) Ecs) as [-> ->].
  split; [exact Hroot'|]. split; [exact Hat'|]. split; [exact Htn|]. by exists ns.
Qed.

(** The levels after a split without orphans: the new slots are in the place of the old. *)
Lemma split_levels h ha hb h' a r left right i l1 c l2 accs c0 first last :
  rooted h (l1 ++ c :: l2) -> at_slot h r c.2 -> type c.2 = 0 ->
  modify_slot r get_write_lock h = Ok (tt, ha) -> meta_of hb = meta_of ha -> next_address h <= next_address hb ->
  finish_split a (Some r) left right i accs first last hb = Ok (tt, h') ->
  head accs = Some c0 -> rank c0.1 = rank c.1 ->
  Forall InnerNode.child_ok accs -> Forall (fun d : child => type d.2 = 0 /\ idle d.2) accs ->
  InnerNode.increasing_from None accs -> (forall d e, d ∈ accs -> e ∈ l2 -> rank d.1 < rank e.1) ->
  Forall (fun d : child => idle d.2) (l1 ++ l2) -> Forall (fun d : child => in_reach (inners h) d.1) accs ->
  orphan_number (plin h) = 0 -> Z.of_nat (length accs) < 2 ^ 32 -> orphan_number (plin h') = 0 ->
  rooted h' (l1 ++ accs ++ l2) /\ retouched (inners h) (inners h') /\ next_address h' = next_address hb.
Proof.
  intros Hroot Hat Ht Ea Em Hna E E0 Er Hok Hti Hinc Hl2 Hidle Hreach Ho Hlen Ho'.
  destruct (lock_slot_ok h l1 c l2 r get_write_lock ha) as (Hroota & Hata & Hta & nsa & Eha);
    [done|done|by rewrite (proj1 (type_locks _))|done..|].
  assert (Htopb : top hb = top ha) by (unfold meta_of in Em; injection Em; intros; unfold top; congruence).
  assert (Hnb : next_address ha <= next_address hb) by (by rewrite Eha).
  destruct (finish_levels a r left right i accs first last hb h' E) as
    (h1 & h2 & h3 & h4 & h5 & E1 & Q2 & E3 & Q4 & E5 & Q').
  unfold tops in Q2, Q4, Q'. apply pair_equal_spec in Q2 as [[T2 N2]%pair_equal_spec _], Q4 as [[T4 N4]%pair_equal_spec _].
  apply pair_equal_spec in Q' as [[T' N']%pair_equal_spec _].
  destruct (lock_slot_ok hb l1 (c.1, get_write_lock c.2) l2 r get_read_lock h1) as (Hroot1 & Hat1 & Ht1 & ns1 & Eh1);
    [done|by cbn; rewrite (proj1 (type_locks _))|cbn; by rewrite (proj2 (type_locks _)), (proj1 (type_locks _))
    |by apply (rooted_top ha)|by apply (at_slot_top ha)|exact E1|].
  set (s' := get_read_lock (get_write_lock c.2)) in *. cbn [fst snd] in Hroot1, Hat1.
  apply (rooted_top h1 h2) in Hroot1; [|done|lia]. apply (at_slot_top h1 h2) in Hat1; [|done].
  assert (Hin2 : inners h2 = inners h1) by (by injection T2).
  assert (Hreach2 : Forall (fun d : child => in_reach (inners h2) d.1) accs).
  { eapply Forall_impl; [exact Hreach|]. intros d Hd. rewrite Hin2. apply (retouched_reach _ _ _ Ht1).
    injection Htopb as -> _ _ _. by apply (retouched_reach _ _ _ Hta). }
  assert (Ho2 : orphan_number (plin h2) = 0).
  { injection T2 as _ _ _ ->. rewrite Eh1. cbn. injection Htopb as _ _ _ ->. by rewrite Eha. }
  destruct accs as [|x accs]; [done|]. injection E0 as ->.
  apply Forall_cons in Hok as [Hc0 Hok], Hti as [[Htc0 Hic0] Hti], Hreach2 as [Hrc0 Hreach2]. destruct Hinc as [_ Hinc].
  cbn [upsert_nodes] in E3. apply P_bind_ok in E3 as (code & h2b & E2b & E3).
  destruct (put_after h2 l1 (c.1, s') l2 c0 Hroot1 Hc0 Htc0 Hrc0) as (code' & h2b' & E2b' & Ht2b & Hn2b & Hsame & _).
  { cbn. lia. }
  { apply Forall_forall. intros e He. apply Hl2; [by left|done]. }
  rewrite E2b in E2b'. injection E2b' as <- <-. destruct (Hsame Er) as [Ho2b Hroot2]. rewrite Ho2 in Ho2b.
  destruct (upsert_nodes_ok accs h2b h3 l1 c0 l2 E3 Hroot2 Hok) as (Ht3 & Hn3 & Hle3 & Hroot3); try done.
  { eapply Forall_impl; [exact Hti|]. by intros d [? _]. }
  { eapply Forall_impl; [exact Hreach2|]. intros d. by apply retouched_reach. }
  { intros d e Hd He. apply Hl2; [by right|done]. }
  { lia. }
  { rewrite Ho2b. cbn [length] in Hlen. lia. }
  assert (Hidle' : Forall (fun d : child => idle d.2) (l1 ++ (c0 :: accs) ++ l2)).
  { apply Forall_app in Hidle as [Hi1 Hi2]. apply Forall_app. split; [done|]. apply Forall_app. split; [|done].
    constructor; [done|]. eapply Forall_impl; [exact Hti|]. by intros d [_ ?]. }
  assert (H35 : retouched (inners h2) (inners h3)) by (etransitivity; [exact Ht2b|exact Ht3]).
  destruct (at_slot_touched h2 h3 r s' H35 Hat1) as [s3 Hat3]. apply (at_slot_top h3 h4) in Hat3; [|done].
  assert (Ho3 : orphan_number (plin h3) = 0).
  { unfold modify_slot in E5. pose proof (kept (fun h => orphan_number (plin h)) E5) as K.
    unfold top in T', T4. injection T' as _ _ _ T'. injection T4 as _ _ _ T4. congruence. }
  assert (Hroot4 : rooted h4 (l1 ++ (c0 :: accs) ++ l2)).
  { apply (rooted_top h3); [done|lia|]. apply Hroot3. congruence. }
  rewrite (release_slot_ok h4 _ r s3 Hroot4 Hidle' Hat3) in E5. injection E5 as <-.
  split; [apply (rooted_top h4); [done|lia|done]|]. split.
  - assert (Ein : inners h' = inners h3) by (unfold top in T', T4; injection T' as -> _ _ _; by injection T4 as -> _ _ _).
    rewrite Ein. etransitivity; [exact Hta|]. injection Htopb as <- _ _ _. etransitivity; [exact Ht1|]. by rewrite <- Hin2.
  - rewrite N', N4, Hn3, Hn2b, N2, Eh1. done.
Qed.

(** The settings stay, and the reader's lock is given back. *)
Lemma keeps_upsert_nodes {B} (f : PlinIndex (T := T) -> B) accs :
  (forall s, keeps f (upsert_node s)) -> keeps f (upsert_nodes accs).
Proof. intros Hf. induction accs as [|ka accs IH]; cbn [upsert_nodes]; [apply keeps_ret|]. apply keeps_bind; [apply Hf|done]. Qed.

Lemma finish_settings a r left right i accs first last h h' :
  finish_split a (Some r) left right i accs first last h = Ok (tt, h') ->
  settings h' = settings h /\ smo_lock (plin h') = u32 (smo_lock (plin h) - 1).
Proof.
  intros E. destruct (finish_levels _ _ _ _ _ _ _ _ _ _ E) as (h1 & h2 & h3 & h4 & h5 & E1 & Q2 & E3 & Q4 & E5 & Q').
  set (f := fun h : PlinIndex (T := T) => (settings h, smo_lock (plin h))).
  apply pair_equal_spec in Q2 as [_ Q2], Q4 as [_ Q4], Q' as [_ Q']. change (f h2 = f h1) in Q2. change (f h4 = f h3) in Q4.
  assert (K3 : f h3 = f h2).
  { apply (keeps_spec f (upsert_nodes accs) h2 tt h3); [|exact E3]. apply keeps_upsert_nodes. intros s.
    unfold upsert_node, inner_fuel. keep. apply keeps_find_root. }
  unfold modify_slot in E1, E5. pose proof (kept f E1) as K1. pose proof (kept f E5) as K5.
  assert (K : f h5 = f h) by congruence. injection K as K6 K7 K8 K9 K10 K11. injection Q' as R6 R7 R8 R9 R10 R11.
  unfold settings. split; congruence.
Qed.

Lemma split_settings a r left right h h' :
  split_locked a (Some r) left right h = Ok (tt, h') ->
  settings h' = settings h /\ smo_lock (plin h') = u32 (smo_lock (plin h) - 1).
Proof.
  intros E. destruct (split_steps a (Some r) left right h h' E) as
    (ha & h1 & i & gv & data & ls & segs & accs & h2 & h3 & h4 & n & c0 & cn & Ea & _ & Qm & _ & _ & _ & _ & _ & _ & _ & Ef).
  destruct (finish_settings _ _ _ _ _ _ _ _ _ _ Ef) as [-> ->]. unfold on_lock, modify_slot in Ea.
  pose proof (kept (fun h : PlinIndex (T := T) => (settings h, smo_lock (plin h))) Ea) as K.
  unfold meta_of in Qm. injection Qm as Q1 Q2 Q3 Q4 Q5 Q6 Q7 Q8 Q9 Q10 Q11 Q12 Q13. injection K as K1 K2 K3 K4 K5 K6.
  unfold settings. split; congruence.
Qed.

(** ** The second half, in the leaves *)

(** A leaf but for its links and its locks. *)
Definition body (l : Leaf T) : Leaf T := LeafNode.set_locked (LeafNode.with_next (LeafNode.with_prev l 0) 0) 0.

Lemma body_links (l l' : Leaf T) :
  body l' = body l -> LeafNode.lf_locked l' = 0 ->
  l' = LeafNode.with_next (LeafNode.with_prev (LeafNode.leaf_release_lock l) (LeafNode.lf_prev l')) (LeafNode.lf_next l').
Proof. destruct l, l'. cbn. intros [= -> -> -> -> -> -> -> ->] ->. done. Qed.

Lemma body_set_next (l : Leaf T) n : body (LeafNode.set_next l n) = body l.
Proof. unfold LeafNode.set_next. by destruct (n =? 0). Qed.
Lemma body_set_prev (l : Leaf T) n : body (LeafNode.set_prev l n) = body l.
Proof. unfold LeafNode.set_prev. by destruct (n =? 0). Qed.

Lemma keeps_dom x g : keeps (of_leaves (T := T) (fun ls _ => dom ls)) (modify_leaf x g).
Proof.
  intros h u h' E. unfold modify_leaf in E. destruct (leaves h !! x) as [l|] eqn:El; [|done]. mstep in E. injection E as _ <-.
  unfold of_leaves. cbn [leaves set_leaves]. by apply dom_insert_lookup_L.
Qed.
#[local] Hint Resolve body_set_next body_set_prev keeps_dom next_set_prev prev_set_next keeps_field keeps_other
  quiet_debug quiet_slot quiet_pess quiet_upserts : frame.

Ltac in_finish := unfold finish_split, on_lock, smo_release_read, release_leaf; cbv zeta.

Lemma finish_unlocks a r left right i accs first last b :
  left <> right -> b = left \/ b = right ->
  sets (of_leaves (at_leaf LeafNode.lf_locked b)) (Some 0) (finish_split (T := T) a (Some r) left right i accs first last).
Proof.
  intros Hne Hb. in_finish. destruct Hb as [-> | ->];
    repeat (first [apply sets_now; [apply sets_field; intros l; reflexivity|intros _; solve [keep]]|apply sets_later; intros ?]).
Qed.

Lemma finish_leaves a r left right i accs first last h h' ll lr :
  finish_split a (Some r) left right i accs first last h = Ok (tt, h') ->
  a <> left -> a <> right -> left <> right -> first <> 0 -> last <> 0 ->
  leaves h !! left = Some ll -> leaves h !! right = Some lr ->
  leaves h' !! left = Some (LeafNode.with_next (LeafNode.leaf_release_lock ll) first) /\
  leaves h' !! right = Some (LeafNode.with_prev (LeafNode.leaf_release_lock lr) last) /\
  dom (leaves h') = dom (leaves h) /\
  forall b, b <> a -> b <> left -> b <> right -> leaves h' !! b = leaves h !! b.
Proof.
  intros E Hal Har Hlr Hf Hl Ell Elr. set (m := finish_split a (Some r) left right i accs first last) in *.
  destruct (finish_finishes (T := T) a (Some r) left right i accs first last : finishes a left right first last m) as [F1 _ F2 F3].
  assert (K : forall {X} (f : Leaf T -> X) b l0, keeps (of_leaves (at_leaf f b)) m -> leaves h !! b = Some l0 ->
    exists l', leaves h' !! b = Some l' /\ f l' = f l0).
  { intros X f b l0 Hk E0. pose proof (Hk h tt h' E) as K. unfold of_leaves, at_leaf in K. rewrite E0 in K. cbn in K.
    destruct (leaves h' !! b) as [l'|]; [|done]. injection K as K. by exists l'. }
  assert (S : forall {X} (f : Leaf T -> X) b v l', sets (of_leaves (at_leaf f b)) (Some v) m -> leaves h' !! b = Some l' -> f l' = v).
  { intros X f b v l' Hs E0. pose proof (Hs h tt h' E) as K'. unfold of_leaves, at_leaf in K'. rewrite E0 in K'. by injection K'. }
  split; [|split; [|split]].
  - destruct (K _ body left ll ltac:(unfold m; in_finish; keep) Ell) as (l' & El' & Eb).
    destruct (K _ LeafNode.lf_prev left ll ltac:(unfold m; in_finish; keep) Ell) as (l2 & El2 & Ep).
    rewrite El' in El2. injection El2 as <-. rewrite El'. f_equal.
    rewrite (body_links ll l' Eb), Ep, (S _ _ _ _ _ (F2 Hf) El'); [by destruct ll|].
    apply (S _ LeafNode.lf_locked left 0 l' (finish_unlocks _ _ _ _ _ _ _ _ _ Hlr (or_introl eq_refl)) El').
  - destruct (K _ body right lr ltac:(unfold m; in_finish; keep) Elr) as (l' & El' & Eb).
    destruct (K _ LeafNode.lf_next right lr ltac:(unfold m; in_finish; keep) Elr) as (l2 & El2 & Ep).
    rewrite El' in El2. injection El2 as <-. rewrite El'. f_equal.
    rewrite (body_links lr l' Eb), Ep, (S _ _ _ _ _ (F3 Hl) El'); [by destruct lr|].
    apply (S _ LeafNode.lf_locked right 0 l' (finish_unlocks _ _ _ _ _ _ _ _ _ Hlr (or_intror eq_refl)) El').
  - assert (Kd : keeps (of_leaves (fun (ls : gmap Z (Leaf T)) _ => dom ls)) m) by (unfold m; in_finish; keep). apply (Kd h tt h' E).
  - intros b H1 H2 H3. pose proof (F1 b H1 H2 H3 h tt h' E) as K'. unfold of_leaves, at_leaf in K'. by rewrite !option_fmap_id in K'.
Qed.

(** ** The locks of a split *)

Definition held (l : Leaf T) : Leaf T := (LeafNode.try_get_split_lock l).2.

Lemma try_lock_free h a l :
  leaves h !! a = Some l -> LeafNode.lf_locked l = 0 ->
  try_split_lock a h = Ok (true, set_leaves h (<[a := held l]> (leaves h))).
Proof. intros Ha Hl. unfold try_split_lock. rewrite Ha. mstep. unfold held, LeafNode.try_get_split_lock. by rewrite Hl. Qed.

Lemma held_release (l : Leaf T) : LeafNode.lf_locked l = 0 -> LeafNode.leaf_release_lock (held l) = l.
Proof. intros Hl. unfold held, LeafNode.try_get_split_lock. rewrite Hl. destruct l. cbn in *. by subst. Qed.

Lemma release_held h a l :
  leaves h !! a = Some (held l) -> LeafNode.lf_locked l = 0 -> release_leaf a h = Ok (tt, set_leaves h (<[a := l]> (leaves h))).
Proof. intros Ha Hl. unfold release_leaf, modify_leaf. rewrite Ha. mstep. by rewrite held_release. Qed.

(** The index with the split locks of three leaves and the lock of a reader. *)
Definition with_locks h (a left right : Z) (l ll lr : Leaf T) : PlinIndex :=
  set_leaves (set_plin h (set_smo_lock (plin h) 1))
    (<[right := held lr]> (<[left := held ll]> (<[a := held l]> (leaves h)))).

Lemma lock_siblings_ok h a left right l ll lr :
  smo_lock (plin h) = 0 -> leaves h !! a = Some l -> LeafNode.lf_locked l = 0 ->
  (left <> 0 -> leaves h !! left = Some ll /\ LeafNode.lf_locked ll = 0 /\ left <> a) ->
  (left <> 0 -> right <> 0 -> leaves h !! right = Some lr /\ LeafNode.lf_locked lr = 0 /\ right <> a /\ left <> right) ->
  lock_siblings a left right h =
    if (left =? 0) || (right =? 0) then Ok (false, h) else Ok (true, with_locks h a left right l ll lr).
Proof.
  intros Hs Ha Hl Hll Hlr.
  set (h1 := set_plin h (set_smo_lock (plin h) 1)).
  assert (E1 : smo_try_read_lock h = Ok (true, h1)).
  { unfold smo_try_read_lock. cbv [mbind P_bind meta put_meta put get mret P_ret]. by rewrite Hs. }
  assert (Er : smo_release_read h1 = Ok (tt, h)).
  { unfold smo_release_read, put_meta, put. subst h1. cbn -[u32]. change (u32 (1 - 1)) with 0. do 2 f_equal.
    destruct h as [p]. destruct p. cbn in *. by subst. }
  assert (Ea : try_split_lock a h1 = Ok (true, set_leaves h1 (<[a := held l]> (leaves h)))) by exact (try_lock_free h1 a l Ha Hl).
  assert (Eb : forall ls, ls !! a = Some (held l) -> delete a ls = delete a (leaves h) ->
    release_leaf a (set_leaves h1 ls) = Ok (tt, h1)).
  { intros ls Hla Hd. rewrite (release_held _ a l) by done. cbn [leaves set_leaves]. do 2 f_equal.
    replace (<[a := l]> ls) with (leaves h); [by destruct h|]. rewrite <- insert_delete_eq, Hd, insert_delete_eq. by rewrite insert_id. }
  unfold lock_siblings, mbind, P_bind. rewrite E1. cbn [negb]. rewrite Ea. cbn [negb].
  destruct (Z.eqb_spec left 0) as [->|Hnl]; cbn [orb].
  - unfold mret, P_ret. cbn [negb]. rewrite Eb; [by rewrite Er|apply lookup_insert_eq|by rewrite delete_insert_eq].
  - destruct (Hll Hnl) as (El & El0 & Hla).
    rewrite (try_lock_free _ left ll); [|cbn; by rewrite lookup_insert_ne|done]. cbn [negb leaves set_leaves].
    destruct (Z.eqb_spec right 0) as [->|Hnr].
    + unfold mret, P_ret. cbn [negb]. rewrite (release_held _ left ll); [|cbn; by rewrite lookup_insert_eq|done].
      cbn [leaves set_leaves]. rewrite insert_insert_eq.
      change (set_leaves (set_leaves (set_leaves h1 _) _) ?x) with (set_leaves h1 x).
      rewrite Eb; [by rewrite Er|by rewrite lookup_insert_ne, lookup_insert_eq|].
      rewrite (insert_id _ left ll) by (by rewrite lookup_insert_ne). by rewrite delete_insert_eq.
    + destruct (Hlr Hnl Hnr) as (Er2 & Er0 & Hra & Hne).
      rewrite (try_lock_free _ right lr); [done|cbn; by rewrite !lookup_insert_ne|done].
Qed.

(** ** No rebuild *)

Lemma times_build_leaves segs data start prev gv : keeps (T := T) rebuild_times (build_leaves segs data start prev gv).
Proof. revert start prev. induction segs as [|s segs IH]; intros start prev; cbn; keep. Qed.
Lemma times_link addrs : keeps (T := T) rebuild_times (link_next addrs).
Proof.
  induction addrs as [|a addrs IH]; [apply keeps_ret|]. destruct addrs as [|b addrs]; [apply keeps_ret|].
  apply keeps_bind; [keep|intros _; exact IH].
Qed.
Lemma times_upserts accs : keeps (T := T) rebuild_times (upsert_nodes accs).
Proof. apply keeps_upsert_nodes. intros s. unfold upsert_node, inner_fuel. keep. apply keeps_find_root. Qed.
Lemma times_debug : keeps (T := T) rebuild_times debug.
Proof. apply keeps_all, debug_pure. Qed.
#[local] Hint Resolve times_build_leaves times_link times_upserts times_debug : frame.

Lemma split_times a acc left right : keeps (T := T) rebuild_times (split_locked a acc left right).
Proof. unfold split_locked, finish_split, on_lock, take_log, pess_insert_tabel, smo_release_read, release_leaf, modify_slot. keep. Qed.

(** A rebuild is counted. *)
Lemma infos_pure n a : keeps (T := T) id (leaf_infos n a).
Proof. revert a. induction n as [|n IH]; intros a; cbn; keep. Qed.
Lemma times_infos n a : keeps (T := T) rebuild_times (leaf_infos n a).
Proof. apply keeps_all, infos_pure. Qed.
Lemma times_level segs (cs : list child) start lvl extra : keeps (T := T) rebuild_times (build_level segs cs start lvl extra).
Proof. revert start. induction segs as [|s segs IH]; intros start; cbn; keep. Qed.
Lemma times_levels fuel (cs : list child) lvl extra : keeps (T := T) rebuild_times (build_levels fuel cs lvl extra).
Proof. revert cs lvl. induction fuel as [|fuel IH]; intros cs lvl; cbn; keep. apply times_level. Qed.
Lemma times_leftmost : keeps (T := T) rebuild_times get_leftmost_leaf.
Proof. unfold get_leftmost_leaf, inner_fuel. keep. Qed.
Lemma times_destroy rs : keeps (T := T) rebuild_times (destroy_roots rs).
Proof. intros h u h' E. unfold destroy_roots in E. apply bind_ok in E as (i & _ & [= _ <-]). done. Qed.
#[local] Hint Resolve times_infos times_level times_levels times_leftmost times_destroy : frame.

Lemma rebuild_counted h h' :
  smo_lock (plin h) = 0 -> rebuild_inner_nodes h = Ok (tt, h') -> rebuild_times h' = rebuild_times h + 2.
Proof.
  intros Hs E. unfold rebuild_inner_nodes in E. apply P_bind_ok in E as (got & h1 & E1 & E).
  unfold smo_write_lock in E1. cbv [mbind P_bind meta put_meta put get mret P_ret] in E1. rewrite Hs in E1. cbn in E1.
  injection E1 as <- <-. cbn [negb] in E.
  apply P_bind_ok in E as (n & h2 & E1 & E). apply P_bind_ok in E as (a & h3 & E2 & E). apply P_bind_ok in E as (infos & h4 & E3 & E).
  apply P_bind_ok in E as ([[top' lvl] ps] & h5 & E4 & E). apply P_bind_ok in E as ([] & h6 & E5 & E).
  apply P_bind_ok in E as (old & h7 & E6 & E). apply P_bind_ok in E as ([] & h8 & E7 & E). apply P_bind_ok in E as ([] & h9 & E8 & E).
  injection E8 as <-. unfold smo_release_write in E.
  rewrite (kept (rebuild_times (T := T)) E). cbn [rebuild_times set_rebuild_times].
  rewrite (kept (rebuild_times (T := T)) E7), (kept (rebuild_times (T := T)) E6), (kept (rebuild_times (T := T)) E5), (kept (rebuild_times (T := T)) E4), (kept (rebuild_times (T := T)) E3),
    (kept (rebuild_times (T := T)) E2), (kept (rebuild_times (T := T)) E1). done.
Qed.
End SplitTop.
