(* ===== verification/SplitMap.v ===== *)
(** * The index keeps the map when leaves are split (core/index/plin_index.h, split, upsert)

    When an upsert fills its leaf up, the leaf is split: it is locked together with its two
    neighbours, its data go to new leaves, the neighbours are linked to them and their
    slots take the place of the old slot in the levels.  The index then holds the same
    map, unless a new leaf became an orphan. *)

From S2P Require Import Prelude Doubles Rounding Slots Routing InnerTree InnerUpsert Relock PlinIndex Levels SplitLevels BulkLoad IndexMap LeafSplit SplitSteps.
From S2P Require Segmentation CacheModel LeafNode InnerNode BPlus BPlusMap.
Open Scope Z_scope.

(** ** Places in a chain with a part replaced *)

Section Places.
Implicit Types l mid : list child.

(** The address of the first child, and of the last. *)
Definition first_at l2 : Z := match head l2 with Some d => ptr d.2 | None => 0 end.
Definition last_at (first : Z) l1 : Z := match last l1 with Some d => ptr d.2 | None => first end.

Lemma next_at_l l1 l2 i :
  (i < length l1)%nat -> next_at (l1 ++ l2) i = if (S i <? length l1)%nat then next_at l1 i else first_at l2.
Proof.
  intros Hi. unfold next_at, first_at. destruct (Nat.ltb_spec (S i) (length l1)) as [Hlt|Hge].
  - by rewrite lookup_app_l.
  - rewrite lookup_app_r by lia. replace (S i - length l1)%nat with 0%nat by lia. by rewrite head_lookup.
Qed.
Lemma next_at_r l1 l2 i : next_at (l1 ++ l2) (length l1 + i) = next_at l2 i.
Proof. unfold next_at. rewrite lookup_app_r by lia. by replace (S (length l1 + i) - length l1)%nat with (S i) by lia. Qed.

Lemma prev_at_l first l1 l2 i : (i < length l1)%nat -> prev_at first (l1 ++ l2) i = prev_at first l1 i.
Proof. intros Hi. destruct i as [|i]; [done|]. cbn [prev_at]. by rewrite lookup_app_l by lia. Qed.
Lemma prev_at_r first l1 l2 i : prev_at first (l1 ++ l2) (length l1 + i) = prev_at (last_at first l1) l2 i.
Proof.
  unfold last_at. destruct i as [|i].
  - cbn [prev_at]. rewrite Nat.add_0_r. rewrite last_lookup. destruct l1 as [|d l1]; [done|]. cbn [length pred prev_at].
    rewrite lookup_app_l by (cbn; lia). destruct (lookup_lt_is_Some_2 (d :: l1) (length l1)) as [x ->]; [cbn; lia|done].
  - replace (length l1 + S i)%nat with (S (length l1 + i)) by lia. cbn [prev_at].
    rewrite lookup_app_r by lia. by replace (length l1 + i - length l1)%nat with i by lia.
Qed.
Lemma prev_at_first f f' l i : (0 < i)%nat -> prev_at f l i = prev_at f' l i.
Proof. by destruct i; [lia|]. Qed.

(** The last child at most the query, when a child is replaced by others from its key on. *)
Lemma last_le_mid q l1 mid l2 :
  InnerNode.last_le q (l1 ++ mid ++ l2) =
    match InnerNode.last_le q l2 with
    | Some d => Some d
    | None => match InnerNode.last_le q mid with Some d => Some d | None => InnerNode.last_le q l1 end
    end.
Proof. rewrite !last_le_app. by destruct (InnerNode.last_le q l2). Qed.

Lemma last_le_replaced q l1 c l2 accs c0 :
  finite q = true -> Forall InnerNode.child_ok accs -> InnerNode.increasing_from None accs ->
  head accs = Some c0 -> finite c.1 = true -> rank c0.1 = rank c.1 ->
  InnerNode.last_le q (l1 ++ c :: l2) = Some c /\
    (exists d, InnerNode.last_le q accs = Some d /\ InnerNode.last_le q (l1 ++ accs ++ l2) = Some d) \/
  InnerNode.last_le q (l1 ++ accs ++ l2) = InnerNode.last_le q (l1 ++ c :: l2) /\
    forall d, InnerNode.last_le q (l1 ++ c :: l2) = Some d -> d ∈ l1 ++ l2.
Proof.
  intros Hq Hok Hinc H0 Hc Er. change (c :: l2) with ([c] ++ l2). rewrite !last_le_mid.
  destruct (InnerNode.last_le q l2) as [e|] eqn:E2.
  { right. split; [done|]. intros d [= <-]. apply elem_of_app. right. by apply last_le_Some in E2 as [? _]. }
  rewrite last_le_cons. cbn [InnerNode.last_le].
  assert (K0 : finite c0.1 = true).
  { destruct accs; [done|]. injection H0 as ->. by apply Forall_cons in Hok as [(? & _) _]. }
  assert (E0 : dle c0.1 q = dle c.1 q) by (rewrite !dle_rank by (by apply finite_key); by rewrite Er).
  rewrite last_le_nil. destruct (dle c.1 q) eqn:Ec.
  - left. split; [done|]. destruct (InnerNode.last_le q accs) as [d|] eqn:Ea; [by exists d|].
    apply last_le_None in Ea. destruct accs; [done|]. injection H0 as ->. apply Forall_cons in Ea as [Ea _]. congruence.
  - right. assert (Ea : InnerNode.last_le q accs = None).
    { destruct (InnerNode.last_le q accs) as [d|] eqn:Ea; [|done]. destruct accs as [|x accs]; [done|]. injection H0 as ->.
      pose proof (last_le_first q c0 accs d Hq Hok Hinc Ea). congruence. }
    rewrite Ea. split; [done|]. intros d Ed. apply elem_of_app. left. by apply last_le_Some in Ed as [? _].
Qed.
End Places.

(** ** The leaves of a map *)

Section OneLeaf.
Context {T : Type} `{OverflowDataLaws T}.
Variables (h : PlinIndex (T := T)) (M : gmap Z Z) (cs : list child) (n : Z).
Variables (i : nat) (c : child) (l : Leaf T) (ms : list (gmap Z Z)).
Hypothesis Hm : map_ok cs n h M.
Hypothesis Hl : leaf_in cs n h M i c l ms.
Hypothesis Hi : cs !! i = Some c.

(** The payload of a key of the leaf is that of the map. *)
Lemma leaf_payload q :
  in_keys h q -> LeafNode.storable q -> InnerNode.last_le q cs = Some c -> union_of ms q = M !! rank q.
Proof.
  intros Hq Hs Hc. destruct (good_predicts h l q (mo_min _ _ _ _ Hm) (mo_max _ _ _ _ Hm) (li_model _ _ _ _ _ _ _ _ Hl) Hq) as [b Hb].
  rewrite (union_value l ms q b (li_ok _ _ _ _ _ _ _ _ Hl) Hs Hb). by apply (li_values _ _ _ _ _ _ _ _ Hl).
Qed.

Lemma leaf_entry q v :
  LeafNode.storable q -> union_of ms q = Some v ->
  in_keys h q /\ InnerNode.last_le q cs = Some c /\ v <> 0 /\ M !! rank q = Some v.
Proof.
  intros Hs Hv. destruct (union_in ms q v Hv) as (m & Hin & Hmv).
  destruct (li_only _ _ _ _ _ _ _ _ Hl m q v Hin Hs Hmv) as (K1 & K2 & K3).
  split; [done|]. split; [done|]. split; [done|]. by rewrite <- (leaf_payload q K1 Hs K2).
Qed.

(** The data of the leaf: keys of the map, routed to it; its own key is one of them. *)
Lemma leaf_data (data : list datum) :
  lists (union_of ms) data -> Forall (fun kv : datum => LeafNode.storable kv.1) data -> Z.of_nat (size M) <= max_keys ->
  Forall loadable data /\ Z.of_nat (length data) <= max_keys /\
  Forall (fun kv : datum => in_keys h kv.1 /\ InnerNode.last_le kv.1 cs = Some c /\ M !! rank kv.1 = Some kv.2) data /\
  exists kv, kv ∈ data /\ rank kv.1 = rank c.1.
Proof.
  intros [D1 D2 D3] Hst Hsize.
  assert (Hhas : forall kv, kv ∈ data -> LeafNode.storable kv.1 /\ union_of ms kv.1 = Some kv.2).
  { intros kv Hkv. pose proof (proj1 (Forall_forall _ _) Hst kv Hkv) as Hk. split; [done|]. apply D3; [done|by exists kv]. }
  assert (Hall : Forall (fun kv : datum => in_keys h kv.1 /\ InnerNode.last_le kv.1 cs = Some c /\ M !! rank kv.1 = Some kv.2) data).
  { apply Forall_forall. intros kv Hkv. destruct (Hhas kv Hkv) as [Hk Hu]. by destruct (leaf_entry kv.1 kv.2 Hk Hu) as (? & ? & _ & ?). }
  split; [|split; [|split; [exact Hall|]]].
  - apply Forall_forall. intros kv Hkv. destruct (Hhas kv Hkv) as [Hk Hu]. destruct (leaf_entry kv.1 kv.2 Hk Hu) as ([Hf _] & _ & Hv & _).
    split; [done|]. by split; [apply Hk|].
  - etransitivity; [|exact Hsize]. apply inj_le. rewrite <- (length_map (fun kv : datum => rank kv.1) data).
    rewrite <- (length_map_to_list M), <- (length_fmap fst (map_to_list M)). apply submseteq_length, NoDup_submseteq; [done|].
    intros r (kv & -> & Hkv)%list_elem_of_fmap. apply list_elem_of_fmap. exists (rank kv.1, kv.2). split; [done|].
    apply elem_of_map_to_list. by apply (proj1 (Forall_forall _ _) Hall).
  - pose proof (mo_children _ _ _ _ Hm) as [Hok Hinc]. pose proof (list_elem_of_lookup_2 _ _ _ Hi) as Hc.
    destruct (proj1 (Forall_forall _ _) Hok c Hc) as (Kc & Emin & Efree).
    destruct (proj1 (Forall_forall _ _) (mo_live _ _ _ _ Hm) c Hc) as [Hle [v Hv]].
    assert (Hst' : LeafNode.storable c.1).
    { split; [by apply finite_key|]. unfold InnerNode.is_free in Efree. rewrite Emin, deq_rank in Efree by (done || by apply finite_key).
      by apply Z.eqb_neq in Efree. }
    assert (Hk : in_keys h c.1).
    { split; [done|]. split; [|done]. pose proof (mo_first _ _ _ _ Hm) as (x & Hx & <-).
      destruct cs as [|y rest]; [done|]. injection Hx as ->. apply elem_of_cons in Hc as [->|Hc]; [lia|].
      apply Z.lt_le_incl, (InnerNode.increasing_from_lower _ rest); [apply Hinc|done]. }
    assert (Hlast : InnerNode.last_le c.1 cs = Some c).
    { apply (last_le_at cs i c c.1 Hok Hinc Kc Hi); [rewrite dle_rank by (by apply finite_key); by apply Z.leb_refl|].
      intros d Hd. destruct (proj1 (Forall_lookup _ _) Hok _ _ Hd) as (Kd & _). rewrite dle_rank by (by apply finite_key).
      apply Z.leb_gt. by apply (increasing_lookup None cs i c d Hinc). }
    pose proof (leaf_payload c.1 Hk Hst' Hlast) as E. rewrite Hv in E. apply D3 in E as (kv & Hkv & Er & _); [|done]. by exists kv.
Qed.
End OneLeaf.

(** ** The map with the new leaves *)

Section Relinked.
Context {T : Type} `{LeafNode.OverflowTreeLaws T}.
Implicit Type h : PlinIndex (T := T).

Definition relink (l : Leaf T) (p x : Z) : Leaf T := LeafNode.with_next (LeafNode.with_prev l p) x.

Lemma relink_same (l : Leaf T) : relink l (LeafNode.lf_prev l) (LeafNode.lf_next l) = l.
Proof. by destruct l. Qed.

Lemma settings_keys h h' q : settings h' = settings h -> in_keys h' q <-> in_keys h q.
Proof. intros [= E1 E2 _ _ _]. unfold in_keys. by rewrite E1, E2. Qed.

Lemma settings_model h h' l : settings h' = settings h -> good_model h' l <-> good_model h l.
Proof. intros [= E1 E2 _ _ _]. unfold good_model. by rewrite E1, E2. Qed.

(** An old leaf with other links. *)
Lemma leaf_relinked cs cs' n h h' M i j d l ms :
  leaf_in cs n h M i d l ms -> settings h' = settings h ->
  leaves h' !! ptr d.2 = Some (relink l (prev_at 0 cs' j) (next_at cs' j)) ->
  (forall q, finite q = true -> InnerNode.last_le q cs' = Some d <-> InnerNode.last_le q cs = Some d) ->
  leaf_in cs' n h' M j d (relink l (prev_at 0 cs' j) (next_at cs' j)) ms.
Proof.
  intros [L1 [O1 O2 O3 O4 O5 O6] L3 L4 L5 L6 L7 L8 L9 L10 L11] Hs Hl Hlast. split; try done.
  - by apply (settings_model h h').
  - intros q block Hq. apply (settings_keys h h' q Hs) in Hq as Hq'. intros Hst Hc. apply Hlast in Hc; [|apply Hq]. by apply L8.
  - intros m q v Hm Hq Hv. destruct (L11 m q v Hm Hq Hv) as (K1 & K2 & K3). split; [by apply (settings_keys h)|].
    split; [apply Hlast; [apply K1|done]|done].
Qed.
End Relinked.

Section Replace.
Context {T : Type} `{OverflowDataLaws T}.
Variables (h h' : PlinIndex (T := T)) (M : gmap Z Z).
Variables (l1 l2 accs : list child) (c cl cr c0 cn : child) (runs : list (list datum)) (f : double -> option Z).
Abbreviation cs := (l1 ++ c :: l2).
Abbreviation cs' := (l1 ++ accs ++ l2).
Hypothesis Hm : map_ok cs 0 h M.
Hypothesis Hcl : last l1 = Some cl.
Hypothesis Hcr : head l2 = Some cr.
Hypothesis Hc0 : head accs = Some c0.
Hypothesis Hcn : last accs = Some cn.
Hypothesis Hroot : rooted h' cs'.
Hypothesis Hset : settings h' = settings h.
Hypothesis Hkey : rank c0.1 = rank c.1.
(** The old leaves. *)
Hypothesis Hold : forall d, d ∈ l1 ++ l2 -> d <> cl -> d <> cr -> leaves h' !! ptr d.2 = leaves h !! ptr d.2.
Hypothesis Hleft : forall l, leaves h !! ptr cl.2 = Some l ->
  leaves h' !! ptr cl.2 = Some (LeafNode.with_next l (ptr c0.2)).
Hypothesis Hright : forall l, leaves h !! ptr cr.2 = Some l ->
  leaves h' !! ptr cr.2 = Some (LeafNode.with_prev l (ptr cn.2)).
(** The new leaves, over the data of the old one. *)
Hypothesis Hnew : forall i d run, accs !! i = Some d -> runs !! i = Some run ->
  leaf_over (leaves h') d run (next_to accs (ptr cr.2) i).
Hypothesis Hback : backed (leaves h') (ptr cl.2) accs.
Hypothesis Hsl : Forall2 slot_over accs runs.
Hypothesis Hlists : lists f (concat runs).
Hypothesis Hinc : Segmentation.increasing (map fst (concat runs)).
Hypothesis Hall : Forall loadable (concat runs).
Hypothesis Hdata : Forall (fun kv : datum => in_keys h kv.1 /\ InnerNode.last_le kv.1 cs = Some c /\ M !! rank kv.1 = Some kv.2) (concat runs).
Hypothesis Hf : forall q, in_keys h q -> LeafNode.storable q -> InnerNode.last_le q cs = Some c -> f q = M !! rank q.
Hypothesis Hnd : NoDup (map (fun d : child => ptr d.2) accs).
Hypothesis Hfresh : forall d e, d ∈ accs -> e ∈ l1 ++ l2 -> ptr d.2 <> ptr e.2.
Hypothesis Hnz : Forall (fun d : child => ptr d.2 <> 0) accs.
Hypothesis Hreach : reach h' = true.
Hypothesis Hroom : room 0 h' = true.

Lemma cs_children : Forall InnerNode.child_ok cs /\ InnerNode.increasing_from None cs.
Proof. apply (mo_children _ _ _ _ Hm). Qed.
Lemma accs_children : Forall InnerNode.child_ok accs /\ InnerNode.increasing_from None accs.
Proof. by apply (slots_increasing accs runs). Qed.

Lemma replaced q : finite q = true ->
  InnerNode.last_le q cs = Some c /\ (exists d, InnerNode.last_le q accs = Some d /\ InnerNode.last_le q cs' = Some d) \/
  InnerNode.last_le q cs' = InnerNode.last_le q cs /\ forall d, InnerNode.last_le q cs = Some d -> d ∈ l1 ++ l2.
Proof.
  intros Hq. destruct accs_children as [A1 A2]. apply (last_le_replaced q l1 c l2 accs c0 Hq A1 A2 Hc0); [|exact Hkey].
  apply (proj1 (Forall_forall _ _) (proj1 cs_children) c), middle_in.
Qed.

Lemma old_apart d : d ∈ l1 ++ l2 -> d <> c /\ d ∉ accs.
Proof.
  intros Hd. split.
  - intros ->. by apply (increasing_lower None l1 c l2 c (proj2 cs_children) Hd).
  - intros Hin. by apply (Hfresh d d Hin Hd).
Qed.

Lemma replaced_old q d : finite q = true -> d ∈ l1 ++ l2 -> InnerNode.last_le q cs' = Some d <-> InnerNode.last_le q cs = Some d.
Proof.
  intros Hq Hd. destruct (old_apart d Hd) as [Hdc Hda]. destruct (replaced q Hq) as [(E & x & Ex & E')|[E _]]; [|by rewrite E].
  rewrite E, E'. split; [intros [= ->]; by apply last_le_Some in Ex as [? _]|congruence].
Qed.

Lemma replaced_new q d : finite q = true -> d ∈ accs -> InnerNode.last_le q cs' = Some d <->
  InnerNode.last_le q cs = Some c /\ InnerNode.last_le q accs = Some d.
Proof.
  intros Hq Hd. destruct (replaced q Hq) as [(E & x & Ex & E')|[E Ho]].
  - rewrite E, E', Ex. split; [intros [= ->]; by split|by intros [_ [= ->]]].
  - rewrite E. split; [intros Ed; by destruct (old_apart d (Ho d Ed))|].
    intros [Ec _]. by destruct (old_apart c (Ho c Ec)).
Qed.

Lemma cs_apart i j d e : cs !! i = Some d -> cs !! j = Some e -> i <> j -> d <> e.
Proof.
  intros Hi Hj Hne ->. apply Hne. apply (addresses_inj cs i j e e (proj1 (mo_addresses _ _ _ _ Hm)) Hi Hj eq_refl).
Qed.

Lemma cl_at : l1 !! pred (length l1) = Some cl /\ (0 < length l1)%nat.
Proof. rewrite <- last_lookup. split; [done|]. destruct l1; [done|cbn; lia]. Qed.
Lemma cr_at : l2 !! 0%nat = Some cr.
Proof. by rewrite <- head_lookup. Qed.

Lemma cs_r j : cs !! (length l1 + S j)%nat = l2 !! j.
Proof. rewrite lookup_app_r by lia. by replace (length l1 + S j - length l1)%nat with (S j) by lia. Qed.

(** The leaf of a child before the old one. *)
Lemma replaced_before i d : l1 !! i = Some d -> exists l ms, leaf_in cs' 0 h' M i d l ms.
Proof.
  intros Hd. pose proof (lookup_lt_Some _ _ _ Hd) as Hlt. pose proof (list_elem_of_lookup_2 _ _ _ Hd) as Hin.
  assert (Hl1 : forall j x, l1 !! j = Some x -> cs !! j = Some x) by (intros j x; apply lookup_app_l_Some).
  pose proof (Hl1 _ _ Hd) as Hi. destruct cl_at as [Hcli Hpos].
  destruct (mo_leaves _ _ _ _ Hm i d Hi) as (l & ms & Hl). exists (relink l (prev_at 0 cs' i) (next_at cs' i)), ms.
  apply (leaf_relinked cs cs' 0 h h' M i i d l ms Hl Hset); [|intros q Hq; apply replaced_old; [done|apply elem_of_app; by left]].
  pose proof (li_at _ _ _ _ _ _ _ _ Hl) as Hat. pose proof (li_next _ _ _ _ _ _ _ _ Hl) as Hnext. pose proof (li_prev _ _ _ _ _ _ _ _ Hl) as Hprev.
  rewrite prev_at_l in * by done. rewrite <- Hprev. rewrite next_at_l in Hnext |- * by done.
  destruct (Nat.ltb_spec (S i) (length l1)) as [Hlt'|Hge].
  - rewrite Hold; [by rewrite <- Hnext, relink_same|apply elem_of_app; by left| |].
    + apply (cs_apart i (pred (length l1))); [done|by apply Hl1|lia].
    + apply (cs_apart i (length l1 + 1)); [done|by rewrite cs_r, cr_at|lia].
  - assert (i = pred (length l1)) as -> by lia. assert (d = cl) as -> by congruence.
    rewrite (Hleft l Hat). unfold first_at. destruct accs as [|x accs']; [done|]. injection Hc0 as ->. cbn. by destruct l.
Qed.

(** And after it. *)
Lemma replaced_after j d : l2 !! j = Some d -> exists l ms, leaf_in cs' 0 h' M (length l1 + (length accs + j)) d l ms.
Proof.
  intros Hd. pose proof (list_elem_of_lookup_2 _ _ _ Hd) as Hin.
  assert (Hi : cs !! (length l1 + S j)%nat = Some d) by (by rewrite cs_r). destruct cl_at as [Hcli Hpos].
  destruct (mo_leaves _ _ _ _ Hm _ d Hi) as (l & ms & Hl).
  exists (relink l (prev_at 0 cs' (length l1 + (length accs + j))) (next_at cs' (length l1 + (length accs + j)))), ms.
  apply (leaf_relinked cs cs' 0 h h' M (length l1 + S j) (length l1 + (length accs + j)) d l ms Hl Hset);
    [|intros q Hq; apply replaced_old; [done|apply elem_of_app; by right]].
  pose proof (li_at _ _ _ _ _ _ _ _ Hl) as Hat. pose proof (li_next _ _ _ _ _ _ _ _ Hl) as Hnext. pose proof (li_prev _ _ _ _ _ _ _ _ Hl) as Hprev.
  change (c :: l2) with ([c] ++ l2) in Hnext, Hprev. change (S j) with (length [c] + j)%nat in Hnext, Hprev.
  rewrite !next_at_r in Hnext |- *. rewrite !prev_at_r in Hprev |- *. rewrite <- Hnext.
  destruct j as [|j].
  - pose proof cr_at as Hcr0. assert (d = cr) as -> by congruence. rewrite (Hright l Hat). cbn [prev_at]. unfold last_at at 1. rewrite Hcn.
    by destruct l.
  - rewrite (prev_at_first _ (last_at (last_at 0 l1) [c])) by lia. rewrite <- Hprev, relink_same.
    rewrite Hold; [done|apply elem_of_app; by right| |].
    + apply (cs_apart (length l1 + S (S j)) (pred (length l1))); [done|by apply lookup_app_l_Some|lia].
    + apply (cs_apart (length l1 + S (S j)) (length l1 + 1)); [done|by rewrite cs_r, cr_at|lia].
Qed.

(** A new leaf. *)
Lemma replaced_within i d : accs !! i = Some d -> exists l ms, leaf_in cs' 0 h' M (length l1 + i) d l ms.
Proof.
  intros Hd. pose proof (lookup_lt_Some _ _ _ Hd) as Hlt. pose proof (list_elem_of_lookup_2 _ _ _ Hd) as Hin.
  destruct (Forall2_lookup_l _ _ _ _ _ Hsl Hd) as (run & Hrun & Hover).
  destruct (Hnew i d run Hd Hrun) as (l & ms & N1 & N2 & N3 & N4 & N5 & N6). exists l, ms.
  assert (Hg : good_model h' l).
  { pose proof Hreach as Hr. unfold reach in Hr. apply andb_true_iff in Hr as [Hr _]. apply andb_true_iff in Hr as [_ Hr].
    apply (forallb_lookup _ _ _ _ Hr N1). }
  assert (Hsub : forall kv, kv ∈ run -> kv ∈ concat runs).
  { intros kv Hkv. apply list_elem_of_In, in_concat. exists run. split; apply list_elem_of_In; [by eapply list_elem_of_lookup_2|done]. }
  pose proof Hset as Hs'. injection Hs' as Smin Smax _ _ _.
  split; try done.
  - rewrite next_at_r, next_at_l by done. rewrite N5. unfold next_to, next_at, first_at. rewrite Hcr.
    destruct (Nat.ltb_spec (S i) (length accs)) as [Hlt'|Hge]; [|by rewrite lookup_ge_None_2].
    by destruct (lookup_lt_is_Some_2 accs (S i) Hlt') as [x ->].
  - apply (forallb_lookup _ _ _ _ Hroom N1).
  - intros q block Hq Hs Hlast Hp. apply (settings_keys h h' q Hset) in Hq as Hq'.
    apply replaced_new in Hlast as [Hc Ha]; [|apply Hq|done].
    rewrite (run_value f accs runs q Hlists Hinc Hall Hsl Hs (proj1 Hq) i d run l ms block Hnd Ha Hd Hrun N6 Hp). by apply Hf.
  - rewrite prev_at_r, prev_at_l by done. unfold last_at. rewrite Hcl. pose proof (Hback i d Hd) as K. rewrite N1 in K. by injection K.
  - apply Hover.
  - intros m q v Hmm Hq Hv.
    destruct (run_entry h' run l ms m q v N6 N2 Hg) as (Hk & kv & Hkv & E & <-); try done.
    { rewrite Smin. apply (mo_min _ _ _ _ Hm). } { rewrite Smax. apply (mo_max _ _ _ _ Hm). }
    { intros kv Hkv. apply (settings_keys h h' _ Hset). by apply (proj1 (Forall_forall _ _) Hdata), Hsub. }
    destruct (proj1 (Forall_forall _ _) Hdata kv (Hsub kv Hkv)) as ([Hfk _] & Hc & _).
    split; [done|]. split; [|by apply (proj1 (Forall_forall _ _) Hall), Hsub].
    pose proof (finite_key _ Hfk) as Kk. apply replaced_new; [apply Hk|done|]. split.
    + by rewrite <- (last_le_rank kv.1 q cs (proj1 cs_children) Kk (proj1 Hq) E).
    + rewrite <- (last_le_rank kv.1 q accs (proj1 accs_children) Kk (proj1 Hq) E).
      apply (last_le_data accs runs i d run kv Hsl Hinc); [|done..]. eapply Forall_impl; [exact Hall|]. by intros x (K & _).
Qed.

Lemma replaced_map_ok : map_ok cs' 0 h' M.
Proof.
  pose proof Hset as Hs'. injection Hs' as Smin Smax Sl Sr Sb.
  destruct Hm as [Hmin Hmax Hord Hreb [Hok Hincr] (x0 & Hx0 & Ex0) [Hnda Hnza] _ _ Hlb Hrb Hlive].
  split; rewrite ?Smin, ?Smax, ?Sl, ?Sr, ?Sb; try done.
  - apply (rt_children _ _ Hroot).
  - exists x0. split; [|done]. destruct cl_at as [_ Hpos]. rewrite lookup_app_l in Hx0 |- * by done. exact Hx0.
  - rewrite map_app in Hnda. cbn [map] in Hnda. apply NoDup_app in Hnda as (N1 & N2 & N3). apply NoDup_cons in N3 as [N3 N4].
    apply Forall_app in Hnza as [Z1 Z2]. apply Forall_cons in Z2 as [_ Z2]. split; [|by rewrite !Forall_app].
    rewrite !map_app. apply NoDup_app. split; [done|]. split.
    + intros x Hx. rewrite elem_of_app. intros [Hx'|Hx'].
      * apply list_elem_of_fmap in Hx as (e & -> & He), Hx' as (d & E & Hd). apply (Hfresh d e Hd); [apply elem_of_app; by left|done].
      * by apply (N2 x Hx), list_elem_of_further.
    + apply NoDup_app. split; [done|]. split; [|done]. intros x Hx Hx'.
      apply list_elem_of_fmap in Hx as (d & -> & Hd), Hx' as (e & E & He). apply (Hfresh d e Hd); [apply elem_of_app; by right|done].
  - intros q d Hq Hd. apply (rooted_routes h' cs' Hroot q d); [apply Hq|by apply reach_in_reach|done].
  - intros i d Hi. destruct (Nat.lt_ge_cases i (length l1)) as [Hlt|Hge].
    + rewrite lookup_app_l in Hi by done. by apply replaced_before.
    + rewrite lookup_app_r in Hi by done. replace i with (length l1 + (i - length l1))%nat by lia.
      destruct (Nat.lt_ge_cases (i - length l1) (length accs)) as [Hlt|Hge'].
      * rewrite lookup_app_l in Hi by done. by apply replaced_within.
      * rewrite lookup_app_r in Hi by done. replace (i - length l1)%nat with (length accs + (i - length l1 - length accs))%nat by lia.
        by apply replaced_after.
  - apply Forall_app in Hlive as [V1 V2]. apply Forall_cons in V2 as [_ V2]. rewrite !Forall_app. split; [done|]. split; [|done].
    apply Forall_lookup. intros i d Hd. destruct (Forall2_lookup_l _ _ _ _ _ Hsl Hd) as (run & Hrun & _ & _ & kv & rest & -> & <-).
    assert (Hkv : kv ∈ concat runs).
    { apply list_elem_of_In, in_concat. exists (kv :: rest). split; [apply list_elem_of_In; by eapply list_elem_of_lookup_2|by left]. }
    destruct (proj1 (Forall_forall _ _) Hdata kv Hkv) as ([_ Hk] & _ & Hv). split; [apply Hk|by exists kv.2].
Qed.
End Replace.

(** ** A split keeps the map *)

Section SplitWhole.
Context {T : Type} `{OverflowDataLaws T}.
Implicit Type h : PlinIndex (T := T).

(** The index holds the map [M] in the leaves of the slots [cs], with its levels over them;
    its lock is free. *)
Record whole (cs : list child) h (M : gmap Z Z) : Prop := {
  wh_map : map_ok cs 0 h M;
  wh_rooted : rooted h cs;
  wh_fresh : fresh_leaves h;
  wh_next : 0 < next_address h;
  wh_lock : smo_lock (plin h) = 0
}.

(** The models are in reach, the counters are words, no leaf is an orphan, and the levels
    have not been rebuilt. *)
Definition calm h : bool := reach h && room 0 h && (orphan_number (plin h) =? 0) && (rebuild_times h =? 0).

Lemma calm_spec h :
  calm h = true <-> reach h = true /\ room 0 h = true /\ orphan_number (plin h) = 0 /\ rebuild_times h = 0.
Proof. unfold calm. rewrite !andb_true_iff, !Z.eqb_eq. tauto. Qed.

(** Both neighbours are leaves of the map, and not the leaf. *)
Lemma neighbour cs h M i j c d l ms :
  map_ok cs 0 h M -> cs !! i = Some c -> cs !! j = Some d -> i <> j -> leaf_in cs 0 h M j d l ms ->
  leaves h !! ptr d.2 = Some l /\ LeafNode.lf_locked l = 0 /\ ptr d.2 <> ptr c.2.
Proof.
  intros Hm Hi Hj Hne Hl. split; [apply (li_at _ _ _ _ _ _ _ _ Hl)|].
  split; [apply (LeafNode.lo_unlocked _ _ (li_ok _ _ _ _ _ _ _ _ Hl))|].
  intros E. apply Hne. by apply (addresses_inj cs i j c d (proj1 (mo_addresses _ _ _ _ Hm))).
Qed.

(** At an end of the chain the locks are given back at once. *)
Lemma split_at_end h a left right l (m : P (T := T) unit) h' :
  smo_lock (plin h) = 0 -> leaves h !! a = Some l -> LeafNode.lf_locked l = 0 ->
  (left <> 0 -> exists ll, leaves h !! left = Some ll /\ LeafNode.lf_locked ll = 0 /\ left <> a) ->
  left = 0 \/ right = 0 ->
  (got ← lock_siblings a left right; if negb (got : bool) then mret tt else m) h = Ok (tt, h') -> h' = h.
Proof.
  intros Hs Ha Hl Hleft Hend E. apply P_bind_ok in E as (got & h0 & E0 & E).
  assert (E1 : lock_siblings a left right h = Ok (false, h)).
  { destruct (Z.eq_dec left 0) as [->|Hne].
    - by rewrite (lock_siblings_ok h a 0 right l l l).
    - destruct Hend as [?| ->]; [done|]. destruct (Hleft Hne) as (ll & Hll).
      rewrite (lock_siblings_ok h a left 0 l ll l); [by rewrite orb_true_r|done..]. }
  rewrite E1 in E0. injection E0 as <- <-. by injection E as <-.
Qed.

(** A leaf at an end of the chain is not split; another is, under the locks. *)
Lemma split_locks cs h M l1 c l2 r h' :
  map_ok cs 0 h M -> smo_lock (plin h) = 0 -> cs = l1 ++ c :: l2 -> split (ptr c.2) (Some r) h = Ok (tt, h') ->
  h' = h \/
  exists l ms cl ll mls cr lr mrs, last l1 = Some cl /\ head l2 = Some cr /\
    leaf_in cs 0 h M (length l1) c l ms /\ leaf_in cs 0 h M (pred (length l1)) cl ll mls /\
    leaf_in cs 0 h M (S (length l1)) cr lr mrs /\ ptr cl.2 <> ptr c.2 /\ ptr cr.2 <> ptr c.2 /\ ptr cl.2 <> ptr cr.2 /\
    (_ ← split_locked (ptr c.2) (Some r) (ptr cl.2) (ptr cr.2);
     m ← meta id; if too_many_orphans m then rebuild_inner_nodes else mret tt)
      (with_locks h (ptr c.2) (ptr cl.2) (ptr cr.2) l ll lr) = Ok (tt, h').
Proof.
  intros Hm Hs Ecs E. assert (Hi : cs !! length l1 = Some c) by (rewrite Ecs; by apply list_lookup_middle).
  destruct (mo_leaves _ _ _ _ Hm _ c Hi) as (l & ms & Hl).
  pose proof (li_at _ _ _ _ _ _ _ _ Hl) as Hat. pose proof (li_prev _ _ _ _ _ _ _ _ Hl) as Hprev. pose proof (li_next _ _ _ _ _ _ _ _ Hl) as Hnext.
  assert (Hun : LeafNode.lf_locked l = 0) by apply (LeafNode.lo_unlocked _ _ (li_ok _ _ _ _ _ _ _ _ Hl)).
  unfold split in E. apply P_bind_ok in E as (l' & h0 & E0 & E). unfold ld_leaf in E0. rewrite Hat in E0. injection E0 as <- <-.
  assert (Eprev : LeafNode.lf_prev l = last_at 0 l1).
  { rewrite Hprev, Ecs. rewrite <- (Nat.add_0_r (length l1)) at 1. by rewrite prev_at_r. }
  assert (Enext : LeafNode.lf_next l = first_at l2).
  { rewrite Hnext, Ecs. change (c :: l2) with ([c] ++ l2). rewrite <- (Nat.add_0_r (length l1)), next_at_r, next_at_l by (cbn; lia). done. }
  rewrite Eprev, Enext in E. unfold last_at, first_at in E.
  destruct (last l1) as [cl|] eqn:Ecl; destruct (head l2) as [cr|] eqn:Ecr.
  - assert (Hpos : (0 < length l1)%nat) by (destruct l1; [done|cbn; lia]).
    assert (Hcl : cs !! pred (length l1) = Some cl) by (rewrite Ecs; apply lookup_app_l_Some; by rewrite <- last_lookup).
    assert (Hcr : cs !! S (length l1) = Some cr).
    { rewrite Ecs, lookup_app_r by lia. replace (S (length l1) - length l1)%nat with 1%nat by lia. rewrite head_lookup in Ecr. exact Ecr. }
    destruct (mo_leaves _ _ _ _ Hm _ cl Hcl) as (ll & mls & Hll). destruct (mo_leaves _ _ _ _ Hm _ cr Hcr) as (lr & mrs & Hlr).
    pose proof (neighbour cs h M _ _ c cl ll mls Hm Hi Hcl ltac:(lia) Hll) as Nl.
    pose proof (neighbour cs h M _ _ c cr lr mrs Hm Hi Hcr ltac:(lia) Hlr) as Nr.
    assert (Hne : ptr cl.2 <> ptr cr.2) by (apply (neighbour cs h M _ _ cr cl ll mls Hm Hcr Hcl ltac:(lia) Hll)).
    pose proof (proj1 (Forall_lookup _ _) (proj2 (mo_addresses _ _ _ _ Hm)) _ _ Hcl) as Zl.
    pose proof (proj1 (Forall_lookup _ _) (proj2 (mo_addresses _ _ _ _ Hm)) _ _ Hcr) as Zr. cbn in Zl, Zr.
    right. exists l, ms, cl, ll, mls, cr, lr, mrs. split_and!; try done; [apply Nl|apply Nr|].
    apply P_bind_ok in E as (got & h0 & E0 & E). rewrite (lock_siblings_ok h _ _ _ l ll lr Hs Hat Hun) in E0;
      [|intros _; exact Nl|intros _ _; destruct Nr as (? & ? & ?); by split_and!].
    rewrite (proj2 (Z.eqb_neq _ _) Zl), (proj2 (Z.eqb_neq _ _) Zr) in E0. cbn [orb] in E0. injection E0 as <- <-. exact E.
  - left. apply (split_at_end h _ _ _ l _ h' Hs Hat Hun) in E; [exact E| |by right]. intros _.
    assert (Hcl : cs !! pred (length l1) = Some cl) by (rewrite Ecs; apply lookup_app_l_Some; by rewrite <- last_lookup).
    destruct (mo_leaves _ _ _ _ Hm _ cl Hcl) as (ll & mls & Hll). exists ll.
    apply (neighbour cs h M (length l1) (pred (length l1)) c cl ll mls Hm Hi Hcl); [destruct l1; [done|cbn; lia]|done].
  - left. apply (split_at_end h _ _ _ l _ h' Hs Hat Hun) in E; [exact E|done|by left].
  - left. apply (split_at_end h _ _ _ l _ h' Hs Hat Hun) in E; [exact E|done|by left].
Qed.

(** The leaves under the locks of a split. *)
Section WithLocks.
Variables (h : PlinIndex (T := T)) (a b d : Z) (l ll lr : Leaf T).
Hypothesis Ha : leaves h !! a = Some l.
Hypothesis Hb : leaves h !! b = Some ll.
Hypothesis Hd : leaves h !! d = Some lr.
Hypothesis Hba : b <> a.
Hypothesis Hda : d <> a.
Hypothesis Hbd : b <> d.
Abbreviation hl := (with_locks h a b d l ll lr).

Lemma locks_leaf : leaves hl !! a = Some (held l) /\ leaves hl !! b = Some (held ll) /\ leaves hl !! d = Some (held lr).
Proof. cbn [leaves with_locks set_leaves]. split_and!; simplify_map_eq; done. Qed.

Lemma locks_other x : x <> a -> x <> b -> x <> d -> leaves hl !! x = leaves h !! x.
Proof. intros. cbn [leaves with_locks set_leaves]. by rewrite !lookup_insert_ne. Qed.

Lemma locks_some x : is_Some (leaves hl !! x) <-> is_Some (leaves h !! x).
Proof.
  destruct (decide (x = a)) as [->|Q1]; [destruct locks_leaf as (-> & _); rewrite Ha; split; by eexists|].
  destruct (decide (x = b)) as [->|Q2]; [destruct locks_leaf as (_ & -> & _); rewrite Hb; split; by eexists|].
  destruct (decide (x = d)) as [->|Q3]; [destruct locks_leaf as (_ & _ & ->); rewrite Hd; split; by eexists|].
  by rewrite locks_other.
Qed.
End WithLocks.

(** The first of the new leaves has the key of the old one. *)
Lemma first_run_key (cs accs : list child) (runs : list (list datum)) c c0 kv0 :
  Forall2 slot_over accs runs -> head accs = Some c0 -> Segmentation.increasing (map fst (concat runs)) ->
  Forall (fun kv : datum => finite kv.1 = true /\ InnerNode.last_le kv.1 cs = Some c) (concat runs) -> finite c.1 = true ->
  kv0 ∈ concat runs -> rank kv0.1 = rank c.1 -> rank c0.1 = rank c.1.
Proof.
  intros Hsl Ec0 Hinc Hall Hc Hkv0 E0. destruct Hsl as [|x run accs runs (_ & _ & kv & rest & -> & Ek) Hsl]; [done|]. injection Ec0 as ->.
  cbn [concat app] in *. apply Forall_cons in Hall as [[Kf Hle] _]. apply last_le_Some in Hle as [_ Hle].
  rewrite dle_rank in Hle by (by apply finite_key). apply Z.leb_le in Hle. rewrite Ek in Hle.
  apply elem_of_cons in Hkv0 as [->|Hin]; [congruence|]. apply list_elem_of_lookup in Hin as [j Hj].
  assert (rank kv.1 < rank kv0.1); [|rewrite Ek in *; lia].
  apply (increasing_ranks _ 0 (S j) _ _ Hinc); [lia|done|]. cbn [map]. change (map fst (rest ++ concat runs) !! j = Some kv0.1).
  by rewrite list_lookup_fmap, Hj.
Qed.

Lemma runs_length (accs : list child) (runs : list (list datum)) :
  Forall2 slot_over accs runs -> (length accs <= length (concat runs))%nat.
Proof.
  induction 1 as [|x run accs runs (_ & _ & kv & rest & -> & _) _ IH]; [done|]. cbn [concat length app]. rewrite length_app. lia.
Qed.

(** Facts about the children of a map around one of them. *)
Section Around.
Variables (h : PlinIndex (T := T)) (M : gmap Z Z) (l1 l2 : list child) (c : child).
Hypothesis Hm : map_ok (l1 ++ c :: l2) 0 h M.

Lemma rest_in x : x ∈ l1 ++ l2 -> x ∈ l1 ++ c :: l2.
Proof. rewrite !elem_of_app, elem_of_cons. tauto. Qed.

Lemma rest_not x : x ∈ l1 ++ l2 -> x <> c.
Proof. intros Hx ->. by apply (increasing_lower None l1 c l2 c (proj2 (mo_children _ _ _ _ Hm)) Hx). Qed.

Lemma child_leaf x : x ∈ l1 ++ c :: l2 -> is_Some (leaves h !! ptr x.2) /\ idle x.2.
Proof.
  intros [i Hx]%list_elem_of_lookup. destruct (mo_leaves _ _ _ _ Hm i x Hx) as (lx & mx & Hlx).
  split; [exists lx; apply (li_at _ _ _ _ _ _ _ _ Hlx)|apply (li_idle _ _ _ _ _ _ _ _ Hlx)].
Qed.

Lemma child_ptr x y : x ∈ l1 ++ c :: l2 -> y ∈ l1 ++ c :: l2 -> x <> y -> ptr x.2 <> ptr y.2.
Proof.
  intros [i Hx]%list_elem_of_lookup [j Hy]%list_elem_of_lookup Hne Ep. apply Hne.
  pose proof (addresses_inj _ i j x y (proj1 (mo_addresses _ _ _ _ Hm)) Hx Hy Ep) as ->. congruence.
Qed.

(** A key of the child is below the keys of the children after it. *)
Lemma key_before k y : in_keys h k -> InnerNode.last_le k (l1 ++ c :: l2) = Some c -> y ∈ l2 -> rank k < rank y.1.
Proof.
  intros [Kk _] Hlast Hy. change (c :: l2) with ([c] ++ l2) in Hlast. rewrite last_le_mid in Hlast.
  destruct (InnerNode.last_le k l2) as [z|] eqn:Ez.
  - injection Hlast as ->. exfalso. apply last_le_Some in Ez as [Hz _].
    apply (rest_not c); [apply elem_of_app; by right|done].
  - apply last_le_None in Ez. pose proof (proj1 (Forall_forall _ _) Ez y Hy) as Hle. cbn in Hle.
    assert (Ky : finite y.1 = true).
    { apply (proj1 (Forall_forall _ _) (proj1 (mo_children _ _ _ _ Hm)) y). apply elem_of_app. right. by apply list_elem_of_further. }
    rewrite dle_rank in Hle by (by apply finite_key). by apply Z.leb_gt in Hle.
Qed.

Lemma last_before cl : last l1 = Some cl -> (l1 ++ c :: l2) !! pred (length l1) = Some cl.
Proof. intros Hcl. apply lookup_app_l_Some. by rewrite <- last_lookup. Qed.
Lemma first_after cr : head l2 = Some cr -> (l1 ++ c :: l2) !! S (length l1) = Some cr.
Proof.
  intros Hcr. rewrite lookup_app_r by lia. replace (S (length l1) - length l1)%nat with 1%nat by lia.
  rewrite head_lookup in Hcr. exact Hcr.
Qed.
End Around.

(** What holds of the keys of all runs holds of the keys of their slots. *)
Lemma slot_keys (P : double -> Prop) (accs : list child) (runs : list (list datum)) :
  Forall2 slot_over accs runs -> Forall (fun kv : datum => P kv.1) (concat runs) -> Forall (fun x : child => P x.1) accs.
Proof.
  induction 1 as [|x run accs runs (_ & _ & kv & rest & -> & Ek) Hsl IH]; [by constructor|]. cbn [concat].
  intros [K1 K2]%Forall_app. apply Forall_cons in K1 as [K1 _]. constructor; [by rewrite <- Ek|by apply IH].
Qed.

Lemma slot_idle (accs : list child) (runs : list (list datum)) :
  Forall2 slot_over accs runs -> Forall (fun x : child => type x.2 = 0 /\ idle x.2) accs.
Proof. induction 1 as [|x run accs runs (K1 & K2 & _) _ IH]; constructor; [done|exact IH]. Qed.

(** The body of a split of the child [c], from a state that holds the map. *)
Section Locked.
Variables (h h' : PlinIndex (T := T)) (M : gmap Z Z) (l1 l2 : list child) (c cl cr : child) (r : slot_ref).
Variables (l ll lr : Leaf T) (ms mls mrs : list (gmap Z Z)).
Abbreviation cs := (l1 ++ c :: l2).
Abbreviation a := (ptr c.2).
Abbreviation left := (ptr cl.2).
Abbreviation right := (ptr cr.2).
Abbreviation hl := (with_locks h a left right l ll lr).
Hypothesis Hw : whole cs h M.
Hypothesis Hat : at_slot h r c.2.
Hypothesis Hsize : Z.of_nat (size M) <= max_keys.
Hypothesis Hcl : last l1 = Some cl.
Hypothesis Hcr : head l2 = Some cr.
Hypothesis Hl : leaf_in cs 0 h M (length l1) c l ms.
Hypothesis Hll : leaf_in cs 0 h M (pred (length l1)) cl ll mls.
Hypothesis Hlr : leaf_in cs 0 h M (S (length l1)) cr lr mrs.
Hypothesis Hba : left <> a.
Hypothesis Hda : right <> a.
Hypothesis Hbd : left <> right.
Hypothesis E : split_locked a (Some r) left right hl = Ok (tt, h').

Let La := li_at _ _ _ _ _ _ _ _ Hl.
Let Lb := li_at _ _ _ _ _ _ _ _ Hll.
Let Ld := li_at _ _ _ _ _ _ _ _ Hlr.
Let Hm := wh_map _ _ _ Hw.
Let Ksome := locks_some h a left right l ll lr La Lb Ld Hba Hda Hbd.
Let Kleaf := locks_leaf h a left right l ll lr Hba Hda Hbd.

Lemma unlocked i x lx mx : leaf_in cs 0 h M i x lx mx -> LeafNode.leaf_release_lock (held lx) = lx.
Proof. intros Hx. apply held_release, (LeafNode.lo_unlocked _ _ (li_ok _ _ _ _ _ _ _ _ Hx)). Qed.

(** The new leaves hold the entries of the child, the first one from its key on. *)
Lemma new_leaves :
  exists accs runs, resplit hl h' left right accs runs /\ lists (union_of ms) (concat runs) /\
    Segmentation.increasing (map fst (concat runs)) /\ Forall loadable (concat runs) /\
    Z.of_nat (length (concat runs)) <= max_keys /\
    Forall (fun kv : datum => in_keys h kv.1 /\ InnerNode.last_le kv.1 cs = Some c /\ M !! rank kv.1 = Some kv.2) (concat runs) /\
    exists ha h4 i c0 cn, modify_slot r get_write_lock hl = Ok (tt, ha) /\ meta_of h4 = meta_of ha /\
      built hl h4 a left accs /\ head accs = Some c0 /\ last accs = Some cn /\ rank c0.1 = rank c.1 /\
      finish_split a (Some r) left right i accs (ptr c0.2) (ptr cn.2) h4 = Ok (tt, h').
Proof.
  destruct Kleaf as (Ka & Kb & Kd). pose proof (list_lookup_middle l1 l2 c _ eq_refl) as Hci.
  destruct (split_leaves a (Some r) left right hl h' (held l) ms Ka) as
    (accs & runs & R & D1 & D2 & D3 & D4 & ha & h4 & i & c0 & cn & Elock & Emeta & Hbuilt & E0 & En & Efin);
    [..|by eexists|by eexists|exact E|].
  - rewrite (unlocked _ _ _ _ Hl). apply (li_ok _ _ _ _ _ _ _ _ Hl).
  - intros data L S. by destruct (leaf_data h M cs 0 (length l1) c l ms Hm Hl Hci data L S Hsize) as (? & ? & _).
  - intros x Hx. by apply (wh_fresh _ _ _ Hw), Ksome.
  - apply (wh_next _ _ _ Hw).
  - destruct (leaf_data h M cs 0 (length l1) c l ms Hm Hl Hci (concat runs) D1) as (_ & _ & Hdata & kv0 & Hkv0 & Ekv0);
      [eapply Forall_impl; [exact D3|apply loadable_storable]|exact Hsize|].
    exists accs, runs. do 6 (split; [done|]). exists ha, h4, i, c0, cn. split_and!; try done.
    apply (first_run_key cs accs runs c c0 kv0); try done; [apply R| |].
    + eapply Forall_impl; [exact Hdata|]. by intros kv ([? _] & ? & _).
    + apply (proj1 (Forall_forall _ _) (proj1 (mo_children _ _ _ _ Hm)) c), middle_in.
Qed.

Section Finished.
Variables (accs : list child) (runs : list (list datum)) (ha h4 : PlinIndex (T := T)) (i : Z) (c0 cn : child).
Hypothesis Hslots : Forall2 slot_over accs runs.
Hypothesis Hnew : Forall (fun x : child => in_keys h x.1 /\ InnerNode.last_le x.1 cs = Some c) accs.
Hypothesis Elock : modify_slot r get_write_lock hl = Ok (tt, ha).
Hypothesis Emeta : meta_of h4 = meta_of ha.
Hypothesis Hbuilt : built hl h4 a left accs.
Hypothesis E0 : head accs = Some c0.
Hypothesis En : last accs = Some cn.
Hypothesis Efin : finish_split a (Some r) left right i accs (ptr c0.2) (ptr cn.2) h4 = Ok (tt, h').

(** The new leaves are apart from the old ones. *)
Lemma new_apart x y : x ∈ accs -> is_Some (leaves h !! y) -> ptr x.2 <> y.
Proof.
  intros Hx Hy. pose proof (proj1 (Forall_forall _ _) (bu_new _ _ _ _ _ Hbuilt) x Hx) as Hp.
  pose proof (wh_fresh _ _ _ Hw y Hy). cbn in Hp. lia.
Qed.
Lemma new_not_null x : x ∈ accs -> ptr x.2 <> 0.
Proof.
  intros Hx. pose proof (proj1 (Forall_forall _ _) (bu_new _ _ _ _ _ Hbuilt) x Hx) as Hp.
  pose proof (wh_next _ _ _ Hw). cbn in Hp. lia.
Qed.

(** The neighbours lead to the new leaves; no other leaf has changed. *)
Lemma leaves_after :
  leaves h' !! left = Some (LeafNode.with_next ll (ptr c0.2)) /\
  leaves h' !! right = Some (LeafNode.with_prev lr (ptr cn.2)) /\
  dom (leaves h') = dom (leaves h4) /\
  (forall x, x ∈ accs -> leaves h' !! ptr x.2 = leaves h4 !! ptr x.2) /\
  forall y, is_Some (leaves h !! y) -> y <> a -> y <> left -> y <> right -> leaves h' !! y = leaves h !! y.
Proof.
  destruct Kleaf as (Ka & Kb & Kd).
  assert (Hold : forall y, is_Some (leaves h !! y) -> y <> a -> leaves h4 !! y = leaves hl !! y).
  { intros y Hy Hne. apply (bu_old _ _ _ _ _ Hbuilt); [by apply Ksome|done]. }
  destruct (finish_leaves _ _ _ _ _ _ _ _ h4 h' (held ll) (held lr) Efin) as (Fl & Fr & Fdom & Fo); try done.
  - apply new_not_null. by apply head_Some_elem_of.
  - apply new_not_null. by apply last_Some_elem_of.
  - rewrite Hold; [done|by eexists|done].
  - rewrite Hold; [done|by eexists|done].
  - rewrite (unlocked _ _ _ _ Hll) in Fl. rewrite (unlocked _ _ _ _ Hlr) in Fr. split_and!; try done.
    + intros x Hx. apply Fo; apply new_apart; try done; by eexists.
    + intros y Hy Na Nl Nr. rewrite Fo, Hold by done. by apply locks_other.
Qed.

Lemma levels_after :
  (forall q, in_keys h q -> in_reach (inners h) q) -> orphan_number (plin h) = 0 -> orphan_number (plin h') = 0 ->
  rank c0.1 = rank c.1 -> Segmentation.increasing (map fst (concat runs)) -> Z.of_nat (length (concat runs)) <= max_keys ->
  rooted h' (l1 ++ accs ++ l2) /\ next_address h' = next_address h4.
Proof.
  intros Hreach Ho Ho' Hkey Hinc Hlen. pose proof (wh_rooted _ _ _ Hw) as Hroot.
  destruct (slots_increasing accs runs Hslots Hinc) as [Aok Ainc].
  assert (Hroothl : rooted hl cs) by (apply (rooted_top h); [done|cbn; lia|exact Hroot]).
  destruct (split_levels hl ha h4 h' a r left right i l1 c l2 accs c0 (ptr c0.2) (ptr cn.2) Hroothl) as (K & _ & Hnext); try done.
  - apply (proj1 (Forall_forall _ _) (rooted_types h _ Hroot)), middle_in.
  - apply (bu_next _ _ _ _ _ Hbuilt).
  - by apply (slot_idle accs runs).
  - intros x y Hx Hy. destruct (proj1 (Forall_forall _ _) Hnew x Hx) as [Kx Kc]. by apply (key_before h M l1 l2 c Hm x.1 y).
  - apply Forall_forall. intros x Hx. apply (child_leaf h M l1 l2 c Hm), rest_in, Hx.
  - eapply Forall_impl; [exact Hnew|]. intros x [Hx _]. by apply Hreach.
  - pose proof (runs_length accs runs Hslots) as Hle. unfold max_keys in Hlen. lia.
Qed.
End Finished.

Lemma split_locked_whole :
  (forall q, in_keys h q -> in_reach (inners h) q) -> orphan_number (plin h) = 0 ->
  reach h' = true -> room 0 h' = true -> orphan_number (plin h') = 0 ->
  exists cs', whole cs' h' M /\ settings h' = settings h.
Proof.
  intros Hreach Ho Hreach' Hroom' Ho'.
  destruct new_leaves as (accs & runs & R & D1 & D2 & D3 & D4 & Hdata & ha & h4 & i & c0 & cn & Elock & Emeta & Hbuilt & E0 & En & Hkey & Efin).
  pose proof (rs_slots _ _ _ _ _ _ R) as Hsl.
  assert (Hnew : Forall (fun x : child => in_keys h x.1 /\ InnerNode.last_le x.1 cs = Some c) accs).
  { apply (slot_keys (fun k => in_keys h k /\ InnerNode.last_le k cs = Some c) accs runs Hsl). eapply Forall_impl; [exact Hdata|]. by intros kv (? & ? & _). }
  destruct (leaves_after accs h4 i c0 cn Hbuilt E0 En Efin) as (Fl & Fr & Fdom & Fnew & Fold).
  destruct (levels_after accs runs ha h4 i c0 cn Hsl Hnew Elock Emeta Hbuilt E0 Efin Hreach Ho Ho' Hkey D2 D4) as [Hroot' Hnext].
  destruct (split_settings _ _ _ _ _ _ E) as [Hset Ssmo]. change (settings hl) with (settings h) in Hset.
  pose proof (list_lookup_middle l1 l2 c _ eq_refl) as Hci.
  exists (l1 ++ accs ++ l2). split; [|exact Hset]. split; [|exact Hroot'| | |].
  - apply (replaced_map_ok h h' M l1 l2 accs c cl cr c0 cn runs (union_of ms)); try done.
    + intros x Hx Hxl Hxr. pose proof (rest_in l1 l2 c x Hx) as Hx'.
      apply Fold; [apply (child_leaf h M l1 l2 c Hm x Hx')|apply (child_ptr h M l1 l2 c Hm); try done..].
      * apply middle_in.
      * by apply (rest_not h M l1 l2 c Hm).
      * eapply list_elem_of_lookup_2. by apply last_before.
      * eapply list_elem_of_lookup_2. by apply first_after.
    + intros lx Hlx. rewrite Lb in Hlx. by injection Hlx as <-.
    + intros lx Hlx. rewrite Ld in Hlx. by injection Hlx as <-.
    + apply R.
    + intros j x Hx. rewrite Fnew by (by eapply list_elem_of_lookup_2). by apply (bu_back _ _ _ _ _ Hbuilt).
    + intros q Hq Hs Hlast. by apply (leaf_payload h M cs 0 (length l1) c l ms).
    + apply R.
    + intros x y Hx Hy. apply (new_apart accs h4 Hbuilt x (ptr y.2) Hx). apply (child_leaf h M l1 l2 c Hm), rest_in, Hy.
    + apply Forall_forall. by apply (new_not_null accs h4 Hbuilt).
  - intros x Hx. rewrite Hnext. apply (bu_fresh _ _ _ _ _ Hbuilt). apply elem_of_dom. rewrite <- Fdom. by apply elem_of_dom.
  - rewrite Hnext. pose proof (bu_next _ _ _ _ _ Hbuilt) as Hle. pose proof (wh_next _ _ _ Hw). cbn in Hle. lia.
  - rewrite Ssmo. done.
Qed.
End Locked.

Lemma split_whole cs h M c r h' :
  whole cs h M -> c ∈ cs -> at_slot h r c.2 -> Z.of_nat (size M) <= max_keys ->
  (forall q, in_keys h q -> in_reach (inners h) q) -> orphan_number (plin h) = 0 -> rebuild_times h = 0 -> split (ptr c.2) (Some r) h = Ok (tt, h') -> calm h' = true ->
  exists cs', whole cs' h' M /\ settings h' = settings h.
Proof.
  intros Hw (l1 & l2 & Ecs)%list_elem_of_split Hat Hsize Hreach Ho Ht E (Hr' & Hroom' & Ho' & Ht')%calm_spec.
  destruct (split_locks cs h M l1 c l2 r h' (wh_map _ _ _ Hw) (wh_lock _ _ _ Hw) Ecs E) as
    [->|(l & ms & cl & ll & mls & cr & lr & mrs & Hcl & Hcr & Hl & Hll & Hlr & N1 & N2 & N3 & E')]; [by exists cs|].
  apply P_bind_ok in E' as ([] & h2 & E1 & E'). apply P_bind_ok in E' as (m & h2' & [= <- <-] & E').
  assert (Hlock2 : smo_lock (plin h2) = 0) by (rewrite (proj2 (split_settings _ _ _ _ _ _ E1)); done).
  assert (Ht2 : rebuild_times h2 = 0) by (by rewrite (split_times _ _ _ _ _ _ _ E1)).
  cbn [id] in E'. destruct (too_many_orphans (plin h2)).
  - pose proof (rebuild_counted h2 h' Hlock2 E'). lia.
  - injection E' as <-. subst cs. by apply (split_locked_whole h h2 M l1 l2 c cl cr r l ll lr ms mls mrs).
Qed.

(** ** Sequences of operations with splits *)

(** The same levels, and the same leaves' addresses. *)
Lemma whole_same cs h h1 M M' :
  whole cs h M -> map_ok cs 0 h1 M' -> inners h1 = inners h -> next_address h1 = next_address h ->
  roots (plin h1) = roots (plin h) -> root_number (plin h1) = root_number (plin h) ->
  smo_lock (plin h1) = smo_lock (plin h) -> dom (leaves h1) = dom (leaves h) -> whole cs h1 M'.
Proof.
  intros [_ [R1 R2 R3] Hfr Hpos Hlock] Hm E1 E2 E3 E4 E5 Hd. split; [done| | |lia|congruence].
  - split; [done|intros a Ha; rewrite E1 in Ha; rewrite E2; by apply R2|by rewrite E1, E3, E4].
  - intros a Ha. rewrite E2. apply Hfr, elem_of_dom. rewrite <- Hd. by apply elem_of_dom.
Qed.

Lemma size_insert_le (k v : Z) (M : gmap Z Z) : (size (<[k := v]> M) <= S (size M))%nat.
Proof. rewrite map_size_insert. destruct (M !! k); cbn; lia. Qed.

Lemma upsert_whole f cs h M k v h' :
  whole cs h M -> calm h = true -> op_ok (plin_min_key (plin h)) (plin_max_key (plin h)) (OpUpsert k v) ->
  Z.of_nat (size M) + 1 <= max_keys -> upsert (S f) k v h = Ok (tt, h') -> calm h' = true ->
  exists cs', whole cs' h' (<[rank k := v]> M) /\ plin_min_key (plin h') = plin_min_key (plin h) /\
    plin_max_key (plin h') = plin_max_key (plin h).
Proof.
  intros Hw (Hr & Hroom & Ho & Ht)%calm_spec (Hk & Hs & Hv & Hl & Hh) Hsize E Hcalm. pose proof (wh_map _ _ _ Hw) as Hm.
  pose proof (mo_min _ _ _ _ Hm) as Hmin. pose proof (mo_max _ _ _ _ Hm) as Hmax.
  destruct (strictly_inside (plin h) k) eqn:Ein.
  - destruct (map_upsert_any f cs 0 0 h M k v Hm) as (full & i & c & r & l' & Eu & _ & Hi & Hc & Er & Hm'); try done; try lia.
    set (h1 := set_leaves h _) in *. rewrite E in Eu.
    assert (Hw1 : whole cs h1 (<[rank k := v]> M)).
    { apply (whole_same cs h h1 M); try done. cbn [leaves set_leaves]. apply dom_insert_lookup_L.
      destruct (mo_leaves _ _ _ _ Hm i c Hi) as (l & ms & Hl'). exists l. apply (li_at _ _ _ _ _ _ _ _ Hl'). }
    destruct full; [|injection Eu as ->; by exists cs].
    assert (Hreach : forall q, in_keys h1 q -> in_reach (inners h1) q) by (intros q Hq; by apply (reach_in_reach h)).
    destruct (split_whole cs h1 (<[rank k := v]> M) c r h' Hw1) as (cs' & Hw' & Hset); try done.
    + by apply last_le_Some in Hc as [? _].
    + apply (at_slot_top h); [done|]. apply (route_slot h cs k c r (wh_rooted _ _ _ Hw) Hk); [|done|done].
      apply (reach_in_reach h); [done|]. by apply strictly_keys.
    + pose proof (size_insert_le (rank k) v M). lia.
    + exists cs'. split; [done|]. by injection Hset as -> -> _ _ _.
  - destruct (map_upsert_outside f cs 0 h M k v Hm Hk Hv (outside_keys h k Hmin Hmax Hk Hl Hh Ein)) as (h1 & Eu & Hm' & Hsame & El).
    rewrite E in Eu. injection Eu as ->. destruct Hsame as (S1 & S2 & S3 & S4 & _ & S6 & S7 & S8).
    exists cs. split; [|done]. apply (whole_same cs h h1 M); try done. by rewrite El.
Qed.

Lemma map_of_size (data : list datum) : (size (map_of data) <= length data)%nat.
Proof.
  induction data as [|kv data IH]; [done|]. unfold map_of in *. cbn [map list_to_map]. etransitivity; [apply size_insert_le|].
  cbn [length]. apply le_n_S. exact IH.
Qed.

(** Every state on the way is calm. *)
Fixpoint calm_run (fuel : nat) (os : list index_op) h : bool :=
  calm h &&
  match os with
  | [] => true
  | OpUpsert k v :: os => match upsert fuel k v h with Ok (_, h') => calm_run fuel os h' | Err _ => false end
  | OpFind q :: os => match find fuel q h with Ok (_, h') => calm_run fuel os h' | Err _ => false end
  end.

Lemma run_splits_ok f cs os h M :
  whole cs h M -> calm_run (S f) os h = true -> Z.of_nat (size M) + upserts os <= max_keys ->
  Forall (op_ok (plin_min_key (plin h)) (plin_max_key (plin h))) os ->
  exists h', run_index (S f) os h = Ok (run_map M os, h').
Proof.
  revert cs h M. induction os as [|o os IH]; intros cs h M Hw Hcalm Hsize Hall; [by exists h|].
  apply Forall_cons in Hall as [Hop Hall]. pose proof (upserts_pos os) as Hp.
  cbn [calm_run] in Hcalm. apply andb_true_iff in Hcalm as [Hc Hcalm].
  destruct o as [k v|q]; cbn [run_index run_map upserts] in *; unfold mbind, P_bind.
  - destruct (upsert (S f) k v h) as [[[] h1]|] eqn:E; [|done].
    assert (Hc1 : calm h1 = true) by (destruct os; cbn [calm_run] in Hcalm; by apply andb_true_iff in Hcalm as [? _]).
    destruct (upsert_whole f cs h M k v h1 Hw Hc Hop) as (cs' & Hw1 & E1 & E2); [lia|done|done|].
    apply (IH cs' h1 (<[rank k := v]> M) Hw1 Hcalm); [|by rewrite E1, E2].
    pose proof (size_insert_le (rank k) v M). lia.
  - destruct Hop as [Hq Hs]. destruct (map_find f cs 0 h M q (wh_map _ _ _ Hw) Hq Hs) as (ls & E & Hm' & Hd).
    rewrite E in Hcalm |- *. set (h1 := set_leaves h ls) in *.
    assert (Hw1 : whole cs h1 M) by (by apply (whole_same cs h h1 M M)).
    destruct (IH cs h1 M Hw1 Hcalm Hsize Hall) as (h2 & ->). by exists h2.
Qed.
End SplitWhole.

(** C1: the index refines a finite map when leaves are split.  Load increasing finite keys
    with non-zero payloads into a fresh index, then run upserts and searches of finite keys,
    where no upsert has payload 0 or is of the smallest or the largest loaded key ([op_ok],
    [loadable]: no key is the free mark, the largest double), at most 2^28 keys and upserts in all.
    All searches answer as the map does, when every state on the way is calm: the models are
    in reach, the counters of the leaves are words, no new leaf is an orphan, and the levels
    have not been rebuilt.  Leaves may fill up and be split. *)
Theorem splits_refine_map {T} `{OverflowDataLaws T} (data : list datum) (h : PlinIndex (T := T))
    (os : list index_op) (fuel : nat) :
  Forall loadable data -> Segmentation.increasing (map fst data) ->
  Z.of_nat (length data) + upserts os <= max_keys ->
  bulk_load data new_plin = Ok (tt, h) ->
  Forall (op_ok (plin_min_key (plin h)) (plin_max_key (plin h))) os -> calm_run (S fuel) os h = true ->
  exists h', run_index (S fuel) os h = Ok (run_map (map_of data) os, h').
Proof.
  intros Hall Hinc Hlen E Hos Hcalm. pose proof (upserts_pos os) as Hp.
  assert (Hc : calm h = true) by (destruct os; cbn [calm_run] in Hcalm; by apply andb_true_iff in Hcalm as [? _]).
  pose proof Hc as (Hreach & Hroom & _)%calm_spec.
  destruct (bulk_load_map_ok 0 data h Hall Hinc ltac:(lia) E Hreach Hroom) as (cs & runs & Hld & Hm & _ & Hlock).
  destruct (ld_fresh _ _ _ _ Hld) as [Hfr Hpos].
  apply (run_splits_ok fuel cs os h (map_of data)); [|done| |done].
  - split; [done|by eapply loaded_rooted|done..].
  - pose proof (map_of_size data). lia.
Qed.

(** ** An index whose second leaf is split *)

(** Two dense runs with a sparse one between them: three leaves; the second is almost
    full. *)
Definition three_runs : list datum :=
  map (fun i => (double_of_Z (2 * i), i + 1)) (seqZ 1 560) ++
  map (fun i => (double_of_Z (2000000 + 2000 * i), i)) (seqZ 1 374) ++
  map (fun i => (double_of_Z (6000000 + 2 * i), i)) (seqZ 1 560).
Definition three_leaves : PlinIndex (T := BPlus.btree_plus) := Eval vm_compute in the_index (bulk_load three_runs new_plin).

(** Twelve new keys for the second leaf: it is split on the way, into two. *)
Definition filling_ops : list index_op :=
  map (fun i => OpUpsert (double_of_Z (6000021 + 20 * i)) (70 + i)) (seqZ 0 12) ++
  [OpFind (double_of_Z 6000021); OpFind (double_of_Z 6000022); OpFind (double_of_Z 6000241); OpFind (double_of_Z 6001042);
   OpFind (double_of_Z 6001043)].

Lemma filling_ops_ok : Forall (op_ok (plin_min_key (plin three_leaves)) (plin_max_key (plin three_leaves))) filling_ops.
Proof.
  assert (E : plin_min_key (plin three_leaves) = double_of_Z 2) by (vm_compute; reflexivity).
  assert (E' : plin_max_key (plin three_leaves) = double_of_Z 6001120) by (vm_compute; reflexivity).
  rewrite E, E'. repeat constructor; vm_compute; discriminate.
Qed.

Lemma splits_refine_map_witness :
  match run_index 1 filling_ops three_leaves with
  | Ok (answers, h') => answers = [Some 70; Some 11; Some 81; Some 521; None] /\ PlinIndex.split_times h' = 1
  | Err _ => False
  end.
Proof.
  assert (K : match run_index 1 filling_ops three_leaves with Ok (_, h') => PlinIndex.split_times h' = 1 | Err _ => False end)
    by (vm_compute; reflexivity).
  destruct (splits_refine_map three_runs three_leaves filling_ops 0) as (h' & E).
  - apply loadable_all. vm_compute. reflexivity.
  - apply increasing_all. vm_compute. reflexivity.
  - vm_compute. discriminate.
  - vm_compute. reflexivity.
  - exact filling_ops_ok.
  - vm_compute. reflexivity.
  - rewrite E in K |- *. split; [vm_compute; reflexivity|exact K].
Defined.
