(* ===== verification/EdgeServer.v ===== *)
(** * The Edge (edge/edge_server.cpp)

    The runtime that the Edge's threads share: the index, the registered End
    connections, the snapshot, the way to the Cloud.  A connection is a handle into
    a store of transports, because the [ends] map and the handler thread share the
    same object.  [plin_mu] and the write mutexes are held for a whole operation,
    so serving one frame is one step; the locks of the index itself are in Locks.v
    and BlockLock.v. *)

From S2P Require Import Prelude Doubles Bytes Rpc RangeMap Topology Transport CacheModel Snapshot.
From S2P Require Import EndNode PlinIndex.
From Stdlib Require Import SpecFloat.

Open Scope Z_scope.

(** ** Data and parameters *)

Definition edge_load_range (file : Rows) (lo hi : double) : Dataset :=
  match file with
  | None => mkDataset [] []
  | Some rows =>
      let l := filter (fun r => within lo hi r.1) rows in
      mkDataset (map fst l) (map snd l)
  end.

(** [std::min], [std::max]. *)
Definition dmin (a b : double) : double := if dlt b a then b else a.
Definition dmax (a b : double) : double := if dlt a b then b else a.

(** Union of the ranges of the managed Ends, from [1e300] and [-1e300]. *)
Definition edge_range (rm : RangeMap) (my_edge : EdgeInfo) : double * double :=
  foldl (fun r eid =>
    foldl (fun (r : double * double) en =>
      if end_id en =? eid then (dmin r.1 (key_lo en), dmax r.2 (key_hi en)) else r)
      r (rm_ends rm))
    (double_of_decimal false 1 300, double_of_decimal true 1 300) (end_ids my_edge).

Record EdgeArgs : Type := mkEdgeArgs {
  ea_id : Z;
  ea_topology : str;
  ea_data : str;
  ea_transport : Mode;
  ea_port_offset : Z
}.
Definition edge_args0 : EdgeArgs :=
  mkEdgeArgs 0 (s_ "src/common/topology.yaml") (s_ "Data.txt") AUTO 1000.

(** [argv] without the program name. *)
Fixpoint edge_args (argv : list str) (a : EdgeArgs) : res EdgeArgs :=
  match argv with
  | k :: argv' =>
      match argv' with
      | v :: rest =>
          if bool_decide (k = s_ "--id") then
            n ← stoi v;
            edge_args rest (mkEdgeArgs n (ea_topology a) (ea_data a) (ea_transport a) (ea_port_offset a))
          else if bool_decide (k = s_ "--topology") then
            edge_args rest (mkEdgeArgs (ea_id a) v (ea_data a) (ea_transport a) (ea_port_offset a))
          else if bool_decide (k = s_ "--data") then
            edge_args rest (mkEdgeArgs (ea_id a) (ea_topology a) v (ea_transport a) (ea_port_offset a))
          else if bool_decide (k = s_ "--end-transport") then
            edge_args rest (mkEdgeArgs (ea_id a) (ea_topology a) (ea_data a) (parse_mode v) (ea_port_offset a))
          else if bool_decide (k = s_ "--rdma-port-offset") then
            n ← stoi v;
            edge_args rest (mkEdgeArgs (ea_id a) (ea_topology a) (ea_data a) (ea_transport a) n)
          else edge_args argv' a
      | [] => Ok a
      end
  | [] => Ok a
  end.

Section Edge.
Context {T W C : Type} `{LeafNode.OverflowTree T} `{Transport W} `{StreamIO C}.
Context (fuel : nat).
(** Addresses of the snapshot's vectors, and its padding bytes. *)
Context (desc_at record_at pad : Z).

Record EdgeRuntime : Type := mkRt {
  rt_edge_id : Z;
  rt_cloud_host : list Ascii.ascii;
  rt_cloud_port : Z;
  rt_idx : PlinIndex (T := T);
  rt_snapshot : option EdgeRdmaSnapshot;
  ends : gmap Z Z;
  conns : gmap Z W;
  (** The outcomes of the coming [connect]s to the Cloud. *)
  dials : list (option C)
}.

Definition rt_with_idx (rt : EdgeRuntime) (i : PlinIndex (T := T)) : EdgeRuntime :=
  mkRt (rt_edge_id rt) (rt_cloud_host rt) (rt_cloud_port rt) i (rt_snapshot rt) (ends rt) (conns rt) (dials rt).
Definition rt_with_ends (rt : EdgeRuntime) (e : gmap Z Z) : EdgeRuntime :=
  mkRt (rt_edge_id rt) (rt_cloud_host rt) (rt_cloud_port rt) (rt_idx rt) (rt_snapshot rt) e (conns rt) (dials rt).
Definition rt_with_conns (rt : EdgeRuntime) (c : gmap Z W) : EdgeRuntime :=
  mkRt (rt_edge_id rt) (rt_cloud_host rt) (rt_cloud_port rt) (rt_idx rt) (rt_snapshot rt) (ends rt) c (dials rt).
Definition rt_with_dials (rt : EdgeRuntime) (d : list (option C)) : EdgeRuntime :=
  mkRt (rt_edge_id rt) (rt_cloud_host rt) (rt_cloud_port rt) (rt_idx rt) (rt_snapshot rt) (ends rt) (conns rt) d.

Definition R (A : Type) : Type := EdgeRuntime -> res (A * EdgeRuntime).
#[export] Instance R_ret : MRet R := st_ret (H := EdgeRuntime).
#[export] Instance R_bind : MBind R := st_bind (H := EdgeRuntime).

Definition on_conn {A} (h : Z) (f : W -> res (A * W)) : R A := fun rt =>
  w ← of_opt UB (conns rt !! h);
  '(a, w) ← f w;
  Ok (a, rt_with_conns rt (<[h := w]> (conns rt))).
Definition on_idx {A} (m : PlinIndex (T := T) -> res (A * PlinIndex (T := T))) : R A := fun rt =>
  '(a, i) ← m (rt_idx rt); Ok (a, rt_with_idx rt i).
Definition r_get {A} (f : EdgeRuntime -> A) : R A := fun rt => Ok (f rt, rt).
Definition r_put (f : EdgeRuntime -> EdgeRuntime) : R unit := fun rt => Ok (tt, f rt).
Definition r_lift {A} (m : res A) : R A := fun rt => a ← m; Ok (a, rt).

(** ** Connections *)

Definition write_locked (h : Z) (f : Frame) : R bool := on_conn h (fun w => t_write_frame w f).
Definition close_conn (h : Z) : R unit := on_conn h (fun w => Ok (tt, t_close w)).

Definition register_end (id h : Z) : R unit := r_put (fun rt => rt_with_ends rt (<[id := h]> (ends rt))).

Definition unregister_transport (h : Z) : R unit :=
  r_put (fun rt => rt_with_ends rt (filter (fun kv => kv.2 <> h) (ends rt))).

Definition send_to_end (id : Z) (f : Frame) : R bool :=
  es ← r_get ends;
  match es !! id with
  | None => mret false
  | Some h => write_locked h f
  end.

(** ** The way to the Cloud *)

(** One [connect_tcp]. *)
Definition dial : R (option C) := fun rt =>
  match dials rt with
  | [] => Ok (None, rt)
  | c :: l => Ok (c, rt_with_dials rt l)
  end.

(** A connection per request, closed when it goes out of scope. *)
Definition cloud_cross_fetch (req : Frame) : R (option Frame) :=
  c ← dial;
  match c with
  | None => mret None
  | Some fd =>
      '(ok, fd) ← r_lift (write_frame fd req);
      if negb ok then mret None else
      '(ok, resp, fd) ← r_lift (read_frame fd frame0);
      mret (if (ok : bool) then Some resp else None)
  end.

Definition handle_cloud_hot_update (f : Frame) : R unit :=
  match read_u32 (body f) 0 with
  | None => mret tt
  | Some target =>
      _ ← send_to_end (i32 target) (mkFrame HOT_UPDATE (drop 4 (body f)));
      mret tt
  end.

(** The index search under [plin_mu]: found, and the payload variable. *)
Definition search (key : double) : R (bool * Z) :=
  r ← on_idx (PlinIndex.find fuel key);
  mret (bool_decide (is_Some r), default 0 r).

Definition handle_cloud_cross_req (fd : C) (req : Frame) : R C :=
  match read_double (body req) 8 with
  | None =>
      '(_, fd) ← r_lift (write_frame fd (make_fetch_resp ERROR 0));
      mret fd
  | Some key =>
      '(found, payload) ← search key;
      '(_, fd) ← r_lift (write_frame fd (make_fetch_resp (if (found : bool) then OK else NOT_FOUND) payload));
      mret fd
  end.

Fixpoint cloud_receiver_loop (n : nat) (fd : C) (f : Frame) : R unit :=
  match n with
  | O => r_lift (Err OutOfFuel)
  | S n' =>
      '(ok, f, fd) ← r_lift (read_frame fd f);
      if negb ok then mret tt else
      if bool_decide (ftype f = HEARTBEAT_ACK) then cloud_receiver_loop n' fd f
      else if bool_decide (ftype f = HOT_UPDATE) then
        _ ← handle_cloud_hot_update f;
        cloud_receiver_loop n' fd f
      else if bool_decide (ftype f = CROSS_EDGE_REQ) then
        fd ← handle_cloud_cross_req fd f;
        cloud_receiver_loop n' fd f
      else cloud_receiver_loop n' fd f
  end.

(** Up to 30 attempts, then the heartbeat that registers the Edge. *)
Fixpoint dial_loop (attempts : nat) : R (option C) :=
  match attempts with
  | O => mret None
  | S a => c ← dial; match c with Some fd => mret (Some fd) | None => dial_loop a end
  end.

Definition connect_cloud_control : R (option C) :=
  c ← dial_loop 30;
  match c with
  | None => mret None
  | Some fd =>
      id ← r_get rt_edge_id;
      '(ok, fd) ← r_lift (write_frame fd (mkFrame HEARTBEAT (append_u32 [] (u32 id))));
      mret (if (ok : bool) then Some fd else None)
  end.

(** ** What an End is sent when it connects *)

Definition make_param_push (idx : PlinIndex (T := T)) : Frame :=
  mkFrame PLIN_PARAM_PUSH (serialize_parameter (parameter idx)).

Definition make_rdma_snapshot_info (i : SnapshotInfo) : Frame :=
  mkFrame RDMA_SNAPSHOT_INFO (info_bytes pad i).

Definition snapshot_info (s : EdgeRdmaSnapshot) (dm rm : RegisteredMemory) : SnapshotInfo :=
  mkInfo kSnapshotMagic (snap_version s) (mem_addr dm) (mem_rkey dm)
    (u32 (Z.of_nat (length (descs s)))) (mem_addr rm) (mem_rkey rm)
    (Z.of_nat (length (records s))).

(** Both regions are registered even when the first registration fails. *)
Definition send_rdma_snapshot_info_if_supported (h : Z) : R unit :=
  supported ← on_conn h (fun w => Ok (t_supports_remote_read w, w));
  snap ← r_get rt_snapshot;
  match snap with
  | Some s =>
      if negb supported || (length (descs s) =? 0)%nat || (length (records s) =? 0)%nat
      then mret tt else
      dm ← on_conn h (fun w => Ok (t_register_memory w desc_at (enc_list (descs s))));
      rm ← on_conn h (fun w => Ok (t_register_memory w record_at (enc_list (records s))));
      match dm, rm with
      | Some dm, Some rm =>
          _ ← write_locked h (make_rdma_snapshot_info (snapshot_info s dm rm));
          mret tt
      | _, _ => mret tt
      end
  | None => mret tt
  end.

(** ** Serving an End *)

(** The predicted leaf first, then the whole index. *)
Definition serve_fetch (key : double) (predicted_slot : Z) : R (bool * Z) :=
  if 0 <=? predicted_slot then
    '(ret, payload) ← on_idx (find_through_net fuel key 0 predicted_slot);
    if ret =? 1 then mret (true, payload)
    else
      r ← on_idx (PlinIndex.find fuel key);
      mret (bool_decide (is_Some r), default payload r)
  else search key.

(** One request: [false] leaves the loop. *)
Definition serve_frame (h : Z) (param_frame req : Frame) : R bool :=
  if bool_decide (ftype req = HEARTBEAT) then
    match read_u32 (body req) 0 with
    | Some id => _ ← register_end (i32 id) h; mret true
    | None => mret true
    end
  else if bool_decide (ftype req = PLIN_PARAM_PUSH) && (length (body req) =? 0)%nat then
    ok ← write_locked h param_frame;
    if negb ok then mret false else
    _ ← send_rdma_snapshot_info_if_supported h;
    mret true
  else if bool_decide (ftype req = CROSS_EDGE_REQ) then
    r ← cloud_cross_fetch req;
    write_locked h (default (make_fetch_resp ERROR 0) r)
  else if negb (bool_decide (ftype req = EDGE_FETCH_REQ)) || (length (body req) <? 8)%nat then
    mret false
  else
    let key := get_double (body req) 0 in
    let predicted_slot := if (12 <=? length (body req))%nat then get_i32 (body req) 8 else -1 in
    '(found, payload) ← serve_fetch key predicted_slot;
    write_locked h (make_fetch_resp (if (found : bool) then OK else NOT_FOUND) payload).

(** Read one request and serve it: [None] leaves the loop. *)
Definition serve_next (h : Z) (param_frame req : Frame) : R (option Frame) :=
  '(ok, req) ← on_conn h (fun w => '(ok, f, w) ← t_read_frame w req (-1); Ok ((ok, f), w));
  if negb ok then mret None else
  continue ← serve_frame h param_frame req;
  mret (if (continue : bool) then Some req else None).

Fixpoint serve_loop (n : nat) (h : Z) (param_frame req : Frame) : R unit :=
  match n with
  | O => r_lift (Err OutOfFuel)
  | S n' =>
      r ← serve_next h param_frame req;
      match r with
      | Some req => serve_loop n' h param_frame req
      | None => mret tt
      end
  end.

(** What an End is sent first: the parameters, and the snapshot's descriptor. *)
Definition greet (h : Z) (param_frame : Frame) : R bool :=
  ok ← write_locked h param_frame;
  if negb ok then mret false else
  _ ← send_rdma_snapshot_info_if_supported h;
  mret true.

Definition handle_end (n : nat) (h : Z) (param_frame : Frame) : R unit :=
  ok ← greet h param_frame;
  if negb ok then close_conn h else
  _ ← serve_loop n h param_frame frame0;
  _ ← unregister_transport h;
  close_conn h.

(** A connection that was accepted gets a handle and its handler. *)
Definition launch_handler (n : nat) (h : Z) (w : W) (param_frame : Frame) : R unit :=
  _ ← r_put (fun rt => rt_with_conns rt (<[h := w]> (conns rt)));
  handle_end n h param_frame.

(** ** Start-up *)

(** [main] up to the listening sockets: the runtime and the shared parameter frame,
    or [None] for an exit with status 1. *)
Definition boot (topology : str) (file : Rows) (edge_id : Z) (outcomes : list (option C))
  : res (option (EdgeRuntime * Frame)) :=
  if edge_id <=? 0 then Ok None else
  rm ← load topology;
  match rm with
  | None => Ok None
  | Some rm =>
      match find_first (fun e => RangeMap.edge_id e =? edge_id) (rm_edges rm) with
      | None => Ok None
      | Some my_edge =>
          let '(lo, hi) := edge_range rm my_edge in
          let ds := edge_load_range file lo hi in
          match ds_keys ds with
          | [] => Ok None
          | _ =>
              '(_, idx) ← bulk_load (zip (ds_keys ds) (ds_payloads ds)) new_plin;
              snap ← build_rdma_snapshot (local_table idx) (parameter idx) ds;
              Ok (Some (mkRt edge_id (cloud_host (rm_cloud rm)) (default 0 (cloud_port (rm_cloud rm)))
                          idx (Some snap) ∅ ∅ outcomes, make_param_push idx))
          end
      end
  end.

End Edge.

(** ** Requests and answers *)

Lemma fetch_request_decodes key slot :
  valid_double key = true -> - 2 ^ 31 <= slot < 2 ^ 31 ->
  length (body (fetch_request key slot)) = 12%nat /\
  get_double (body (fetch_request key slot)) 0 = key /\
  get_i32 (body (fetch_request key slot)) 8 = slot.
Proof.
  intros Hk Hs. unfold fetch_request. cbn [body].
  split; [by rewrite length_app, !le_bytes_length|]. split.
  - exact (get_double_append [] key _ Hk).
  - unfold get_i32. rewrite <- (app_nil_r (le_bytes 4 _)).
    rewrite field_app by (rewrite ?le_bytes_length; done).
    rewrite le_val_bytes by (apply u32_range). unfold i32, u32, signed.
    rewrite Z.mod_mod by lia. exact (signed_id 32 slot ltac:(lia) Hs).
Qed.

Section Serve.
Context {T W C : Type} `{LeafNode.OverflowTree T} `{Transport W} `{StreamIO C}.
Context (fuel : nat) (desc_at record_at pad : Z).

(** One fetch request, on every branch. *)
Lemma serve_fetch_request (h : Z) (pf : Frame) (key : double) (slot : Z)
    (rt : EdgeRuntime (T := T) (W := W) (C := C)) (ret p : Z) (i1 i2 : PlinIndex (T := T))
    (r : option Z) :
  valid_double key = true -> - 2 ^ 31 <= slot < 2 ^ 31 ->
  (if 0 <=? slot then find_through_net fuel key 0 slot (rt_idx rt) = Ok ((ret, p), i1)
   else ret = 0 /\ p = 0 /\ i1 = rt_idx rt) ->
  PlinIndex.find fuel key i1 = Ok (r, i2) ->
  serve_frame fuel desc_at record_at pad h pf (fetch_request key slot) rt =
    if ret =? 1 then write_locked h (make_fetch_resp OK p) (rt_with_idx rt i1)
    else match r with
         | Some v => write_locked h (make_fetch_resp OK v) (rt_with_idx rt i2)
         | None => write_locked h (make_fetch_resp NOT_FOUND p) (rt_with_idx rt i2)
         end.
Proof.
  intros Hk Hs Hnet Hfind. destruct (fetch_request_decodes key slot Hk Hs) as (Hl & Hd & Hi).
  unfold serve_frame. rewrite Hl, Hd, Hi. cbn [ftype fetch_request].
  do 3 (rewrite bool_decide_eq_false_2 by done). rewrite bool_decide_eq_true_2 by done.
  cbn [andb negb orb Nat.ltb Nat.leb]. unfold serve_fetch.
  destruct (0 <=? slot) eqn:Es.
  - unfold on_idx, mbind, R_bind, st_bind. cbn. rewrite Hnet. cbn.
    destruct (ret =? 1); cbn; [done|]. rewrite Hfind. cbn. by destruct r.
  - destruct Hnet as (-> & -> & ->). unfold search, on_idx, mbind, R_bind, st_bind. cbn.
    rewrite Hfind. cbn. by destruct r.
Qed.

(** The Edge decodes exactly the key and the slot that the End encoded, negative
    slots included, and writes one response: the payload of the predicted leaf
    when that leaf has the key, and otherwise whatever the whole index says; a
    wrong prediction costs a second search and never changes the answer. *)
Theorem edge_answers_fetch (h : Z) (pf : Frame) (key : double) (slot : Z)
    (rt : EdgeRuntime (T := T) (W := W) (C := C)) (ret p : Z) (i1 i2 : PlinIndex (T := T))
    (r : option Z) :
  valid_double key = true -> - 2 ^ 31 <= slot < 2 ^ 31 ->
  (if 0 <=? slot then find_through_net fuel key 0 slot (rt_idx rt) = Ok ((ret, p), i1)
   else ret = 0 /\ p = 0 /\ i1 = rt_idx rt) ->
  PlinIndex.find fuel key i1 = Ok (r, i2) ->
  serve_frame fuel desc_at record_at pad h pf (fetch_request key slot) rt =
    if ret =? 1 then write_locked h (make_fetch_resp OK p) (rt_with_idx rt i1)
    else match r with
         | Some v => write_locked h (make_fetch_resp OK v) (rt_with_idx rt i2)
         | None => write_locked h (make_fetch_resp NOT_FOUND p) (rt_with_idx rt i2)
         end.
Proof. apply serve_fetch_request. Qed.

(** A hot update from the Cloud reaches the connection of the End that it names
    with exactly the Cloud's pairs, the four bytes of the address removed; an
    update for an End that is not registered is dropped and changes nothing. *)
Theorem hot_update_forwarded (target : Z) (rows : list KeyPayloadRecord)
    (rt : EdgeRuntime (T := T) (W := W) (C := C)) :
  0 <= target < 2 ^ 31 ->
  handle_cloud_hot_update (mkFrame HOT_UPDATE (append_u32 [] (u32 target) ++ enc_list rows)) rt =
    match ends rt !! target with
    | Some h => '(_, rt) ← write_locked h (hot_update_frame rows) rt; Ok (tt, rt)
    | None => Ok (tt, rt)
    end.
Proof.
  intros Ht. unfold handle_cloud_hot_update. cbn [body].
  rewrite u32_small by lia.
  rewrite (read_u32_append [] target (enc_list rows)) by lia.
  assert (Hi : i32 target = target) by (apply (signed_id 32); lia).
  rewrite Hi. assert (Hd : drop 4 (append_u32 [] target ++ enc_list rows) = enc_list rows)
    by done.
  rewrite Hd. unfold send_to_end, r_get, mbind, R_bind, st_bind. cbn [mbind res_bind].
  destruct (ends rt !! target) as [h|]; [|done].
  unfold hot_update_frame. by destruct (write_locked h _ rt) as [[b rt']|].
Qed.

Lemma unregister_lookup (h id h' : Z) (rt : EdgeRuntime (T := T) (W := W) (C := C)) :
  exists rt', unregister_transport h rt = Ok (tt, rt') /\
    (ends rt' !! id = Some h' <-> ends rt !! id = Some h' /\ h' <> h).
Proof.
  eexists. split; [done|]. cbn [ends rt_with_ends].
  rewrite map_lookup_filter_Some. done.
Qed.

End Serve.

(** ** An example *)

Definition demo_answers : Pipe.pipe := Pipe.mkPipe [] [] [] false.
Definition demo_rt : EdgeRuntime (T := BPlus.btree_plus) (W := Pipe.pipe) (C := sim) :=
  mkRt 1 [] 7000 demo_index None {[ 5 := 7 ]} {[ 7 := demo_answers ]} [].

Definition index_after {A} (m : P (T := BPlus.btree_plus) A) (h : PlinIndex) : PlinIndex :=
  match m h with Ok (_, h) => h | Err _ => h end.

Lemma edge_answers_fetch_witness :
  serve_frame 3 4096 8192 0 7 frame0 (fetch_request (double_of_Z 120) (-1)) demo_rt =
    write_locked 7 (make_fetch_resp OK 121)
      (rt_with_idx demo_rt (index_after (PlinIndex.find 3 (double_of_Z 120)) demo_index)).
Proof.
  refine (edge_answers_fetch 3 4096 8192 0 7 frame0 (double_of_Z 120) (-1) demo_rt 0 0 demo_index
    (index_after (PlinIndex.find 3 (double_of_Z 120)) demo_index) (Some 121) _ _ _ _).
  - reflexivity.
  - lia.
  - exact (conj eq_refl (conj eq_refl eq_refl)).
  - vm_compute. reflexivity.
Defined.

Lemma hot_update_forwarded_witness :
  handle_cloud_hot_update (mkFrame HOT_UPDATE (append_u32 [] (u32 5) ++ enc_list demo_rows)) demo_rt =
    match ends demo_rt !! 5 with
    | Some h => '(_, rt) ← write_locked h (hot_update_frame demo_rows) demo_rt; Ok (tt, rt)
    | None => Ok (tt, demo_rt)
    end.
Proof. refine (hot_update_forwarded 5 demo_rows demo_rt _). lia. Defined.
