(* ===== verification/Wire.v ===== *)
(** * An End and its Edge on one connection

    A transport whose other side is the Edge itself, for theorems about the two processes.
    [link] is a connection as the Edge's handler has it: the frames under way in each
    direction and the memory regions registered on it.  [duplex] is the End's side: the Edge's
    runtime with the handler of this connection.  While the End waits for a frame and none
    is under way, the handler serves the next request. *)

From S2P Require Import Prelude Doubles Bytes Rpc RangeMap Topology Transport CacheModel Snapshot.
From S2P Require Import EndNode PlinIndex EdgeServer.
Open Scope Z_scope.

(** ** The Edge's side *)

Record link : Type := mkLink {
  to_end : list Frame;
  to_edge : list Frame;
  (** Region [i] has key [i + 1]: its address and its bytes. *)
  regions : list (Z * list Z);
  one_sided : bool
}.

Definition set_to_end (l : link) (fs : list Frame) : link := mkLink fs (to_edge l) (regions l) (one_sided l).
Definition set_to_edge (l : link) (fs : list Frame) : link := mkLink (to_end l) fs (regions l) (one_sided l).
Definition add_region (l : link) (a : Z) (bytes : list Z) : link :=
  mkLink (to_end l) (to_edge l) (regions l ++ [(a, bytes)]) (one_sided l).

Definition link_read (l : link) (out : Frame) (_ : Z) : res (bool * Frame * link) :=
  match to_edge l with
  | [] => Ok (false, out, l)
  | f :: fs => Ok (true, f, set_to_edge l fs)
  end.

#[export] Instance link_transport : Transport link := {
  t_read_frame := link_read;
  t_write_frame := fun l f => Ok (true, set_to_end l (to_end l ++ [f]));
  t_close := fun l => l;
  t_supports_remote_read := one_sided;
  t_register_memory := fun l a bytes =>
    if one_sided l
    then (Some (mkMem a (Z.of_nat (length (regions l)) + 1) (Z.of_nat (length bytes))), add_region l a bytes)
    else (None, l);
  t_read_remote := fun l _ _ _ => Ok (None, l)
}.

(** ** The End's side *)

(** The handler's parameters: fuel and addresses of the Edge, the handle of the connection,
    the shared parameter frame. *)
Record process : Type := mkProcess {
  p_fuel : nat;
  p_desc_at : Z;
  p_record_at : Z;
  p_pad : Z;
  p_handle : Z;
  p_push : Frame
}.

Section Wire.
Context {T C : Type} `{LeafNode.OverflowTree T} `{StreamIO C}.

(** [w_req] is the handler's variable; [w_serving] is false once its loop has ended. *)
Record duplex : Type := mkWire {
  w_process : process;
  w_edge : EdgeRuntime (T := T) (W := link) (C := C);
  w_req : Frame;
  w_serving : bool
}.

Definition link_of (w : duplex) : link :=
  default (mkLink [] [] [] false) (conns (w_edge w) !! p_handle (w_process w)).
Definition with_link (w : duplex) (l : link) : duplex :=
  mkWire (w_process w) (rt_with_conns (w_edge w) (<[p_handle (w_process w) := l]> (conns (w_edge w))))
    (w_req w) (w_serving w).

(** The handler serves one request. *)
Definition edge_turn (w : duplex) : res duplex :=
  if w_serving w then
    let p := w_process w in
    '(r, rt) ← serve_next (p_fuel p) (p_desc_at p) (p_record_at p) (p_pad p) (p_handle p) (p_push p)
                 (w_req w) (w_edge w);
    Ok (match r with
        | Some q => mkWire p rt q true
        | None => mkWire p rt (w_req w) false
        end)
  else Ok w.

Definition pop (w : duplex) (out : Frame) : bool * Frame * duplex :=
  match to_end (link_of w) with
  | f :: fs => (true, f, with_link w (set_to_end (link_of w) fs))
  | [] => (false, out, w)
  end.

Definition wire_read (w : duplex) (out : Frame) (_ : Z) : res (bool * Frame * duplex) :=
  match to_end (link_of w), to_edge (link_of w) with
  | [], _ :: _ => w ← edge_turn w; Ok (pop w out)
  | _, _ => Ok (pop w out)
  end.

Definition region (l : link) (k : Z) : option (Z * list Z) := zlookup (regions l) (k - 1).
Definition region_byte (l : link) (k a : Z) : option Z :=
  match region l k with Some (base, bytes) => zlookup bytes (a - base) | None => None end.
Definition region_read (l : link) (a k : Z) (n : nat) : option (list Z) :=
  match region l k with
  | Some (base, bytes) =>
      if (0 <=? base) && (base <=? a) && (a + Z.of_nat n <=? base + Z.of_nat (length bytes)) &&
         (base + Z.of_nat (length bytes) <? 2 ^ 64)
      then Some (take n (drop (Z.to_nat (a - base)) bytes)) else None
  | None => None
  end.

#[export] Instance wire_transport : Transport duplex := {
  t_read_frame := wire_read;
  t_write_frame := fun w f => Ok (true, with_link w (set_to_edge (link_of w) (to_edge (link_of w) ++ [f])));
  t_close := fun w => w;
  t_supports_remote_read := fun w => one_sided (link_of w);
  t_register_memory := fun w _ _ => (None, w);
  t_read_remote := fun w a k n => Ok (region_read (link_of w) a k n, w)
}.

#[export] Instance wire_remote_laws : RemoteLaws duplex.
Proof.
  refine {| t_remote := fun w => region_byte (link_of w) |}.
  intros w a k bytes Hb. cbn [t_read_remote wire_transport]. eexists _, _. split; [reflexivity|].
  destruct (region_read (link_of w) a k (length bytes)) as [l|] eqn:E; [|done]. split; [|done].
  unfold region_read in E. unfold region_byte in Hb. destruct (region (link_of w) k) as [[base mem]|]; [|done].
  destruct (_ && _) eqn:Ec; [|done]. injection E as <-. zb.
  apply list_eq. intros i. destruct (Nat.lt_ge_cases i (length bytes)) as [Hi|Hi].
  - rewrite lookup_take_lt, lookup_drop, <- Hb by done. rewrite u64_small by lia.
    unfold zlookup. destruct (Z.ltb_spec (a + Z.of_nat i - base) 0); [lia|]. f_equal. lia.
  - by rewrite lookup_take_ge, lookup_ge_None_2.
Defined.

(** A connected wire: the connection is open and its handler is serving. *)
Definition connected (w : duplex) (l : link) : Prop :=
  conns (w_edge w) !! p_handle (w_process w) = Some l /\ w_serving w = true.

Lemma connected_link w l : connected w l -> link_of w = l.
Proof. intros [E _]. unfold link_of. by rewrite E. Qed.

Lemma with_link_connected w l l' : connected w l -> connected (with_link w l') l'.
Proof. intros [_ E]. split; [apply lookup_insert_eq|exact E]. Qed.

(** A frame that is under way is read. *)
Lemma wire_read_ready w l f fs out t :
  connected w l -> to_end l = f :: fs ->
  t_read_frame w out t = Ok (true, f, with_link w (set_to_end l fs)).
Proof.
  intros Hc Ef. pose proof (connected_link w l Hc) as El. cbn [t_read_frame wire_transport].
  unfold wire_read, pop. by rewrite El, Ef.
Qed.

(** Nothing is under way. *)
Lemma wire_read_idle w l out t :
  connected w l -> to_end l = [] -> to_edge l = [] -> t_read_frame w out t = Ok (false, out, w).
Proof.
  intros Hc E1 E2. pose proof (connected_link w l Hc) as El. cbn [t_read_frame wire_transport].
  unfold wire_read, pop. by rewrite El, E1, E2.
Qed.
End Wire.
Arguments duplex : clear implicits.

(** ** Operations of the Edge on the link *)

Section Steps.
Context {T C : Type} `{LeafNode.OverflowTree T} `{StreamIO C}.
Context (fuel : nat) (desc_at record_at pad h : Z).
Implicit Types rt : EdgeRuntime (T := T) (W := link) (C := C).

Definition on_link rt (l : link) := rt_with_conns rt (<[h := l]> (conns rt)).

Lemma write_link rt l f :
  conns rt !! h = Some l -> write_locked h f rt = Ok (true, on_link rt (set_to_end l (to_end l ++ [f]))).
Proof. intros E. unfold write_locked, on_conn. rewrite E. reflexivity. Qed.

Lemma on_link_at rt l : conns (on_link rt l) !! h = Some l.
Proof. apply lookup_insert_eq. Qed.
Lemma on_link_again rt l l' : on_link (on_link rt l) l' = on_link rt l'.
Proof. unfold on_link, rt_with_conns. cbn. by rewrite insert_insert_eq. Qed.
Lemma on_link_same rt l : conns rt !! h = Some l -> on_link rt l = rt.
Proof. intros E. unfold on_link, rt_with_conns. rewrite insert_id by done. by destruct rt. Qed.

(** The next request of a connection, and its service. *)
Lemma serve_next_link rt l pf req f fs r rt' :
  conns rt !! h = Some l -> to_edge l = f :: fs ->
  serve_frame fuel desc_at record_at pad h pf f (on_link rt (set_to_edge l fs)) = Ok (r, rt') ->
  serve_next fuel desc_at record_at pad h pf req rt = Ok (if r then Some f else None, rt').
Proof.
  intros El Ef E. unfold serve_next, on_conn, mbind, R_bind, st_bind. rewrite El.
  cbn [of_opt mbind res_bind t_read_frame link_transport]. unfold link_read. rewrite Ef.
  cbn [mbind res_bind]. fold (on_link rt (set_to_edge l fs)). cbn [negb].
  rewrite E. by destruct r.
Qed.

(** Both regions of a snapshot are registered, and its descriptor is sent. *)
Lemma send_info_link rt l snap :
  conns rt !! h = Some l -> one_sided l = true -> rt_snapshot rt = Some snap ->
  descs snap <> [] -> records snap <> [] ->
  let dm := mkMem desc_at (Z.of_nat (length (regions l)) + 1) (Z.of_nat (length (enc_list (descs snap)))) in
  let rm := mkMem record_at (Z.of_nat (length (regions l)) + 2) (Z.of_nat (length (enc_list (records snap)))) in
  send_rdma_snapshot_info_if_supported desc_at record_at pad h rt =
    Ok (tt, on_link rt (mkLink (to_end l ++ [make_rdma_snapshot_info pad (snapshot_info snap dm rm)]) (to_edge l)
      (regions l ++ [(desc_at, enc_list (descs snap)); (record_at, enc_list (records snap))]) true)).
Proof.
  intros El Eo Es Hd Hr dm rm. unfold send_rdma_snapshot_info_if_supported, r_get, mbind, R_bind, st_bind.
  assert (E0 : on_conn h (fun w : link => Ok (t_supports_remote_read w, w)) rt = Ok (true, rt)).
  { unfold on_conn. rewrite El. cbn. rewrite Eo. fold (on_link rt l). by rewrite (on_link_same rt l). }
  rewrite E0. cbn [mbind res_bind]. rewrite Es.
  assert (K : forall {A} (l : list A), l <> [] -> (length l =? 0)%nat = false) by (by intros A [|x l']).
  rewrite (K _ _ Hd), (K _ _ Hr). cbn [negb orb]. clear K.
  assert (E1 : on_conn h (fun w : link => Ok (t_register_memory w desc_at (enc_list (descs snap)))) rt =
    Ok (Some dm, on_link rt (add_region l desc_at (enc_list (descs snap))))).
  { unfold on_conn. rewrite El. cbn. by rewrite Eo. }
  rewrite E1. cbn [mbind res_bind].
  assert (E2 : on_conn h (fun w : link => Ok (t_register_memory w record_at (enc_list (records snap))))
      (on_link rt (add_region l desc_at (enc_list (descs snap)))) =
    Ok (Some rm, on_link rt (add_region (add_region l desc_at (enc_list (descs snap))) record_at (enc_list (records snap))))).
  { unfold on_conn. rewrite on_link_at. cbn. rewrite Eo. cbn. unfold on_link, rt_with_conns. cbn.
    rewrite insert_insert_eq. unfold rm. rewrite length_app. cbn [length]. do 4 f_equal. lia. }
  rewrite E2. cbn [mbind res_bind]. rewrite (write_link _ _ _ (on_link_at _ _)). cbn [mbind res_bind mret R_ret st_ret].
  rewrite on_link_again. do 3 f_equal. unfold set_to_end, add_region. cbn. by rewrite Eo, <- app_assoc.
Qed.
End Steps.

(** ** A request that the handler answers *)

Section Serves.
Context {T C : Type} `{LeafNode.OverflowTree T} `{StreamIO C}.

(** The End has written a request and reads: the handler serves it and its answer is read. *)
Lemma wire_serves (w : duplex T C) (l : link) (req answer out : Frame) (t : Z) rt' :
  let p := w_process w in
  connected w l -> to_end l = [] -> to_edge l = [req] ->
  serve_frame (p_fuel p) (p_desc_at p) (p_record_at p) (p_pad p) (p_handle p) (p_push p) req
    (on_link (p_handle p) (w_edge w) (set_to_edge l [])) = write_locked (p_handle p) answer rt' ->
  conns rt' !! p_handle p = Some (set_to_edge l []) ->
  exists w', t_read_frame w out t = Ok (true, answer, w') /\ connected w' (set_to_edge l []) /\
    rt_idx (w_edge w') = rt_idx rt' /\ w_process w' = p.
Proof.
  intros p Hc E1 E2 Es Ec. pose proof (connected_link w l Hc) as El. destruct Hc as [Hc Hs].
  rewrite (write_link (p_handle p) rt' _ answer Ec) in Es. cbn [to_end set_to_edge] in Es. rewrite E1 in Es. cbn [app] in Es.
  set (l1 := set_to_end (set_to_edge l []) [answer]) in *.
  pose proof (serve_next_link (p_fuel p) (p_desc_at p) (p_record_at p) (p_pad p) (p_handle p) (w_edge w) l (p_push p)
    (w_req w) req [] true _ Hc E2 Es) as En. cbn in En.
  set (w1 := mkWire p (on_link (p_handle p) rt' l1) req true).
  assert (C1 : connected w1 l1) by (split; [apply on_link_at|done]).
  exists (with_link w1 (set_to_end l1 [])). split; [|split; [|done]].
  - cbn [t_read_frame wire_transport]. unfold wire_read. rewrite El, E1, E2. unfold edge_turn. rewrite Hs. fold p.
    rewrite En. mstep. unfold pop. fold w1. by rewrite (connected_link w1 l1 C1).
  - assert (El1 : set_to_end l1 [] = set_to_edge l []) by (unfold l1, set_to_end, set_to_edge; cbn; by rewrite <- E1).
    rewrite <- El1. by apply (with_link_connected w1 l1).
Qed.
End Serves.
