(* ===== verification/CloudServer.v ===== *)
(** * The Cloud (cloud/cloud_server.cpp, cloud/cloud_lstm_runner_stub.cpp)

    Loading of data and workload, the histograms that feed the predictor, the hot
    positions of every End, and the server: Edge registration, relaying of
    cross-edge requests, hot updates.  Sockets are handles into a store, since
    the [edges_] map and the handler share them.  Hash maps are iterated in an
    unspecified order: [iteration] is any enumeration of the entries, and as the
    sort that follows is stable here, any outcome of [std::sort] is one of some
    [iteration]. *)

From S2P Require Import Prelude Doubles Bytes Rpc RangeMap Topology Snapshot EndNode.
From stdpp Require Import sorting.
From Stdlib Require Import SpecFloat.

Open Scope Z_scope.

(** ** Arguments *)

Record CloudArgs : Type := mkArgs {
  topology_path : str;
  data_path : str;
  workload_path : str;
  model_path : str;
  hot_interval_sec : Z;
  hot_topn : Z;
  predict_k : Z
}.
Definition args0 : CloudArgs :=
  mkArgs (s_ "src/common/topology.yaml") (s_ "Data.txt") (s_ "data/workload_log.csv")
    (s_ "hot_lstm/models/cloud_lstm.pt") 30 32 3.

Fixpoint parse_args (argv : list str) (a : CloudArgs) : res CloudArgs :=
  match argv with
  | k :: argv' =>
      match argv' with
      | v :: rest =>
          let '(mkArgs t d w m i n p) := a in
          if bool_decide (k = s_ "--topology") then parse_args rest (mkArgs v d w m i n p)
          else if bool_decide (k = s_ "--data") then parse_args rest (mkArgs t v w m i n p)
          else if bool_decide (k = s_ "--workload") then parse_args rest (mkArgs t d v m i n p)
          else if bool_decide (k = s_ "--model") then parse_args rest (mkArgs t d w v i n p)
          else if bool_decide (k = s_ "--hot-interval") then
            z ← stoi v; parse_args rest (mkArgs t d w m z n p)
          else if bool_decide (k = s_ "--hot-topn") then
            z ← stoi v; parse_args rest (mkArgs t d w m i z p)
          else if bool_decide (k = s_ "--predict-k") then
            z ← stoi v; parse_args rest (mkArgs t d w m i n z)
          else parse_args argv' a
      | [] => Ok a
      end
  | [] => Ok a
  end.

(** ** Data and workload *)

(** [by_key] is filled and never read. *)
Record DataStore : Type := mkData { keys : list double; payloads : list Z }.

Definition load_data (file : Rows) : DataStore :=
  match file with
  | None => mkData [] []
  | Some rows => mkData (map fst rows) (map snd rows)
  end.

Record WorkloadRecord : Type := mkWork { timestamp : double; device_id : Z; key_pos : Z }.

(** One line; [None] when it is skipped.  The conversions throw. *)
Definition workload_line (line : str) : res (option WorkloadRecord) :=
  if bool_decide (line = []) || prefixb (s_ "timestamp") line then Ok None else
  match getlines (Ascii.ascii_of_nat 44) line with
  | [] => Ok None
  | t :: toks =>
      if bool_decide (t = s_ "timestamp") then Ok None else
      ts ← stod t;
      match toks with
      | [] => Ok None
      | d :: toks =>
          dev ← stoi d;
          match toks with
          | [] => Ok None
          | p :: _ => pos ← stoi p; Ok (Some (mkWork ts dev pos))
          end
      end
  end.

Fixpoint workload_lines (lines : list str) : res (list WorkloadRecord) :=
  match lines with
  | [] => Ok []
  | line :: lines' =>
      r ← workload_line line;
      rs ← workload_lines lines';
      Ok (match r with Some r => r :: rs | None => rs end)
  end.

Fixpoint insert_row (r : WorkloadRecord) (l : list WorkloadRecord) : list WorkloadRecord :=
  match l with
  | [] => [r]
  | x :: l' => if dlt (timestamp r) (timestamp x) then r :: x :: l' else x :: insert_row r l'
  end.
Definition sort_rows (l : list WorkloadRecord) : list WorkloadRecord :=
  foldl (fun acc r => insert_row r acc) [] l.

(** The first line is a header, whatever it holds. *)
Definition load_workload (file : option str) : res (list WorkloadRecord) :=
  match file with
  | None => Ok []
  | Some text =>
      rows ← workload_lines (tail (getlines (Ascii.ascii_of_nat 10) text));
      Ok (sort_rows rows)
  end.

(** ** Histograms *)

Definition fadd : float -> float -> float := SFadd 24 128.
Definition float_of_Z (z : Z) : float := binary_normalize 24 128 z 0 false.

Definition bin_of (r : WorkloadRecord) (min_ts span : double) : res nat :=
  b ← to_int32 (dmul (ddiv (dsub (timestamp r) min_ts) span) (double_of_Z 60));
  let b := if b <? 0 then 0 else b in
  let b := if 59 <? b then 59 else b in
  Ok (Z.to_nat b).

Definition count_row (min_ts span : double) (counts : list (list float)) (r : WorkloadRecord)
  : res (list (list float)) :=
  b ← bin_of r min_ts span;
  if (1 <=? device_id r) && (device_id r <=? 10) then
    row ← of_opt UB (counts !! b);
    x ← zload row (device_id r - 1);
    row ← zstore row (device_id r - 1) (fadd x (float_of_Z 1));
    Ok (<[b := row]> counts)
  else Ok counts.

Definition zero_counts : list (list float) := replicate 60 (replicate 10 (S754_zero false)).

Definition build_counts_60x10 (rows : list WorkloadRecord) : res (list (list float)) :=
  match rows, last rows with
  | first :: _, Some lst =>
      let min_ts := timestamp first in
      let d := dsub (timestamp lst) min_ts in
      let eps := double_of_decimal false 1 (-9) in
      let span := if dlt eps d then d else eps in
      foldlM (count_row min_ts span) zero_counts rows
  | _, _ => Ok zero_counts
  end.

(** ** Hot positions *)

Definition end_for_position (pos data_size : Z) : Z :=
  if (pos <=? 0) || (data_size <? pos) then -1 else
  let e := cdiv (pos - 1) 1000000 + 1 in
  if e <? 1 then -1 else if 10 <? e then 10 else e.

Definition bump_count (m : gmap Z Z) (pos : Z) : gmap Z Z := <[pos := default 0 (m !! pos) + 1]> m.

(** The positions of End [e] with their number of requests. *)
Definition position_counts (rows : list WorkloadRecord) (data_size e : Z) : gmap Z Z :=
  foldl (fun m r => if end_for_position (key_pos r) data_size =? e then bump_count m (key_pos r) else m)
    ∅ rows.

Definition hotter (a b : Z * Z) : Prop := b.2 <= a.2.
#[export] Instance hotter_dec a b : Decision (hotter a b).
Proof. unfold hotter. apply _. Defined.

Section Hot.
Context (iteration : gmap Z Z -> list (Z * Z)).

Definition hot_positions_of (rows : list WorkloadRecord) (data_size max_per_end e : Z) : list Z :=
  take (Z.to_nat max_per_end)
    (map fst (merge_sort hotter (iteration (position_counts rows data_size e)))).

(** Entry 0 is empty; the Ends are 1 to 10. *)
Definition build_hot_positions_by_end (rows : list WorkloadRecord) (data_size max_per_end : Z)
  : list (list Z) :=
  [] :: map (fun e => hot_positions_of rows data_size max_per_end (Z.of_nat e)) (seq 1 10).
End Hot.

(** ** The predictor without libtorch *)

Definition column_score (counts : list (list float)) (i : nat) : float :=
  foldl (fun acc row => match row !! i with Some x => fadd acc x | None => acc end)
    (S754_zero false) counts.

(** Sorted by decreasing score. *)
Fixpoint insert_score (s : float * Z) (l : list (float * Z)) : list (float * Z) :=
  match l with
  | [] => [s]
  | x :: l' => if SFltb x.1 s.1 then s :: x :: l' else x :: insert_score s l'
  end.

Definition predict_top_ends_stub (counts : list (list float)) (k : Z) : list Z :=
  match counts with
  | [] => []
  | row0 :: _ =>
      if k <=? 0 then [] else
      let scores := map (fun i => (column_score counts i, Z.of_nat i)) (seq 0 (length row0)) in
      take (Z.to_nat k) (map snd (foldl (fun acc s => insert_score s acc) [] scores))
  end.

(** ** The server *)

Section Server.
Context {C : Type} `{StreamIO C}.
Context (iteration : gmap Z Z -> list (Z * Z)).
Context (predict_top_ends : list (list float) -> Z -> list Z).

Record CloudServer : Type := mkCloudServer {
  cs_args : CloudArgs;
  cs_rm : RangeMap;
  cs_data : DataStore;
  cs_counts : list (list float);
  cs_hot : list (list Z);
  edges_ : gmap Z Z;
  fds : gmap Z C
}.

Definition new_server (args : CloudArgs) (rm : RangeMap) (data : DataStore)
    (workload : list WorkloadRecord) : res CloudServer :=
  counts ← build_counts_60x10 workload;
  let most := hot_topn args * 4 in
  if (most <? - 2 ^ 31) || (2 ^ 31 <=? most) then Err UB else
  Ok (mkCloudServer args rm data counts
        (build_hot_positions_by_end iteration workload (Z.of_nat (length (keys data))) most) ∅ ∅).

Definition cs_with_edges (s : CloudServer) (e : gmap Z Z) : CloudServer :=
  mkCloudServer (cs_args s) (cs_rm s) (cs_data s) (cs_counts s) (cs_hot s) e (fds s).
Definition cs_with_fds (s : CloudServer) (f : gmap Z C) : CloudServer :=
  mkCloudServer (cs_args s) (cs_rm s) (cs_data s) (cs_counts s) (cs_hot s) (edges_ s) f.

Definition K (A : Type) : Type := CloudServer -> res (A * CloudServer).
#[export] Instance K_ret : MRet K := st_ret (H := CloudServer).
#[export] Instance K_bind : MBind K := st_bind (H := CloudServer).

Definition k_get {A} (f : CloudServer -> A) : K A := fun s => Ok (f s, s).
Definition k_lift {A} (m : res A) : K A := fun s => a ← m; Ok (a, s).
Definition on_fd {A} (h : Z) (f : C -> res (A * C)) : K A := fun s =>
  c ← of_opt UB (fds s !! h);
  '(a, c) ← f c;
  Ok (a, cs_with_fds s (<[h := c]> (fds s))).

Definition send_frame (h : Z) (f : Frame) : K bool := on_fd h (fun c => write_frame c f).
Definition recv_frame (h : Z) (f : Frame) : K (bool * Frame) :=
  on_fd h (fun c => '(ok, f, c) ← read_frame c f; Ok ((ok, f), c)).
Definition close_fd (h : Z) : K unit := fun s => Ok (tt, cs_with_fds s (delete h (fds s))).

(** The acknowledgement carries the id. *)
Definition register_edge (edge_id h : Z) : K unit :=
  _ ← (fun s => Ok (tt, cs_with_edges s (<[edge_id := h]> (edges_ s))));
  _ ← send_frame h (mkFrame HEARTBEAT_ACK (append_u32 [] (u32 edge_id)));
  mret tt.

Definition edge_conn (edge_id : Z) : K (option Z) := k_get (fun s => edges_ s !! edge_id).

Definition forward_to_edge (edge_id : Z) (req : Frame) : K (option Frame) :=
  conn ← edge_conn edge_id;
  match conn with
  | None => mret None
  | Some h =>
      ok ← send_frame h req;
      if negb ok then mret None else
      '(ok, resp) ← recv_frame h frame0;
      mret (if (ok : bool) then Some resp else None)
  end.

Definition reply (h : Z) (f : Frame) : K unit := _ ← send_frame h f; mret tt.

Definition handle_cross_edge_req (h : Z) (req : Frame) : K unit :=
  match read_double (body req) 8 with
  | None => reply h (make_fetch_resp ERROR 0)
  | Some key =>
      rm ← k_get cs_rm;
      target_end ← k_lift (locate_end rm key);
      let target_edge := edge_of rm target_end in
      if (target_end <? 0) || (target_edge <? 0) then reply h (make_fetch_resp NOT_FOUND 0) else
      r ← forward_to_edge target_edge req;
      reply h (default (make_fetch_resp ERROR 0) r)
  end.

(** A registered Edge keeps its socket; every other connection is closed. *)
Definition handle_connection (h : Z) : K unit :=
  '(ok, first) ← recv_frame h frame0;
  if negb ok then close_fd h else
  if bool_decide (ftype first = HEARTBEAT) then
    match read_u32 (body first) 0 with
    | Some id => register_edge (i32 id) h
    | None => close_fd h
    end
  else
    _ ← (if bool_decide (ftype first = CROSS_EDGE_REQ)
          then handle_cross_edge_req h first else mret tt);
    close_fd h.

(** The pairs of a hot update: the first [hot_topn] usable positions. *)
Fixpoint hot_rows (rm : RangeMap) (data : DataStore) (target topn : Z) (emitted : Z) (l : list Z)
  : res (list KeyPayloadRecord) :=
  match l with
  | [] => Ok []
  | pos :: l' =>
      if (pos <=? 0) || (Z.of_nat (length (keys data)) <? pos)
      then hot_rows rm data target topn emitted l' else
      key ← zload (keys data) (pos - 1);
      owner ← locate_end rm key;
      if negb (owner =? target) then hot_rows rm data target topn emitted l' else
      p ← zload (payloads data) (pos - 1);
      if topn <=? emitted + 1 then Ok [mkKp key p] else
      rows ← hot_rows rm data target topn (emitted + 1) l';
      Ok (mkKp key p :: rows)
  end.

Definition cloud_hot_frame (target : Z) (rows : list KeyPayloadRecord) : Frame :=
  mkFrame HOT_UPDATE (append_u32 [] (u32 target) ++ enc_list rows).

Definition send_hot_update (target : Z) : K bool :=
  s ← k_get id;
  let edge_id := edge_of (cs_rm s) target in
  conn ← edge_conn edge_id;
  match conn with
  | None => mret false
  | Some h =>
      if (target <? 1) || (i32 (Z.of_nat (length (cs_hot s))) <=? target) then mret false else
      positions ← k_lift (zload (cs_hot s) target);
      rows ← k_lift (hot_rows (cs_rm s) (cs_data s) target (hot_topn (cs_args s)) 0 positions);
      if (length rows =? 0)%nat then mret false else
      send_frame h (cloud_hot_frame target rows)
  end.

(** One round of [hot_update_loop]. *)
Definition hot_update_round : K unit :=
  s ← k_get id;
  let top := predict_top_ends (cs_counts s) (predict_k (cs_args s)) in
  let top := match top with [] => [0; 1; 5] | _ => top end in
  (fix each (l : list Z) : K unit :=
     match l with
     | [] => mret tt
     | idx :: l' =>
         let end_id := idx + 1 in
         _ ← (if (1 <=? end_id) && (end_id <=? 10) then send_hot_update end_id else mret false);
         each l'
     end) top.

End Server.

(** [main] up to [run]: [None] is an exit with status 1. *)
Definition cloud_main (iteration : gmap Z Z -> list (Z * Z)) {C} `{StreamIO C}
    (args : CloudArgs) (topology : str) (data : Rows) (workload : option str)
  : res (option (CloudServer (C := C))) :=
  rm ← load topology;
  match rm with
  | None => Ok None
  | Some rm =>
      let ds := load_data data in
      match keys ds with
      | [] => Ok None
      | _ =>
          wl ← load_workload workload;
          match wl with
          | [] => Ok None
          | _ => s ← new_server iteration args rm ds wl; Ok (Some s)
          end
      end
  end.

(** ** Positions and counts *)

(** A position of the data file belongs to an End between 1 and 10, the one whose
    block of a million rows holds it, the tenth taking the rest; anything else
    belongs to none. *)
Theorem end_for_position_spec (pos size : Z) :
  end_for_position pos size =
    if (1 <=? pos) && (pos <=? size) then Z.min 10 ((pos - 1) / 1000000 + 1) else -1.
Proof.
  unfold end_for_position, cdiv.
  destruct (Z.leb_spec pos 0), (Z.leb_spec 1 pos); try lia; cbn [orb andb]; try done.
  destruct (Z.ltb_spec size pos), (Z.leb_spec pos size); try lia; try done.
  rewrite Z.quot_div_nonneg by lia.
  pose proof (Z.div_pos (pos - 1) 1000000 ltac:(lia) ltac:(lia)).
  destruct (Z.ltb_spec ((pos - 1) / 1000000 + 1) 1); [lia|].
  destruct (Z.ltb_spec 10 ((pos - 1) / 1000000 + 1)); lia.
Qed.

(** How often End [e]'s position [p] is requested. *)
Definition requests (rows : list WorkloadRecord) (size e p : Z) : Z :=
  Z.of_nat (length (filter (fun r => key_pos r = p /\ end_for_position (key_pos r) size = e) rows)).

Lemma position_counts_lookup rows size e p :
  position_counts rows size e !! p =
    if requests rows size e p =? 0 then None else Some (requests rows size e p).
Proof.
  unfold position_counts.
  assert (K : forall m : gmap Z Z, (forall q, default 0 (m !! q) <> 0 \/ m !! q = None) ->
    (forall q x, m !! q = Some x -> 0 < x) ->
    foldl (fun m r => if end_for_position (key_pos r) size =? e then bump_count m (key_pos r) else m)
      m rows !! p =
    if default 0 (m !! p) + requests rows size e p =? 0 then None
    else Some (default 0 (m !! p) + requests rows size e p)).
  { induction rows as [|r rows IH]; intros m Hm Hpos; cbn [foldl].
    - unfold requests. cbn. rewrite Z.add_0_r. destruct (m !! p) as [x|] eqn:E; cbn; [|done].
      specialize (Hpos _ _ E). by destruct (Z.eqb_spec x 0); [lia|].
    - unfold requests. destruct (Z.eqb_spec (end_for_position (key_pos r) size) e) as [He|He].
      + rewrite IH.
        * unfold bump_count. destruct (decide (key_pos r = p)) as [Hp|Hp].
          -- rewrite Hp, lookup_insert_eq. cbn [from_option id].
             rewrite filter_cons_True by (split; congruence). cbn [length]. unfold requests.
             replace (default 0 (m !! p) + 1 + _) with
               (default 0 (m !! p) + Z.of_nat (S (length (filter (fun r => key_pos r = p /\
                  end_for_position (key_pos r) size = e) rows)))) by lia. done.
          -- rewrite lookup_insert_ne by done. rewrite filter_cons_False by naive_solver. done.
        * intros q. unfold bump_count. destruct (decide (key_pos r = q)) as [<-|Hq].
          -- left. rewrite lookup_insert_eq. cbn. destruct (m !! key_pos r) eqn:E; cbn; [|lia].
             specialize (Hpos _ _ E). lia.
          -- rewrite lookup_insert_ne by done. apply Hm.
        * intros q x. unfold bump_count. destruct (decide (key_pos r = q)) as [<-|Hq].
          -- rewrite lookup_insert_eq. intros [= <-]. destruct (m !! key_pos r) eqn:E; cbn; [|lia].
             specialize (Hpos _ _ E). lia.
          -- rewrite lookup_insert_ne by done. apply Hpos.
      + rewrite IH by done. unfold requests. by rewrite filter_cons_False by naive_solver. }
  rewrite K.
  - by rewrite lookup_empty.
  - intros q. right. apply lookup_empty.
  - intros q x. by rewrite lookup_empty.
Qed.

Lemma sorted_take_hotter (l : list (Z * Z)) n a b :
  StronglySorted hotter l -> a ∈ take n l -> b ∈ drop n l -> b.2 <= a.2.
Proof.
  intros Hs Ha Hb. rewrite <- (take_drop n l) in Hs.
  revert Hs Ha Hb. generalize (take n l) (drop n l). intros l1 l2.
  induction l1 as [|x l1 IH]; intros Hs Ha Hb; [by apply elem_of_nil in Ha|].
  cbn in Hs. apply StronglySorted_inv in Hs as [Hs Hall].
  apply elem_of_cons in Ha as [->|Ha]; [|by apply IH].
  rewrite Forall_app, !Forall_forall in Hall. destruct Hall as [_ Hall]. by apply Hall.
Qed.

(** The hot positions of an End are its most requested ones: at most the limit,
    without repetition, each of them requested and owned by the End, and none of the
    positions left out is requested more often than one that is listed, whatever
    order the hash map is walked in. *)
Theorem hot_positions_top (iteration : gmap Z Z -> list (Z * Z)) (rows : list WorkloadRecord)
    (size limit e : Z) :
  (forall m, iteration m ≡ₚ map_to_list m) ->
  let l := hot_positions_of iteration rows size limit e in
  Z.of_nat (length l) <= Z.max 0 limit /\ NoDup l /\
  (forall p, p ∈ l -> 0 < requests rows size e p) /\
  (forall p q, p ∈ l -> q ∉ l -> 0 < limit -> requests rows size e q <= requests rows size e p) /\
  (Z.of_nat (length l) < limit -> forall q, 0 < requests rows size e q -> q ∈ l).
Proof.
  intros Hit l. unfold hot_positions_of in l.
  set (ranked := merge_sort hotter (iteration (position_counts rows size e))) in *.
  assert (Hperm : ranked ≡ₚ map_to_list (position_counts rows size e)).
  { unfold ranked. rewrite merge_sort_Permutation. apply Hit. }
  assert (Hel : forall p c, (p, c) ∈ ranked <-> c = requests rows size e p /\ c <> 0).
  { intros p c. rewrite Hperm, elem_of_map_to_list, position_counts_lookup.
    destruct (Z.eqb_spec (requests rows size e p) 0); naive_solver. }
  assert (Hsort : StronglySorted hotter ranked).
  { apply StronglySorted_merge_sort.
    - intros a b c. unfold hotter. lia.
    - intros a b. unfold hotter. lia. }
  assert (Hreq : forall p, 0 <= requests rows size e p) by (intros; unfold requests; lia).
  assert (Hnd : NoDup (map fst ranked)).
  { rewrite Hperm. apply NoDup_fst_map_to_list. }
  assert (Hin : forall p, p ∈ map fst ranked -> (p, requests rows size e p) ∈ ranked).
  { intros p Hp. apply list_elem_of_fmap in Hp as ([p' c] & -> & Hp). cbn.
    by pose proof (proj1 (Hel _ _) Hp) as [-> _]. }
  assert (Hall : forall q, 0 < requests rows size e q -> q ∈ map fst ranked).
  { intros q Hq. apply list_elem_of_fmap. exists (q, requests rows size e q).
    split; [done|]. apply Hel. split; [done|lia]. }
  subst l. rewrite firstn_map.
  split; [|split; [|split; [|split]]].
  - rewrite length_map, length_take. lia.
  - rewrite <- firstn_map. eapply sublist_NoDup; [exact Hnd|apply sublist_take].
  - intros p Hp. apply list_elem_of_fmap in Hp as ([p' c] & -> & Hp).
    apply elem_of_take in Hp as (i & Hp & _). apply list_elem_of_lookup_2 in Hp.
    apply Hel in Hp as [-> Hne]. cbn. specialize (Hreq p'). lia.
  - intros p q Hp Hq _. apply list_elem_of_fmap in Hp as ([p' c] & -> & Hp). cbn.
    pose proof Hp as Hp'. apply elem_of_take in Hp' as (i & Hp' & _).
    apply list_elem_of_lookup_2 in Hp'. apply Hel in Hp' as [-> _].
    destruct (Z.le_gt_cases (requests rows size e q) 0); [specialize (Hreq p'); lia|].
    assert (Hqr : (q, requests rows size e q) ∈ ranked) by (apply Hel; split; [done|lia]).
    rewrite <- (take_drop (Z.to_nat limit) ranked) in Hqr. apply elem_of_app in Hqr as [Hqr|Hqr].
    + exfalso. apply Hq. apply list_elem_of_fmap. eexists; split; [|exact Hqr]. done.
    + exact (sorted_take_hotter _ _ _ _ Hsort Hp Hqr).
  - intros Hl q Hq. rewrite length_map, length_take in Hl.
    rewrite take_ge by lia. by apply Hall.
Qed.

Definition work (t d p : Z) : WorkloadRecord := mkWork (double_of_Z t) d p.
Definition demo_work : list WorkloadRecord :=
  [work 1 1 5; work 2 3 7; work 3 1 5; work 4 2 9; work 5 2 9; work 6 2 9; work 7 4 1500000].

Lemma hot_positions_top_witness :
  hot_positions_of map_to_list demo_work 2000000 2 1 = [9; 5] /\
  (forall p q, p ∈ hot_positions_of map_to_list demo_work 2000000 2 1 ->
     q ∉ hot_positions_of map_to_list demo_work 2000000 2 1 -> 0 < 2 ->
     requests demo_work 2000000 1 q <= requests demo_work 2000000 1 p).
Proof.
  split; [vm_compute; reflexivity|].
  refine (proj1 (proj2 (proj2 (proj2 (hot_positions_top map_to_list demo_work 2000000 2 1 _))))).
  done.
Defined.

(** ** Hot updates *)

(** What a position contributes: its row, when the target End owns the key. *)
Definition hot_candidate (rm : RangeMap) (data : DataStore) (target pos : Z) : option KeyPayloadRecord :=
  if (1 <=? pos) && (pos <=? Z.of_nat (length (keys data))) then
    match zlookup (keys data) (pos - 1), zlookup (payloads data) (pos - 1) with
    | Some k, Some p => if bool_decide (locate_end rm k = Ok target) then Some (mkKp k p) else None
    | _, _ => None
    end
  else None.

Lemma locate_total rm k :
  ranges_ok (rm_ends rm) = true -> Z.of_nat (length (rm_ends rm)) < 2 ^ 30 -> is_key k = true ->
  exists o, locate_end rm k = Ok o.
Proof.
  intros Hok Hlen Hk. unfold locate_end.
  destruct (locate_loop_spec (rm_ends rm) k Hok Hk Hlen (length (rm_ends rm)) 0
    (Z.of_nat (length (rm_ends rm)) - 1)) as [(i & x & _ & _ & ->)|[_ ->]]; [lia..| |by eexists|by eexists].
  intros i x Hi _. apply lookup_lt_Some in Hi. lia.
Qed.

Lemma hot_rows_spec rm data target topn l : forall emitted,
  ranges_ok (rm_ends rm) = true -> Z.of_nat (length (rm_ends rm)) < 2 ^ 30 ->
  Forall (fun k => is_key k = true) (keys data) -> length (payloads data) = length (keys data) ->
  0 <= emitted ->
  hot_rows rm data target topn emitted l =
    Ok (take (Z.to_nat (Z.max 1 (topn - emitted))) (omap (hot_candidate rm data target) l)).
Proof.
  induction l as [|pos l IH]; intros emitted Hok Hlen Hk Hp He; cbn [hot_rows omap list_omap].
  { by rewrite take_nil. }
  unfold hot_candidate at 1.
  destruct (Z.leb_spec pos 0), (Z.leb_spec 1 pos); try lia; cbn [orb andb]; [by apply IH|].
  destruct (Z.ltb_spec (Z.of_nat (length (keys data))) pos),
           (Z.leb_spec pos (Z.of_nat (length (keys data)))); try lia; [by apply IH|].
  destruct (zlookup_is_Some (keys data) (pos - 1)) as [k Ek]; [lia|].
  destruct (zlookup_is_Some (payloads data) (pos - 1)) as [p Ep]; [lia|].
  unfold zload. rewrite Ek, Ep. mstep.
  assert (Hkk : is_key k = true).
  { unfold zlookup in Ek. destruct (_ <? 0); [done|].
    exact (proj1 (Forall_lookup _ _) Hk _ _ Ek). }
  destruct (locate_total rm k Hok Hlen Hkk) as [o Eo]. rewrite Eo. mstep.
  destruct (Z.eqb_spec o target) as [->|Hne]; cbn [negb].
  - rewrite bool_decide_eq_true_2 by done.
    destruct (Z.leb_spec topn (emitted + 1)).
    + replace (Z.to_nat (Z.max 1 (topn - emitted))) with 1%nat by lia. cbn. by rewrite take_0.
    + rewrite IH by (done || lia). mstep.
      replace (Z.to_nat (Z.max 1 (topn - emitted)))
        with (S (Z.to_nat (Z.max 1 (topn - (emitted + 1))))) by lia. done.
  - rewrite bool_decide_eq_false_2 by congruence. by apply IH.
Qed.

(** The owner of what a position contributes. *)
Lemma hot_candidate_owned rm data target pos r :
  Forall (fun k => is_key k = true) (keys data) ->
  hot_candidate rm data target pos = Some r ->
  locate_end rm (kp_key r) = Ok target /\ is_key (kp_key r) = true.
Proof.
  intros Hk Hr. unfold hot_candidate in Hr. destruct (_ && _); [|done].
  destruct (zlookup (keys data) (pos - 1)) as [k|] eqn:Ek; [|done].
  destruct (zlookup (payloads data) (pos - 1)) as [p|]; [|done].
  destruct (bool_decide_reflect (locate_end rm k = Ok target)); [|done]. injection Hr as <-.
  split; [done|]. unfold zlookup in Ek. destruct (_ <? 0); [done|].
  exact (proj1 (Forall_lookup _ _) Hk _ _ Ek).
Qed.

(** The pairs of a hot update are, in order of heat, the rows of the hot positions
    whose keys the target End owns, up to [hot_topn] of them (one at least); the
    selection never leaves the data arrays and never fails. *)
Theorem hot_update_rows (rm : RangeMap) (data : DataStore) (target topn : Z) (positions : list Z) :
  ranges_ok (rm_ends rm) = true -> Z.of_nat (length (rm_ends rm)) < 2 ^ 30 ->
  Forall (fun k => is_key k = true) (keys data) -> length (payloads data) = length (keys data) ->
  exists rows, hot_rows rm data target topn 0 positions = Ok rows /\
    rows = take (Z.to_nat (Z.max 1 topn)) (omap (hot_candidate rm data target) positions) /\
    forall r, r ∈ rows -> locate_end rm (kp_key r) = Ok target /\
      exists pos, pos ∈ positions /\ 1 <= pos <= Z.of_nat (length (keys data)) /\
        zlookup (keys data) (pos - 1) = Some (kp_key r) /\
        zlookup (payloads data) (pos - 1) = Some (kp_payload r).
Proof.
  intros Hok Hlen Hk Hp. rewrite (hot_rows_spec rm data target topn positions 0) by done.
  rewrite Z.sub_0_r. eexists. split; [done|]. split; [done|].
  intros r Hr. apply elem_of_take in Hr as (i & Hr & _). apply list_elem_of_lookup_2 in Hr.
  apply list_elem_of_omap in Hr as (pos & Hpos & Hr). unfold hot_candidate in Hr.
  destruct (Z.leb_spec 1 pos); [|done]. destruct (Z.leb_spec pos (Z.of_nat (length (keys data)))); [|done].
  cbn [andb] in Hr. destruct (zlookup (keys data) (pos - 1)) as [k|] eqn:Ek; [|done].
  destruct (zlookup (payloads data) (pos - 1)) as [p|] eqn:Ep; [|done].
  destruct (bool_decide_reflect (locate_end rm k = Ok target)); [|done].
  injection Hr as <-. split; [done|]. exists pos. done.
Qed.

Definition demo_store : DataStore :=
  mkData (map double_of_Z [-13000000000; -9000000000; -7000000000; 1]) [10; 20; 30; 40].

Lemma hot_update_rows_witness :
  exists rows, hot_rows shipped_rm demo_store 2 32 0 [3; 2; 9; 1] = Ok rows /\
    rows = take 32 (omap (hot_candidate shipped_rm demo_store 2) [3; 2; 9; 1]).
Proof.
  destruct (hot_update_rows shipped_rm demo_store 2 32 [3; 2; 9; 1]) as (rows & E & R & _).
  - vm_compute. reflexivity.
  - vm_compute. reflexivity.
  - vm_compute. repeat constructor.
  - reflexivity.
  - exists rows. split; [exact E|exact R].
Defined.
