(* ===== verification/CloudLstm.v ===== *)
(** * The predictors of the Cloud (cloud/cloud_lstm_runner.cpp, cloud_lstm_runner_stub.cpp)

    The build picks one of two implementations of [CloudLstmRunner].  The one over libtorch
    hands the counts to the method [predict_top_k] of the loaded module, an argument here:
    it takes the values of a tensor with the given numbers of rows and columns, and the
    number of columns wanted, and returns the first row of its result.  [TopK] states what
    the documentation of [topk] promises of it.

    Both implementations return distinct Ends of the topology, as many as were asked for. *)

From S2P Require Import Prelude Doubles Rpc Topology CloudServer.
From Stdlib Require Import SpecFloat Sorting.Sorted.
Open Scope Z_scope.

(** ** The runner over libtorch *)

Section Torch.
Context (predict_top_k : list float -> Z -> Z -> Z -> res (list Z)).

(** [acc\[0\]\[i\]] for the next [n] values of [i]. *)
Fixpoint read_indices (n : nat) (i : Z) (indices : list Z) : res (list Z) :=
  match n with
  | O => Ok []
  | S n' => x ← zload indices i; rest ← read_indices n' (i + 1) indices; Ok (i32 x :: rest)
  end.

Definition predict_top_ends_torch (counts : list (list float)) (k : Z) : res (list Z) :=
  match counts with
  | [] => Ok []
  | row0 :: _ =>
      if k <=? 0 then Ok [] else
      let steps := Z.of_nat (length counts) in
      let dims := Z.of_nat (length row0) in
      if dims <=? 0 then Ok [] else
      if forallb (fun row => Z.of_nat (length row) =? dims) counts then
        let k := Z.min k (i32 dims) in
        indices ← predict_top_k (concat counts) steps dims k;
        read_indices (Z.to_nat k) 0 indices
      else Ok []
  end.

(** The [k] columns of a tensor with [steps] rows and [dims] columns. *)
Class TopK : Prop := {
  top_k_columns flat steps dims k :
    Z.of_nat (length flat) = steps * dims -> 0 < k <= dims ->
    exists l, predict_top_k flat steps dims k = Ok l /\ Z.of_nat (length l) = k /\ NoDup l /\
      Forall (fun i => 0 <= i < dims) l
}.
End Torch.

(** ** What a predictor returns *)

(** [min k n] distinct columns of [n]. *)
Record top_columns (n k : Z) (l : list Z) : Prop := {
  tc_length : Z.of_nat (length l) = Z.min k n;
  tc_distinct : NoDup l;
  tc_columns : Forall (fun i => 0 <= i < n) l
}.

Lemma i32_small x : 0 <= x < 2 ^ 31 -> i32 x = x.
Proof. intros Hx. unfold i32. apply signed_id; [lia|]. change (2 ^ (32 - 1)) with (2 ^ 31). lia. Qed.

Lemma read_indices_ok pre l :
  Forall (fun i => 0 <= i < 2 ^ 31) l ->
  read_indices (length l) (Z.of_nat (length pre)) (pre ++ l) = Ok l.
Proof.
  intros Hl. revert pre. induction Hl as [|x l Hx Hl IH]; intros pre; [done|]. cbn [length read_indices].
  rewrite (zload_nat _ _ x) by (by rewrite list_lookup_middle). mstep.
  replace (pre ++ x :: l) with ((pre ++ [x]) ++ l) by (by rewrite <- app_assoc).
  replace (Z.of_nat (length pre) + 1) with (Z.of_nat (length (pre ++ [x]))) by (rewrite length_app; cbn; lia).
  rewrite IH. mstep. by rewrite i32_small.
Qed.

Lemma concat_length {A} (rows : list (list A)) n :
  Forall (fun row => length row = n) rows -> length (concat rows) = (length rows * n)%nat.
Proof.
  induction 1 as [|row rows Hr Hrs IH]; [done|]. cbn [concat length]. rewrite length_app, IH, Hr. lia.
Qed.

Lemma torch_top (predict_top_k : list float -> Z -> Z -> Z -> res (list Z)) `{!TopK predict_top_k} counts n k :
  counts <> [] -> 0 < Z.of_nat n < 2 ^ 31 -> Forall (fun row => length row = n) counts -> 0 < k ->
  exists l, predict_top_ends_torch predict_top_k counts k = Ok l /\ top_columns (Z.of_nat n) k l.
Proof.
  intros Hne Hn Hrows Hk. unfold predict_top_ends_torch. destruct counts as [|row0 rows]; [done|].
  pose proof (proj1 (proj1 (Forall_cons _ _ _) Hrows)) as E0. cbn in E0. rewrite E0.
  rewrite (proj2 (Z.leb_gt _ _)), (proj2 (Z.leb_gt _ _)) by lia.
  assert (Eb : forallb (fun row : list float => Z.of_nat (length row) =? Z.of_nat n) (row0 :: rows) = true).
  { apply forallb_forall. intros row Hrow%list_elem_of_In. apply Z.eqb_eq. f_equal.
    by apply (proj1 (Forall_forall _ _) Hrows). }
  rewrite Eb, i32_small by lia.
  destruct (top_k_columns predict_top_k (concat (row0 :: rows)) (Z.of_nat (length (row0 :: rows))) (Z.of_nat n)
    (Z.min k (Z.of_nat n))) as (l & E & Hl & Hd & Hc).
  { rewrite (concat_length _ n Hrows). lia. }
  { lia. }
  rewrite E. mstep. exists l. split; [|by split].
  rewrite <- Hl, Nat2Z.id. apply (read_indices_ok [] l). eapply Forall_impl; [exact Hc|]. cbn. lia.
Qed.

Lemma insert_score_perm s l : insert_score s l ≡ₚ s :: l.
Proof.
  induction l as [|x l IH]; [done|]. cbn [insert_score]. case_match; [done|].
  rewrite IH. apply Permutation_swap.
Qed.

Lemma sort_scores_perm l acc : foldl (fun acc s => insert_score s acc) acc l ≡ₚ acc ++ l.
Proof.
  revert acc. induction l as [|s l IH]; intros acc; cbn [foldl]; [by rewrite app_nil_r|].
  rewrite IH, insert_score_perm. by rewrite <- Permutation_middle.
Qed.

Lemma stub_top counts n k :
  counts <> [] -> Forall (fun row => length row = n) counts -> 0 < k ->
  top_columns (Z.of_nat n) k (predict_top_ends_stub counts k).
Proof.
  intros Hne Hrows Hk. unfold predict_top_ends_stub. destruct counts as [|row0 rows]; [done|].
  pose proof (proj1 (proj1 (Forall_cons _ _ _) Hrows)) as E0. cbn in E0. rewrite E0.
  rewrite (proj2 (Z.leb_gt _ _)) by lia.
  set (scores := map (fun i => (column_score (row0 :: rows) i, Z.of_nat i)) (seq 0 n)).
  assert (Hp : map snd (foldl (fun acc s => insert_score s acc) [] scores) ≡ₚ map Z.of_nat (seq 0 n)).
  { rewrite sort_scores_perm. cbn [app]. unfold scores. by rewrite map_map. }
  split.
  - rewrite length_take, Hp, length_map, length_seq. lia.
  - apply (sublist_NoDup _ (map snd (foldl (fun acc s => insert_score s acc) [] scores))); [|apply sublist_take].
    rewrite Hp. apply NoDup_fmap_2; [by intros i j ?%Nat2Z.inj|]. apply NoDup_seq.
  - apply Forall_take. rewrite Hp. apply Forall_map, Forall_forall. intros i Hi%elem_of_seq. lia.
Qed.

(** The histogram has sixty rows of ten columns. *)
Definition shape (counts : list (list float)) : Prop :=
  length counts = 60%nat /\ Forall (fun row => length row = 10%nat) counts.

Lemma count_row_shape min_ts span counts r counts' :
  shape counts -> count_row min_ts span counts r = Ok counts' -> shape counts'.
Proof.
  intros [Hl Hr] E. unfold count_row in E. apply bind_ok in E as (b & _ & E).
  destruct (_ && _); [|by injection E as <-].
  apply bind_ok in E as (row & Erow & E). apply of_opt_ok in Erow. apply bind_ok in E as (x & _ & E).
  apply bind_ok in E as (row' & Es & E). injection E as <-. split; [by rewrite length_insert|].
  apply Forall_insert; [done|]. rewrite (zstore_length _ _ _ _ Es). by apply (proj1 (Forall_lookup _ _) Hr b).
Qed.

Lemma build_counts_shape rows counts : build_counts_60x10 rows = Ok counts -> shape counts.
Proof.
  assert (Hz : shape zero_counts).
  { split; [apply length_replicate|]. apply Forall_replicate. apply length_replicate. }
  unfold build_counts_60x10. destruct rows as [|r rows]; [by intros [= <-]|].
  destruct (last (r :: rows)) as [lst|]; [|by intros [= <-]]. intros E.
  eapply (foldlM_ind shape); [exact Hz| |exact E]. intros c r' c' _ Hc E'. by eapply count_row_shape.
Qed.

(** ** What the stub ranks *)

Lemma ltb_asym (x y : float) : SFltb x y = true -> SFltb y x = false.
Proof.
  unfold SFltb. destruct x as [s| s| |s m e], y as [t|t| |t n f]; cbn [SFcompare]; try done; try (by destruct s, t).
  assert (K : forall a b, Pos.compare_cont Eq a b = (Z.pos a ?= Z.pos b)) by done.
  destruct s, t; try done; rewrite !K, (Z.compare_antisym e f), (Z.compare_antisym (Z.pos m) (Z.pos n));
    destruct (e ?= f), (Z.pos m ?= Z.pos n); done.
Qed.

(** No score is less than the next one. *)
Definition not_less (a b : float * Z) : Prop := SFltb a.1 b.1 = false.

Lemma insert_score_sorted s l : Sorted.Sorted not_less l -> Sorted.Sorted not_less (insert_score s l).
Proof.
  induction 1 as [|x l Hs IH Hh]; cbn [insert_score]; [by repeat constructor|].
  destruct (SFltb x.1 s.1) eqn:E.
  - constructor; [by constructor|]. constructor. by apply ltb_asym.
  - constructor; [exact IH|]. destruct l as [|y l]; cbn [insert_score]; [by constructor|].
    destruct (SFltb y.1 s.1); constructor; [exact E|by inversion Hh].
Qed.

Lemma sort_scores_sorted l : Sorted.Sorted not_less (foldl (fun acc s => insert_score s acc) [] l).
Proof.
  assert (K : forall acc, Sorted.Sorted not_less acc -> Sorted.Sorted not_less (foldl (fun acc s => insert_score s acc) acc l)).
  { induction l as [|s l IH]; intros acc Ha; [done|]. cbn [foldl]. apply IH. by apply insert_score_sorted. }
  apply K. constructor.
Qed.

(** [l] are the first [k] columns of a ranking of all [n] columns in which no column is
    followed by one of a greater score. *)
Definition best_columns (counts : list (list float)) (n : nat) (k : Z) (l : list Z) : Prop :=
  exists ranking, ranking ≡ₚ map (fun i => (column_score counts i, Z.of_nat i)) (seq 0 n) /\
    Sorted.Sorted not_less ranking /\ l = take (Z.to_nat k) (map snd ranking).

Lemma stub_best counts n k :
  counts <> [] -> Forall (fun row => length row = n) counts -> 0 < k ->
  best_columns counts n k (predict_top_ends_stub counts k).
Proof.
  intros Hne Hrows Hk. unfold predict_top_ends_stub. destruct counts as [|row0 rows]; [done|].
  pose proof (proj1 (proj1 (Forall_cons _ _ _) Hrows)) as E0. cbn in E0. rewrite E0.
  rewrite (proj2 (Z.leb_gt _ _)) by lia. eexists. split; [|split; [apply sort_scores_sorted|done]].
  by rewrite sort_scores_perm.
Qed.

(** ** A round of hot updates *)

Section Round.
Context {C : Type} `{StreamIO C}.

Fixpoint send_all (targets : list Z) : K (C := C) unit :=
  match targets with
  | [] => mret tt
  | t :: ts => _ ← send_hot_update t; send_all ts
  end.

Lemma round_of_columns (p : list (list float) -> Z -> list Z) (s : CloudServer (C := C)) l :
  p (cs_counts s) (predict_k (cs_args s)) = l -> l <> [] -> Forall (fun i => 0 <= i < 10) l ->
  hot_update_round p s = send_all (map (fun i => i + 1) l) s.
Proof.
  intros E Hne Hl. unfold hot_update_round, k_get, mbind at 1, K_bind at 1, st_bind at 1. cbn [mbind res_bind id].
  rewrite E. replace (match l with [] => [0; 1; 5] | _ :: _ => l end) with l by (by destruct l).
  assert (K : forall l s, Forall (fun i => 0 <= i < 10) l ->
    (fix each (l : list Z) : K (C := C) unit :=
       match l with
       | [] => mret tt
       | idx :: l' =>
           let end_id := idx + 1 in
           _ ← (if (1 <=? end_id) && (end_id <=? 10) then send_hot_update end_id else mret false); each l'
       end) l s = send_all (map (fun i => i + 1) l) s).
  { clear. induction l as [|i l IH]; intros s Hl; [done|]. apply Forall_cons in Hl as [Hi Hl].
    cbn [map send_all]. unfold mbind, K_bind, st_bind in *. cbn beta.
    rewrite (proj2 (Z.leb_le 1 (i + 1))), (proj2 (Z.leb_le (i + 1) 10)) by lia. cbn [andb].
    destruct (send_hot_update (i + 1) s) as [[b s']|]; [|done]. cbn [mbind res_bind]. by apply IH. }
  by apply K.
Qed.

(** C27: one round of hot updates.  The Cloud's histogram is the one of a workload that could
    be counted, and [predict_k] is positive.  In a build without libtorch the prediction is
    the first [predict_k] columns of a ranking by score, in which no column is followed by
    one of a greater score; in a build with it, it is what [predict_top_k] picked, given
    that this is as many different columns as it was asked for ([TopK]).  In both cases the
    round tries one hot update to each of [min predict_k 10] different Ends from 1 to 10, in
    the order of the prediction, and none to any other End. *)
Theorem predicted_ends_updated (predict_top_k : list float -> Z -> Z -> Z -> res (list Z)) `{!TopK predict_top_k}
    (p : list (list float) -> Z -> list Z) (workload : list WorkloadRecord) (s : CloudServer (C := C)) :
  build_counts_60x10 workload = Ok (cs_counts s) -> 0 < predict_k (cs_args s) ->
  let k := predict_k (cs_args s) in
  let l := p (cs_counts s) k in
  p = predict_top_ends_stub \/ predict_top_ends_torch predict_top_k (cs_counts s) k = Ok l ->
  hot_update_round p s = send_all (map (fun i => i + 1) l) s /\
  Z.of_nat (length l) = Z.min k 10 /\ NoDup l /\ Forall (fun i => 1 <= i + 1 <= 10) l /\
  (p = predict_top_ends_stub -> best_columns (cs_counts s) 10 k l).
Proof.
  intros E Hk k l Hp. destruct (build_counts_shape _ _ E) as [Hlen Hrows].
  assert (Hne : cs_counts s <> []) by (by intros En; rewrite En in Hlen).
  assert (Ht : top_columns 10 k l).
  { destruct Hp as [Ep|Ep]; [unfold l; rewrite Ep; by apply (stub_top (cs_counts s) 10 k)|].
    destruct (torch_top predict_top_k (cs_counts s) 10 k Hne) as (l' & E' & Hl'); [lia|done|done|].
    rewrite Ep in E'. by injection E' as ->. }
  destruct Ht as [T1 T2 T3]. split; [|split; [done|split; [done|split]]].
  - apply (round_of_columns p s l); [done| |done]. intros ->. cbn in T1. lia.
  - eapply Forall_impl; [exact T3|]. cbn. lia.
  - intros Ep. unfold l. rewrite Ep. by apply stub_best.
Qed.
End Round.

(** The first columns, as a module that was not trained could return them. *)
Definition first_columns (flat : list float) (steps dims k : Z) : res (list Z) := Ok (seqZ 0 k).

#[export] Instance first_columns_top : TopK first_columns.
Proof.
  split. intros flat steps dims k _ Hk. exists (seqZ 0 k). split; [done|].
  split; [rewrite length_seqZ; lia|]. split; [apply NoDup_seqZ|].
  apply Forall_forall. intros i Hi%elem_of_seqZ. lia.
Qed.

Definition one_request : list WorkloadRecord := [mkWork (double_of_Z 1) 3 7].
Definition one_count : list (list float) :=
  match build_counts_60x10 one_request with Ok c => c | Err _ => [] end.
Definition one_server : CloudServer (C := sim) :=
  mkCloudServer args0 shipped_map (mkData [] []) one_count [] ∅ ∅.

Lemma predicted_ends_updated_witness :
  Z.of_nat (length (predict_top_ends_stub one_count (predict_k args0))) = Z.min (predict_k args0) 10 /\
  head (predict_top_ends_stub one_count (predict_k args0)) = Some 2.
Proof.
  split; [|vm_compute; reflexivity].
  exact (proj1 (proj2 (predicted_ends_updated first_columns predict_top_ends_stub one_request one_server
    eq_refl eq_refl (or_introl eq_refl)))).
Defined.
