(* ===== verification/Loopback.v ===== *)
(** * The loopback test (common/loopback_test.cpp)

    A client and a server exchange one query over a socket pair, and the shipped topology
    is loaded and asked for the owners of boundary keys.  The test passes: for every
    schedule of short reads and writes of a healthy connection.

    The two threads have one order: each end reads what the other has written.  [feed]
    moves the bytes that one end has sent into the stream of the other. *)

From S2P Require Import Prelude Doubles Bytes Rpc RangeMap Topology.
Open Scope Z_scope.

(** ** Numbers in big-endian order *)

(** [for (i = n - 1; i >= 0; --i) push_back((v >> (i * 8)) & 0xff)]. *)
Fixpoint encode_loop (n : nat) (v : Z) (b : list Z) : list Z :=
  match n with
  | O => b
  | S i => encode_loop i v (b ++ [Z.land (Z.shiftr v (Z.of_nat i * 8)) 255])
  end.
Definition encode_u64_be (v : Z) (b : list Z) : list Z := encode_loop 8 v b.

(** [v = (v << 8) | body\[off + i\]], [n] times. *)
Fixpoint decode_loop (n : nat) (b : list Z) (off : Z) (v : Z) : res Z :=
  match n with
  | O => Ok v
  | S n' => x ← zload b off; decode_loop n' b (off + 1) (Z.lor (u64 (Z.shiftl v 8)) x)
  end.
Definition decode_u64_be (b : list Z) (off : Z) : res Z := decode_loop 8 b off 0.

(** ** run_loopback_test *)

Definition test_key : Z := 1234567.

Section Loopback.
Context {W : Type} `{StreamIO W}.
Context (feed : W -> list Z -> W).
(** A frame is declared without a value for its type. *)
Context (unset : MsgType).

(** Each thread returns its flag and its end of the pair. *)
Definition server_thread (s : W) : res (bool * W) :=
  '(ok, req, s) ← read_frame s (mkFrame unset []);
  if negb ok then Ok (false, s)
  else if negb (bool_decide (ftype req = QUERY_REQ)) || (length (body req) <? 8)%nat then Ok (false, s)
  else
    key ← decode_u64_be (body req) 0;
    write_frame s (mkFrame QUERY_RESP (encode_u64_be (u64 (key * 2)) [byte_of_status OK])).

Definition client_send (s : W) : res (bool * W) :=
  write_frame s (mkFrame QUERY_REQ (encode_u64_be test_key [])).

Definition client_receive (s : W) : res (bool * W) :=
  '(ok, resp, s) ← read_frame s (mkFrame unset []);
  if negb ok then Ok (false, s)
  else if bool_decide (ftype resp = QUERY_RESP) && (9 <=? length (body resp))%nat then
    b ← zload (body resp) 0;
    payload ← decode_u64_be (body resp) 1;
    Ok (bool_decide (status_of_byte b = OK) && (payload =? u64 (test_key * 2)), s)
  else Ok (false, s).

(** [a] is the client's end.  A failed test throws. *)
Definition run_loopback_test (a b : W) : res unit :=
  '(sent_ok, a) ← client_send a;
  '(server_ok, b) ← server_thread (feed b (sent a));
  '(client_ok, a) ← (if (sent_ok : bool) then client_receive (feed a (sent b)) else Ok (false, a));
  if (server_ok : bool) && client_ok then Ok tt else Err Thrown.
End Loopback.

(** ** run_topology_test *)

(** [1e13] and the keys of the data file, as they are written. *)
Definition cases : list (double * Z) :=
  [(double_of_decimal true 1 13, 1);
   (double_of_decimal true 50332314890551338 (-6), 1);
   (double_of_decimal true 12815012040383575 (-6), 1);
   (double_of_decimal true 12815008635778347 (-6), 2);
   (double_of_decimal false 5194391707614 (-6), 5);
   (double_of_decimal false 5202302971719 (-6), 6);
   (double_of_decimal false 12813376566001352 (-6), 10);
   (double_of_decimal false 1 13, 10)].

(** What is printed for the queries without an expected value. *)
Record printed : Type := mkPrinted { same_1_3 : bool; same_1_6 : bool; siblings_1 : list Z }.

Definition run_topology_test (text : str) : res printed :=
  rm ← load text;
  match rm with
  | None => Err Thrown
  | Some rm =>
      all_ok ← foldlM (fun ok (c : double * Z) => got ← locate_end rm c.1; Ok (ok && (got =? c.2))) true cases;
      if (all_ok : bool) then Ok (mkPrinted (same_edge rm 1 3) (same_edge rm 1 6) (siblings_of rm 1))
      else Err ExitCalled
  end.

(** [main], on the text of the topology. *)
Definition loopback_main {W} `{StreamIO W} (feed : W -> list Z -> W) (unset : MsgType) (a b : W) (text : str)
    : res printed :=
  _ ← run_loopback_test feed unset a b;
  run_topology_test text.

(** ** Encoded numbers *)

Lemma encode_loop_app n v b : encode_loop n v b = b ++ encode_loop n v [].
Proof.
  revert b. induction n as [|n IH]; intros b; cbn [encode_loop]; [by rewrite app_nil_r|].
  rewrite IH, (IH ([] ++ _)), app_assoc. done.
Qed.

Lemma encode_loop_length n v : length (encode_loop n v []) = n.
Proof.
  induction n as [|n IH]; [done|]. cbn [encode_loop app]. rewrite encode_loop_app, length_app, IH. done.
Qed.

Lemma lor_byte v x : 0 <= x < 256 -> 0 <= v -> Z.lor (Z.shiftl v 8) x = v * 256 + x.
Proof.
  intros Hx Hv. rewrite Z.shiftl_mul_pow2 by lia. change 256 with (2 ^ 8) in *.
  assert (E : Z.land (v * 2 ^ 8) x = 0).
  { apply Z.bits_inj'. intros n Hn. rewrite Z.land_spec, Z.bits_0. destruct (Z.ltb_spec n 8).
    - by rewrite Z.mul_pow2_bits_low by lia.
    - rewrite <- (Z.mod_small x (2 ^ 8)) by lia. rewrite Z.mod_pow2_bits_high by lia. apply andb_false_r. }
  by rewrite <- Z.lxor_lor, <- Z.add_nocarry_lxor by done.
Qed.

Lemma land_byte z : Z.land z 255 = z mod 256.
Proof. change 255 with (Z.ones 8). rewrite Z.land_ones by lia. done. Qed.

(** Reading back [n] bytes. *)
Lemma decode_loop_spec n v acc pre rest :
  0 <= acc -> acc * 256 ^ Z.of_nat n < 2 ^ 64 - 256 ^ Z.of_nat n + 1 -> 0 <= v ->
  decode_loop n (pre ++ encode_loop n v [] ++ rest) (Z.of_nat (length pre)) acc =
  Ok (acc * 256 ^ Z.of_nat n + v mod 256 ^ Z.of_nat n).
Proof.
  revert acc pre. induction n as [|n IH]; intros acc pre Ha Hb Hv.
  { cbn. rewrite Z.mod_1_r. f_equal. lia. }
  cbn [decode_loop encode_loop app]. rewrite encode_loop_app, land_byte, <- app_assoc. cbn [app].
  set (x := Z.shiftr v (Z.of_nat n * 8) mod 256).
  assert (Hx : 0 <= x < 256) by (apply Z.mod_pos_bound; lia).
  rewrite (zload_nat _ _ x) by (by rewrite list_lookup_middle). mstep.
  assert (Hp : 1 <= 256 ^ Z.of_nat n) by (apply (Z.pow_le_mono_r 256 0); lia).
  rewrite Nat2Z.inj_succ, Z.pow_succ_r in Hb |- * by lia.
  assert (E8 : u64 (Z.shiftl acc 8) = Z.shiftl acc 8).
  { apply u64_small. rewrite Z.shiftl_mul_pow2 by lia. change (2 ^ 8) with 256. nia. }
  rewrite E8, lor_byte by lia.
  replace (pre ++ x :: encode_loop n v [] ++ rest) with ((pre ++ [x]) ++ encode_loop n v [] ++ rest)
    by (by rewrite <- app_assoc).
  replace (Z.of_nat (length pre) + 1) with (Z.of_nat (length (pre ++ [x]))) by (rewrite length_app; cbn; lia).
  rewrite IH by nia. f_equal.
  assert (Ex : x = (v / 256 ^ Z.of_nat n) mod 256).
  { unfold x. rewrite Z.shiftr_div_pow2 by lia. rewrite Z.mul_comm, Z.pow_mul_r by lia. done. }
  rewrite Ex. rewrite (Z.mul_comm 256 (256 ^ Z.of_nat n)), Z.rem_mul_r by lia. lia.
Qed.

Lemma decode_encoded v pre rest :
  0 <= v < 2 ^ 64 -> decode_u64_be (pre ++ encode_u64_be v [] ++ rest) (Z.of_nat (length pre)) = Ok v.
Proof.
  intros Hv. unfold decode_u64_be, encode_u64_be. rewrite decode_loop_spec; [|lia..].
  change (256 ^ Z.of_nat 8) with (2 ^ 64). by rewrite Z.mod_small by lia.
Qed.

(** ** The test passes *)

Section Passes.
Context {W : Type} `{StreamLaws W}.
Context (feed : W -> list Z -> W) (unset : MsgType).
Context (Hread : healthy (W := W)) (Hwrite : writable (W := W)).
Context (Hfeed : forall s l, pending (feed s l) = pending s ++ l /\ sent (feed s l) = sent s).

Definition request : Frame := mkFrame QUERY_REQ (encode_u64_be test_key []).
Definition response : Frame := mkFrame QUERY_RESP (encode_u64_be (u64 (test_key * 2)) [byte_of_status OK]).

Lemma request_wf : wf_frame request.
Proof. split; [by apply wf_msg_named|by vm_compute]. Qed.
Lemma response_wf : wf_frame response.
Proof. split; [by apply wf_msg_named|by vm_compute]. Qed.

Lemma server_replies s rest :
  pending s = frame_bytes request ++ rest ->
  exists s', server_thread unset s = Ok (true, s') /\ sent s' = sent s ++ frame_bytes response.
Proof.
  intros Hp. unfold server_thread.
  destruct (read_frame_live s (mkFrame unset []) request rest Hread request_wf Hp) as (s1 & E & _ & Hs).
  rewrite E. mstep. change (decode_u64_be (body request) 0) with (Ok test_key). mstep.
  destruct (write_frame_live s1 response Hwrite) as (s2 & E2 & Hs2). exists s2. split; [exact E2|]. by rewrite Hs2, Hs.
Qed.

Lemma client_accepts s rest :
  pending s = frame_bytes response ++ rest -> exists s', client_receive unset s = Ok (true, s').
Proof.
  intros Hp. unfold client_receive.
  destruct (read_frame_live s (mkFrame unset []) response rest Hread response_wf Hp) as (s1 & E & _).
  rewrite E. mstep. by exists s1.
Qed.

Lemma loopback_ok a b :
  pending a = [] -> pending b = [] -> sent a = [] -> sent b = [] -> run_loopback_test feed unset a b = Ok tt.
Proof.
  intros Pa Pb Sa Sb. unfold run_loopback_test, client_send. fold request.
  destruct (write_frame_live a request Hwrite) as (a1 & E1 & Ha). rewrite E1. mstep.
  rewrite Sa in Ha. cbn [app] in Ha.
  destruct (server_replies (feed b (sent a1)) []) as (b1 & E2 & Hb).
  { rewrite (proj1 (Hfeed b (sent a1))), Pb, Ha, app_nil_r. done. }
  rewrite E2. mstep. rewrite (proj2 (Hfeed b (sent a1))), Sb in Hb. cbn [app] in Hb.
  destruct (client_accepts (feed a1 (sent b1)) []) as (a2 & E3).
  { rewrite (proj1 (Hfeed a1 (sent b1))), Hb, app_nil_r.
    destruct (write_frame_spec a request) as (ok & k & a1' & E1' & _ & Hp & _). rewrite E1 in E1'.
    injection E1' as _ <-. by rewrite Hp, Pa. }
  rewrite E3. by mstep.
Qed.
End Passes.

(** C26: the loopback test passes: on a fresh socket pair whose ends neither close nor
    fail, however the kernel cuts the transfers, the client gets twice its key back, and
    the shipped topology answers every boundary key as the test expects. *)
Theorem loopback_passes {W} `{StreamLaws W} (feed : W -> list Z -> W) (unset : MsgType) (a b : W) :
  healthy (W := W) -> writable (W := W) ->
  (forall s l, pending (feed s l) = pending s ++ l /\ sent (feed s l) = sent s) ->
  pending a = [] -> pending b = [] -> sent a = [] -> sent b = [] ->
  loopback_main feed unset a b (s_ topology_yaml) = Ok (mkPrinted true false [2; 3; 4; 5]).
Proof.
  intros Hr Hw Hf Pa Pb Sa Sb. unfold loopback_main. rewrite (loopback_ok feed unset Hr Hw Hf a b Pa Pb Sa Sb). mstep.
  vm_compute. reflexivity.
Qed.

Definition sim_feed (s : sim) (l : list Z) : sim := mkSim (sim_in s ++ l) (sim_out s) (sim_sched s).

Lemma loopback_passes_witness :
  loopback_main sim_feed HEARTBEAT (mkSim [] [] [3%nat; 1%nat; 2%nat]) (mkSim [] [] [1%nat; 2%nat]) (s_ topology_yaml)
  = Ok (mkPrinted true false [2; 3; 4; 5]).
Proof.
  apply (loopback_passes sim_feed HEARTBEAT); try reflexivity.
  - exact sim_healthy.
  - exact sim_writable.
  - intros s l. split; reflexivity.
Defined.
