(* ===== verification/Workload.v ===== *)
(** * The workload tool and its file (tools/workload/device_generator.cpp)

    [WorkloadGenerator] gives each device a range of positions and a window of time in
    every cycle, draws requests, sorts them by time and writes them as CSV.  The two
    distributions and their engine are arguments: a draw takes the engine's state and
    returns a value in the documented range.  [operator<<] on a [double] is an
    argument too; on an [int] it is [show_int].

    The theorems: where every generated record lies, and that the file is read back
    by the Cloud ([load_workload]) and by an End ([load_workload_positions]). *)

From S2P Require Import Prelude Doubles Topology Text EndNode CloudServer.
From Stdlib Require Import Sorting.Sorted.
Open Scope Z_scope.

Record CSVRecord : Type := mkRec {
  rec_timestamp : double;
  rec_device : Z;
  rec_key : Z;
  operation : str
}.

(** ** The generator *)

Definition int32 (z : Z) : res Z := if (- 2 ^ 31 <=? z) && (z <? 2 ^ 31) then Ok z else Err UB.

Record WorkloadGenerator : Type := mkGen {
  num_devices : Z;
  total_keys : Z;
  cycle_duration : double;
  total_cycles : Z;
  num_keys_per_device : Z
}.

(** The constructor: an integer division, undefined for no device; a table of negative
    size throws. *)
Definition make_generator (devices keys : Z) (duration : double) (cycles : Z) : res WorkloadGenerator :=
  if devices =? 0 then Err UB else
  let n := cdiv keys devices in
  if (0 <? devices) && (n <? 0) then Err Thrown else Ok (mkGen devices keys duration cycles n).

Definition device_key_range (g : WorkloadGenerator) (d : Z) : Z * Z :=
  ((d - 1) * num_keys_per_device g + 1, d * num_keys_per_device g).

Section Draw.
Context {rng : Type}.
(** [uniform_real_distribution(0, cycle_duration)], and [discrete_distribution] over the
    access probabilities of a device. *)
Context (draw_time : double -> rng -> double * rng) (draw_index : Z -> rng -> Z * rng).

Definition device_start (g : WorkloadGenerator) (cycle d : Z) : double :=
  let cycle_start := dmul (dmul (double_of_Z cycle) (cycle_duration g)) (double_of_Z (num_devices g)) in
  dadd cycle_start (dmul (double_of_Z (d - 1)) (cycle_duration g)).

Fixpoint requests_of_device (n : nat) (g : WorkloadGenerator) (start : double) (d : Z) (e : rng)
  : list CSVRecord * rng :=
  match n with
  | O => ([], e)
  | S n' =>
      let '(t, e) := draw_time (cycle_duration g) e in
      let '(i, e) := draw_index d e in
      let '(rs, e) := requests_of_device n' g start d e in
      (mkRec (dadd start t) d ((device_key_range g d).1 + i) (s_ "find") :: rs, e)
  end.

Fixpoint requests_of_devices (per_device : nat) (g : WorkloadGenerator) (cycle : Z) (ds : list Z)
    (e : rng) : list CSVRecord * rng :=
  match ds with
  | [] => ([], e)
  | d :: ds' =>
      let '(rs, e) := requests_of_device per_device g (device_start g cycle d) d e in
      let '(rs', e) := requests_of_devices per_device g cycle ds' e in
      (rs ++ rs', e)
  end.

Fixpoint requests_of_cycles (per_device : nat) (g : WorkloadGenerator) (cycles : list Z) (e : rng)
  : list CSVRecord * rng :=
  match cycles with
  | [] => ([], e)
  | c :: cs =>
      let '(rs, e) := requests_of_devices per_device g c (map Z.of_nat (seq 1 (Z.to_nat (num_devices g)))) e in
      let '(rs', e) := requests_of_cycles per_device g cs e in
      (rs ++ rs', e)
  end.

(** [generate_workload]: [reserve] of a count computed in [int], the draws, the sort. *)
Definition generate_workload (g : WorkloadGenerator) (requests_per_device : Z) (e : rng)
  : res (list CSVRecord * rng) :=
  n ← int32 (requests_per_device * num_devices g);
  n ← int32 (n * total_cycles g);
  if n <? 0 then Err Thrown else
  let '(logs, e) := requests_of_cycles (Z.to_nat requests_per_device) g
                      (map Z.of_nat (seq 0 (Z.to_nat (total_cycles g)))) e in
  Ok (sort_by rec_timestamp logs, e).
End Draw.

(** ** The file *)

Section File.
Context (show_double : double -> str).

Definition write_record (r : CSVRecord) : str :=
  show_double (rec_timestamp r) ++ comma :: show_int (rec_device r) ++ comma ::
  show_int (rec_key r) ++ comma :: operation r ++ [newline].

Definition save_workload (logs : list CSVRecord) : str :=
  s_ "timestamp,device_id,key,operation" ++ newline :: concat (map write_record logs).
End File.

(** [CSVParser]: a line's record; a field that is not a number throws. *)
Definition parse_record (line : str) : res CSVRecord :=
  let '(ss, token) := next_token (Some line) [] in
  t ← stod token;
  let '(ss, token) := next_token ss token in
  d ← stoi token;
  let '(ss, token) := next_token ss token in
  k ← stoi token;
  let '(_, token) := next_token ss token in
  Ok (mkRec t d k token).

Fixpoint parse_records (lines : list str) : res (list CSVRecord) :=
  match lines with
  | [] => Ok []
  | line :: lines' => r ← parse_record line; rs ← parse_records lines'; Ok (r :: rs)
  end.

(** A file that cannot be opened has no lines. *)
Definition csv_parser (file : option str) : res (list CSVRecord) :=
  parse_records (tail (getlines newline (match file with Some text => text | None => [] end))).

(** ** The access probabilities *)

(** [1.0 / std::pow(i + 1, zipf_param)] for each key of a device, divided by their sum;
    [pow] is the library's. *)
Definition zipf_probs (pow : double -> double -> double) (zipf_param : double) (n : Z) : list double :=
  let ps := map (fun i => ddiv (double_of_Z 1) (pow (double_of_Z (i + 1)) zipf_param)) (seqZ 0 n) in
  let sum := fold_left dadd ps (double_of_Z 0) in
  map (fun p => ddiv p sum) ps.
Definition device_access_probs (pow : double -> double -> double) (zipf_param : double) (g : WorkloadGenerator)
    : list (Z * list double) :=
  map (fun d => (d, zipf_probs pow zipf_param (num_keys_per_device g))) (seqZ 1 (num_devices g)).

(** ** Where the generated records lie *)

(** A record of a device asks for a position of the device's range. *)
Definition record_ok (g : WorkloadGenerator) (r : CSVRecord) : Prop :=
  1 <= rec_device r <= num_devices g /\
  (device_key_range g (rec_device r)).1 <= rec_key r <= (device_key_range g (rec_device r)).2 /\
  operation r = s_ "find".

Definition of_device (d : Z) (r : CSVRecord) : Prop := rec_device r = d.
#[export] Instance of_device_dec d r : Decision (of_device d r).
Proof. unfold of_device. apply _. Defined.

Section Generated.
Context {rng : Type} (draw_time : double -> rng -> double * rng) (draw_index : Z -> rng -> Z * rng).
Context (g : WorkloadGenerator).
Context (index_in_range : forall d e, 0 <= (draw_index d e).1 < num_keys_per_device g).

Lemma requests_of_device_ok n start d e rs e' :
  requests_of_device draw_time draw_index n g start d e = (rs, e') -> 1 <= d <= num_devices g ->
  length rs = n /\ Forall (record_ok g) rs /\ Forall (of_device d) rs.
Proof.
  revert e rs e'. induction n as [|n IH]; intros e rs e' H Hd; cbn in H; [by simplify_eq|].
  destruct (draw_time _ e) as [t e1]. pose proof (index_in_range d e1) as Hi.
  destruct (draw_index d e1) as [i e2]. destruct (requests_of_device _ _ n _ _ _ e2) as [rs' e3] eqn:E.
  injection H as <- <-. destruct (IH _ _ _ E Hd) as (L & F & D). cbn. split; [by rewrite L|].
  split; constructor; try done. unfold record_ok. cbn in *. split; [done|]. split; [lia|done].
Qed.

Lemma requests_of_devices_ok n c ds e rs e' :
  requests_of_devices draw_time draw_index n g c ds e = (rs, e') ->
  Forall (fun d => 1 <= d <= num_devices g) ds ->
  length rs = (n * length ds)%nat /\ Forall (record_ok g) rs /\
  (forall d, NoDup ds -> length (filter (of_device d) rs) = if decide (d ∈ ds) then n else 0%nat).
Proof.
  revert e rs e'. induction ds as [|x ds IH]; intros e rs e' H Hds; cbn in H.
  { simplify_eq. cbn. split; [lia|]. split; [done|]. intros d _. case_decide as Hd; [|done]. by apply elem_of_nil in Hd. }
  apply Forall_cons in Hds as [Hx Hds].
  destruct (requests_of_device _ _ n g _ x e) as [r1 e1] eqn:E1.
  destruct (requests_of_devices _ _ n g c ds e1) as [r2 e2] eqn:E2. injection H as <- <-.
  destruct (requests_of_device_ok _ _ _ _ _ _ E1 Hx) as (L1 & F1 & D1).
  destruct (IH _ _ _ E2 Hds) as (L2 & F2 & C2). rewrite length_app, L1, L2. cbn [length].
  split; [lia|]. split; [by apply Forall_app|]. intros d Hnd. apply NoDup_cons in Hnd as [Hx' Hnd].
  rewrite filter_app, length_app, C2 by done.
  destruct (decide (d = x)) as [->|Hne].
  - rewrite filter_all by done. rewrite L1.
    destruct (decide (x ∈ ds)); [done|]. rewrite decide_True by (by apply elem_of_cons; left). lia.
  - rewrite filter_none.
    + cbn. assert (Hiff : d ∈ x :: ds <-> d ∈ ds) by (rewrite elem_of_cons; naive_solver).
      by destruct (decide (d ∈ x :: ds)), (decide (d ∈ ds)); try tauto.
    + eapply Forall_impl; [exact D1|]. unfold of_device. intros r ->. congruence.
Qed.

Definition devices_of : list Z := map Z.of_nat (seq 1 (Z.to_nat (num_devices g))).

Lemma devices_of_spec d : d ∈ devices_of <-> 1 <= d <= num_devices g.
Proof.
  unfold devices_of. rewrite list_elem_of_fmap. setoid_rewrite elem_of_seq. split.
  - intros (k & -> & Hk). lia.
  - intros Hd. exists (Z.to_nat d). lia.
Qed.

Lemma requests_of_cycles_ok n cs e rs e' :
  requests_of_cycles draw_time draw_index n g cs e = (rs, e') ->
  length rs = (n * Z.to_nat (num_devices g) * length cs)%nat /\ Forall (record_ok g) rs /\
  (forall d, 1 <= d <= num_devices g -> length (filter (of_device d) rs) = (n * length cs)%nat).
Proof.
  revert e rs e'. induction cs as [|c cs IH]; intros e rs e' H; cbn [requests_of_cycles] in H.
  { simplify_eq. cbn. split; [lia|]. split; [done|]. intros. lia. }
  change (map Z.of_nat (seq 1 (Z.to_nat (num_devices g)))) with devices_of in H.
  destruct (requests_of_devices _ _ n g c devices_of e) as [r1 e1] eqn:E1.
  destruct (requests_of_cycles _ _ n g cs e1) as [r2 e2] eqn:E2. injection H as <- <-.
  destruct (requests_of_devices_ok _ _ _ _ _ _ E1) as (L1 & F1 & C1).
  { apply Forall_forall. intros d. by rewrite devices_of_spec. }
  destruct (IH _ _ _ E2) as (L2 & F2 & C2). rewrite length_app, L1, L2. cbn [length].
  unfold devices_of. rewrite length_map, length_seq. split; [lia|]. split; [by apply Forall_app|].
  intros d Hd. rewrite filter_app, length_app, C2 by done.
  rewrite C1, decide_True by first [by apply devices_of_spec | apply NoDup_fmap_2; [apply _|apply NoDup_seq]].
  lia.
Qed.
End Generated.

(** C28: what the tool writes: for every device the asked number of requests per cycle, each
    for a position of the device's own range, sorted by time when the times are
    numbers. *)
Theorem workload_generated {rng : Type} (draw_time : double -> rng -> double * rng)
    (draw_index : Z -> rng -> Z * rng) (g : WorkloadGenerator) (devices keys cycles n : Z)
    (duration : double) (e : rng) :
  make_generator devices keys duration cycles = Ok g ->
  0 < devices <= keys -> 0 <= n -> 0 <= cycles -> n * devices < 2 ^ 31 -> n * devices * cycles < 2 ^ 31 ->
  (forall d e, 0 <= (draw_index d e).1 < num_keys_per_device g) ->
  exists logs e', generate_workload draw_time draw_index g n e = Ok (logs, e') /\
    (forall d, 1 <= d <= devices -> Z.of_nat (length (filter (of_device d) logs)) = n * cycles) /\
    Z.of_nat (length logs) = n * devices * cycles /\ Forall (record_ok g) logs /\
    (Forall (fun r => is_key (rec_timestamp r) = true) logs -> StronglySorted (not_above rec_timestamp) logs).
Proof.
  intros Hg Hd Hn Hc Hb1 Hb2 Hi. unfold make_generator in Hg. zb.
  destruct (devices =? 0) eqn:E0; [zb; lia|].
  destruct ((0 <? devices) && (cdiv keys devices <? 0)) eqn:E1; [done|]. injection Hg as <-.
  unfold generate_workload, int32. cbn [num_devices total_cycles].
  rewrite (proj2 (Z.leb_le _ _)), (proj2 (Z.ltb_lt _ _)) by lia. cbn [andb mbind res_bind].
  rewrite (proj2 (Z.leb_le _ _)), (proj2 (Z.ltb_lt _ _)) by lia. cbn [andb mbind res_bind].
  rewrite (proj2 (Z.ltb_ge _ _)) by lia.
  destruct (requests_of_cycles _ _ _ _ _ e) as [logs e'] eqn:E.
  destruct (requests_of_cycles_ok _ _ _ Hi _ _ _ _ _ E) as (L & F & C).
  rewrite length_map, length_seq in L, C. cbn [num_devices] in *.
  exists (sort_by rec_timestamp logs), e'. split; [done|].
  pose proof (sort_by_perm rec_timestamp logs) as HP. split_and!.
  - intros d Hdd. rewrite (Permutation_length (filter_Permutation _ _ _ HP)), C by done. lia.
  - rewrite (Permutation_length HP). lia.
  - by rewrite HP.
  - intros Hk. apply sort_by_sorted. by rewrite <- HP.
Qed.

(** The generator of the tool's [main]. *)
Definition shipped : WorkloadGenerator := mkGen 10 10000000 (double_of_Z 30) 2 1000000.

Lemma shipped_made : make_generator 10 10000000 (double_of_Z 30) 2 = Ok shipped.
Proof. vm_compute. reflexivity. Qed.

(** The device of a record of the shipped workload is the End whose share of the data
    set holds the record's position, as the Cloud computes it. *)
Theorem shipped_devices_are_ends (r : CSVRecord) (data_size : Z) :
  record_ok shipped r -> 10000000 <= data_size -> end_for_position (rec_key r) data_size = rec_device r.
Proof.
  intros ([Hd1 Hd2] & [Hk1 Hk2] & _) Hs. unfold device_key_range, shipped in *. cbn in Hk1, Hk2, Hd2.
  unfold end_for_position, cdiv.
  rewrite (proj2 (Z.leb_gt _ _)), (proj2 (Z.ltb_ge _ _)) by lia. cbn [orb].
  assert (E : Z.quot (rec_key r - 1) 1000000 = rec_device r - 1).
  { rewrite Z.quot_div_nonneg by lia. symmetry.
    apply (Z.div_unique _ _ _ (rec_key r - 1 - 1000000 * (rec_device r - 1))); lia. }
  rewrite E, (proj2 (Z.ltb_ge _ _)), (proj2 (Z.ltb_ge _ _)) by lia. lia.
Qed.

(** ** The file is read back *)

Definition is_finite (x : double) : bool :=
  match x with SpecFloat.S754_zero _ | SpecFloat.S754_finite _ _ _ => true | _ => false end.

(** What [operator<<] promises of a finite number: its text has no separator, does not
    start like the header, and [std::stod] accepts it; six significant digits are
    printed, so the number read back is another one. *)
Class TextOfDouble (show_double : double -> str) (reread : double -> double) := {
  text_plain x : is_finite x = true -> without comma (show_double x) /\ without newline (show_double x);
  text_start x s : is_finite x = true -> prefixb (s_ "timestamp") (show_double x ++ s) = false;
  text_stod x : is_finite x = true -> stod (show_double x) = Ok (reread x)
}.

Section ReadBack.
Context (show_double : double -> str) (reread : double -> double) `{TextOfDouble show_double reread}.

Definition printable (r : CSVRecord) : Prop :=
  is_finite (rec_timestamp r) = true /\ shown (rec_device r) /\ shown (rec_key r) /\
  without newline (operation r).

Definition line_of (r : CSVRecord) : str :=
  show_double (rec_timestamp r) ++ comma :: show_int (rec_device r) ++ comma ::
  show_int (rec_key r) ++ comma :: operation r.

Definition row_of (r : CSVRecord) : WorkloadRecord :=
  mkWork (reread (rec_timestamp r)) (rec_device r) (rec_key r).

Lemma write_record_line r : write_record show_double r = line_of r ++ [newline].
Proof. unfold write_record, line_of. repeat (rewrite <- app_assoc; cbn [app]). done. Qed.

Lemma line_fields r : printable r ->
  getlines comma (line_of r) =
    show_double (rec_timestamp r) :: show_int (rec_device r) :: show_int (rec_key r) ::
    split_on comma [] (operation r).
Proof.
  intros (Ht & Hd & Hk & _). unfold getlines, line_of.
  rewrite split_on_field by (by apply (text_plain _ Ht)).
  rewrite split_on_field by (by apply shown_without).
  by rewrite split_on_field by (by apply shown_without).
Qed.

Lemma line_start r : printable r ->
  bool_decide (line_of r = []) = false /\ prefixb (s_ "timestamp") (line_of r) = false /\
  without newline (line_of r).
Proof.
  intros (Ht & Hd & Hk & Ho). split_and!.
  - apply bool_decide_eq_false. unfold line_of. by destruct (show_double _).
  - unfold line_of. by apply text_start.
  - unfold line_of, without. rewrite !Forall_app, !Forall_cons, !Forall_app, !Forall_cons, !Forall_app, !Forall_cons.
    split_and!; try done; [by apply (text_plain _ Ht)|by apply shown_without..].
Qed.

Lemma read_line r : printable r -> workload_line (line_of r) = Ok (Some (row_of r)).
Proof.
  intros Hr. destruct (line_start r Hr) as (L1 & L2 & _). unfold workload_line.
  rewrite L1, L2. cbn [orb]. fold comma. rewrite (line_fields r Hr). destruct Hr as (Ht & Hd & Hk & _).
  rewrite bool_decide_eq_false_2.
  - rewrite (text_stod _ Ht), (stoi_show _ Hd), (stoi_show _ Hk). done.
  - intros E. pose proof (text_start (rec_timestamp r) [] Ht) as Hp. rewrite E in Hp. done.
Qed.

Lemma read_lines rs : Forall printable rs -> workload_lines (map line_of rs) = Ok (map row_of rs).
Proof.
  induction 1 as [|r rs Hr Hrs IH]; [done|]. cbn [map workload_lines].
  by rewrite (read_line r Hr), IH.
Qed.

(** The record with its time as it is printed. *)
Definition reprinted (r : CSVRecord) : CSVRecord :=
  mkRec (reread (rec_timestamp r)) (rec_device r) (rec_key r) (operation r).

Lemma read_record r : printable r -> without comma (operation r) -> parse_record (line_of r) = Ok (reprinted r).
Proof.
  intros (Ht & Hd & Hk & _) Ho. unfold parse_record, line_of.
  rewrite next_token_field by (by apply (text_plain _ Ht)). rewrite (text_stod _ Ht). mstep.
  rewrite next_token_field by (by apply shown_without). rewrite (stoi_show _ Hd). mstep.
  rewrite next_token_field by (by apply shown_without). rewrite (stoi_show _ Hk). mstep.
  by rewrite next_token_last.
Qed.

Lemma read_records rs :
  Forall printable rs -> Forall (fun r => without comma (operation r)) rs ->
  parse_records (map line_of rs) = Ok (map reprinted rs).
Proof.
  intros Hr Ho. induction Hr as [|r rs Hr Hrs IH]; [done|]. apply Forall_cons in Ho as [Ho Hos].
  cbn [map parse_records]. rewrite (read_record r Hr Ho). mstep. by rewrite (IH Hos).
Qed.

Lemma read_positions rs limit :
  Forall printable rs -> Forall (fun r => 0 < rec_key r) rs ->
  positions_loop (map line_of rs) limit = take limit (map rec_key rs).
Proof.
  intros Hr Hk. revert limit. induction Hr as [|r rs Hr Hrs IH]; intros [|limit]; try done.
  apply Forall_cons in Hk as [Hk Hks]. cbn [map positions_loop take].
  destruct (line_start r Hr) as (L1 & L2 & _). unfold parse_workload_position. rewrite L1, L2. cbn [orb].
  fold comma. rewrite (line_fields r Hr). destruct Hr as (Ht & Hd & Hkk & _). rewrite (stoi_show _ Hkk).
  rewrite (proj2 (Z.ltb_lt _ _)) by done. by rewrite IH.
Qed.

Lemma file_lines logs : Forall printable logs ->
  getlines newline (save_workload show_double logs) =
    s_ "timestamp,device_id,key,operation" :: map line_of logs.
Proof.
  intros Hl. unfold getlines, save_workload. rewrite split_on_field by (vm_compute; repeat constructor).
  cbn [rev app]. f_equal.
  transitivity (getlines newline (concat (map (fun l => l ++ [newline]) (map line_of logs)))).
  - rewrite map_map. by rewrite (map_ext _ _ write_record_line).
  - apply getlines_lines. apply Forall_map. eapply Forall_impl; [exact Hl|].
    intros r Hr. by apply line_start.
Qed.
End ReadBack.

(** C25: the Cloud reads from the tool's file the device, the position and the printed time of
    every record, in time order, and an End reads the positions in the order of the
    file, up to its limit; the tool's own parser reads every record, but for the printed
    time. *)
Theorem workload_file_read_back (show_double : double -> str) (reread : double -> double)
    `{TextOfDouble show_double reread} (logs : list CSVRecord) (limit : nat) :
  Forall printable logs -> Forall (fun r => 0 < rec_key r) logs ->
  Forall (fun r => without comma (operation r)) logs ->
  load_workload (Some (save_workload show_double logs)) = Ok (sort_rows (map (row_of reread) logs)) /\
  load_workload_positions (Some (save_workload show_double logs)) limit = take limit (map rec_key logs) /\
  csv_parser (Some (save_workload show_double logs)) = Ok (map (reprinted reread) logs).
Proof.
  intros Hl Hk Ho. unfold load_workload, load_workload_positions, csv_parser. fold newline.
  rewrite (file_lines show_double reread logs Hl). split; [|split]; [| |cbn [tail]; by apply (read_records show_double reread)].
  - cbn [tail]. by rewrite (read_lines show_double reread logs Hl).
  - destruct limit as [|limit]; [done|]. cbn [positions_loop].
    change (parse_workload_position (s_ "timestamp,device_id,key,operation")) with (@None Z).
    by rewrite (read_positions show_double reread logs (S limit) Hl Hk).
Qed.

(** ** A run of the tool *)

(** A counter in place of the random engine, and times printed as one digit. *)
Definition demo_time (duration : double) (e : Z) : double * Z := (double_of_Z (e mod 7), e + 1).
Definition demo_index (d e : Z) : Z * Z := (e mod 3, e + 1).
Definition demo_gen : WorkloadGenerator := mkGen 2 6 (double_of_Z 1) 2 3.
Definition demo_logs : list CSVRecord :=
  match generate_workload demo_time demo_index demo_gen 2 0 with Ok (logs, _) => logs | Err _ => [] end.

Definition one_digit (x : double) : Z :=
  match trunc x with Some z => if (0 <=? z) && (z <? 10) then z else 9 | None => 9 end.
Definition show_digit (x : double) : str := [char_of_digit (one_digit x)].

Lemma one_digit_range x : 0 <= one_digit x < 10.
Proof. unfold one_digit. destruct (trunc x); [|lia]. case_match eqn:E; [|lia]. zb. lia. Qed.

Lemma ten (P : Z -> Prop) :
  P 0 -> P 1 -> P 2 -> P 3 -> P 4 -> P 5 -> P 6 -> P 7 -> P 8 -> P 9 -> forall d, 0 <= d < 10 -> P d.
Proof.
  intros. assert (d = 0 \/ d = 1 \/ d = 2 \/ d = 3 \/ d = 4 \/ d = 5 \/ d = 6 \/ d = 7 \/ d = 8 \/ d = 9) by lia.
  destruct_or?; subst; done.
Qed.

#[export] Instance show_digit_text : TextOfDouble show_digit (fun x => double_of_Z (one_digit x)).
Proof.
  split; intros x; pose proof (one_digit_range x) as Hd; unfold show_digit; revert Hd;
    generalize (one_digit x); intros d Hd.
  - intros _. destruct (digit_plain _ d (digit_of_char d Hd)) as (_ & _ & _ & C & N).
    split; constructor; done || constructor.
  - intros s _. revert d Hd. apply ten; vm_compute; reflexivity.
  - intros _. revert d Hd. apply ten; vm_compute; reflexivity.
Qed.

Lemma workload_generated_witness :
  length demo_logs = 8%nat /\
  exists logs e', generate_workload demo_time demo_index demo_gen 2 0 = Ok (logs, e') /\
    Z.of_nat (length logs) = 8.
Proof.
  split; [vm_compute; reflexivity|].
  assert (Hg : make_generator 2 6 (double_of_Z 1) 2 = Ok demo_gen) by (vm_compute; reflexivity).
  assert (Hi : forall d e, 0 <= (demo_index d e).1 < num_keys_per_device demo_gen).
  { intros d e. cbn. apply Z.mod_pos_bound. lia. }
  destruct (workload_generated demo_time demo_index demo_gen 2 6 2 2 (double_of_Z 1) 0 Hg
    ltac:(lia) ltac:(lia) ltac:(lia) ltac:(lia) ltac:(lia) Hi) as (logs & e' & H & _ & L & _).
  exists logs, e'. split; [exact H|]. rewrite L. reflexivity.
Defined.

Lemma shipped_devices_are_ends_witness :
  record_ok shipped (mkRec (double_of_Z 5) 3 2000001 (s_ "find")) /\
  end_for_position 2000001 10000000 = 3.
Proof.
  assert (H : record_ok shipped (mkRec (double_of_Z 5) 3 2000001 (s_ "find"))).
  { unfold record_ok. cbn. split; [lia|]. split; [lia|reflexivity]. }
  split; [exact H|]. apply (shipped_devices_are_ends _ 10000000 H). lia.
Defined.

Lemma workload_file_read_back_witness :
  map rec_key demo_logs <> [] /\
  load_workload_positions (Some (save_workload show_digit demo_logs)) 5 = take 5 (map rec_key demo_logs).
Proof.
  split; [vm_compute; discriminate|].
  apply (workload_file_read_back show_digit (fun x => double_of_Z (one_digit x)) demo_logs 5).
  - let l := eval vm_compute in demo_logs in change demo_logs with l.
    repeat (apply Forall_cons_2; [split_and!; unfold shown; cbn; try (done || lia); repeat constructor|]).
    constructor.
  - let l := eval vm_compute in demo_logs in change demo_logs with l.
    repeat (apply Forall_cons_2; [done|]). constructor.
  - let l := eval vm_compute in demo_logs in change demo_logs with l.
    repeat (apply Forall_cons_2; [repeat constructor|]). constructor.
Defined.
