(* ===== verification/HotKeys.v ===== *)
(** * The hot-key logger of the single-server version (legacy/hot_key.h)

    [DatabaseLogger] logs the queries a server answers, asks a Python process which
    devices come next, and fills a map of hot keys from the request counts of those
    devices.  One round of [communication_thread] is [comm_round]: its input is what
    [send], [select] and [read] return.  A job given to [std::async] is a value of the
    round's result and runs as a step of its own.  What a member function leaves to the
    library is an argument: the iteration order of an [unordered_map] and the text
    of a key ([std::to_string], six digits after the point).

    The map of hot keys is libcuckoo's with strings for keys, here a finite map; maps
    by key are maps by rank.  What is printed is left out. *)

From S2P Require Import Prelude Doubles Topology Text.
From stdpp Require Import sorting.
Open Scope Z_scope.

(** [utils.h] *)
Record CSVRecord : Type := mkRec {
  timestamp : double;
  device_id : Z;
  target_pos : Z;
  operation : str;
  logic_id : Z;
  target_key : double;
  payload : Z
}.

Definition FINE_CHANCE : Z := 3.
Definition LOG_CACHE_DATASET_SIZE : Z := 5000000.
Definition HOT_CACHE : Z := 12 * 1000000 + 50000.
Definition HOT_KEY_NUM : Z := 50000.
Definition CACHE_RETRAIN_NUM : Z := 100000.
Definition CACHE_RETRAIN_RATE : double := double_of_decimal false 83 (-2).

(** Counts of one device by key: the key with its count. *)
Abbreviation freqs := (gmap Z (double * Z)).

Record DatabaseLogger : Type := mkLogger {
  prehot_cache : bool;
  cache_hit : Z;
  cache_operate : Z;
  hot_map_ : gmap str Z;
  log_map_ : gmap Z Z;
  keys : list double;
  fine_count : Z;
  fine_retrain : bool;
  all_retrain : bool;
  init_train : bool;
  start_index : Z;
  end_index : Z;
  last_trian_index : Z;
  transfer_complete : bool;
  predicted_device : gset Z;
  device_key_freq_ : gmap Z freqs;
  log_queue_ : list CSVRecord;
  message_str : str
}.

(** [message_str] is a local of the communication thread. *)
Definition new_logger (ks : list double) : DatabaseLogger :=
  mkLogger false 0 0 ∅ ∅ ks 0 false false false 0 0 0 false ∅ ∅ [] [].

Definition set_counters (s : DatabaseLogger) (hit operate : Z) : DatabaseLogger :=
  mkLogger (prehot_cache s) hit operate (hot_map_ s) (log_map_ s) (keys s) (fine_count s)
    (fine_retrain s) (all_retrain s) (init_train s) (start_index s) (end_index s) (last_trian_index s)
    (transfer_complete s) (predicted_device s) (device_key_freq_ s) (log_queue_ s) (message_str s).
Definition set_prehot (s : DatabaseLogger) (b : bool) : DatabaseLogger :=
  mkLogger b (cache_hit s) (cache_operate s) (hot_map_ s) (log_map_ s) (keys s) (fine_count s)
    (fine_retrain s) (all_retrain s) (init_train s) (start_index s) (end_index s) (last_trian_index s)
    (transfer_complete s) (predicted_device s) (device_key_freq_ s) (log_queue_ s) (message_str s).
Definition set_training (s : DatabaseLogger) (count : Z) (fine all init : bool) : DatabaseLogger :=
  mkLogger (prehot_cache s) (cache_hit s) (cache_operate s) (hot_map_ s) (log_map_ s) (keys s) count
    fine all init (start_index s) (end_index s) (last_trian_index s)
    (transfer_complete s) (predicted_device s) (device_key_freq_ s) (log_queue_ s) (message_str s).
Definition set_indices (s : DatabaseLogger) (st en lst : Z) : DatabaseLogger :=
  mkLogger (prehot_cache s) (cache_hit s) (cache_operate s) (hot_map_ s) (log_map_ s) (keys s) (fine_count s)
    (fine_retrain s) (all_retrain s) (init_train s) st en lst
    (transfer_complete s) (predicted_device s) (device_key_freq_ s) (log_queue_ s) (message_str s).
Definition set_message (s : DatabaseLogger) (complete : bool) (m : str) : DatabaseLogger :=
  mkLogger (prehot_cache s) (cache_hit s) (cache_operate s) (hot_map_ s) (log_map_ s) (keys s) (fine_count s)
    (fine_retrain s) (all_retrain s) (init_train s) (start_index s) (end_index s) (last_trian_index s)
    complete (predicted_device s) (device_key_freq_ s) (log_queue_ s) m.
Definition set_hot (s : DatabaseLogger) (hot : gmap str Z) (devices : gset Z) : DatabaseLogger :=
  mkLogger (prehot_cache s) (cache_hit s) (cache_operate s) hot (log_map_ s) (keys s) (fine_count s)
    (fine_retrain s) (all_retrain s) (init_train s) (start_index s) (end_index s) (last_trian_index s)
    (transfer_complete s) devices (device_key_freq_ s) (log_queue_ s) (message_str s).
Definition set_freq (s : DatabaseLogger) (f : gmap Z freqs) : DatabaseLogger :=
  mkLogger (prehot_cache s) (cache_hit s) (cache_operate s) (hot_map_ s) (log_map_ s) (keys s) (fine_count s)
    (fine_retrain s) (all_retrain s) (init_train s) (start_index s) (end_index s) (last_trian_index s)
    (transfer_complete s) (predicted_device s) f (log_queue_ s) (message_str s).
Definition set_log (s : DatabaseLogger) (q : list CSVRecord) (m : gmap Z Z) : DatabaseLogger :=
  mkLogger (prehot_cache s) (cache_hit s) (cache_operate s) (hot_map_ s) m (keys s) (fine_count s)
    (fine_retrain s) (all_retrain s) (init_train s) (start_index s) (end_index s) (last_trian_index s)
    (transfer_complete s) (predicted_device s) (device_key_freq_ s) q (message_str s).

(** ** Logging *)

Definition log_query (r : CSVRecord) (s : DatabaseLogger) : DatabaseLogger :=
  let s := set_log s (log_queue_ s ++ [r]) (<[rank (target_key r) := payload r]> (log_map_ s)) in
  set_indices s (start_index s) (u64 (end_index s + 1)) (last_trian_index s).

(** The two counters the server keeps while the cache is on. *)
Definition count_operate (s : DatabaseLogger) : DatabaseLogger :=
  set_counters s (cache_hit s) (u64 (cache_operate s + 1)).
Definition count_hit (s : DatabaseLogger) : DatabaseLogger :=
  set_counters s (u64 (cache_hit s + 1)) (cache_operate s).

Definition judge_retrain_all (real_id : Z) (s : DatabaseLogger) : DatabaseLogger :=
  if negb (bool_decide (real_id ∈ predicted_device s)) && (FINE_CHANCE <=? u64 (fine_count s)) then
    let s := set_prehot s false in
    let n := i32 (fine_count s + 1) in
    if FINE_CHANCE <=? u64 n then
      let s := set_training s 0 (fine_retrain s) true (init_train s) in
      set_hot s (hot_map_ s) ∅
    else set_training s n true (all_retrain s) (init_train s)
  else s.

(** ** Counting the log *)

Definition bump_key (k : double) (f : freqs) : freqs :=
  <[rank k := (k, u64 (match f !! rank k with Some (_, n) => n | None => 0 end + 1))]> f.

(** One line of the log: [Ok None] when it is skipped, with or without an exception that
    is caught. *)
Definition log_line (ks : list double) (line : str) : res (option (Z * double)) :=
  match getlines (comma) line with
  | _ :: dev :: key :: _ :: _ =>
      match stoi dev, stoi key with
      | Ok d, Ok i => k ← zload ks i; Ok (Some (d, k))
      | _, _ => Ok None
      end
  | _ => Ok None
  end.

Fixpoint count_lines (ks : list double) (lines : list str) (current_line start_idx end_idx : Z)
    (f : gmap Z freqs) : res (gmap Z freqs) :=
  match lines with
  | [] => Ok f
  | line :: lines' =>
      if end_idx <? current_line then Ok f
      else
        r ← (if start_idx <=? current_line then log_line ks line else Ok None);
        let f := match r with
                 | Some (d, k) => <[d := bump_key k (default ∅ (f !! d))]> f
                 | None => f
                 end in
        count_lines ks lines' (current_line + 1) start_idx end_idx f
  end.

(** [file] is the log file, [None] when it cannot be opened. *)
Definition compute_hot_keys_from_log (file : option str) (start_idx end_idx : Z) (s : DatabaseLogger)
    : res DatabaseLogger :=
  match file with
  | None => Ok s
  | Some text =>
      let start_idx := if start_idx <? 0 then 0 else start_idx in
      f ← count_lines (keys s) (tail (getlines newline text)) 0 start_idx end_idx ∅;
      Ok (set_freq s f)
  end.

(** ** Hot keys of a device *)

Definition busier (a b : double * Z) : Prop := b.2 <= a.2.
#[export] Instance busier_dec a b : Decision (busier a b).
Proof. unfold busier. apply _. Defined.

(** [std::to_string] of a [size_t]. *)
Definition show_u64 (z : Z) : str := show_digits 20 z [].

Section Thread.
Context (iteration : freqs -> list (double * Z)) (to_string : double -> str).

Definition get_hot_keys_for_device (s : DatabaseLogger) (device max_keys : Z) : list double :=
  match device_key_freq_ s !! device with
  | None => []
  | Some f =>
      take (Z.to_nat max_keys)
        (map fst (merge_sort busier (map (fun kn => (kn.1, i32 kn.2)) (iteration f))))
  end.

(** The loop over the hot keys of one device. *)
Definition heat (s : DatabaseLogger) (ks : list double) (hot : gmap str Z) : gmap str Z :=
  foldl (fun hot k => match log_map_ s !! rank k with
                      | Some v => <[to_string k := v]> hot
                      | None => hot
                      end) hot ks.

(** ** The communication thread *)

(** What [send] returns, and [select] with [read]. *)
Inductive activity : Type :=
| SelectError
| SelectTimeout
| Data (bytes : str)
| Closed
| ReadError.

(** A job: the two arguments of [compute_hot_keys_from_log]. *)
Abbreviation job := (Z * Z)%type.

Definition check_cache (s : DatabaseLogger) : DatabaseLogger :=
  let s :=
    if (CACHE_RETRAIN_NUM <? cache_operate s) &&
       dlt (ddiv (dmul (double_of_Z 1) (double_of_Z (cache_hit s))) (double_of_Z (cache_operate s)))
           CACHE_RETRAIN_RATE
    then set_training (set_counters s 0 0) (fine_count s) true (all_retrain s) (init_train s)
    else s in
  if (start_index s =? 0) && (HOT_CACHE <=? end_index s)
  then set_indices (set_training s (fine_count s) (fine_retrain s) (all_retrain s) true)
         (u64 (start_index s + 1)) (end_index s) (last_trian_index s)
  else s.

Definition interval (tag : str) (a b : Z) : str :=
  tag ++ s_ ":" ++ show_u64 a ++ s_ ":" ++ show_u64 b.

(** The request to Python, if any, and the jobs started. *)
Definition request_training (sent : bool) (s : DatabaseLogger) : DatabaseLogger * option str * list job :=
  if init_train s || fine_retrain s || all_retrain s then
    let '(s, m, ready) :=
      if fine_retrain s then
        (set_training s (fine_count s) false (all_retrain s) (init_train s),
         interval (s_ "ADJUST") (start_index s) (end_index s), false)
      else if all_retrain s then
        (set_indices (set_training s (fine_count s) (fine_retrain s) false (init_train s))
           (end_index s) (end_index s) (last_trian_index s),
         interval (s_ "INDEX") (last_trian_index s) (end_index s), true)
      else
        (set_indices (set_training s (fine_count s) (fine_retrain s) (all_retrain s) false)
           (start_index s) (end_index s) (end_index s),
         interval (s_ "INDEX") (start_index s) (end_index s), false) in
    (set_prehot s false, Some m,
     if sent && ready then [(i32 (start_index s), i32 (end_index s))] else [])
  else if (2 * LOG_CACHE_DATASET_SIZE <=? end_index s) && (end_index s mod LOG_CACHE_DATASET_SIZE =? 0)
  then (s, None, [(i32 (u64 (end_index s - 3 * LOG_CACHE_DATASET_SIZE)), i32 (end_index s))])
  else (s, None, []).

(** The bytes read end at the first null one. *)
Definition c_string (b : str) : str :=
  take (prefix_len (fun c => negb (ch_eqb c (Ascii.ascii_of_nat 0))) b) b.

Definition receive (bytes : str) (s : DatabaseLogger) : DatabaseLogger :=
  let m := c_string bytes in
  let s := if transfer_complete s then s else set_message s (transfer_complete s) (message_str s ++ m) in
  match find_sub (s_ "END") m with Some _ => set_message s true (message_str s) | None => s end.

(** [DEVICES:a,bEND]: the hot keys of the devices [a] and [b]. *)
Definition update_hot_map (s : DatabaseLogger) : res DatabaseLogger :=
  match find_sub (s_ "END") (message_str s), find_sub (s_ "DEVICES:") (message_str s) with
  | Some _, Some O =>
      devices_str ← substr_n (message_str s) 8 (length (message_str s) - 11);
      let s := set_hot s ∅ ∅ in
      match find_ch (comma) devices_str 0 with
      | Some comma_pos =>
          device1 ← stoi (take comma_pos devices_str);
          device2 ← stoi (drop (comma_pos + 1) devices_str);
          let hot := heat s (get_hot_keys_for_device s device1 HOT_KEY_NUM) ∅ in
          let hot := heat s (get_hot_keys_for_device s device2 HOT_KEY_NUM) hot in
          Ok (set_message (set_prehot (set_hot s hot ({[device1]} ∪ {[device2]})) true) false [])
      | None => Ok (set_message s (transfer_complete s) [])
      end
  | _, _ => Ok s
  end.

(** One round: whether the loop goes on, the state, the request, the jobs. *)
Definition comm_round (sent : bool) (a : activity) (s : DatabaseLogger)
    : res (bool * DatabaseLogger * option str * list job) :=
  let '(s, m, jobs) := request_training sent (check_cache s) in
  match a with
  | SelectError | Closed | ReadError => Ok (false, s, m, jobs)
  | SelectTimeout => Ok (true, s, m, jobs)
  | Data bytes =>
      s ← update_hot_map (receive bytes s);
      Ok (true, set_indices s (end_index s) (end_index s) (last_trian_index s), m, jobs)
  end.

(** ** The threads of a server *)

(** Queries are answered on other threads, jobs run when they are scheduled. *)
Inductive logger_step (file : option str) : DatabaseLogger -> DatabaseLogger -> Prop :=
| Logs s r : logger_step file s (log_query r s)
| Judges s id : logger_step file s (judge_retrain_all id s)
| Operates s : logger_step file s (count_operate s)
| Hits s : logger_step file s (count_hit s)
| Communicates s sent a go s' m jobs :
    comm_round sent a s = Ok (go, s', m, jobs) -> logger_step file s s'
| Counts s a b s' : compute_hot_keys_from_log file a b s = Ok s' -> logger_step file s s'.
End Thread.

(** ** Training requests *)

Section Flags.
Context (iteration : freqs -> list (double * Z)) (to_string : double -> str).

(** What no training request changes: the answer being received and the two tables. *)
Definition untouched (s s' : DatabaseLogger) : Prop :=
  message_str s' = message_str s /\ transfer_complete s' = transfer_complete s /\
  log_map_ s' = log_map_ s /\ device_key_freq_ s' = device_key_freq_ s /\ hot_map_ s' = hot_map_ s.

Lemma check_cache_frame s :
  untouched s (check_cache s) /\ fine_count (check_cache s) = fine_count s /\
  all_retrain (check_cache s) = all_retrain s.
Proof. unfold check_cache. repeat (case_match; cbn); repeat split. Qed.

Lemma request_training_frame sent s s' m js :
  request_training sent s = (s', m, js) ->
  untouched s s' /\ fine_count s' = fine_count s /\ (all_retrain s = false -> all_retrain s' = false).
Proof.
  unfold request_training. intros E. destruct (_ || _ || _).
  - destruct (fine_retrain s), (all_retrain s); injection E as <- _ _; repeat split; done.
  - destruct (_ && _); injection E as <- _ _; repeat split; done.
Qed.

Lemma receive_flags bytes s :
  fine_count (receive bytes s) = fine_count s /\ all_retrain (receive bytes s) = all_retrain s.
Proof. unfold receive. by case_match; case_match. Qed.

Lemma update_hot_map_flags s s' :
  update_hot_map iteration to_string s = Ok s' ->
  fine_count s' = fine_count s /\ all_retrain s' = all_retrain s.
Proof.
  unfold update_hot_map. intros E.
  destruct (find_sub _ _); [|by injection E as <-].
  destruct (find_sub _ _) as [[|]|]; [|by injection E as <-..].
  apply bind_ok in E as (d & _ & E). destruct (find_ch _ _ _); [|by injection E as <-].
  apply bind_ok in E as (d1 & _ & E). apply bind_ok in E as (d2 & _ & E). by injection E as <-.
Qed.

(** Nothing counts a chance: [judge_retrain_all] asks for three before it counts the
    first. *)
Definition no_chance (s : DatabaseLogger) : Prop := fine_count s = 0 /\ all_retrain s = false.

Lemma judge_no_chance id s : no_chance s -> judge_retrain_all id s = s.
Proof. intros [E _]. unfold judge_retrain_all. rewrite E. by rewrite andb_false_r. Qed.

Lemma comm_round_no_chance sent a s go s' m js :
  comm_round iteration to_string sent a s = Ok (go, s', m, js) -> no_chance s -> no_chance s'.
Proof.
  unfold comm_round. intros E [H1 H2]. destruct (check_cache_frame s) as (_ & C1 & C2).
  destruct (request_training sent (check_cache s)) as [[s1 m1] js1] eqn:Er.
  destruct (request_training_frame _ _ _ _ _ Er) as (_ & R1 & R2).
  assert (Hs1 : no_chance s1) by (split; [congruence|apply R2; congruence]).
  destruct a as [| |bytes| |]; [by injection E as <- <- _ _..| |by injection E as <- <- _ _|by injection E as <- <- _ _].
  apply bind_ok in E as (s2 & Eu & E). injection E as _ <- _ _.
  destruct (update_hot_map_flags _ _ Eu) as [U1 U2]. destruct (receive_flags bytes s1) as [F1 F2].
  destruct Hs1. unfold no_chance. cbn. split; congruence.
Qed.

Lemma logger_step_no_chance file s s' :
  logger_step iteration to_string file s s' -> no_chance s -> no_chance s'.
Proof.
  intros H Hs. inversion H; subst; try done.
  - by rewrite judge_no_chance.
  - by eapply comm_round_no_chance.
  - unfold compute_hot_keys_from_log in *. destruct file; [|by simplify_eq].
    match goal with E : _ ≫= _ = Ok _ |- _ => apply bind_ok in E as (f & _ & E); by injection E as <- end.
Qed.
End Flags.

(** C30: whatever is asked, logged, received and counted, in any order, the model is never
    retrained from scratch: [judge_retrain_all] changes nothing, the flag stays down and the
    cache is not switched off by an unexpected device. *)
Theorem never_retrains_all (iteration : freqs -> list (double * Z)) (to_string : double -> str)
    (file : option str) (ks : list double) (s : DatabaseLogger) :
  rtc (logger_step iteration to_string file) (new_logger ks) s ->
  all_retrain s = false /\ forall id, judge_retrain_all id s = s.
Proof.
  intros H. assert (Hs : no_chance s).
  { revert H. generalize (conj eq_refl eq_refl : no_chance (new_logger ks)).
    generalize (new_logger ks). intros s0 H0 H. induction H as [|s0 s1 s2 H1 _ IH]; [done|].
    apply IH. by eapply logger_step_no_chance. }
  split; [apply Hs|]. intros id. by apply judge_no_chance.
Qed.

Definition demo_query : CSVRecord := mkRec (double_of_Z 1) 7 0 (s_ "READ") 0 (double_of_Z 10) 11.

Lemma never_retrains_all_witness :
  judge_retrain_all 9 (log_query demo_query (new_logger [double_of_Z 10])) =
  log_query demo_query (new_logger [double_of_Z 10]).
Proof.
  apply (never_retrains_all (fun f => map snd (map_to_list f)) (fun _ => []) None [double_of_Z 10]).
  apply rtc_once. constructor.
Defined.

(** ** Counts *)

Definition count_of (f : gmap Z freqs) (d r : Z) : Z :=
  match f !! d with
  | Some m => match m !! r with Some (_, n) => n | None => 0 end
  | None => 0
  end.

(** The line asks for a key of rank [r] on device [d]. *)
Definition asks (ks : list double) (d r : Z) (line : str) : bool :=
  match log_line ks line with
  | Ok (Some (d', k)) => (d' =? d) && (rank k =? r)
  | _ => false
  end.

(** The lines numbered [lo] to [hi], the first being number [i]. *)
Fixpoint lines_between (lo hi i : Z) (lines : list str) : list str :=
  match lines with
  | [] => []
  | l :: ls =>
      let rest := lines_between lo hi (i + 1) ls in
      if (lo <=? i) && (i <=? hi) then l :: rest else rest
  end.

Definition requests (ks : list double) (d r : Z) (lines : list str) : Z :=
  Z.of_nat (length (List.filter (asks ks d r) lines)).

Lemma lines_between_past lo hi i lines : hi < i -> lines_between lo hi i lines = [].
Proof.
  revert i. induction lines as [|l ls IH]; intros i Hi; [done|]. cbn.
  rewrite (proj2 (Z.leb_gt i hi)) by lia. rewrite andb_false_r. apply IH. lia.
Qed.

Lemma count_of_bump f d k d' r :
  0 <= count_of f d (rank k) < 2 ^ 64 - 1 ->
  count_of (<[d := bump_key k (default ∅ (f !! d))]> f) d' r =
  count_of f d' r + (if (d =? d') && (rank k =? r) then 1 else 0).
Proof.
  unfold count_of, bump_key. intros Hb. destruct (Z.eqb_spec d d') as [<-|Hd]; cbn [andb].
  - rewrite lookup_insert_eq. destruct (Z.eqb_spec (rank k) r) as [<-|Hr].
    + rewrite lookup_insert_eq. destruct (f !! d) as [m|]; cbn.
      * destruct (m !! rank k) as [[k' n]|]; unfold u64; by rewrite Z.mod_small by lia.
      * rewrite lookup_empty. unfold u64. by rewrite Z.mod_small by lia.
    + rewrite lookup_insert_ne by done. destruct (f !! d) as [m|]; cbn; [|rewrite lookup_empty]; lia.
  - rewrite lookup_insert_ne by done. lia.
Qed.

Lemma count_lines_spec ks lines lo hi i f f' :
  count_lines ks lines i lo hi f = Ok f' ->
  (forall d r, 0 <= count_of f d r < 2 ^ 64 - Z.of_nat (length lines)) ->
  forall d r, count_of f' d r = count_of f d r + requests ks d r (lines_between lo hi i lines).
Proof.
  revert i f. induction lines as [|line lines IH]; intros i f E Hf d r.
  { injection E as <-. unfold requests. cbn. lia. }
  cbn [count_lines] in E. destruct (Z.ltb_spec hi i) as [Hi|Hi].
  { injection E as <-. rewrite lines_between_past by done. unfold requests. cbn. lia. }
  cbn [lines_between]. rewrite (proj2 (Z.leb_le i hi)), andb_true_r by lia. cbn [length] in Hf.
  apply bind_ok in E as (o & Eo & E). destruct (Z.leb_spec lo i) as [Hlo|Hlo].
  - destruct o as [[d0 k]|].
    + rewrite (IH _ _ E).
      * rewrite count_of_bump by (pose proof (Hf d0 (rank k)); lia).
        unfold requests. cbn [List.filter]. unfold asks at 2. rewrite Eo.
        destruct ((d0 =? d) && (rank k =? r)); cbn [length]; lia.
      * intros d' r'. rewrite count_of_bump by (pose proof (Hf d0 (rank k)); lia).
        pose proof (Hf d' r'). destruct (_ && _); lia.
    + rewrite (IH _ _ E) by (intros d' r'; pose proof (Hf d' r'); lia).
      unfold requests. cbn [List.filter]. unfold asks at 2. rewrite Eo. done.
  - injection Eo as <-. apply (IH _ _ E). intros d' r'. pose proof (Hf d' r'). lia.
Qed.

(** C31: after a count of the log, the number kept for a device and a key is the number of
    requests between the two line numbers, a negative first number counting as 0; lines
    that cannot be read count for nothing. *)
Theorem log_is_counted (text : str) (a b : Z) (s s' : DatabaseLogger) :
  compute_hot_keys_from_log (Some text) a b s = Ok s' ->
  Z.of_nat (length (getlines newline text)) < 2 ^ 64 ->
  forall d k, count_of (device_key_freq_ s') d (rank k) =
    requests (keys s) d (rank k) (lines_between (Z.max 0 a) b 0 (tail (getlines newline text))).
Proof.
  intros E Hlen d k. unfold compute_hot_keys_from_log in E. apply bind_ok in E as (f & Ef & E). injection E as <-.
  cbn [device_key_freq_ set_freq].
  assert (Ha : (if a <? 0 then 0 else a) = Z.max 0 a) by (destruct (Z.ltb_spec a 0); lia).
  rewrite Ha in Ef. rewrite (count_lines_spec _ _ _ _ _ _ _ Ef).
  - unfold count_of. by rewrite lookup_empty.
  - intros d' r'. unfold count_of. rewrite lookup_empty.
    assert (length (tail (getlines newline text)) <= length (getlines newline text))%nat
      by (destruct (getlines _ _); cbn; lia). lia.
Qed.

Definition demo_log : str :=
  concat (map (fun l => s_ l ++ [newline])
    ["timestamp,device_id,key,operation"; "0.5,1,0,find"; "0.7,1,1,find"; "oops,x,1,find"; "0.9,1,0,find"; "1.5,2,0,find"]%string).

Lemma log_is_counted_witness : exists s',
  compute_hot_keys_from_log (Some demo_log) (-5) 3 (new_logger [double_of_Z 10; double_of_Z 20]) = Ok s' /\
  count_of (device_key_freq_ s') 1 (rank (double_of_Z 10)) = 2.
Proof.
  destruct (compute_hot_keys_from_log (Some demo_log) (-5) 3 (new_logger [double_of_Z 10; double_of_Z 20])) as [s'|] eqn:E;
    [|vm_compute in E; discriminate E].
  exists s'. split; [reflexivity|].
  rewrite (log_is_counted demo_log (-5) 3 _ s' E); [vm_compute; reflexivity|vm_compute; reflexivity].
Defined.

(** ** The answer of the predictor *)

Lemma find_sub_app pat a b : find_sub pat b <> None -> find_sub pat (a ++ b) <> None.
Proof.
  intros Hb. induction a as [|c a IH]; [done|]. cbn [app find_sub]. destruct (prefixb _ _); [done|].
  by destruct (find_sub pat (a ++ b)).
Qed.

(** No proper prefix of an answer contains its end mark. *)
Definition letter_E : Ascii.ascii := Ascii.Ascii true false true false false false true false.

Lemma no_end_in_body (body : str) n :
  Forall (fun c => ch_eqb letter_E c = false) body -> (n < length body + 3)%nat ->
  find_sub (s_ "END") (take n (body ++ s_ "END")) = None.
Proof.
  intros Hb. revert n. induction Hb as [|c body Hc _ IH]; intros n Hn.
  - cbn in Hn. destruct n as [|[|[|n]]]; [reflexivity..|lia].
  - destruct n as [|n]; [done|]. cbn [app take firstn]. cbn [find_sub].
    replace (prefixb (s_ "END") (c :: take n (body ++ s_ "END"))) with false
      by (cbn [s_ String.list_ascii_of_string prefixb]; fold letter_E; by rewrite Hc).
    rewrite IH; [done|]. cbn in Hn. lia.
Qed.

Lemma no_end_before (body : str) n :
  Forall (fun c => ch_eqb letter_E c = false) body -> (n < 8 + (length body + 3))%nat ->
  find_sub (s_ "END") (take n (s_ "DEVICES:" ++ body ++ s_ "END")) = None.
Proof.
  intros Hb Hn. do 8 (destruct n as [|n]; [reflexivity|]).
  pose proof (no_end_in_body body n Hb ltac:(lia)) as E.
  change (take (S (S (S (S (S (S (S (S n)))))))) (s_ "DEVICES:" ++ body ++ s_ "END"))
    with (s_ "DEVICES:" ++ take n (body ++ s_ "END")).
  change (s_ "DEVICES:" ++ take n (body ++ s_ "END")) with
    (Ascii.ascii_of_nat 68 :: Ascii.ascii_of_nat 69 :: Ascii.ascii_of_nat 86 :: Ascii.ascii_of_nat 73 ::
     Ascii.ascii_of_nat 67 :: Ascii.ascii_of_nat 69 :: Ascii.ascii_of_nat 83 :: Ascii.ascii_of_nat 58 ::
     take n (body ++ s_ "END")).
  generalize dependent (take n (body ++ s_ "END")). intros t E.
  repeat (cbn [find_sub]; match goal with |- context [prefixb ?p (?c :: ?r)] =>
    replace (prefixb p (c :: r)) with false by reflexivity end; cbn iota).
  by rewrite E.
Qed.

Section Answer.
Context (iteration : freqs -> list (double * Z)) (to_string : double -> str).

(** The message of the predictor for two devices. *)
Definition devices_body (d1 d2 : Z) : str := show_int d1 ++ comma :: show_int d2.
Definition devices_message (d1 d2 : Z) : str := s_ "DEVICES:" ++ devices_body d1 d2 ++ s_ "END".

(** The rounds that read the pieces of a message. *)
Definition hear (sent : bool) (s : DatabaseLogger) (piece : str) : res DatabaseLogger :=
  '(_, s, _, _) ← comm_round iteration to_string sent (Data piece) s; Ok s.

Definition hot_of (s : DatabaseLogger) (d1 d2 : Z) : list double :=
  get_hot_keys_for_device iteration s d1 HOT_KEY_NUM ++ get_hot_keys_for_device iteration s d2 HOT_KEY_NUM.

Lemma digit_not_E c d : digit_of c = Some d -> ch_eqb letter_E c = false.
Proof. destruct c as [[] [] [] [] [] [] [] []]; vm_compute; intros [=]; done. Qed.

Lemma body_no_E d1 d2 : shown d1 -> shown d2 -> Forall (fun c => ch_eqb letter_E c = false) (devices_body d1 d2).
Proof.
  intros H1 H2. unfold devices_body. apply Forall_app. split; [|constructor; [done|]].
  all: eapply Forall_impl; [by apply show_int_all|]; cbn; intros c Hc;
    destruct (digit_of c) as [d|] eqn:E; [by eapply digit_not_E|done].
Qed.

Lemma message_end d1 d2 : find_sub (s_ "END") (devices_message d1 d2) <> None.
Proof. unfold devices_message. by do 2 apply find_sub_app. Qed.

Lemma message_start d1 d2 : find_sub (s_ "DEVICES:") (devices_message d1 d2) = Some 0%nat.
Proof. done. Qed.

Lemma message_length d1 d2 : length (devices_message d1 d2) = (11 + length (devices_body d1 d2))%nat.
Proof. unfold devices_message. rewrite !length_app. cbn. lia. Qed.

Lemma find_ch_first c a b : without c a -> find_ch c (a ++ c :: b) 0 = Some (length a).
Proof.
  intros Ha. unfold find_ch, find_from. rewrite drop_0. 
  assert (E : find_char_if (ch_eqb c) (a ++ c :: b) = Some (length a)).
  { induction Ha as [|x a Hx _ IH]; cbn; [by rewrite (Ascii.eqb_refl c : ch_eqb c c = true)|]. by rewrite Hx, IH. }
  by rewrite E.
Qed.

Lemma heat_app s a b hot : heat to_string s (a ++ b) hot = heat to_string s b (heat to_string s a hot).
Proof. apply foldl_app. Qed.

(** The handler reads back both devices of a complete message. *)
Lemma update_complete s d1 d2 :
  shown d1 -> shown d2 -> message_str s = devices_message d1 d2 ->
  update_hot_map iteration to_string s =
    Ok (set_message (set_prehot (set_hot s
          (heat to_string s (hot_of s d1 d2) ∅) ({[d1]} ∪ {[d2]})) true) false []).
Proof.
  intros H1 H2 Em. unfold update_hot_map. rewrite Em, message_start, message_length.
  destruct (find_sub (s_ "END") (devices_message d1 d2)) as [e|] eqn:Ee; [|by apply message_end in Ee].
  unfold substr_n. rewrite message_length, (proj2 (Nat.ltb_ge _ _)) by lia. mstep.
  replace (11 + length (devices_body d1 d2) - 11)%nat with (length (devices_body d1 d2)) by lia.
  change (drop 8 (devices_message d1 d2)) with (devices_body d1 d2 ++ s_ "END").
  rewrite take_app_length. unfold devices_body.
  rewrite find_ch_first by (by apply shown_without). rewrite take_app_length, stoi_show by done. mstep.
  replace (drop (length (show_int d1) + 1) (show_int d1 ++ comma :: show_int d2)) with (show_int d2).
  2:{ rewrite drop_app_ge by lia. by replace (length (show_int d1) + 1 - length (show_int d1))%nat with 1%nat by lia. }
  rewrite stoi_show by done. mstep. unfold hot_of. by rewrite heat_app.
Qed.

(** Before the message is complete, a round only appends its piece. *)
Lemma hear_step sent s piece s' :
  hear sent s piece = Ok s' -> transfer_complete s = false ->
  find_sub (s_ "END") (message_str s ++ c_string piece) = None ->
  message_str s' = message_str s ++ c_string piece /\ transfer_complete s' = false /\
  log_map_ s' = log_map_ s /\ device_key_freq_ s' = device_key_freq_ s.
Proof.
  unfold hear, comm_round. intros E Ht Hno. destruct (check_cache_frame s) as ((C1 & C2 & C3 & C4 & _) & _).
  destruct (request_training sent (check_cache s)) as [[s1 m1] js1] eqn:Er.
  destruct (request_training_frame _ _ _ _ _ Er) as ((R1 & R2 & R3 & R4 & _) & _).
  assert (Hno' : find_sub (s_ "END") (c_string piece) = None).
  { destruct (find_sub (s_ "END") (c_string piece)) eqn:E'; [|done]. exfalso. revert Hno. apply find_sub_app. by rewrite E'. }
  unfold receive in E. rewrite R2, C2, Ht, Hno' in E. cbn [negb] in E.
  unfold update_hot_map in E. cbn [message_str set_message] in E. rewrite R1, C1, Hno in E. mstep in E.
  injection E as <-. cbn. rewrite R3, R4, C3, C4. done.
Qed.

(** The message arrives in pieces: nothing happens before the last one. *)
Lemma hear_pieces sent d1 d2 pieces s :
  shown d1 -> shown d2 -> transfer_complete s = false -> Forall (fun p => p <> []) pieces -> pieces <> [] ->
  Forall (fun p => c_string p = p) pieces ->
  message_str s ++ concat pieces = devices_message d1 d2 ->
  exists s1 s', foldlM (hear sent) s pieces = Ok s' /\
    log_map_ s1 = log_map_ s /\ device_key_freq_ s1 = device_key_freq_ s /\
    prehot_cache s' = true /\ predicted_device s' = {[d1]} ∪ {[d2]} /\
    hot_map_ s' = heat to_string s1 (hot_of s1 d1 d2) ∅ /\
    message_str s' = [] /\ transfer_complete s' = false.
Proof.
  intros H1 H2. revert s. induction pieces as [|p pieces IH]; intros s Ht Hne Hnil Hc Em; [done|].
  apply Forall_cons in Hne as [Hp Hne]. apply Forall_cons in Hc as [Hpc Hc]. cbn [foldlM concat] in *.
  destruct (check_cache_frame s) as ((C1 & C2 & C3 & C4 & _) & _).
  destruct (request_training sent (check_cache s)) as [[s1 m1] js1] eqn:Er.
  destruct (request_training_frame _ _ _ _ _ Er) as ((R1 & R2 & R3 & R4 & _) & _).
  destruct pieces as [|p' pieces].
  - cbn [concat] in Em. rewrite app_nil_r in Em. unfold hear, comm_round. rewrite Er.
    set (s2 := receive p s1).
    assert (Hs2 : message_str s2 = devices_message d1 d2 /\ log_map_ s2 = log_map_ s /\
      device_key_freq_ s2 = device_key_freq_ s).
    { unfold s2, receive. rewrite R2, C2, Ht, Hpc, <- Em. cbn [negb].
      destruct (find_sub (s_ "END") p); cbn; by rewrite R1, C1, R3, C3, R4, C4. }
    destruct Hs2 as (M & L & F). rewrite (update_complete s2 d1 d2 H1 H2 M). mstep.
    exists s2. eexists. split; [reflexivity|]. by cbn.
  - inversion Hne as [|? ? Hp' _]; subst.
    assert (Hprefix : find_sub (s_ "END") (message_str s ++ c_string p) = None).
    { rewrite Hpc. replace (message_str s ++ p) with (take (length (message_str s ++ p)) (devices_message d1 d2)).
      2:{ rewrite <- Em, app_assoc. apply take_app_length. }
      apply no_end_before; [by apply body_no_E|].
      apply (f_equal length) in Em. cbn [concat] in Em. rewrite message_length, !length_app in Em.
      rewrite length_app. destruct p'; [done|]. cbn [length] in Em. lia. }
    assert (Eh : exists s2, hear sent s p = Ok s2).
    { unfold hear, comm_round. rewrite Er. unfold update_hot_map.
      assert (E1 : find_sub (s_ "END") (message_str (receive p s1)) = None).
      { assert (Ep : find_sub (s_ "END") (c_string p) = None).
        { destruct (find_sub (s_ "END") (c_string p)) eqn:E'; [|done]. exfalso. revert Hprefix.
          apply find_sub_app. by rewrite E'. }
        unfold receive. rewrite R2, C2, Ht, Ep. cbn. by rewrite R1, C1. }
      rewrite E1. mstep. by eexists. }
    destruct Eh as [s2 Eh]. rewrite Eh. mstep.
    destruct (hear_step _ _ _ _ Eh Ht Hprefix) as (M & Tc & L & F). rewrite Hpc in M.
    destruct (IH s2 Tc Hne ltac:(done) Hc) as (s3 & s' & E & L' & F' & rest).
    { by rewrite M, <- app_assoc. }
    exists s3, s'. split; [exact E|]. split; [congruence|]. split; [congruence|exact rest].
Qed.

(** What the map of hot keys holds. *)
Lemma heat_sound s ks hot t v :
  heat to_string s ks hot !! t = Some v ->
  hot !! t = Some v \/ exists k, k ∈ ks /\ to_string k = t /\ log_map_ s !! rank k = Some v.
Proof.
  revert hot. induction ks as [|k ks IH]; intros hot H; [by left|].
  unfold heat in H. cbn [foldl] in H. apply IH in H as [H|(k' & Hk & H)].
  - destruct (log_map_ s !! rank k) as [w|] eqn:E; [|by left].
    destruct (decide (t = to_string k)) as [->|Hne].
    + rewrite lookup_insert_eq in H. injection H as ->. right. exists k.
      split; [apply list_elem_of_here|done].
    + rewrite lookup_insert_ne in H by done. by left.
  - right. exists k'. split; [by apply list_elem_of_further|done].
Qed.

Lemma heat_complete s ks hot t v :
  (forall k, k ∈ ks -> to_string k = t -> log_map_ s !! rank k = None \/ log_map_ s !! rank k = Some v) ->
  hot !! t = Some v \/ (exists k, k ∈ ks /\ to_string k = t /\ log_map_ s !! rank k = Some v) ->
  heat to_string s ks hot !! t = Some v.
Proof.
  revert hot. induction ks as [|k ks IH]; intros hot Hu H.
  { destruct H as [H|(k & Hk & _)]; [done|by apply elem_of_nil in Hk]. }
  unfold heat. cbn [foldl]. apply IH.
  { intros k' Hk'. apply Hu. by apply list_elem_of_further. }
  destruct H as [H|(k' & Hk & Et & Ev)].
  - left. destruct (log_map_ s !! rank k) as [w|] eqn:E; [|done].
    destruct (decide (to_string k = t)) as [Et|Hne]; [|by rewrite lookup_insert_ne].
    destruct (Hu k (list_elem_of_here _ _) Et); [congruence|]. rewrite Et, lookup_insert_eq. congruence.
  - apply elem_of_cons in Hk as [->|Hk].
    + left. by rewrite Ev, Et, lookup_insert_eq.
    + right. by exists k'.
Qed.
End Answer.

Lemma c_string_plain p : Forall (fun c => ch_eqb c (Ascii.ascii_of_nat 0) = false) p -> c_string p = p.
Proof.
  intros Hp. unfold c_string. induction Hp as [|c p Hc _ IH]; [done|]. cbn [prefix_len]. rewrite Hc.
  cbn [negb take firstn]. f_equal. exact IH.
Qed.

Lemma message_plain d1 d2 : shown d1 -> shown d2 ->
  Forall (fun c => ch_eqb c (Ascii.ascii_of_nat 0) = false) (devices_message d1 d2).
Proof.
  assert (Hd : forall z, shown z -> Forall (fun c => ch_eqb c (Ascii.ascii_of_nat 0) = false) (show_int z)).
  { intros z Hz. eapply Forall_impl; [by apply show_int_all|]. intros [[] [] [] [] [] [] [] []]; vm_compute; done. }
  intros H1 H2. unfold devices_message, devices_body.
  apply Forall_app. split; [by repeat constructor|]. apply Forall_app. split; [|by repeat constructor].
  apply Forall_app. split; [by apply Hd|]. constructor; [done|by apply Hd].
Qed.

(** ** The most requested keys *)

(** [l] are the keys of the [n] most requested entries of [f], the busiest first: no other
    entry has more requests. *)
Definition most_requested (f : freqs) (n : Z) (l : list double) : Prop :=
  exists top rest : list (double * Z),
    top ++ rest ≡ₚ (map_to_list f).*2 /\ l = top.*1 /\ Z.of_nat (length top) = Z.min n (Z.of_nat (size f)) /\
    Sorted.StronglySorted busier top /\ (forall a b, a ∈ top -> b ∈ rest -> b.2 <= a.2).

#[export] Instance busier_total : Total busier.
Proof. intros a b. unfold busier. lia. Qed.
#[export] Instance busier_trans : Transitive busier.
Proof. intros a b c. unfold busier. lia. Qed.

Lemma strongly_sorted_app {A} (R : relation A) l1 l2 :
  Sorted.StronglySorted R (l1 ++ l2) ->
  Sorted.StronglySorted R l1 /\ forall a b, a ∈ l1 -> b ∈ l2 -> R a b.
Proof.
  induction l1 as [|x l1 IH]; cbn; intros Hs; [split; [constructor|by intros a b ?%elem_of_nil]|].
  apply Sorted.StronglySorted_inv in Hs as [Hs Hx]. destruct (IH Hs) as [H1 H2].
  apply Forall_app in Hx as [Hx1 Hx2]. split; [by constructor|].
  intros a b [->|Ha]%elem_of_cons Hb; [by apply (proj1 (Forall_forall _ _) Hx2)|by apply H2].
Qed.

Section MostRequested.
Context (iteration : freqs -> list (double * Z)).
(** The iterator of the container visits every entry once. *)
Hypothesis Hit : forall f, iteration f ≡ₚ (map_to_list f).*2.

Lemma hot_keys_of_device s d n f :
  0 <= n -> f = default ∅ (device_key_freq_ s !! d) -> map_Forall (fun _ kc => 0 <= kc.2 < 2 ^ 31) f ->
  most_requested f n (get_hot_keys_for_device iteration s d n).
Proof.
  intros Hn Ef Hc. unfold get_hot_keys_for_device. destruct (device_key_freq_ s !! d) as [g|] eqn:Eg; cbn in Ef; subst f.
  2:{ exists [], []. rewrite map_to_list_empty, map_size_empty. 
    split; [done|]. split; [done|]. split; [cbn [length]; lia|]. split; [constructor|]. by intros a b ?%elem_of_nil. }
  set (l := merge_sort busier _).
  assert (El : map (fun kn : double * Z => (kn.1, i32 kn.2)) (iteration g) = iteration g).
  { rewrite <- (map_id (iteration g)) at 2. apply map_ext_in. intros [k c] Hin%list_elem_of_In.
    rewrite (Hit g) in Hin. apply list_elem_of_fmap in Hin as ([r [k' c']] & [= -> ->] & Hin).
    apply elem_of_map_to_list in Hin. specialize (Hc r (k', c') Hin). cbn in *. f_equal. unfold i32.
    apply signed_id; [lia|]. change (2 ^ (32 - 1)) with (2 ^ 31). lia. }
  assert (Hp : l ≡ₚ (map_to_list g).*2) by (unfold l; by rewrite merge_sort_Permutation, El).
  assert (Hs : Sorted.StronglySorted busier l) by apply (StronglySorted_merge_sort _).
  rewrite <- (take_drop (Z.to_nat n) l) in Hs. apply strongly_sorted_app in Hs as [Hs1 Hs2].
  exists (take (Z.to_nat n) l), (drop (Z.to_nat n) l). rewrite take_drop. split_and!; try done.
  - by rewrite fmap_take.
  - rewrite length_take, Hp, length_fmap. rewrite length_map_to_list. lia.
Qed.
End MostRequested.

(** C29: when the predictor's answer for two devices has arrived, in whatever pieces, the
    cache is on and holds exactly the logged payloads of the [HOT_KEY_NUM] most requested
    keys of each of the two devices: no other key of the device has more requests in the
    log.  A key whose text no other of them shares is found under its text.  The counts are
    [int]s, the devices are not negative, and the iterator of the container of counts visits
    each entry once, in any order. *)
Theorem devices_message_heats (iteration : freqs -> list (double * Z)) (to_string : double -> str)
    (sent : bool) (d1 d2 : Z) (pieces : list str) (s : DatabaseLogger) :
  (forall f, iteration f ≡ₚ (map_to_list f).*2) ->
  map_Forall (fun _ f => map_Forall (fun _ kc => 0 <= kc.2 < 2 ^ 31) f) (device_key_freq_ s) ->
  shown d1 -> shown d2 -> message_str s = [] -> transfer_complete s = false ->
  Forall (fun p => p <> []) pieces -> concat pieces = devices_message d1 d2 ->
  exists s' hot1 hot2, foldlM (hear iteration to_string sent) s pieces = Ok s' /\
    most_requested (default ∅ (device_key_freq_ s !! d1)) HOT_KEY_NUM hot1 /\
    most_requested (default ∅ (device_key_freq_ s !! d2)) HOT_KEY_NUM hot2 /\
    prehot_cache s' = true /\ predicted_device s' = {[d1]} ∪ {[d2]} /\
    message_str s' = [] /\ transfer_complete s' = false /\
    (forall t v, hot_map_ s' !! t = Some v ->
       exists k, k ∈ hot1 ++ hot2 /\ to_string k = t /\ log_map_ s !! rank k = Some v) /\
    (forall k v, k ∈ hot1 ++ hot2 -> log_map_ s !! rank k = Some v ->
       (forall k', k' ∈ hot1 ++ hot2 -> to_string k' = to_string k -> rank k' = rank k) ->
       hot_map_ s' !! to_string k = Some v).
Proof.
  intros Hit Hcounts H1 H2 Hm Ht Hne Hc.
  assert (Hplain : Forall (fun p => c_string p = p) pieces).
  { pose proof (message_plain d1 d2 H1 H2) as Hp. rewrite <- Hc in Hp. clear -Hp.
    induction pieces as [|p ps IH]; [done|]. cbn [concat] in Hp. apply Forall_app in Hp as [Hp Hps].
    constructor; [by apply c_string_plain|by apply IH]. }
  destruct (hear_pieces iteration to_string sent d1 d2 pieces s H1 H2 Ht Hne) as
    (s1 & s' & E & L & F & P & D & M & R1 & R2); [by intros ->|done|by rewrite Hm|].
  assert (Eh : hot_of iteration s1 d1 d2 = hot_of iteration s d1 d2)
    by (unfold hot_of, get_hot_keys_for_device; by rewrite F).
  assert (Hmost : forall d, most_requested (default ∅ (device_key_freq_ s !! d)) HOT_KEY_NUM
    (get_hot_keys_for_device iteration s d HOT_KEY_NUM)).
  { intros d. apply hot_keys_of_device; [done|done|done|].
    destruct (device_key_freq_ s !! d) as [f|] eqn:Ef; [exact (Hcounts d f Ef)|apply map_Forall_empty]. }
  exists s', (get_hot_keys_for_device iteration s d1 HOT_KEY_NUM), (get_hot_keys_for_device iteration s d2 HOT_KEY_NUM).
  fold (hot_of iteration s d1 d2). split; [exact E|]. split; [apply Hmost|]. split; [apply Hmost|].
  repeat (split; [done|]). rewrite M, Eh. split.
  - intros t v H. apply heat_sound in H as [H|H]; [by rewrite lookup_empty in H|]. by rewrite <- L.
  - intros k v Hk Hv Hu. apply heat_complete.
    + intros k' Hk' Et. right. rewrite L, (Hu k' Hk' Et). exact Hv.
    + right. exists k. by rewrite L.
Qed.

(** Two devices with one request each, and the answer in three pieces. *)
Definition demo_text (k : double) : str := match to_int64 k with Ok z => show_int z | Err _ => [] end.
Definition demo_order (f : freqs) : list (double * Z) := map snd (map_to_list f).
Definition demo_logger : DatabaseLogger :=
  match compute_hot_keys_from_log (Some demo_log) 0 9 (log_query demo_query (new_logger [double_of_Z 10; double_of_Z 20])) with
  | Ok s => s
  | Err _ => new_logger []
  end.

Lemma demo_hot_map :
  match foldlM (hear demo_order demo_text true) demo_logger [s_ "DEVI"; s_ "CES:1,2E"; s_ "ND"] with
  | Ok s' => hot_map_ s' !! s_ "10" = Some 11
  | Err _ => False
  end.
Proof. vm_compute. reflexivity. Qed.

Lemma demo_counts : map_Forall (fun _ f => map_Forall (fun _ kc => 0 <= kc.2 < 2 ^ 31) f) (device_key_freq_ demo_logger).
Proof.
  apply map_Forall_to_list, Forall_forall. intros [d f] Hin. apply map_Forall_to_list, Forall_forall. intros [r kc] Hkc.
  revert f Hin r kc Hkc.
  assert (K : forallb (fun df : Z * freqs => forallb (fun rc : Z * (double * Z) => (0 <=? rc.2.2) && (rc.2.2 <? 2 ^ 31))
    (map_to_list df.2)) (map_to_list (device_key_freq_ demo_logger)) = true) by (vm_compute; reflexivity).
  rewrite forallb_forall in K. intros f Hin%list_elem_of_In r kc Hkc%list_elem_of_In. apply K in Hin.
  rewrite forallb_forall in Hin. apply Hin in Hkc. cbn in *. lia.
Qed.

Lemma devices_message_heats_witness : exists s' hot1 hot2,
  foldlM (hear demo_order demo_text true) demo_logger [s_ "DEVI"; s_ "CES:1,2E"; s_ "ND"] = Ok s' /\
  most_requested (default ∅ (device_key_freq_ demo_logger !! 1)) HOT_KEY_NUM hot1 /\
  most_requested (default ∅ (device_key_freq_ demo_logger !! 2)) HOT_KEY_NUM hot2 /\ prehot_cache s' = true.
Proof.
  destruct (devices_message_heats demo_order demo_text true 1 2 [s_ "DEVI"; s_ "CES:1,2E"; s_ "ND"] demo_logger)
    as (s' & hot1 & hot2 & E & M1 & M2 & P & _).
  - intros f. apply Permutation_refl.
  - exact demo_counts.
  - vm_compute. split; [discriminate|reflexivity].
  - vm_compute. split; [discriminate|reflexivity].
  - vm_compute. reflexivity.
  - vm_compute. reflexivity.
  - repeat constructor; discriminate.
  - vm_compute. reflexivity.
  - exists s', hot1, hot2. split; [exact E|]. split; [exact M1|]. split; [exact M2|exact P].
Defined.
