(* ===== verification/LegacyServer.v ===== *)
(** * The single server and its client (legacy/server.cpp, legacy/client.cpp,
    legacy/lstm_client.cpp)

    The archived version of the program without tiers: a client predicts the leaf of a
    key with its copy of the model and sends the row number of the key with it; the
    server searches that leaf, or the map of hot keys when the predictor's answer has
    arrived, and compares the payload with the data set.  One turn of [handle_client] is
    [handle_command], one line of the workload is [client_line].  Sockets are left out:
    a command is the text that one [recv] returned. *)

From S2P Require Import Prelude Doubles Topology Text Slots Routing PlinIndex Levels BulkLoad IndexMap.
From S2P Require CacheModel HotKeys BPlus.
Open Scope Z_scope.

Abbreviation DatabaseLogger := HotKeys.DatabaseLogger.

Definition MAX_MEM_BUFFER_SIZE : nat := 8192.
Definition CLIENT_BUFFER_SIZE : nat := 3 * 8192.
(** Rows of the data set. *)
Definition number : Z := 10000000.

(** What is sent back. *)
Inductive reply : Type :=
| Text (s : str)
| Bytes (b : list Z).

Section Server.
Context {T : Type} `{LeafNode.OverflowTree T}.

(** The globals of the process. *)
Record Server : Type := mkServer {
  test_index : PlinIndex (T := T);
  db_logger : DatabaseLogger;
  keys : list double;
  payloads : list Z
}.

(** [Server] up to the loop that accepts clients: the rows that [operator>>] reads are
    stored without a check of the arrays' size, and [number] rows are loaded however
    many there were. *)
Definition start_server (rows : list (double * Z)) : res Server :=
  if number <? Z.of_nat (length rows) then Err UB
  else if Z.of_nat (length rows) <? number then Err UB
  else
    '(_, h) ← bulk_load rows new_plin;
    Ok (mkServer h (HotKeys.new_logger (map fst rows)) (map fst rows) (map snd rows)).

(** ** One command *)

(** The loop over [command.find(' ', p)]: empty parts are kept, the last one is pushed. *)
Fixpoint words (cur s : str) : list str :=
  match s with
  | [] => [rev cur]
  | c :: s' => if ch_eqb (Ascii.ascii_of_nat 32) c then rev cur :: words [] s' else words (c :: cur) s'
  end.

Definition parse_findid (ks : list double) (command : str) : res HotKeys.CSVRecord :=
  let tok := words [] command in
  d ← of_opt UB (tok !! 2%nat); device ← stoi d;
  p ← of_opt UB (tok !! 3%nat); pos ← stoi p;
  l ← of_opt UB (tok !! 4%nat); logic ← stoi l;
  t ← of_opt UB (tok !! 1%nat); ts ← stod t;
  k ← zload ks pos;
  Ok (HotKeys.mkRec ts device pos (s_ "READ") logic k 0).

Section Handle.
Context (to_string : double -> str) (fuel : nat) (tid : str).
(** The value of the variable [answer] before it is written. *)
Context (junk : Z).

Definition with_index (s : Server) (h : PlinIndex) : Server := mkServer h (db_logger s) (keys s) (payloads s).
Definition with_logger (s : Server) (l : DatabaseLogger) : Server := mkServer (test_index s) l (keys s) (payloads s).

(** [find_through_net] and the comparison with the data set. *)
Definition ask_index (r : HotKeys.CSVRecord) (answer : Z) (s : Server) : res (bool * Z * Server) :=
  '((result, answer), h) ← find_through_net fuel (HotKeys.target_key r) answer (HotKeys.logic_id r) (test_index s);
  p ← zload (payloads s) (HotKeys.target_pos r);
  Ok (negb (result =? 0) && (answer =? p), answer, with_index s h).

(** Whether the answer is right, and the answer. *)
Definition answer_query (r : HotKeys.CSVRecord) (s : Server) : res (bool * Z * Server) :=
  if HotKeys.prehot_cache (db_logger s) then
    let l := HotKeys.count_operate (HotKeys.judge_retrain_all (HotKeys.device_id r) (db_logger s)) in
    match HotKeys.hot_map_ l !! to_string (HotKeys.target_key r) with
    | Some v =>
        p ← zload (payloads s) (HotKeys.target_pos r);
        if v =? p then Ok (true, v, with_logger s (HotKeys.count_hit l))
        else ask_index r v (with_logger s l)
    | None => ask_index r junk (with_logger s l)
    end
  else ask_index r junk s.

Definition log_answer (r : HotKeys.CSVRecord) (answer : Z) (s : Server) : Server :=
  with_logger s (HotKeys.log_query
    (HotKeys.mkRec (HotKeys.timestamp r) (HotKeys.device_id r) (HotKeys.target_pos r) (HotKeys.operation r)
       (HotKeys.logic_id r) (HotKeys.target_key r) answer) (db_logger s)).

(** [seen] is the handler's [rebuild_time_temp]. *)
Definition serve_findid (command : str) (seen : Z) (s : Server) : res (reply * Z * Server) :=
  r ← parse_findid (keys s) command;
  '((good, answer), s) ← answer_query r s;
  if (good : bool) then
    let s := log_answer r answer s in
    if seen <? u32 (rebuild_times (test_index s))
    then Ok (Text (s_ "Update cache!"), u32 (rebuild_times (test_index s)), s)
    else Ok (Text (s_ "Success!"), seen, s)
  else Ok (Text (s_ "Failure!"), seen, s).

Definition contains (pat s : str) : bool := match find_sub pat s with Some _ => true | None => false end.

(** One turn of the loop, on the bytes received: the reply and whether the loop goes on.
    [buffer\[len\] = 0] is past the end of the buffer when it was filled. *)
Definition handle_command (received : str) (seen : Z) (s : Server) : res (reply * bool * Z * Server) :=
  if (MAX_MEM_BUFFER_SIZE <=? length received)%nat then Err UB else
  let command := HotKeys.c_string received in
  if bool_decide (command = s_ "bye") || bool_decide (command = s_ "bye;") then
    Ok (Text (tid ++ s_ "Goodbye!" ++ [newline]), false, seen, s)
  else if contains (s_ "findid") command then
    '((rep, seen), s) ← serve_findid command seen s;
    Ok (rep, true, seen, s)
  else if contains (s_ "cache") command then
    Ok (Bytes (CacheModel.serialize_parameter (parameter (test_index s))), true, seen, s)
  else Ok (Text (s_ "Invalid cmd or Error"), true, seen, s).
End Handle.
End Server.
Arguments Server T : clear implicits.

(** ** The client *)

Record Client : Type := mkClient {
  client_table : list (list CacheModel.Param);
  min_key : double;
  max_key : double;
  client_keys : list double;
  find_time : Z;
  find_error : Z;
  retrain : Z
}.

Definition is_exit_command (cmd : str) : bool :=
  existsb (fun w => bool_decide (cmd = w)) [s_ "exit"; s_ "exit;"; s_ "bye"; s_ "bye;"].

Definition space : str := s_ " ".

(** What one line of the workload makes of the client. *)
Inductive client_action : Type :=
| Skip
| Leave
| Send (command : str).

(** [stamped]: client.cpp sends the time of the request, lstm_client.cpp does not. *)
Definition client_line (stamped : bool) (line : str) (c : Client) : res (client_action * Client) :=
  match line with
  | [] => Ok (Skip, c)
  | _ =>
      if is_exit_command line then Ok (Leave, c) else
      let '(ss, token) := next_token (Some line) [] in
      let timestamp := token in
      let '(ss, token) := next_token ss token in
      device_id ← stoi token;
      let '(ss, token) := next_token ss token in
      target_pos ← stoi token;
      k ← zload (client_keys c) target_pos;
      if dle (min_key c) k && dle k (max_key c) then
        logic_id ← CacheModel.predict_pos (client_table c) k;
        let stamp := if stamped then timestamp ++ space else [] in
        Ok (Send (s_ "findid " ++ stamp ++ show_int device_id ++ space ++ show_int target_pos ++ space ++
                  show_int logic_id),
            mkClient (client_table c) (min_key c) (max_key c) (client_keys c) (u64 (find_time c + 1))
              (find_error c) (retrain c))
      else Ok (Send line, c)
  end.

(** The bytes written: the text and its null character. *)
Definition wire (command : str) : str := command ++ [Ascii.ascii_of_nat 0].

(** The counters after a reply; [true] when the parameters are to be fetched again. *)
Definition client_reply (msg : str) (c : Client) : bool * Client :=
  if bool_decide (msg = s_ "Update cache!") then
    (true, mkClient (client_table c) (min_key c) (max_key c) (client_keys c) (find_time c) (find_error c)
             (i32 (retrain c + 1)))
  else
    let e := if bool_decide (msg = s_ "Failure!") then u64 (find_error c + 1) else find_error c in
    if 40000 <=? find_time c
    then (false, mkClient (client_table c) (min_key c) (max_key c) (client_keys c) 0 0 (i32 (retrain c + 1)))
    else (false, mkClient (client_table c) (min_key c) (max_key c) (client_keys c) (find_time c) e (retrain c)).

Definition with_params (ps : list (list CacheModel.Param)) (c : Client) : Client :=
  mkClient ps (min_key c) (max_key c) (client_keys c) (find_time c) (find_error c) (retrain c).

(** [get_table_param] on the bytes received. *)
Definition get_table_param (received : list Z) (c : Client) : res Client :=
  match received with
  | [] => Ok c
  | _ =>
      '(ps, _) ← CacheModel.deserialize_parameter (CacheModel.mkIs received true);
      Ok (with_params ps c)
  end.

(** What the client makes of a reply: the bytes, and the text up to a null character.  The
    buffer is taken to be zero before the first reply too. *)
Definition bytes_of (r : reply) : list Z :=
  match r with Text m => map (fun c => Z.of_nat (Ascii.nat_of_ascii c)) m | Bytes b => b end.
Definition text_of (r : reply) : str :=
  HotKeys.c_string match r with Text m => m | Bytes b => map (fun z => Ascii.ascii_of_nat (Z.to_nat z)) b end.

(** The client with the data set [ks]. *)
Definition new_client (ks : list double) : Client :=
  mkClient [] (double_of_decimal true 50332314890551338727041233 (-15))
    (double_of_decimal false 50332314890551338727041233 (-15)) ks 0 0 0.

(** [run_client] against the handler of its connection, whose number of rebuilds is
    [seen].  A reply that does not fit into the client's buffer would be read in parts;
    that is not followed. *)
Section Exchange.
Context {T : Type} `{LeafNode.OverflowTree T}.
Context (stamped : bool) (to_string : double -> str) (fuel : nat) (tid : str) (junk : Z).

(** What was answered to the lines, the client, [seen] and the server. *)
Definition session : Type := (list reply * Client * Z * Server T)%type.

Definition fetch_params (x : session) : res session :=
  let '(rs, c, seen, s) := x in
  '(rep, _, seen, s) ← handle_command to_string fuel tid junk (wire (s_ "cache")) seen s;
  if (CLIENT_BUFFER_SIZE <? length (bytes_of rep))%nat then Err OutOfFuel
  else c ← get_table_param (bytes_of rep) c; Ok (rs, c, seen, s).

(** One line; [false] ends the loop. *)
Definition exchange (line : str) (x : session) : res (bool * session) :=
  let '(rs, c, seen, s) := x in
  '(act, c) ← client_line stamped line c;
  match act with
  | Skip => Ok (true, (rs, c, seen, s))
  | Leave => Ok (false, (rs, c, seen, s))
  | Send command =>
      '(rep, go, seen, s) ← handle_command to_string fuel tid junk (wire command) seen s;
      let '(again, c) := client_reply (text_of rep) c in
      x ← (if again then fetch_params (rs ++ [rep], c, seen, s) else Ok (rs ++ [rep], c, seen, s));
      Ok (go, x)
  end.

Fixpoint client_loop (lines : list str) (x : session) : res session :=
  match lines with
  | [] => Ok x
  | line :: lines' =>
      '(go, x) ← exchange line x;
      if (go : bool) then client_loop lines' x else Ok x
  end.

Definition run_client (file : str) (c : Client) (seen : Z) (s : Server T) : res session :=
  x ← fetch_params ([], c, seen, s);
  client_loop (tail (getlines newline file)) x.
End Exchange.

(** ** Texts *)

Definition space_ch : Ascii.ascii := Ascii.ascii_of_nat 32.

Lemma words_field cur w rest :
  without space_ch w -> words cur (w ++ space_ch :: rest) = (rev cur ++ w) :: words [] rest.
Proof.
  intros Hw. revert cur. induction Hw as [|c w Hc Hw IH]; intros cur.
  - cbn [app words]. fold space_ch. unfold ch_eqb. rewrite Ascii.eqb_refl. by rewrite app_nil_r.
  - cbn [app words]. fold space_ch. rewrite Hc, IH. cbn [rev]. by rewrite <- app_assoc.
Qed.

Lemma words_last cur w : without space_ch w -> words cur w = [rev cur ++ w].
Proof.
  intros Hw. revert cur. induction Hw as [|c w Hc Hw IH]; intros cur.
  - cbn. by rewrite app_nil_r.
  - cbn [words]. fold space_ch. rewrite Hc, IH. cbn [rev]. by rewrite <- app_assoc.
Qed.

(** A number has no blank, comma or null character. *)
Lemma shown_no_blank z : shown z ->
  without space_ch (show_int z) /\ Forall (fun c => ch_eqb c (Ascii.ascii_of_nat 0) = false) (show_int z).
Proof.
  intros Hz. pose proof (show_int_all z Hz) as Ha.
  split; (eapply Forall_impl; [exact Ha|]); intros [[] [] [] [] [] [] [] []]; vm_compute; done.
Qed.

(** The text of a request. *)
Definition findid_text (ts : str) (device pos logic : Z) : str :=
  s_ "findid " ++ ts ++ space ++ show_int device ++ space ++ show_int pos ++ space ++ show_int logic.

Definition plain_stamp (ts : str) : Prop :=
  without comma ts /\ without space_ch ts /\ Forall (fun c => ch_eqb c (Ascii.ascii_of_nat 0) = false) ts.

Lemma parse_findid_text ks ts t device pos logic k :
  plain_stamp ts -> stod ts = Ok t -> shown device -> shown pos -> shown logic -> zload ks pos = Ok k ->
  parse_findid ks (findid_text ts device pos logic) = Ok (HotKeys.mkRec t device pos (s_ "READ") logic k 0).
Proof.
  intros (_ & Hs & _) Ht Hd Hp Hl Hk. unfold parse_findid.
  assert (Ew : words [] (findid_text ts device pos logic) =
    [s_ "findid"; ts; show_int device; show_int pos; show_int logic]).
  { unfold findid_text, space.
    change (s_ "findid " ++ ts ++ s_ " " ++ show_int device ++ s_ " " ++ show_int pos ++ s_ " " ++ show_int logic)
      with (s_ "findid" ++ space_ch :: ts ++ space_ch :: show_int device ++ space_ch :: show_int pos ++ space_ch :: show_int logic).
    rewrite (words_field [] (s_ "findid")) by by repeat constructor.
    rewrite (words_field [] ts) by exact Hs.
    rewrite (words_field [] (show_int device)) by by apply shown_no_blank.
    rewrite (words_field [] (show_int pos)) by by apply shown_no_blank.
    rewrite words_last by by apply shown_no_blank. reflexivity. }
  rewrite Ew. mstep. cbn [lookup list_lookup]. mstep.
  rewrite !stoi_show by done. mstep. rewrite Ht. mstep. by rewrite Hk.
Qed.


(** Line of the workload: the stamp, the device, the row and the rest. *)
Definition workload_line (ts : str) (device pos : Z) (rest : str) : str :=
  ts ++ comma :: show_int device ++ comma :: show_int pos ++ comma :: rest.

Lemma is_exit_command_comma w rest : is_exit_command (w ++ comma :: rest) = false.
Proof.
  assert (Hno : Forall (fun u => comma ∉ u) [s_ "exit"; s_ "exit;"; s_ "bye"; s_ "bye;"])
    by (apply (bool_decide_unpack _); vm_compute; exact I).
  unfold is_exit_command. apply not_true_iff_false. rewrite existsb_exists. intros (u & Hu & Hb).
  apply bool_decide_eq_true in Hb. apply (proj1 (Forall_forall _ _) Hno u); [by apply list_elem_of_In|].
  rewrite <- Hb. apply elem_of_app. right. apply list_elem_of_here.
Qed.

(** Without the stamp. *)
Definition short_text (device pos logic : Z) : str :=
  s_ "findid " ++ show_int device ++ space ++ show_int pos ++ space ++ show_int logic.

Lemma client_line_spec stamped ts device pos rest c k lid :
  without comma ts -> shown device -> shown pos -> zload (client_keys c) pos = Ok k ->
  dle (min_key c) k && dle k (max_key c) = true -> CacheModel.predict_pos (client_table c) k = Ok lid ->
  client_line stamped (workload_line ts device pos rest) c =
    Ok (Send (if stamped then findid_text ts device pos lid else short_text device pos lid),
        mkClient (client_table c) (min_key c) (max_key c) (client_keys c) (u64 (find_time c + 1)) (find_error c) (retrain c)).
Proof.
  intros Hts Hd Hp Hk Hr Hl. unfold client_line.
  assert (En : exists ch line, workload_line ts device pos rest = ch :: line)
    by (unfold workload_line; destruct ts; cbn; eauto).
  destruct En as (ch & line & En). rewrite En at 1. cbn match. unfold workload_line.
  rewrite is_exit_command_comma, (next_token_field ts) by done.
  rewrite (next_token_field (show_int device)) by by apply shown_without.
  rewrite stoi_show by done. mstep.
  rewrite (next_token_field (show_int pos)) by by apply shown_without.
  rewrite stoi_show by done. mstep. rewrite Hk. mstep. rewrite Hr, Hl. mstep.
  destruct stamped; [|done]. unfold findid_text. by rewrite <- !app_assoc.
Qed.

Lemma short_words device pos logic :
  shown device -> shown pos -> shown logic ->
  words [] (short_text device pos logic) = [s_ "findid"; show_int device; show_int pos; show_int logic].
Proof.
  intros Hd Hp Hl. unfold short_text, space.
  change (s_ "findid " ++ show_int device ++ s_ " " ++ show_int pos ++ s_ " " ++ show_int logic)
    with (s_ "findid" ++ space_ch :: show_int device ++ space_ch :: show_int pos ++ space_ch :: show_int logic).
  rewrite (words_field [] (s_ "findid")) by by repeat constructor.
  rewrite (words_field [] (show_int device)) by by apply shown_no_blank.
  rewrite (words_field [] (show_int pos)) by by apply shown_no_blank.
  rewrite words_last by by apply shown_no_blank. reflexivity.
Qed.

Lemma short_plain device pos lid :
  shown device -> shown pos -> shown lid ->
  Forall (fun c => ch_eqb c (Ascii.ascii_of_nat 0) = false) (short_text device pos lid).
Proof.
  intros Hd Hp Hl. unfold short_text, space.
  repeat (apply Forall_app; split); try (by apply shown_no_blank); by repeat constructor.
Qed.

Lemma findid_plain ts device pos lid :
  plain_stamp ts -> shown device -> shown pos -> shown lid ->
  Forall (fun c => ch_eqb c (Ascii.ascii_of_nat 0) = false) (findid_text ts device pos lid).
Proof.
  intros (_ & _ & Hts) Hd Hp Hl. unfold findid_text, space.
  repeat (apply Forall_app; split); try exact Hts; try (by apply shown_no_blank); by repeat constructor.
Qed.

Lemma c_string_wire cmd :
  Forall (fun c => ch_eqb c (Ascii.ascii_of_nat 0) = false) cmd -> HotKeys.c_string (wire cmd) = cmd.
Proof.
  intros Hc. unfold wire, HotKeys.c_string. induction Hc as [|c cmd Hc _ IH]; [done|].
  cbn [app prefix_len]. rewrite Hc. cbn [negb take firstn]. f_equal. exact IH.
Qed.

(** ** A server with a loaded index *)

Section Serving.
Context {T : Type} `{LeafNode.OverflowTreeLaws T}.
Context (to_string : double -> str) (fuel : nat) (tid : str) (junk : Z).
Context (data : list datum) (h : PlinIndex (T := T)) (cs : list child) (runs : list (list datum)).
Context (Hload : loaded h data cs runs) (Hall : Forall loadable data)
        (Hinc : Segmentation.increasing (map fst data)) (Hrebuilds : rebuild_times h = 0).

(** Searches change only the leaves, and the index holds the data. *)
Record serving (s : Server T) : Prop := {
  sv_keys : keys s = map fst data;
  sv_payloads : payloads s = map snd data;
  sv_index : exists ls, test_index s = set_leaves h ls;
  sv_map : map_ok cs 0 (test_index s) (map_of data)
}.

Definition log_of (s : Server T) : list HotKeys.CSVRecord := HotKeys.log_queue_ (db_logger s).

Lemma serving_logger s l : serving s -> serving (with_logger s l).
Proof. intros [? ? ? ?]. by split. Qed.

Lemma data_in_keys i kv : data !! i = Some kv -> in_keys h kv.1.
Proof.
  intros Hi. destruct (ld_bounds _ _ _ _ Hload) as (k0 & kn & Hh & Hl & E1 & E2).
  assert (Hkv : kv ∈ data) by by eapply list_elem_of_lookup_2.
  split; [by apply (proj1 (Forall_forall _ _) Hall)|]. rewrite E1, E2. by apply (data_between data).
Qed.

(** The index answers for a row of the data set in the leaf the client predicted. *)
Lemma ask_index_ok s r answer i k v :
  serving s -> data !! i = Some (k, v) -> HotKeys.target_pos r = Z.of_nat i -> HotKeys.target_key r = k ->
  table_home h (table_place h (HotKeys.logic_id r)) k = true ->
  exists s', ask_index (S fuel) r answer s = Ok (true, v, s') /\ serving s' /\ log_of s' = log_of s.
Proof.
  intros [Sk Sp [ls Si] Sm] Hi Ep Ek Hhome. unfold ask_index. rewrite Ek, Ep, Sp.
  pose proof (data_in_keys i (k, v) Hi) as Hk.
  destruct (loadable_storable (k, v)) as [Hs _].
  { apply (proj1 (Forall_forall _ _) Hall). by eapply list_elem_of_lookup_2. }
  pose proof (ld_table _ _ _ _ Hload) as Ht.
  destruct (net_find fuel cs 0 (test_index s) (map_of data) k v (HotKeys.logic_id r) answer) as (ls' & E & Hm).
  - exact Sm.
  - by rewrite Si.
  - rewrite Si. exact Hk.
  - exact Hs.
  - rewrite Si. exact Hhome.
  - apply (map_of_Some data Hinc (k, v)). by eapply list_elem_of_lookup_2.
  - rewrite E. mstep. rewrite (zload_nat _ i v) by by rewrite list_lookup_fmap, Hi. mstep.
    rewrite Z.eqb_refl. eexists. split; [reflexivity|]. split; [|done].
    split; try done. exists ls'. cbn. by rewrite Si.
Qed.

(** So does the server, with the map of hot keys in whatever state. *)
Lemma answer_query_ok s r i k v :
  serving s -> data !! i = Some (k, v) -> HotKeys.target_pos r = Z.of_nat i -> HotKeys.target_key r = k ->
  table_home h (table_place h (HotKeys.logic_id r)) k = true ->
  exists s', answer_query to_string (S fuel) junk r s = Ok (true, v, s') /\ serving s' /\ log_of s' = log_of s.
Proof.
  intros Hs Hi Ep Ek Hhome. unfold answer_query.
  assert (Hask : forall s0 a, serving s0 -> exists s', ask_index (S fuel) r a s0 = Ok (true, v, s') /\
    serving s' /\ log_of s' = log_of s0) by (intros s0 a Hs0; by apply (ask_index_ok s0 r a i k v)).
  set (l := HotKeys.count_operate (HotKeys.judge_retrain_all (HotKeys.device_id r) (db_logger s))).
  assert (El : HotKeys.log_queue_ l = log_of s)
    by (unfold l, HotKeys.count_operate, HotKeys.judge_retrain_all; by repeat case_match).
  assert (Hl : serving (with_logger s l)) by by apply serving_logger.
  destruct (HotKeys.prehot_cache (db_logger s)); [|by apply Hask].
  destruct (HotKeys.hot_map_ l !! _) as [w|].
  - rewrite (sv_payloads s Hs), Ep, (zload_nat _ i v) by by rewrite list_lookup_fmap, Hi. mstep.
    destruct (Z.eqb_spec w v) as [->|].
    + eexists. split; [reflexivity|]. split; [by apply serving_logger|exact El].
    + destruct (Hask (with_logger s l) w Hl) as (s' & E & Hs' & L). exists s'. split; [exact E|].
      split; [exact Hs'|]. by rewrite L.
  - destruct (Hask (with_logger s l) junk Hl) as (s' & E & Hs' & L). exists s'. split; [exact E|].
    split; [exact Hs'|]. by rewrite L.
Qed.

Lemma rebuilds_ok s : serving s -> rebuild_times (test_index s) = 0.
Proof. intros [_ _ [ls ->] _]. exact Hrebuilds. Qed.

(** A request for row [i] whose stamp reads as a number. *)
Lemma handle_request s seen ts t device i k v lid :
  serving s -> data !! i = Some (k, v) -> plain_stamp ts -> stod ts = Ok t -> shown device -> shown (Z.of_nat i) ->
  shown lid -> table_home h (table_place h lid) k = true -> 0 <= seen ->
  (length (wire (findid_text ts device (Z.of_nat i) lid)) < MAX_MEM_BUFFER_SIZE)%nat ->
  exists s', handle_command to_string (S fuel) tid junk (wire (findid_text ts device (Z.of_nat i) lid)) seen s =
    Ok (Text (s_ "Success!"), true, seen, s') /\ serving s' /\
    log_of s' = log_of s ++ [HotKeys.mkRec t device (Z.of_nat i) (s_ "READ") lid k v].
Proof.
  intros Hs Hi Hts Ht Hd Hp Hl Hhome Hseen Hlen. unfold handle_command.
  destruct (Nat.leb_spec MAX_MEM_BUFFER_SIZE (length (wire (findid_text ts device (Z.of_nat i) lid)))) as [|_]; [lia|].
  assert (Ec : HotKeys.c_string (wire (findid_text ts device (Z.of_nat i) lid)) = findid_text ts device (Z.of_nat i) lid).
  { apply c_string_wire. by apply findid_plain. }
  rewrite Ec. clear Hlen Ec.
  assert (E1 : bool_decide (findid_text ts device (Z.of_nat i) lid = s_ "bye") = false) by by apply bool_decide_eq_false.
  assert (E2 : bool_decide (findid_text ts device (Z.of_nat i) lid = s_ "bye;") = false) by by apply bool_decide_eq_false.
  assert (E3 : contains (s_ "findid") (findid_text ts device (Z.of_nat i) lid) = true) by reflexivity.
  rewrite E1, E2, E3. cbn [orb]. unfold serve_findid. rewrite (sv_keys s Hs).
  rewrite (parse_findid_text _ ts t device (Z.of_nat i) lid k) by
    (try done; apply zload_nat; by rewrite list_lookup_fmap, Hi).
  mstep. set (r := HotKeys.mkRec _ _ _ _ _ _ _).
  destruct (answer_query_ok s r i k v Hs Hi eq_refl eq_refl Hhome) as (s' & E & Hs' & El).
  rewrite E. mstep. set (s2 := log_answer r v s').
  assert (Hs2 : serving s2) by by apply serving_logger.
  rewrite (rebuilds_ok s2 Hs2). change (u32 0) with 0. rewrite (proj2 (Z.ltb_ge _ _)) by done.
  mstep. exists s2. split; [reflexivity|]. split; [done|]. cbn. by rewrite <- El.
Qed.

(** ** A session *)

(** A line of the workload for row [rq_row] of the data set. *)
Record request : Type := mkReq { rq_stamp : str; rq_device : Z; rq_row : nat; rq_rest : str }.

Definition line_of (q : request) : str :=
  workload_line (rq_stamp q) (rq_device q) (Z.of_nat (rq_row q)) (rq_rest q).

(** The client finds the key in its range and predicts a leaf, and it is the right one. *)
Definition answerable (c : Client) (q : request) : Prop :=
  plain_stamp (rq_stamp q) /\ shown (rq_device q) /\ shown (Z.of_nat (rq_row q)) /\
  exists t k v lid, stod (rq_stamp q) = Ok t /\ data !! rq_row q = Some (k, v) /\
    dle (min_key c) k && dle k (max_key c) = true /\
    CacheModel.predict_pos (client_table c) k = Ok lid /\ shown lid /\ table_home h (table_place h lid) k = true /\
    (length (wire (findid_text (rq_stamp q) (rq_device q) (Z.of_nat (rq_row q)) lid)) < MAX_MEM_BUFFER_SIZE)%nat.

(** The record that the log gets. *)
Definition logged_as (q : request) (r : HotKeys.CSVRecord) : Prop :=
  stod (rq_stamp q) = Ok (HotKeys.timestamp r) /\ HotKeys.device_id r = rq_device q /\
  HotKeys.target_pos r = Z.of_nat (rq_row q) /\ data !! rq_row q = Some (HotKeys.target_key r, HotKeys.payload r).

Definition same_client (c c' : Client) : Prop :=
  client_table c' = client_table c /\ min_key c' = min_key c /\ max_key c' = max_key c /\ client_keys c' = client_keys c.

Lemma client_reply_same m c :
  m <> s_ "Update cache!" -> fst (client_reply m c) = false /\ same_client c (snd (client_reply m c)).
Proof. intros Hm. unfold client_reply. rewrite bool_decide_eq_false_2 by done. by case_match. Qed.

Lemma serialized_nonempty ps : CacheModel.serialize_parameter ps <> [].
Proof. unfold CacheModel.serialize_parameter. cbn. discriminate. Qed.

Lemma exchange_ok rs c seen s q :
  serving s -> client_keys c = map fst data -> answerable c q -> 0 <= seen ->
  exists c' s' r, exchange true to_string (S fuel) tid junk (line_of q) (rs, c, seen, s) =
      Ok (true, (rs ++ [Text (s_ "Success!")], c', seen, s')) /\
    same_client c c' /\ serving s' /\ log_of s' = log_of s ++ [r] /\ logged_as q r.
Proof.
  intros Hs Hk (Hts & Hd & Hp & t & k & v & lid & Ht & Hrow & Hr & Hl & Hlid & Hhome & Hlen) Hseen. unfold exchange.
  unfold line_of. rewrite (client_line_spec _ _ _ _ _ c k lid); [|by apply Hts|done|done| |done|done].
  2:{ rewrite Hk. apply zload_nat. by rewrite list_lookup_fmap, Hrow. }
  mstep. destruct (handle_request s seen _ t _ _ k v lid Hs Hrow Hts Ht Hd Hp Hlid Hhome Hseen Hlen)
    as (s' & E & Hs' & El).
  rewrite E. mstep. set (c1 := mkClient _ _ _ _ _ _ _). change (text_of (Text (s_ "Success!"))) with (s_ "Success!").
  destruct (client_reply_same (s_ "Success!") c1 ltac:(discriminate)) as [Ea Hc].
  destruct (client_reply (s_ "Success!") c1) as [again c2]. cbn [fst snd] in Ea, Hc. subst again. mstep.
  eexists c2, s', _. split; [reflexivity|]. split; [exact Hc|]. split; [done|]. split; [exact El|]. done.
Qed.

Lemma session_ok qs rs c seen s :
  serving s -> client_keys c = map fst data -> Forall (answerable c) qs -> 0 <= seen ->
  exists c' s' records, client_loop true to_string (S fuel) tid junk (map line_of qs) (rs, c, seen, s) =
      Ok (rs ++ repeat (Text (s_ "Success!")) (length qs), c', seen, s') /\
    log_of s' = log_of s ++ records /\ Forall2 logged_as qs records.
Proof.
  intros Hs Hk Hq Hseen. revert rs c s Hs Hk Hq. induction qs as [|q qs IH]; intros rs c s Hs Hk Hq.
  { exists c, s, []. cbn. rewrite !app_nil_r. by repeat split. }
  apply Forall_cons in Hq as [Hq Hqs].
  destruct (exchange_ok rs c seen s q Hs Hk Hq Hseen) as (c1 & s1 & r & E & (C1 & C2 & C3 & C4) & Hs1 & L1 & R1).
  cbn [map client_loop]. rewrite E. mstep.
  destruct (IH (rs ++ [Text (s_ "Success!")]) c1 s1 Hs1 ltac:(congruence)) as (c2 & s2 & records & E2 & L2 & R2).
  - eapply Forall_impl; [exact Hqs|]. intros q'. unfold answerable. by rewrite C1, C2, C3.
  - exists c2, s2, (r :: records). rewrite E2, <- app_assoc. split; [done|].
    rewrite L2, L1, <- app_assoc. split; [done|]. by constructor.
Qed.

(** The parameters a client gets are the index's. *)
Lemma fetch_ok rs c seen s :
  serving s -> CacheModel.parameter_wf (parameter h) ->
  (length (CacheModel.serialize_parameter (parameter h)) <= CLIENT_BUFFER_SIZE)%nat ->
  fetch_params to_string (S fuel) tid junk (rs, c, seen, s) = Ok (rs, with_params (parameter h) c, seen, s).
Proof.
  intros Hs Hwf Hlen. unfold fetch_params.
  assert (Eh : handle_command to_string (S fuel) tid junk (wire (s_ "cache")) seen s =
    Ok (Bytes (CacheModel.serialize_parameter (parameter (test_index s))), true, seen, s)) by reflexivity.
  rewrite Eh. mstep. assert (Ep : parameter (test_index s) = parameter h) by (by destruct (sv_index s Hs) as [ls ->]).
  rewrite Ep. cbn [bytes_of]. rewrite (proj2 (Nat.ltb_ge _ _)) by exact Hlen.
  pose proof (CacheModel.load_from_push_spec (parameter h) [] Hwf) as E. unfold CacheModel.load_from_push in E.
  unfold get_table_param. destruct (CacheModel.serialize_parameter (parameter h)) as [|b bs] eqn:Eb.
  { by apply serialized_nonempty in Eb. }
  destruct (CacheModel.deserialize_parameter _) as [[ps i]|]; mstep in E; [|done]. injection E as ->. by mstep.
Qed.
End Serving.

(** C10: a client and a server that have the same data set, of at most 2^28 increasing finite
    keys with non-zero payloads, and an index whose models are in reach.  When every line of
    the workload is answerable, that is, its time can be read, its request fits the buffer,
    its key is in the client's range and the model predicts the leaf that holds it
    ([answerable]), and the image of the parameters fits the client's buffer of 24576 bytes,
    then, whatever the server's logger, its cache and its map of hot keys are, the client
    runs to the end of its workload: each line is answered [Success!] and logged with the
    payload of its row.  Each message arrives in one piece. *)
Theorem run_client_succeeds {T} `{LeafNode.OverflowTreeLaws T} (to_string : double -> str) (fuel : nat) (tid : str)
    (junk seen : Z) (data : list datum) (h : PlinIndex (T := T)) (l : DatabaseLogger) (header : str) (qs : list request) :
  Forall loadable data -> Segmentation.increasing (map fst data) -> Z.of_nat (length data) <= max_keys ->
  bulk_load data new_plin = Ok (tt, h) -> reach h = true -> room 0 h = true ->
  CacheModel.parameter_wf (parameter h) ->
  (length (CacheModel.serialize_parameter (parameter h)) <= CLIENT_BUFFER_SIZE)%nat ->
  without newline header -> Forall (fun q => without newline (line_of q)) qs ->
  Forall (answerable data h (with_params (parameter h) (new_client (map fst data)))) qs -> 0 <= seen ->
  exists c s records,
    run_client true to_string (S fuel) tid junk (concat (map (fun line => line ++ [newline]) (header :: map line_of qs)))
      (new_client (map fst data)) seen (mkServer h l (map fst data) (map snd data)) =
      Ok (repeat (Text (s_ "Success!")) (length qs), c, seen, s) /\
    HotKeys.log_queue_ (db_logger s) = HotKeys.log_queue_ l ++ records /\ Forall2 (logged_as data) qs records.
Proof.
  intros Hall Hinc Hlen E Hreach Hroom Hwf Hbuf Hh Hn Hq Hseen.
  destruct (bulk_load_map_ok 0 data h Hall Hinc Hlen E Hreach Hroom) as (cs & runs & Hld & Hm & Hreb & _).
  assert (Hs : serving data h cs (mkServer h l (map fst data) (map snd data))).
  { split; try done. exists (leaves h). by destruct h. }
  unfold run_client. rewrite (fetch_ok to_string fuel tid junk data h cs [] _ seen _ Hs Hwf Hbuf). mstep.
  rewrite getlines_lines by (constructor; [done|by apply Forall_map]). cbn [tail].
  destruct (session_ok to_string fuel tid junk data h cs runs Hld Hall Hinc Hreb qs [] _ seen _ Hs
    (eq_refl : client_keys (with_params (parameter h) (new_client (map fst data))) = map fst data) Hq Hseen)
    as (c' & s' & records & E' & L & R).
  by exists c', s', records.
Qed.

(** ** Two loaded leaves *)

(** A client with the server's parameters, and lines for rows of both leaves. *)
Definition two_client : Client :=
  with_params (parameter two_leaves) (new_client (map fst two_runs)).
Definition two_server : Server BPlus.btree_plus :=
  mkServer two_leaves (HotKeys.new_logger (map fst two_runs)) (map fst two_runs) (map snd two_runs).
Definition right_rows : list request := [mkReq (s_ "12.5") 3 600 (s_ "READ"); mkReq (s_ "13") 4 619 (s_ "READ")].
Definition left_row : request := mkReq (s_ "12.5") 3 24 (s_ "READ").
Definition demo_to_string (k : double) : str := [].

Lemma two_rows :
  two_runs !! 600%nat = Some (double_of_Z 1001000, 1) /\ two_runs !! 619%nat = Some (double_of_Z 1020000, 20).
Proof. split; vm_compute; reflexivity. Qed.

Lemma plain_stamp_b ts :
  forallb (fun c => negb (ch_eqb comma c) && negb (ch_eqb space_ch c) && negb (ch_eqb c (Ascii.ascii_of_nat 0))) ts = true ->
  plain_stamp ts.
Proof.
  intros Hb. rewrite forallb_forall in Hb. unfold plain_stamp, without.
  split; [|split]; apply Forall_forall; intros c Hc%list_elem_of_In; specialize (Hb c Hc);
    apply andb_true_iff in Hb as [[H1 H2]%andb_true_iff H3]; by apply negb_true_iff.
Qed.

Definition shown_b (z : Z) : bool := (0 <=? z) && (z <? 2 ^ 31).
Lemma shown_check z : shown_b z = true -> shown z.
Proof. intros [?%Z.leb_le ?%Z.ltb_lt]%andb_true_iff. by split. Qed.

Lemma right_row ts device i rest t k v :
  forallb (fun c => negb (ch_eqb comma c) && negb (ch_eqb space_ch c) && negb (ch_eqb c (Ascii.ascii_of_nat 0))) ts = true ->
  shown_b device = true -> shown_b (Z.of_nat i) = true -> stod ts = Ok t -> two_runs !! i = Some (k, v) ->
  dle (min_key two_client) k && dle k (max_key two_client) = true ->
  CacheModel.predict_pos (client_table two_client) k = Ok 16 ->
  table_home two_leaves (table_place two_leaves 16) k = true ->
  (length (wire (findid_text ts device (Z.of_nat i) 16)) <? MAX_MEM_BUFFER_SIZE)%nat = true ->
  answerable two_runs two_leaves two_client (mkReq ts device i rest).
Proof.
  intros H1 H2 H3 H4 H5 H6 H7 H8 H9. split; [exact (plain_stamp_b ts H1)|].
  split; [exact (shown_check device H2)|]. split; [exact (shown_check _ H3)|]. exists t, k, v, 16.
  split; [exact H4|]. split; [exact H5|]. split; [exact H6|]. split; [exact H7|].
  split; [exact (shown_check 16 eq_refl)|]. split; [exact H8|]. exact (proj1 (Nat.ltb_lt _ _) H9).
Qed.

Lemma right_rows_answerable : Forall (answerable two_runs two_leaves two_client) right_rows.
Proof.
  destruct two_rows as [E1 E2]. apply Forall_cons. split; [|apply Forall_cons; split; [|constructor]];
    (eapply right_row; [reflexivity|reflexivity|reflexivity|vm_compute; reflexivity|eassumption|
                        vm_compute; reflexivity|vm_compute; reflexivity|vm_compute; reflexivity|vm_compute; reflexivity]).
Qed.

Definition demo_header : str := s_ "timestamp,device_id,key,operation".
Definition demo_workload : str :=
  concat (map (fun line => line ++ [newline]) (demo_header :: map line_of right_rows)).

Lemma without_check sep s : forallb (fun c => negb (ch_eqb sep c)) s = true -> without sep s.
Proof.
  intros Hb. rewrite forallb_forall in Hb. apply Forall_forall. intros c Hc%list_elem_of_In.
  by apply negb_true_iff, Hb.
Qed.

Definition param_wf_b (p : CacheModel.Param) : bool :=
  valid_double (CacheModel.first_key p) && valid_double (CacheModel.slope p) && valid_double (CacheModel.intercept p) &&
  (0 <=? CacheModel.block_num p) && (CacheModel.block_num p <? 2 ^ 64).
Definition parameter_wf_b (ps : list (list CacheModel.Param)) : bool :=
  (length ps <=? 100)%nat &&
  forallb (fun v => forallb param_wf_b v && (Z.of_nat (length v) <=? (2 ^ 63 - 1) / 32)) ps.

Lemma parameter_wf_check ps : parameter_wf_b ps = true -> CacheModel.parameter_wf ps.
Proof.
  intros [Hl Hps]%andb_true_iff. split; [by apply Nat.leb_le|]. rewrite forallb_forall in Hps.
  apply Forall_forall. intros v Hv%list_elem_of_In. apply Hps in Hv as [Hp Hlen]%andb_true_iff.
  split; [|by apply Z.leb_le]. rewrite forallb_forall in Hp. apply Forall_forall. intros p Hin%list_elem_of_In.
  apply Hp in Hin. unfold param_wf_b in Hin. rewrite !andb_true_iff, Z.leb_le, Z.ltb_lt in Hin. unfold CacheModel.param_wf.
  tauto.
Qed.

Lemma run_client_succeeds_witness :
  exists c s r1 r2,
    run_client true demo_to_string 1 [] 0 demo_workload (new_client (map fst two_runs)) 0 two_server =
      Ok ([Text (s_ "Success!"); Text (s_ "Success!")], c, 0, s) /\
    HotKeys.log_queue_ (db_logger s) = [r1; r2] /\ two_runs !! 619%nat = Some (HotKeys.target_key r2, HotKeys.payload r2).
Proof.
  destruct (run_client_succeeds demo_to_string 0 [] 0 0 two_runs two_leaves (HotKeys.new_logger (map fst two_runs))
    demo_header right_rows) as (c & s & records & E & L & R).
  - apply loadable_all. vm_compute. reflexivity.
  - apply increasing_all. vm_compute. reflexivity.
  - vm_compute. discriminate.
  - exact two_leaves_loaded.
  - vm_compute. reflexivity.
  - vm_compute. reflexivity.
  - apply parameter_wf_check. vm_compute. reflexivity.
  - apply Nat.leb_le. vm_compute. reflexivity.
  - apply without_check. vm_compute. reflexivity.
  - apply Forall_cons. split; [|apply Forall_cons; split; [|constructor]]; apply without_check; vm_compute; reflexivity.
  - exact right_rows_answerable.
  - vm_compute. discriminate.
  - inversion R as [|q1 r1 qs1 rs1 _ R1]; subst. inversion R1 as [|q2 r2 qs2 rs2 Hr2 R2]; subst.
    inversion R2; subst. destruct Hr2 as (_ & _ & _ & Hrow).
    exists c, s, r1, r2. split; [exact E|]. split; [exact L|exact Hrow].
Defined.

(** The prediction is a slot of the inner node, not a place of the leaf table: the request
    for a loaded row of the first leaf is sent with 8, is searched in the second leaf and
    fails, although the search from the roots finds the row. *)
Theorem predicted_slot_misses :
  CacheModel.predict_pos (parameter two_leaves) (double_of_Z 25) = Ok 8 /\
  two_runs !! 24%nat = Some (double_of_Z 25, 26) /\
  (exists h, PlinIndex.find 1 (double_of_Z 25) two_leaves = Ok (Some 26, h)) /\
  exists c' s', exchange true demo_to_string 1 [] 0 (line_of left_row) ([], two_client, 0, two_server) =
    Ok (true, ([Text (s_ "Failure!")], c', 0, s')).
Proof.
  split; [vm_compute; reflexivity|]. split; [vm_compute; reflexivity|]. split.
  - eexists. vm_compute. reflexivity.
  - eexists _, _. vm_compute. reflexivity.
Qed.

(** ** The LSTM client *)

(** C32: the request of lstm_client.cpp has no time, so the server takes the device for the
    time, the row for the device and the leaf for the row, and reads a fifth word that is
    not there: for every line whose key is in the client's range. *)
Theorem lstm_request_undefined {T} `{LeafNode.OverflowTree T} (to_string : double -> str) (fuel : nat) (tid : str)
    (junk seen : Z) (s : Server T) (c : Client) (ts rest : str) (device pos lid : Z) (k : double) :
  without comma ts -> shown device -> shown pos -> shown lid -> zload (client_keys c) pos = Ok k ->
  dle (min_key c) k && dle k (max_key c) = true -> CacheModel.predict_pos (client_table c) k = Ok lid ->
  exchange false to_string fuel tid junk (workload_line ts device pos rest) ([], c, seen, s) = Err UB.
Proof.
  intros Hts Hd Hp Hlid Hk Hr Hl. unfold exchange.
  rewrite (client_line_spec false ts device pos rest c k lid) by done. mstep.
  unfold handle_command. case_match; [done|].
  rewrite c_string_wire by by apply short_plain.
  rewrite !bool_decide_eq_false_2 by done. cbn [orb].
  replace (contains (s_ "findid") (short_text device pos lid)) with true by done.
  unfold serve_findid, parse_findid. rewrite short_words by done. mstep. cbn [lookup list_lookup]. mstep.
  rewrite stoi_show by done. mstep. rewrite stoi_show by done. by mstep.
Qed.

Lemma lstm_request_undefined_witness :
  exchange false demo_to_string 1 [] 0 (workload_line (s_ "12.5") 3 24 (s_ "READ")) ([], two_client, 0, two_server) = Err UB.
Proof.
  apply (lstm_request_undefined demo_to_string 1 [] 0 0 two_server two_client (s_ "12.5") (s_ "READ") 3 24 8 (double_of_Z 25)).
  - repeat constructor.
  - exact (shown_check 3 eq_refl).
  - exact (shown_check 24 eq_refl).
  - exact (shown_check 8 eq_refl).
  - vm_compute. reflexivity.
  - vm_compute. reflexivity.
  - vm_compute. reflexivity.
Defined.
