(* ===== verification/System.v ===== *)
(** * End to end: what the processes achieve together

    Both sides of each conversation are run: an End and its Edge over one connection
    (Wire.v), and the Cloud between two Edges. *)

From S2P Require Import Prelude Doubles Bytes Rpc RangeMap Topology Transport CacheModel Snapshot.
From S2P Require Import EndNode EndMain PlinIndex EdgeServer Wire CloudServer.

Open Scope Z_scope.

(** ** The handshake *)

Section Handshake.
Context {T M C : Type} `{LeafNode.OverflowTree T} `{CuckooMap M} `{StreamIO C}.

Lemma apply_param_push (idx : PlinIndex (T := T)) (c : Control M) :
  parameter_wf (parameter idx) ->
  apply_edge_control_frame (make_param_push idx) c =
    Ok (mkControl (parameter idx) (hot_cache c) (rdma_snapshot c)).
Proof.
  intros Hwf. unfold apply_edge_control_frame, make_param_push. cbn [ftype body].
  rewrite bool_decide_eq_true_2 by done. by rewrite load_from_push_spec.
Qed.

Lemma apply_snapshot_info pad i (c : Control M) :
  info_wf i ->
  apply_edge_control_frame (make_rdma_snapshot_info pad i) c =
    Ok (mkControl (plin_cache c) (hot_cache c)
      (mkEndSnap i ((magic i =? kSnapshotMagic) && (0 <? leaf_count i) && (0 <? record_count i)))).
Proof.
  intros Hwf. unfold apply_edge_control_frame, make_rdma_snapshot_info. cbn [ftype body].
  do 2 (rewrite bool_decide_eq_false_2 by done). rewrite bool_decide_eq_true_2 by done.
  rewrite info_bytes_length, Nat.eqb_refl. cbn [negb]. by rewrite info_roundtrip.
Qed.

(** The region of a link that a registration made. *)
Lemma region_holds (w : duplex T C) (l : link) (k a : Z) (bytes : list Z) :
  connected w l -> region l k = Some (a, bytes) -> 0 <= a -> a + Z.of_nat (length bytes) < 2 ^ 64 ->
  holds w k a bytes.
Proof.
  intros Hc Er Ha Hlen i Hi. cbn [t_remote wire_remote_laws]. rewrite (connected_link w l Hc).
  unfold region_byte. rewrite Er, u64_small by lia. unfold zlookup.
  destruct (Z.ltb_spec (a + Z.of_nat i - a) 0); [lia|]. f_equal. lia.
Qed.

(** The End's wait for the parameters, when the two frames of the greeting are under way. *)
Lemma wait_reads_greeting (fuel : nat) (before : nat -> bool) (w : duplex T C) (l : link) (f1 f2 : Frame) (c c1 c2 : Control M) :
  connected w l -> to_end l = [f1; f2] -> to_edge l = [] -> before 0%nat = true -> loaded (plin_cache c) = false ->
  apply_edge_control_frame f1 c = Ok c1 -> apply_edge_control_frame f2 c1 = Ok c2 ->
  loaded (plin_cache c1) = true -> loaded (plin_cache c2) = true -> ftype f2 = RDMA_SNAPSHOT_INFO ->
  exists w', wait_initial_plin_push (S (S fuel)) before w c = Ok (true, w', c2) /\ connected w' (set_to_end l []) /\
    w_edge w' = on_link (p_handle (w_process w)) (w_edge w) (set_to_end l []) /\ w_process w' = w_process w.
Proof.
  intros Hc E1 E2 Hb Hl A1 A2 L1 L2 Et. unfold wait_initial_plin_push.
  cbn [initial_loop]. rewrite Hl, Hb. cbn [negb andb]. rewrite (wire_read_ready w l f1 [f2]) by done. mstep.
  rewrite A1. mstep. rewrite L1. cbn [negb andb]. mstep.
  set (w1 := with_link w (set_to_end l [f2])).
  assert (C1 : connected w1 (set_to_end l [f2])) by (by apply (with_link_connected w l)).
  cbn [trailing_loop]. rewrite (wire_read_ready w1 _ f2 []) by done. mstep. rewrite A2. mstep.
  rewrite Et, bool_decide_eq_true_2 by done. cbn [negb].
  set (w2 := with_link w1 (set_to_end (set_to_end l [f2]) [])).
  assert (C2 : connected w2 (set_to_end l [])) by (by apply (with_link_connected w1 (set_to_end l [f2]))).
  rewrite (wire_read_idle w2 _ f2 25 C2) by done. mstep. rewrite L2.
  exists w2. split; [done|]. split; [exact C2|]. split; [|done]. unfold w2, w1, with_link, on_link, rt_with_conns. cbn.
  by rewrite insert_insert_eq.
Qed.

(** What the Edge does with a heartbeat. *)
Lemma heartbeat_registers (fuel : nat) (da ra pad h : Z) (pf req : Frame) (rt : EdgeRuntime (T := T) (W := link) (C := C))
    (l : link) (id : Z) :
  conns rt !! h = Some l -> to_edge l = [mkFrame HEARTBEAT (append_u32 [] (u32 id))] -> 0 <= id < 2 ^ 31 ->
  exists rt', serve_next fuel da ra pad h pf req rt = Ok (Some (mkFrame HEARTBEAT (append_u32 [] (u32 id))), rt') /\
    ends rt' = <[id := h]> (ends rt) /\ rt_idx rt' = rt_idx rt.
Proof.
  intros El Ef Hid. eexists. split.
  - rewrite (serve_next_link fuel da ra pad h rt l pf req _ [] true
      (rt_with_ends (on_link h rt (set_to_edge l [])) (<[id := h]> (ends rt))) El Ef); [done|].
    unfold serve_frame. cbn [ftype]. rewrite bool_decide_eq_true_2 by done. cbn [body].
    rewrite u32_small by lia. pose proof (read_u32_append [] id [] ltac:(lia)) as Er.
    rewrite app_nil_r in Er. cbn [length] in Er. rewrite Er.
    assert (Ei : i32 id = id) by (apply signed_id; [lia|]; change (2 ^ (32 - 1)) with (2 ^ 31); lia).
    unfold register_end, r_put, mbind, R_bind, st_bind. cbn [mbind res_bind mret R_ret st_ret]. by rewrite Ei.
  - by cbn.
Qed.

(** C24: an End joins its Edge over a connection with one-sided reads.  The Edge's handler
    greets it: the parameters, then the descriptor of the snapshot whose two arrays it has
    registered.  The End waits for the parameters and sends its heartbeat ([join_edge]).
    Then the End predicts every key exactly like the Edge's index, its descriptor opens the
    Edge's snapshot ([published]: one-sided reads return the bytes of the two arrays), its
    hot cache is as before, and the next request that the Edge serves enters the connection
    under the End's id.  The parameters, the snapshot and its addresses fit their fields,
    neither is empty, and the End has no parameters yet and some time to wait. *)
Theorem handshake {B} `{BtreeMap B} (fuel efuel : nat) (before : nat -> bool) (da ra pad h : Z) (l : link)
    (rt : EdgeRuntime (T := T) (W := link) (C := C)) (snap : EdgeRdmaSnapshot) (n : EndNode B M (duplex T C)) :
  let idx := rt_idx rt in
  parameter_wf (parameter idx) -> parameter idx <> [] ->
  rt_snapshot rt = Some snap -> descs snap <> [] -> records snap <> [] -> snap_version snap = kSnapshotVersion ->
  Z.of_nat (length (descs snap)) < 2 ^ 32 -> Z.of_nat (length (records snap)) < 2 ^ 32 ->
  Forall cwf (descs snap) -> Forall cwf (records snap) ->
  0 <= da -> da + Z.of_nat (length (enc_list (descs snap))) < 2 ^ 64 ->
  0 <= ra -> ra + Z.of_nat (length (enc_list (records snap))) < 2 ^ 64 ->
  conns rt !! h = Some l -> to_end l = [] -> to_edge l = [] -> regions l = [] -> one_sided l = true ->
  before 0%nat = true -> loaded (plin_cache (control n)) = false -> 0 <= id_ n < 2 ^ 31 ->
  exists rt1, greet da ra pad h (make_param_push idx) rt = Ok (true, rt1) /\
    (edge_ n = Some (mkWire (mkProcess efuel da ra pad h (make_param_push idx)) rt1 frame0 true) ->
     exists n' w', join_edge (S (S fuel)) before n = Ok n' /\ edge_ n' = Some w' /\
       (forall k, cache_predict_pos (plin_cache (control n')) k = predict_pos (parameter idx) k) /\
       published w' (rdma_snapshot (control n')) snap /\
       hot_cache (control n') = hot_cache (control n) /\
       exists q rt2, serve_next efuel da ra pad h (make_param_push idx) frame0 (w_edge w') = Ok (Some q, rt2) /\
         ends rt2 !! id_ n = Some h /\ rt_idx rt2 = idx).
Proof.
  intros idx Hwf Hne Hsnap Hd0 Hr0 Hv Hdl Hrl Wd Wr Hda Hda' Hra Hra' El E1 E2 E3 E4 Hb Hload Hid.
  set (pf := make_param_push idx).
  set (l1 := set_to_end l (to_end l ++ [pf])).
  pose proof (send_info_link da ra pad h (on_link h rt l1) l1 snap (on_link_at h rt l1) E4 Hsnap Hd0 Hr0) as Einfo.
  cbv zeta in Einfo. change (to_end l1) with (to_end l ++ [pf]) in Einfo. change (to_edge l1) with (to_edge l) in Einfo.
  change (regions l1) with (regions l) in Einfo. rewrite E1, E2, E3 in Einfo. cbn [app length] in Einfo.
  change (Z.of_nat 0 + 1) with 1 in Einfo. change (Z.of_nat 0 + 2) with 2 in Einfo.
  set (dm := mkMem da 1 (Z.of_nat (length (enc_list (descs snap))))) in *.
  set (rm := mkMem ra 2 (Z.of_nat (length (enc_list (records snap))))) in *.
  set (fi := make_rdma_snapshot_info pad (snapshot_info snap dm rm)) in *.
  set (l2 := mkLink [pf; fi] [] _ true) in *. rewrite on_link_again in Einfo.
  assert (Egreet : greet da ra pad h pf rt = Ok (true, on_link h rt l2)).
  { unfold greet, mbind, R_bind, st_bind. rewrite (write_link h rt l pf El). cbn [mbind res_bind negb].
    fold l1. rewrite Einfo. done. }
  eexists. split; [exact Egreet|]. intros He.
  assert (Hnd : 0 < Z.of_nat (length (descs snap))) by (destruct (descs snap); [done|cbn; lia]).
  assert (Hnr : 0 < Z.of_nat (length (records snap))) by (destruct (records snap); [done|cbn; lia]).
  assert (Hi : info_wf (snapshot_info snap dm rm)).
  { unfold info_wf, snapshot_info, is_u in *. cbn. rewrite Hv, u32_small by lia.
    unfold kSnapshotMagic, kSnapshotVersion. repeat split; lia. }
  set (w := mkWire _ _ _ _) in He.
  assert (Hw : connected w l2) by (split; [apply on_link_at|done]).
  set (c1 := mkControl (parameter idx) (hot_cache (control n)) (rdma_snapshot (control n))).
  set (c2 := mkControl (parameter idx) (hot_cache (control n)) (mkEndSnap (snapshot_info snap dm rm) true)).
  assert (Hloaded : loaded (parameter idx) = true) by (by destruct (parameter idx)).
  assert (A2 : apply_edge_control_frame fi c1 = Ok c2).
  { unfold fi. rewrite apply_snapshot_info by done. unfold c2. do 3 f_equal. cbn. rewrite u32_small by lia.
    by rewrite !(proj2 (Z.ltb_lt _ _)) by lia. }
  destruct (wait_reads_greeting fuel before w l2 pf fi (control n) c1 c2) as (w' & Ewait & Hc' & Ew' & Ep'); try done.
  { by apply apply_param_push. }
  set (l3 := set_to_end l2 []) in *. set (hb := mkFrame HEARTBEAT (append_u32 [] (u32 (id_ n)))).
  set (l4 := set_to_edge l3 [hb]).
  assert (Ejoin : join_edge (S (S fuel)) before n =
    Ok (with_edge_state (with_edge_state n w' c2 (next_id n)) (with_link w' l4) c2 (next_id n))).
  { unfold join_edge. rewrite He. rewrite Ewait. mstep. unfold register_with_edge, send_end_heartbeat.
    cbn [edge_ with_edge_state t_write_frame wire_transport]. mstep. rewrite (connected_link w' l3 Hc'). done. }
  pose proof (with_link_connected w' l3 l4 Hc') as Hc4.
  eexists _, _. split; [exact Ejoin|]. split; [done|]. split; [|split; [|split; [done|]]].
  - intros k. cbn [control with_edge_state plin_cache c2]. unfold cache_predict_pos. by destruct (parameter idx).
  - constructor; cbn [control with_edge_state rdma_snapshot c2 info snap_loaded snapshot_info magic version leaf_count record_count
      desc_rkey desc_addr record_rkey record_addr]; try done.
    + cbn [t_supports_remote_read wire_transport]. by rewrite (connected_link _ _ Hc4).
    + by rewrite u32_small by lia.
    + rewrite u32_small by lia. lia.
    + by apply (region_holds _ l4).
    + by apply (region_holds _ l4).
  - destruct (heartbeat_registers efuel da ra pad h pf frame0 (w_edge (with_link w' l4)) l4 (id_ n)) as (rt' & Es & Ee & Ei); try done.
    { destruct Hc4 as [Hc4 _]. cbn [w_process with_link] in Hc4. by rewrite Ep' in Hc4. }
    exists hb, rt'. split; [exact Es|]. split; [by rewrite Ee, lookup_insert_eq|].
    rewrite Ei. cbn. by rewrite Ew'.
Qed.

End Handshake.

(** ** Sibling lookups *)

(** C9: the End and the Edge together, over a connection without one-sided reads on which
    nothing is under way.  The End looks up a key of a sibling, which it does not have cached
    and which it predicts to a slot; it writes one request, the Edge serves that request, and
    the End reads the answer.  The result is the payload of the predicted leaf when the Edge
    finds the key there, and otherwise what the Edge's whole index says; nothing is left
    under way, and the Edge's index is as its searches leave it.  The payloads fit a word. *)
Theorem sibling_lookup_end_to_end {T B M C} `{LeafNode.OverflowTree T} `{BtreeMap B} `{CuckooMap M} `{StreamIO C}
    (fuel : nat) (n : EndNode B M (duplex T C)) (w : duplex T C) (l : link) (k : double) (tgt slot ret p : Z)
    (i1 i2 : PlinIndex (T := T)) (r : option Z) :
  edge_ n = Some w -> connected w l -> to_end l = [] -> to_edge l = [] -> one_sided l = false ->
  is_key k = true -> locate_end (rm_ n) k = Ok tgt -> tgt <> id_ n -> 0 <= tgt ->
  same_edge (rm_ n) tgt (id_ n) = true -> hot_find (hot_cache (control n)) k = None ->
  cache_predict_pos (plin_cache (control n)) k = Ok slot -> 0 <= slot < 2 ^ 31 ->
  find_through_net (p_fuel (w_process w)) k 0 slot (rt_idx (w_edge w)) = Ok ((ret, p), i1) ->
  PlinIndex.find (p_fuel (w_process w)) k i1 = Ok (r, i2) -> 0 <= p < 2 ^ 64 ->
  (forall v, r = Some v -> 0 <= v < 2 ^ 64) ->
  exists n' w',
    lookup (S fuel) n k =
      Ok (if ret =? 1 then mkResult true p EDGE_PLIN
          else match r with
               | Some v => mkResult true v EDGE_PLIN
               | None => mkResult false p EDGE_PLIN
               end, n') /\
    edge_ n' = Some w' /\ connected w' l /\ rt_idx (w_edge w') = if ret =? 1 then i1 else i2.
Proof.
  intros He Hc E1 E2 Eo Hk Hloc Hne Hpos Hsame Hhot Hslot Hrange Hnet Hfind Hp Hr.
  assert (Hvk : valid_double k = true) by by destruct k.
  set (req := fetch_request k slot). set (w1 := with_link w (set_to_edge l [req])).
  pose proof (with_link_connected w l (set_to_edge l [req]) Hc) as C1. fold w1 in C1.
  assert (Hl : set_to_edge (set_to_edge l [req]) [] = l) by (unfold set_to_edge; cbn; rewrite <- E2; by destruct l).
  set (pr := w_process w).
  set (rt0 := on_link (p_handle pr) (w_edge w1) l).
  (* what the Edge answers *)
  assert (Hserve : forall st v i, 
    serve_frame (p_fuel pr) (p_desc_at pr) (p_record_at pr) (p_pad pr) (p_handle pr) (p_push pr) req rt0 =
      write_locked (p_handle pr) (make_fetch_resp st v) (rt_with_idx rt0 i) ->
    0 <= v < 2 ^ 64 -> status_of_byte (byte_of_status st) = st ->
    exists n' w', lookup (S fuel) n k = Ok (mkResult (bool_decide (st = OK)) v EDGE_PLIN, n') /\
      edge_ n' = Some w' /\ connected w' l /\ rt_idx (w_edge w') = i).
  { intros st v i Es Hv Hst.
    destruct (wire_serves w1 (set_to_edge l [req]) req (make_fetch_resp st v) frame0 (-1) (rt_with_idx rt0 i)) as
      (w' & Er & Cw & Ei & _); try done.
    { by rewrite Hl. }
    { rewrite Hl. apply on_link_at. }
    rewrite Hl in Cw.
    exists (count_stage EDGE_PLIN (with_edge_state n w' (warm (bool_decide (st = OK)) k v (control n)) (next_id n))), w'.
    split; [|split; [done|split; [done|by rewrite Ei]]].
    apply (sibling_exchange (S fuel) n w w1 w' k tgt slot v (bool_decide (st = OK)) (control n)); try done.
    - cbn [t_supports_remote_read wire_transport]. by rewrite (connected_link w l Hc).
    - cbn [t_write_frame wire_transport]. rewrite (connected_link w l Hc), E2. done.
    - unfold read_fetch_response. by apply fetch_answer. }
  pose proof (serve_fetch_request (p_fuel pr) (p_desc_at pr) (p_record_at pr) (p_pad pr) (p_handle pr) (p_push pr)
    k slot rt0 ret p i1 i2 r Hvk ltac:(lia)) as Hs.
  destruct (Z.leb_spec 0 slot) as [_|]; [|lia]. specialize (Hs Hnet Hfind).
  destruct (ret =? 1); [by apply (Hserve OK p i1)|].
  destruct r as [v|]; [apply (Hserve OK v i2); auto|by apply (Hserve NOT_FOUND p i2)].
Qed.

(** ** Hot updates *)

(** A hot update that the Cloud sends can never be used.  The Cloud sends an End
    only keys of that End's own range, and the End answers its own range from its
    own tree before it looks at the hot cache: for every key the pushed entry
    would match, the answer is the one from before the update, and for every other
    key the cache is what it was. *)
Theorem hot_update_never_consulted {B M W} `{BtreeMap B} `{CuckooMapLaws M} `{Transport W}
    (fuel : nat) (n : EndNode B M W) (data : DataStore) (topn : Z) (positions : list Z)
    (rows : list KeyPayloadRecord) (c : Control M) (k : double) :
  ranges_ok (rm_ends (rm_ n)) = true -> Z.of_nat (length (rm_ends (rm_ n))) < 2 ^ 30 ->
  Forall (fun k => is_key k = true) (keys data) -> length (payloads data) = length (keys data) ->
  Forall cwf rows -> is_key k = true ->
  hot_rows (rm_ n) data (id_ n) topn 0 positions = Ok rows ->
  apply_edge_control_frame (hot_update_frame rows) (control n) = Ok c ->
  match last_value k (pairs_of rows) with
  | Some _ => exists r, lookup fuel n k = Ok (r, count_stage LOCAL n) /\ stage r = LOCAL /\
                lookup fuel (with_control n c) k = Ok (r, count_stage LOCAL (with_control n c))
  | None => hot_find (hot_cache c) k = hot_find (hot_cache (control n)) k
  end.
Proof.
  intros Hok Hlen Hkeys Hpl Hwf Hk Hrows Happ.
  rewrite apply_hot_update in Happ by done. injection Happ as <-.
  rewrite (hot_rows_spec (rm_ n) data (id_ n) topn positions 0) in Hrows by done. injection Hrows as <-.
  set (rows := take _ _) in *.
  assert (Hin : forall r, r ∈ rows -> locate_end (rm_ n) (kp_key r) = Ok (id_ n) /\ is_key (kp_key r) = true).
  { intros r Hr. apply elem_of_take in Hr as (i & Hr & _). apply list_elem_of_lookup_2 in Hr.
    apply list_elem_of_omap in Hr as (pos & _ & Hr). exact (hot_candidate_owned _ data _ pos _ Hkeys Hr). }
  assert (Hp : Forall (fun p => is_key p.1 = true) (pairs_of rows)).
  { unfold pairs_of. apply Forall_fmap, Forall_forall. intros r Hr. by apply Hin. }
  pose proof (batch_upsert_find (pairs_of rows) (hot_cache (control n)) k Hp Hk) as Hf.
  destruct (last_value k (pairs_of rows)) as [v|] eqn:El; [|exact Hf].
  unfold last_value in El. destruct (find_first _ _) as [[k' v']|] eqn:Ef; [|done].
  apply find_first_Some in Ef as [Hel Hdq]. cbn [fst] in Hdq.
  apply list_elem_of_In, in_rev, list_elem_of_In in Hel.
  unfold pairs_of in Hel. apply list_elem_of_fmap in Hel as (r & [= -> ->] & Hr).
  destruct (Hin r Hr) as [Hloc Hkr].
  rewrite (locate_deq _ _ _ Hok Hkr Hk Hdq) in Hloc. unfold lookup.
  cbn [with_control rm_ id_ store_ control]. rewrite Hloc. mstep. rewrite Z.eqb_refl.
  eexists. split; [done|]. split; [by destruct (bt_find _ _)|done].
Qed.

(** ** Cross-edge requests *)

Lemma cross_request_key id key :
  valid_double key = true -> read_double (body (cross_request id key)) 8 = Some key.
Proof.
  intros Hk. unfold cross_request. cbn [body].
  pose proof (read_double_append (append_u64 [] id) key [] Hk) as E.
  rewrite app_nil_r in E. exact E.
Qed.

Section Cross.
Context {T W C : Type} `{LeafNode.OverflowTree T} `{Transport W} `{StreamLaws C}.

Lemma edge_serves_cross (fuel : nat) (fd fd' : C) (rid : Z) (key : double)
    (rt : EdgeRuntime (T := T) (W := W) (C := C)) (r : option Z) (i : PlinIndex (T := T)) (ok : bool) :
  valid_double key = true -> PlinIndex.find fuel key (rt_idx rt) = Ok (r, i) ->
  write_frame fd (match r with
                  | Some v => make_fetch_resp OK v
                  | None => make_fetch_resp NOT_FOUND 0
                  end) = Ok (ok, fd') ->
  handle_cloud_cross_req fuel fd (cross_request rid key) rt = Ok (fd', rt_with_idx rt i).
Proof.
  intros Hk Hf Hw. unfold handle_cloud_cross_req. rewrite cross_request_key by done.
  unfold search, on_idx, r_lift, mbind, R_bind, st_bind.
  cbn [mbind res_bind]. rewrite Hf. cbn [mbind res_bind mret R_ret st_ret].
  destruct r as [v|].
  - rewrite bool_decide_eq_true_2 by done. cbn [from_option id]. by rewrite Hw.
  - rewrite bool_decide_eq_false_2 by (by intros [? [=]]). cbn [from_option id]. by rewrite Hw.
Qed.

(** The Edge reads the request, searches its index and answers. *)
Lemma edge_answers_cross (fuel : nat) (fe : C) (rid : Z) (key : double) (out : Frame)
    (rt : EdgeRuntime (T := T) (W := W) (C := C)) (r : option Z) (i : PlinIndex (T := T)) :
  healthy (W := C) -> writable (W := C) -> valid_double key = true ->
  pending fe = frame_bytes (cross_request rid key) -> PlinIndex.find fuel key (rt_idx rt) = Ok (r, i) ->
  exists fe1 fe2, read_frame fe out = Ok (true, cross_request rid key, fe1) /\
    handle_cloud_cross_req fuel fe1 (cross_request rid key) rt = Ok (fe2, rt_with_idx rt i) /\
    sent fe2 = sent fe ++ frame_bytes (match r with Some v => make_fetch_resp OK v | None => make_fetch_resp NOT_FOUND 0 end).
Proof.
  intros Hh Hw Hk Hp Hf. rewrite <- (app_nil_r (frame_bytes _)) in Hp.
  destruct (read_frame_live fe out (cross_request rid key) [] Hh) as (fe1 & E1 & _ & S1); [|exact Hp|].
  { split; [by apply wf_msg_named|]. cbn [body cross_request]. unfold append_u64. rewrite !length_app, !le_bytes_length. cbn [length]. lia. }
  destruct (write_frame_live fe1 (match r with Some v => make_fetch_resp OK v | None => make_fetch_resp NOT_FOUND 0 end) Hw)
    as (fe2 & E2 & S2).
  exists fe1, fe2. split; [done|]. split; [by apply (edge_serves_cross fuel fe1 fe2 rid key rt r i true)|by rewrite S2, S1].
Qed.

(** The route of a request whose End is known. *)
Lemma cross_request_routed (h id : Z) (key : double) (s : CloudServer (C := C)) (e : Z) :
  valid_double key = true -> locate_end (cs_rm s) key = Ok e ->
  let g := edge_of (cs_rm s) e in
  handle_cross_edge_req h (cross_request id key) s =
    if (e <? 0) || (g <? 0) then reply h (make_fetch_resp NOT_FOUND 0) s
    else match edges_ s !! g with
         | None => reply h (make_fetch_resp ERROR 0) s
         | Some c =>
             fd ← of_opt UB (fds s !! c);
             '(ok, fd) ← write_frame fd (cross_request id key);
             let s := cs_with_fds s (<[c := fd]> (fds s)) in
             if negb ok then reply h (make_fetch_resp ERROR 0) s else
             fd ← of_opt UB (fds s !! c);
             '(ok, answer, fd) ← read_frame fd frame0;
             reply h (if (ok : bool) then answer else make_fetch_resp ERROR 0)
               (cs_with_fds s (<[c := fd]> (fds s)))
         end.
Proof.
  intros Hk Hloc g. unfold handle_cross_edge_req. rewrite cross_request_key by done.
  unfold k_get, k_lift, mbind, K_bind, st_bind. cbn [mbind res_bind]. rewrite Hloc.
  cbn [mbind res_bind]. fold g. destruct ((e <? 0) || (g <? 0)); [done|].
  unfold forward_to_edge, edge_conn, k_get, send_frame, recv_frame, on_fd, mbind, K_bind, st_bind.
  destruct (edges_ s !! g) as [c|]; [|done].
  destruct (fds s !! c) as [fd|]; cbn [of_opt mbind res_bind]; [|done].
  destruct (write_frame fd (cross_request id key)) as [[[] fd']|]; cbn [mbind res_bind negb]; [| |done].
  - destruct (fds (cs_with_fds s (<[c:=fd']> (fds s))) !! c) as [fd2|]; cbn [of_opt mbind res_bind]; [|done].
    destruct (read_frame fd2 frame0) as [[[ok answer] fd3]|]; cbn [mbind res_bind]; [|done].
    by destruct ok.
  - done.
Qed.

(** C38: a cross-edge request at the Cloud and at the Edge it is routed to.  The ranges of the
    Ends are in order and their ids are distinct.  A key in no End's range is answered
    NOT_FOUND, a key whose Edge is not registered ERROR.  Otherwise the request goes to the
    Edge of the first End whose range holds the key; that Edge reads exactly this request and
    searches its index for the key; and when what it has written is what the Cloud then
    reads, the Cloud's answer to the asking Edge is OK with the payload that the search
    found, or NOT_FOUND.  The streams deliver and take bytes, in pieces of any size. *)
Theorem cross_request_served (fuel : nat) (h rid : Z) (key : double) (s : CloudServer (C := C))
    (rt : EdgeRuntime (T := T) (W := W) (C := C)) (fe : C) (out : Frame) (r : option Z) (i : PlinIndex (T := T)) :
  healthy (W := C) -> writable (W := C) ->
  ranges_ok (rm_ends (cs_rm s)) = true -> Z.of_nat (length (rm_ends (cs_rm s))) < 2 ^ 30 -> ids_ok (cs_rm s) ->
  is_key key = true ->
  let req := cross_request rid key in
  let answer := match r with Some v => make_fetch_resp OK v | None => make_fetch_resp NOT_FOUND 0 end in
  match find_first (in_range key) (rm_ends (cs_rm s)) with
  | None => handle_cross_edge_req h req s = reply h (make_fetch_resp NOT_FOUND 0) s
  | Some en =>
      match edges_ s !! end_edge en with
      | None => handle_cross_edge_req h req s = reply h (make_fetch_resp ERROR 0) s
      | Some c => forall fd, fds s !! c = Some fd ->
          pending fe = frame_bytes req -> PlinIndex.find fuel key (rt_idx rt) = Ok (r, i) ->
          exists fe1 fe2, read_frame fe out = Ok (true, req, fe1) /\
            handle_cloud_cross_req fuel fe1 req rt = Ok (fe2, rt_with_idx rt i) /\
            sent fe2 = sent fe ++ frame_bytes answer /\
            (sent fe2 = sent fe ++ pending fd ->
             exists fd', sent fd' = sent fd ++ frame_bytes req /\ pending fd' = [] /\
               handle_cross_edge_req h req s = reply h answer (cs_with_fds s (<[c := fd']> (fds s))))
      end
  end.
Proof.
  intros Hh Hw Hok Hlen Hids Hk req answer.
  assert (Hvk : valid_double key = true) by by destruct key.
  pose proof (locate_spec (cs_rm s) key Hok Hk Hlen) as Hloc.
  destruct (find_first (in_range key) (rm_ends (cs_rm s))) as [en|] eqn:Ef.
  2:{ pose proof (cross_request_routed h rid key s (-1) Hvk Hloc) as E. exact E. }
  pose proof (cross_request_routed h rid key s (end_id en) Hvk Hloc) as E. cbv zeta in E. fold req in E.
  apply find_first_Some in Ef as [Hin _].
  destruct (proj1 (Forall_forall _ _) (proj2 Hids) en Hin) as [Hid Hedge].
  rewrite (edge_of_end (cs_rm s) en Hids Hin), (proj2 (Z.ltb_ge (end_id en) 0)), (proj2 (Z.ltb_ge (end_edge en) 0)) in E by lia.
  cbn [orb] in E. destruct (edges_ s !! end_edge en) as [c|] eqn:Ec; [|exact E].
  intros fd Hfd Hp Hf. destruct (edge_answers_cross fuel fe rid key out rt r i Hh Hw Hvk Hp Hf) as (fe1 & fe2 & E1 & E2 & S2).
  exists fe1, fe2. split; [exact E1|]. split; [exact E2|]. split; [exact S2|]. intros Hback. rewrite S2 in Hback. apply app_inv_head in Hback.
  destruct (write_frame_live fd req Hw) as (fd1 & W1 & Ws).
  assert (Hp1 : pending fd1 = frame_bytes answer ++ []).
  { destruct (write_frame_spec fd req) as (ok & k & fd1' & W1' & _ & Wp & _). rewrite W1 in W1'. injection W1' as _ <-.
    by rewrite Wp, <- Hback, app_nil_r. }
  destruct (read_frame_live fd1 frame0 answer [] Hh) as (fd2 & R1 & Rp & Rs); [|done|].
  { unfold answer. destruct r; (split; [by apply wf_msg_named|]);
      cbn [body make_fetch_resp]; unfold append_u64; rewrite !length_app, !le_bytes_length; cbn [length]; lia. }
  exists fd2. split; [by rewrite Rs|]. split; [done|].
  rewrite Hfd in E. cbn [of_opt mbind res_bind] in E. rewrite W1 in E. cbn [mbind res_bind negb] in E.
  cbn [fds cs_with_fds] in E. rewrite lookup_insert_eq in E. cbn [of_opt mbind res_bind] in E. rewrite R1 in E.
  cbn [mbind res_bind] in E. rewrite E. f_equal. unfold cs_with_fds. cbn [cs_args cs_rm cs_data cs_counts cs_hot edges_ fds].
  by rewrite insert_insert_eq.
Qed.

End Cross.

(** ** Examples *)

(** Edge 1 with a snapshot and a fresh connection 7, and End 2 on it. *)
Definition demo_push : Frame := make_param_push (set_parameter demo_index demo_params).
Definition demo_edge_rt : EdgeRuntime (T := BPlus.btree_plus) (W := link) (C := sim) :=
  mkRt 1 [] 7000 (set_parameter demo_index demo_params) (Some demo_snap) ∅ {[ 7 := mkLink [] [] [] true ]} [].
Definition greeted : EdgeRuntime (T := BPlus.btree_plus) (W := link) (C := sim) :=
  match greet 4096 8192 0 7 demo_push demo_edge_rt with Ok (_, rt) => rt | Err _ => demo_edge_rt end.
Definition joining : EndNode KeyedList.t KeyedList.t (duplex BPlus.btree_plus sim) :=
  mkNode 2 shipped_rm (mkStore [] 0) (Some (mkWire (mkProcess 3 4096 8192 0 7 demo_push) greeted frame0 true))
    (mkControl [] [] (mkEndSnap info0 false)) (mkStats 0 0 0 0) 1.

Lemma handshake_witness :
  exists n' w', join_edge 2 (fun _ => true) joining = Ok n' /\ edge_ n' = Some w' /\
    published w' (rdma_snapshot (control n')) demo_snap.
Proof.
  destruct (handshake 0 3 (fun _ => true) 4096 8192 0 7 (mkLink [] [] [] true) demo_edge_rt demo_snap joining)
    as (rt1 & E & K).
  - exact demo_params_wf.
  - discriminate.
  - reflexivity.
  - vm_compute. discriminate.
  - vm_compute. discriminate.
  - vm_compute. reflexivity.
  - vm_compute. reflexivity.
  - vm_compute. reflexivity.
  - exact (proj1 (pub_wf _ _ _ demo_published)).
  - exact (proj2 (pub_wf _ _ _ demo_published)).
  - lia.
  - vm_compute. reflexivity.
  - lia.
  - vm_compute. reflexivity.
  - reflexivity.
  - reflexivity.
  - reflexivity.
  - reflexivity.
  - reflexivity.
  - reflexivity.
  - reflexivity.
  - vm_compute. split; [discriminate|reflexivity].
  - assert (Er : rt1 = greeted) by (unfold greeted, demo_push; change (rt_idx demo_edge_rt) with
      (set_parameter demo_index demo_params) in E; by rewrite E).
    destruct K as (n' & w' & J & W & _ & P & _); [by rewrite Er|]. exists n', w'. split; [exact J|]. split; [exact W|exact P].
Defined.

(** End 2 asking for End 5's key 120, which the index has. *)
Definition demo_wire : duplex BPlus.btree_plus sim :=
  mkWire (mkProcess 3 4096 8192 0 7 frame0)
    (mkRt 1 [] 7000 demo_index None {[ 5 := 7 ]} {[ 7 := mkLink [] [] [] false ]} []) frame0 true.
Definition demo_asker : EndNode KeyedList.t KeyedList.t (duplex BPlus.btree_plus sim) :=
  mkNode 2 shipped_rm (mkStore [] 0) (Some demo_wire) (mkControl demo_params [] (mkEndSnap info0 false)) (mkStats 0 0 0 0) 1.

Lemma sibling_lookup_end_to_end_witness :
  exists n' w', lookup 1 demo_asker (double_of_Z 120) = Ok (mkResult true 121 EDGE_PLIN, n') /\ edge_ n' = Some w'.
Proof.
  destruct (sibling_lookup_end_to_end 0 demo_asker demo_wire (mkLink [] [] [] false) (double_of_Z 120) 5 24 0 121
    (index_after (find_through_net 3 (double_of_Z 120) 0 24) demo_index)
    (index_after (PlinIndex.find 3 (double_of_Z 120))
       (index_after (find_through_net 3 (double_of_Z 120) 0 24) demo_index)) (Some 121)) as (n' & w' & E & W & _).
  - reflexivity.
  - by split.
  - reflexivity.
  - reflexivity.
  - reflexivity.
  - reflexivity.
  - vm_compute. reflexivity.
  - discriminate.
  - lia.
  - vm_compute. reflexivity.
  - reflexivity.
  - vm_compute. reflexivity.
  - lia.
  - vm_compute. reflexivity.
  - vm_compute. reflexivity.
  - lia.
  - intros v [= <-]. lia.
  - exists n', w'. split; [exact E|exact W].
Defined.

Definition demo_hot : list KeyPayloadRecord :=
  [mkKp (double_of_Z (-9000000000)) 20].

Lemma hot_update_never_consulted_witness :
  exists r, lookup 9 demo_node (double_of_Z (-9000000000)) = Ok (r, count_stage LOCAL demo_node) /\
    stage r = LOCAL.
Proof.
  destruct (hot_update_never_consulted 9 demo_node demo_store 32 [3; 2; 9; 1] demo_hot
    (set_hot (control demo_node) (batch_upsert [] (pairs_of demo_hot))) (double_of_Z (-9000000000)))
    as (r & E & L & _).
  - vm_compute. reflexivity.
  - vm_compute. reflexivity.
  - vm_compute. repeat constructor.
  - reflexivity.
  - repeat constructor; vm_compute; discriminate.
  - reflexivity.
  - vm_compute. reflexivity.
  - vm_compute. reflexivity.
  - exists r. split; [exact E|exact L].
Defined.

(** The Cloud with Edge 1 registered on connection 4, which brings the answer in pieces, and
    Edge 1 with the request. *)
Definition demo_request : Frame := cross_request 1 (double_of_Z 120).
Definition demo_cloud : CloudServer (C := sim) :=
  mkCloudServer args0 shipped_rm demo_store [] [] {[ 1 := 4 ]}
    {[ 3 := mkSim [] [] []; 4 := mkSim (frame_bytes (make_fetch_resp OK 121)) [] [3%nat; 1%nat; 2%nat] ]}.

Lemma cross_request_served_witness :
  exists fd', sent fd' = frame_bytes demo_request /\
    handle_cross_edge_req 3 demo_request demo_cloud =
      reply 3 (make_fetch_resp OK 121) (cs_with_fds demo_cloud (<[4 := fd']> (fds demo_cloud))).
Proof.
  pose proof (cross_request_served 3 3 1 (double_of_Z 120) demo_cloud demo_rt
    (mkSim (frame_bytes demo_request) [] [2%nat]) frame0 (Some 121)
    (index_after (PlinIndex.find 3 (double_of_Z 120)) demo_index) sim_healthy sim_writable
    ltac:(vm_compute; reflexivity) ltac:(vm_compute; reflexivity) ltac:(apply ids_okb_ok; vm_compute; reflexivity)
    eq_refl) as K.
  cbv zeta in K. set (o := find_first _ _) in K. assert (Eo : end_edge <$> o = Some 1) by (vm_compute; reflexivity).
  destruct o as [en|]; [|discriminate Eo]. injection Eo as Ee. rewrite Ee in K.
  assert (Ec : edges_ demo_cloud !! 1 = Some 4) by (vm_compute; reflexivity). rewrite Ec in K.
  destruct (K (mkSim (frame_bytes (make_fetch_resp OK 121)) [] [3%nat; 1%nat; 2%nat])) as (fe1 & fe2 & _ & _ & S2 & Kb);
    [reflexivity|reflexivity|vm_compute; reflexivity|].
  destruct Kb as (fd' & Es & _ & Er); [rewrite S2; reflexivity|].
  cbn [sent sim_io sim_out app] in Es. exists fd'. split; [exact Es|exact Er].
Defined.
